(** * PictoChat clone: the room synchronisation engine

    A shallow embedding of the backend of the repository

      - the database module (rooms, chat_messages, drawing_events,
        canvas_snapshots and the queries over them),
      - [backend/roomManager.js] (the in-memory registry of active rooms),
      - [backend/server.js] (the REST routes, the WebSocket handlers and the
        hourly timer),

    followed by the properties of the engine.

    The browser application of the repository is embedded in [client], after
    the backend: the flood fill over the pixel data, the undo stack, and the
    connection, queue, stroke and message handling of the page, without the
    canvas itself.

    Conventions of the embedding.
      - JavaScript strings are [string]; every character is one code unit, so
        [String.length] is the [.length] of the source.
      - A field that may be absent ([undefined] / [null]) is an [option]; the
        truthiness tests of the source ([!x], [x || d]) are written out.
      - [Date.now()] is the argument [now] of the operation that reads it and
        [uuidv4()] is the argument [uuid].
      - A table is the list of its rows in rowid order; AUTOINCREMENT is a
        counter kept beside the table.
      - [ORDER BY] is a stable sort: rows with equal keys stay in scan
        (rowid) order, as SQLite returns them for the queries of this
        module. *)

From stdpp Require Import base numbers list strings gmap sorting.
Local Open Scope Z_scope.

(** ** JavaScript helpers *)

Module js.

(** [!!s] for a string that may be absent. *)
Definition truthy (s : option string) : bool :=
  match s with
  | Some s => negb (String.eqb s "")
  | None => false
  end.

(** [!!n] for a number that may be absent. *)
Definition truthy_num (n : option Z) : bool :=
  match n with
  | Some n => negb (n =? 0)
  | None => false
  end.

(** [s || d] *)
Definition or_else (s : option string) (d : string) : string :=
  match s with
  | Some s' => if truthy s then s' else d
  | None => d
  end.

(** [n || d] *)
Definition or_else_num (n : option Z) (d : Z) : Z :=
  match n with
  | Some n' => if truthy_num n then n' else d
  | None => d
  end.

(** The white space that [String.prototype.trim] strips, among the code
    units below 256: TAB, LF, VT, FF, CR, SPACE and NBSP. *)
Definition is_white_space (c : Ascii.ascii) : bool :=
  let n := Ascii.nat_of_ascii c in
  (Nat.eqb n 9 || Nat.eqb n 10 || Nat.eqb n 11 || Nat.eqb n 12
   || Nat.eqb n 13 || Nat.eqb n 32 || Nat.eqb n 160)%bool.

Fixpoint trim_start (s : string) : string :=
  match s with
  | EmptyString => EmptyString
  | String c s' => if is_white_space c then trim_start s' else s
  end.

(** [trim_end] keeps a character when it is not white space or when
    something remains after it. *)
Fixpoint trim_end (s : string) : string :=
  match s with
  | EmptyString => EmptyString
  | String c s' =>
      match trim_end s' with
      | EmptyString => if is_white_space c then EmptyString else String c EmptyString
      | t => String c t
      end
  end.

Definition trim (s : string) : string := trim_end (trim_start s).

(** [s.slice(0, n)] *)
Definition slice0 (n : nat) (s : string) : string := String.substring 0 n s.

(** [s.length] *)
Definition length (s : string) : Z := Z.of_nat (String.length s).

(** ** [Map]: insertion ordered, one entry per key *)

Section map.
Context {V : Type}.

Definition Map := list (string * V).

Fixpoint set (k : string) (v : V) (m : Map) : Map :=
  match m with
  | [] => [(k, v)]
  | (k', v') :: m' =>
      if decide (k' = k) then (k, v) :: m' else (k', v') :: set k v m'
  end.

Fixpoint get (k : string) (m : Map) : option V :=
  match m with
  | [] => None
  | (k', v') :: m' => if decide (k' = k) then Some v' else get k m'
  end.

Definition has (k : string) (m : Map) : bool :=
  match get k m with Some _ => true | None => false end.

(** [m.delete(k)]: the map without [k], and whether [k] was there. *)
Fixpoint delete (k : string) (m : Map) : Map * bool :=
  match m with
  | [] => ([], false)
  | (k', v') :: m' =>
      if decide (k' = k) then (m', true)
      else let '(m'', b) := delete k m' in ((k', v') :: m'', b)
  end.

Definition size (m : Map) : Z := Z.of_nat (List.length m).

Definition values (m : Map) : list V := m.*2.

Definition keys (m : Map) : list string := m.*1.
End map.
Global Arguments Map : clear implicits.

End js.

(** ** SQL helpers *)

Module sql.

Section order_by.
Context {A : Type} (le : A → A → bool).

Fixpoint insert (x : A) (l : list A) : list A :=
  match l with
  | [] => [x]
  | y :: l' => if le x y then x :: l else y :: insert x l'
  end.

(** A stable sort: the first of two rows that compare equal both ways
    stays first. *)
Definition order_by (l : list A) : list A := foldr insert [] l.
End order_by.

Definition asc {A} (key : A → Z) (a b : A) : bool := key a <=? key b.
Definition desc {A} (key : A → Z) (a b : A) : bool := key b <=? key a.

(** [LIMIT n] *)
Definition limit {A} (n : nat) (l : list A) : list A := take n l.

End sql.

(** ** Objects exchanged with the clients *)

(** A drawing event as the handlers build it and as [getDrawingEvents]
    returns it: [{ type, points, color, size, tool, playerId, timestamp }]. *)
Record DrawEvent := {
  de_type : string;
  de_points : list (Z * Z);
  de_color : string;
  de_size : Z;
  de_tool : string;
  de_playerId : string;
  de_timestamp : Z
}.

(** A chat message: [{ text, playerId, playerName, timestamp }]. *)
Record ChatMessage := {
  msg_text : string;
  msg_playerId : string;
  msg_playerName : string;
  msg_timestamp : Z
}.

Global Instance DrawEvent_eq_dec : EqDecision DrawEvent.
Proof. solve_decision. Defined.

Global Instance ChatMessage_eq_dec : EqDecision ChatMessage.
Proof. solve_decision. Defined.

(** ** The database module *)

Module db.

Record RoomRow := {
  room_id : string;
  room_name : string;
  room_created_at : Z;
  room_max_players : Z;
  room_is_custom : Z
}.

Record ChatRow := {
  chat_id : Z;
  chat_room_id : string;
  chat_player_id : string;
  chat_player_name : string;
  chat_message : string;
  chat_timestamp : Z
}.

(** The [event_data] column: the JSON text of
    [{ points, color, size, tool }], kept as the object it encodes. *)
Record EventData := {
  points : list (Z * Z);
  color : string;
  size : Z;
  tool : string
}.

Record DrawingRow := {
  ev_id : Z;
  ev_room_id : string;
  ev_player_id : string;
  ev_event_type : string;
  ev_event_data : EventData;
  ev_timestamp : Z
}.

Record SnapshotRow := {
  snap_id : Z;
  snap_room_id : string;
  snap_snapshot_data : string;
  snap_timestamp : Z
}.

Record Database := {
  rooms : list RoomRow;
  chat_messages : list ChatRow;
  drawing_events : list DrawingRow;
  canvas_snapshots : list SnapshotRow;
  (* the last id handed out by AUTOINCREMENT, per table *)
  chat_messages_seq : Z;
  drawing_events_seq : Z;
  canvas_snapshots_seq : Z
}.

(** [new SQL.Database()] followed by [createTables()] *)
Definition empty : Database :=
  {| rooms := []; chat_messages := []; drawing_events := [];
     canvas_snapshots := [];
     chat_messages_seq := 0; drawing_events_seq := 0;
     canvas_snapshots_seq := 0 |}.

(** *** Room operations *)

(** [INSERT OR REPLACE INTO rooms ... VALUES (?, ?, ?, 4, ?)]: [id] is the
    primary key, so a row with the same id is replaced. *)
Definition createRoom (d : Database) (id name : string) (isCustom : bool)
    (now : Z) : Database :=
  {| rooms := filter (λ r, room_id r ≠ id) (rooms d)
              ++ [ {| room_id := id; room_name := name;
                      room_created_at := now; room_max_players := 4;
                      room_is_custom := if isCustom then 1 else 0 |} ];
     chat_messages := chat_messages d;
     drawing_events := drawing_events d;
     canvas_snapshots := canvas_snapshots d;
     chat_messages_seq := chat_messages_seq d;
     drawing_events_seq := drawing_events_seq d;
     canvas_snapshots_seq := canvas_snapshots_seq d |}.

(** [SELECT * FROM rooms WHERE id = ?], first row or [null] *)
Definition getRoom (d : Database) (roomId : string) : option RoomRow :=
  head (filter (λ r, room_id r = roomId) (rooms d)).

(** The order of [ORDER BY is_custom, name]: default rooms first, then by
    name, compared code unit by code unit. *)
Definition by_custom_name (a b : RoomRow) : bool :=
  (room_is_custom a <? room_is_custom b)
  || ((room_is_custom a =? room_is_custom b)
      && String.leb (room_name a) (room_name b)).

(** [SELECT * FROM rooms ORDER BY is_custom, name] *)
Definition getAllRooms (d : Database) : list RoomRow :=
  sql.order_by by_custom_name (rooms d).

Definition deleteRoom (d : Database) (roomId : string) : Database :=
  {| rooms := filter (λ r, room_id r ≠ roomId) (rooms d);
     chat_messages := filter (λ r, chat_room_id r ≠ roomId) (chat_messages d);
     drawing_events := filter (λ r, ev_room_id r ≠ roomId) (drawing_events d);
     canvas_snapshots :=
       filter (λ r, snap_room_id r ≠ roomId) (canvas_snapshots d);
     chat_messages_seq := chat_messages_seq d;
     drawing_events_seq := drawing_events_seq d;
     canvas_snapshots_seq := canvas_snapshots_seq d |}.

(** *** Chat message operations *)

(** The module never turns [PRAGMA foreign_keys] on, so the [FOREIGN KEY]
    clauses of the tables are not enforced: a row may name a room that has
    no row in [rooms]. *)

Definition addChatMessage (d : Database)
    (roomId playerId playerName message : string) (timestamp : Z)
    : Database :=
  {| rooms := rooms d;
     chat_messages := chat_messages d
       ++ [ {| chat_id := chat_messages_seq d + 1; chat_room_id := roomId;
               chat_player_id := playerId; chat_player_name := playerName;
               chat_message := message; chat_timestamp := timestamp |} ];
     drawing_events := drawing_events d;
     canvas_snapshots := canvas_snapshots d;
     chat_messages_seq := chat_messages_seq d + 1;
     drawing_events_seq := drawing_events_seq d;
     canvas_snapshots_seq := canvas_snapshots_seq d |}.

Definition chat_of_row (row : ChatRow) : ChatMessage :=
  {| msg_playerId := chat_player_id row;
     msg_playerName := chat_player_name row;
     msg_text := chat_message row;
     msg_timestamp := chat_timestamp row |}.

(** The rows of [SELECT * FROM chat_messages WHERE room_id = ?
    ORDER BY timestamp DESC LIMIT ?]. *)
Definition chat_history_rows (d : Database) (roomId : string) (limit : nat)
    : list ChatRow :=
  sql.limit limit
    (sql.order_by (sql.desc chat_timestamp)
       (filter (λ r, chat_room_id r = roomId) (chat_messages d))).

(** [results.reverse().map(...)] *)
Definition getChatHistory (d : Database) (roomId : string) (limit : nat)
    : list ChatMessage :=
  chat_of_row <$> reverse (chat_history_rows d roomId limit).

Definition clearChatHistory (d : Database) (roomId : string) : Database :=
  {| rooms := rooms d;
     chat_messages := filter (λ r, chat_room_id r ≠ roomId) (chat_messages d);
     drawing_events := drawing_events d;
     canvas_snapshots := canvas_snapshots d;
     chat_messages_seq := chat_messages_seq d;
     drawing_events_seq := drawing_events_seq d;
     canvas_snapshots_seq := canvas_snapshots_seq d |}.

(** *** Drawing event operations *)

Definition addDrawingEvent (d : Database) (roomId playerId eventType : string)
    (eventData : EventData) (timestamp : Z) : Database :=
  {| rooms := rooms d;
     chat_messages := chat_messages d;
     drawing_events := drawing_events d
       ++ [ {| ev_id := drawing_events_seq d + 1; ev_room_id := roomId;
               ev_player_id := playerId; ev_event_type := eventType;
               ev_event_data := eventData; ev_timestamp := timestamp |} ];
     canvas_snapshots := canvas_snapshots d;
     chat_messages_seq := chat_messages_seq d;
     drawing_events_seq := drawing_events_seq d + 1;
     canvas_snapshots_seq := canvas_snapshots_seq d |}.

(** [{ playerId, type, ...JSON.parse(row.event_data), timestamp }] *)
Definition event_of_row (row : DrawingRow) : DrawEvent :=
  {| de_playerId := ev_player_id row;
     de_type := ev_event_type row;
     de_points := points (ev_event_data row);
     de_color := color (ev_event_data row);
     de_size := size (ev_event_data row);
     de_tool := tool (ev_event_data row);
     de_timestamp := ev_timestamp row |}.

(** The rows of [SELECT * FROM drawing_events WHERE room_id = ? AND
    timestamp > ? ORDER BY timestamp ASC]. *)
Definition drawing_rows_since (d : Database) (roomId : string)
    (sinceTimestamp : Z) : list DrawingRow :=
  sql.order_by (sql.asc ev_timestamp)
    (filter (λ r, ev_room_id r = roomId ∧ sinceTimestamp < ev_timestamp r)
       (drawing_events d)).

Definition getDrawingEvents (d : Database) (roomId : string)
    (sinceTimestamp : Z) : list DrawEvent :=
  event_of_row <$> drawing_rows_since d roomId sinceTimestamp.

Definition clearDrawingEvents (d : Database) (roomId : string) : Database :=
  {| rooms := rooms d;
     chat_messages := chat_messages d;
     drawing_events := filter (λ r, ev_room_id r ≠ roomId) (drawing_events d);
     canvas_snapshots := canvas_snapshots d;
     chat_messages_seq := chat_messages_seq d;
     drawing_events_seq := drawing_events_seq d;
     canvas_snapshots_seq := canvas_snapshots_seq d |}.

(** *** Canvas snapshot operations *)

Definition clearCanvasSnapshot (d : Database) (roomId : string) : Database :=
  {| rooms := rooms d;
     chat_messages := chat_messages d;
     drawing_events := drawing_events d;
     canvas_snapshots :=
       filter (λ r, snap_room_id r ≠ roomId) (canvas_snapshots d);
     chat_messages_seq := chat_messages_seq d;
     drawing_events_seq := drawing_events_seq d;
     canvas_snapshots_seq := canvas_snapshots_seq d |}.

(** [DELETE FROM canvas_snapshots WHERE room_id = ?] and then the INSERT. *)
Definition saveCanvasSnapshot (d : Database) (roomId snapshotData : string)
    (timestamp : Z) : Database :=
  {| rooms := rooms d;
     chat_messages := chat_messages d;
     drawing_events := drawing_events d;
     canvas_snapshots :=
       filter (λ r, snap_room_id r ≠ roomId) (canvas_snapshots d)
       ++ [ {| snap_id := canvas_snapshots_seq d + 1;
               snap_room_id := roomId;
               snap_snapshot_data := snapshotData;
               snap_timestamp := timestamp |} ];
     chat_messages_seq := chat_messages_seq d;
     drawing_events_seq := drawing_events_seq d;
     canvas_snapshots_seq := canvas_snapshots_seq d + 1 |}.

(** What [getCanvasSnapshot] returns: [{ snapshotData, timestamp }]. *)
Record Snapshot := {
  snapshotData : string;
  timestamp : Z
}.

(** [SELECT * FROM canvas_snapshots WHERE room_id = ?
    ORDER BY timestamp DESC LIMIT 1], first row or [null] *)
Definition getCanvasSnapshot (d : Database) (roomId : string)
    : option Snapshot :=
  (λ row, {| snapshotData := snap_snapshot_data row;
             timestamp := snap_timestamp row |})
  <$> head (sql.limit 1
              (sql.order_by (sql.desc snap_timestamp)
                 (filter (λ r, snap_room_id r = roomId)
                    (canvas_snapshots d)))).

(** *** Cleanup operations *)

Definition default_maxAgeMs : Z := 7 * 24 * 60 * 60 * 1000.

(** The room ids of [SELECT room_id FROM canvas_snapshots
    WHERE timestamp > ?]. *)
Definition rooms_with_snapshot_after (d : Database) (cutoff : Z)
    : list string :=
  snap_room_id <$> filter (λ s, cutoff < snap_timestamp s) (canvas_snapshots d).

Definition cleanupOldData (d : Database) (now : Z) (maxAgeMs : Z)
    : Database :=
  let cutoff := now - maxAgeMs in
  {| rooms := rooms d;
     chat_messages :=
       filter (λ r, ¬ chat_timestamp r < cutoff) (chat_messages d);
     drawing_events :=
       filter (λ r, ¬ (ev_timestamp r < cutoff
                       ∧ ev_room_id r ∈ rooms_with_snapshot_after d cutoff))
         (drawing_events d);
     canvas_snapshots := canvas_snapshots d;
     chat_messages_seq := chat_messages_seq d;
     drawing_events_seq := drawing_events_seq d;
     canvas_snapshots_seq := canvas_snapshots_seq d |}.

End db.

(** ** [backend/roomManager.js] *)

Module roomManager.

(** A player of an active room: [{ playerId, playerName, ws, isDrawing }].
    [ws] is the number of the connection the socket belongs to. *)
Record Player := {
  playerId : string;
  playerName : string;
  ws : nat;
  isDrawing : bool
}.

Record ActiveRoom := {
  players : js.Map Player;
  drawingEventsCache : list DrawEvent;
  lastActivity : Z
}.

(** The manager object; its only mutable field is [activeRooms]. *)
Record t := { activeRooms : gmap string ActiveRoom }.

Definition MAX_PLAYERS_PER_ROOM : Z := 4.
Definition MAX_CHAT_HISTORY : nat := 50.
Definition MAX_DRAWING_EVENTS_MEMORY : nat := 500.

(** [new RoomManager()] *)
Definition new : t := {| activeRooms := ∅ |}.

(** [room.max_players || this.MAX_PLAYERS_PER_ROOM] *)
Definition maxPlayers_of (room : db.RoomRow) : Z :=
  if db.room_max_players room =? 0 then MAX_PLAYERS_PER_ROOM
  else db.room_max_players room.

Definition default_rooms : list (string * string) :=
  [("chat-a", "Chat A"); ("chat-b", "Chat B");
   ("chat-c", "Chat C"); ("chat-d", "Chat D")].

Definition initializeDefaultRooms (d : db.Database) (now : Z) : db.Database :=
  foldl (λ d '(roomId, name),
           match db.getRoom d roomId with
           | Some _ => d
           | None => db.createRoom d roomId name false now
           end) d default_rooms.

Definition roomExists (d : db.Database) (roomId : string) : bool :=
  match db.getRoom d roomId with Some _ => true | None => false end.

Definition getActivePlayerCount (rm : t) (roomId : string) : Z :=
  match activeRooms rm !! roomId with
  | Some activeRoom => js.size (players activeRoom)
  | None => 0
  end.

(** What [getRoomInfo] and [getAllRooms] hand to the clients. *)
Record RoomInfo := {
  info_id : string;
  info_name : string;
  info_playerCount : Z;
  info_maxPlayers : Z;
  info_isCustom : bool
}.

Definition getRoomInfo (d : db.Database) (rm : t) (roomId : string)
    : option RoomInfo :=
  match db.getRoom d roomId with
  | None => None
  | Some room =>
      Some {| info_id := db.room_id room;
              info_name := db.room_name room;
              info_playerCount := getActivePlayerCount rm roomId;
              info_maxPlayers := maxPlayers_of room;
              info_isCustom := db.room_is_custom room =? 1 |}
  end.

Definition info_of (rm : t) (room : db.RoomRow) : RoomInfo :=
  {| info_id := db.room_id room;
     info_name := db.room_name room;
     info_playerCount := getActivePlayerCount rm (db.room_id room);
     info_maxPlayers := maxPlayers_of room;
     info_isCustom := db.room_is_custom room =? 1 |}.

(** All rooms with their current player counts. *)
Definition getAllRooms (d : db.Database) (rm : t) : list RoomInfo :=
  info_of rm <$> db.getAllRooms d.

Definition createRoom (d : db.Database) (rm : t) (name roomId : string)
    (isCustom : bool) (now : Z) : db.Database * option RoomInfo :=
  let d' := db.createRoom d roomId name isCustom now in
  (d', getRoomInfo d' rm roomId).

(** Get or create the active state of a room. *)
Definition getActiveRoom (rm : t) (roomId : string) (now : Z)
    : t * ActiveRoom :=
  match activeRooms rm !! roomId with
  | Some activeRoom => (rm, activeRoom)
  | None =>
      let fresh := {| players := []; drawingEventsCache := [];
                      lastActivity := now |} in
      ({| activeRooms := <[roomId := fresh]> (activeRooms rm) |}, fresh)
  end.

Definition addPlayer (d : db.Database) (rm : t) (roomId : string)
    (player : Player) (now : Z) : t * bool :=
  match db.getRoom d roomId with
  | None => (rm, false)
  | Some room =>
      let '(rm1, activeRoom) := getActiveRoom rm roomId now in
      if maxPlayers_of room <=? js.size (players activeRoom) then (rm1, false)
      else
        let activeRoom' :=
          {| players := js.set (playerId player) player (players activeRoom);
             drawingEventsCache := drawingEventsCache activeRoom;
             lastActivity := now |} in
        ({| activeRooms := <[roomId := activeRoom']> (activeRooms rm1) |}, true)
  end.

Definition removePlayer (d : db.Database) (rm : t) (roomId playerId : string)
    (now : Z) : t * bool :=
  match activeRooms rm !! roomId with
  | None => (rm, false)
  | Some activeRoom =>
      let '(players', removed) := js.delete playerId (players activeRoom) in
      let touch :=
        removed && (js.size players' =? 0)
        && match db.getRoom d roomId with
           | Some room => db.room_is_custom room =? 1
           | None => false
           end in
      let activeRoom' :=
        {| players := players';
           drawingEventsCache := drawingEventsCache activeRoom;
           lastActivity := if touch then now else lastActivity activeRoom |} in
      ({| activeRooms := <[roomId := activeRoom']> (activeRooms rm) |}, removed)
  end.

Definition getPlayersInRoom (rm : t) (roomId : string) : list Player :=
  match activeRooms rm !! roomId with
  | None => []
  | Some activeRoom => js.values (players activeRoom)
  end.

(** A player as the room state shows it (without the socket). *)
Record PlayerInfo := {
  pi_playerId : string;
  pi_playerName : string;
  pi_isDrawing : bool
}.

Record RoomState := {
  roomId : string;
  roomName : string;
  activePlayers : list PlayerInfo;
  chatHistory : list ChatMessage;
  drawingEvents : list DrawEvent;
  canvasSnapshot : option string
}.

(** The drawing events of a room state: those after the snapshot when there
    is one, otherwise those after timestamp 0. *)
Definition state_drawingEvents (d : db.Database) (roomId : string)
    (snapshot : option db.Snapshot) : list DrawEvent :=
  match snapshot with
  | Some s => db.getDrawingEvents d roomId (db.timestamp s)
  | None => db.getDrawingEvents d roomId 0
  end.

Definition getRoomState (d : db.Database) (rm : t) (roomId : string) (now : Z)
    : t * option RoomState :=
  match db.getRoom d roomId with
  | None => (rm, None)
  | Some room =>
      let '(rm1, activeRoom) := getActiveRoom rm roomId now in
      let snapshot := db.getCanvasSnapshot d roomId in
      (rm1,
       Some {| roomId := db.room_id room;
               roomName := db.room_name room;
               activePlayers :=
                 (λ p, {| pi_playerId := playerId p;
                          pi_playerName := playerName p;
                          pi_isDrawing := isDrawing p |})
                 <$> js.values (players activeRoom);
               chatHistory := db.getChatHistory d roomId MAX_CHAT_HISTORY;
               drawingEvents := state_drawingEvents d roomId snapshot;
               canvasSnapshot := db.snapshotData <$> snapshot |})
  end.

(** [activeRoom.lastActivity = Date.now()] when the room is active. *)
Definition touch (rm : t) (roomId : string) (now : Z) : t :=
  match activeRooms rm !! roomId with
  | None => rm
  | Some activeRoom =>
      {| activeRooms :=
           <[roomId := {| players := players activeRoom;
                          drawingEventsCache := drawingEventsCache activeRoom;
                          lastActivity := now |}]> (activeRooms rm) |}
  end.

Definition addChatMessage (d : db.Database) (rm : t) (roomId : string)
    (message : ChatMessage) (now : Z) : db.Database * t :=
  (db.addChatMessage d roomId (msg_playerId message) (msg_playerName message)
     (msg_text message) (msg_timestamp message),
   touch rm roomId now).

Definition getChatHistory (d : db.Database) (roomId : string)
    : list ChatMessage :=
  db.getChatHistory d roomId MAX_CHAT_HISTORY.

(** [cache.slice(-n)] *)
Definition slice_last {A} (n : nat) (l : list A) : list A :=
  drop (List.length l - n)%nat l.

Definition addDrawingEvent (d : db.Database) (rm : t) (roomId : string)
    (event : DrawEvent) (now : Z) : db.Database * t :=
  let d' :=
    db.addDrawingEvent d roomId (de_playerId event)
      (js.or_else (Some (de_type event)) "draw")
      {| db.points := de_points event; db.color := de_color event;
         db.size := de_size event; db.tool := de_tool event |}
      (de_timestamp event) in
  let '(rm1, activeRoom) := getActiveRoom rm roomId now in
  let cache := drawingEventsCache activeRoom ++ [event] in
  let cache' :=
    if (MAX_DRAWING_EVENTS_MEMORY <? List.length cache)%nat
    then slice_last MAX_DRAWING_EVENTS_MEMORY cache else cache in
  (d',
   {| activeRooms :=
        <[roomId := {| players := players activeRoom;
                       drawingEventsCache := cache';
                       lastActivity := now |}]> (activeRooms rm1) |}).

Definition clearCache (rm : t) (roomId : string) (now : option Z) : t :=
  match activeRooms rm !! roomId with
  | None => rm
  | Some activeRoom =>
      {| activeRooms :=
           <[roomId := {| players := players activeRoom;
                          drawingEventsCache := [];
                          lastActivity :=
                            default (lastActivity activeRoom) now |}]>
             (activeRooms rm) |}
  end.

Definition clearCanvas (d : db.Database) (rm : t) (roomId : string) (now : Z)
    : db.Database * t :=
  (db.clearCanvasSnapshot (db.clearDrawingEvents d roomId) roomId,
   clearCache rm roomId (Some now)).

Definition saveCanvasSnapshot (d : db.Database) (rm : t)
    (roomId snapshotData : string) (now : Z) : db.Database * t :=
  (db.saveCanvasSnapshot d roomId snapshotData now,
   clearCache rm roomId None).

Definition setPlayerDrawing (rm : t) (roomId playerId : string)
    (isDrawing : bool) : t :=
  match activeRooms rm !! roomId with
  | None => rm
  | Some activeRoom =>
      match js.get playerId (players activeRoom) with
      | None => rm
      | Some player =>
          let player' :=
            {| roomManager.playerId := roomManager.playerId player;
               playerName := playerName player;
               ws := ws player;
               roomManager.isDrawing := isDrawing |} in
          {| activeRooms :=
               <[roomId := {| players :=
                                js.set playerId player' (players activeRoom);
                              drawingEventsCache :=
                                drawingEventsCache activeRoom;
                              lastActivity := lastActivity activeRoom |}]>
                 (activeRooms rm) |}
      end
  end.

(** Delete a custom room; [false] for a default or unknown room. *)
Definition deleteRoom (d : db.Database) (rm : t) (roomId : string)
    : db.Database * t * bool :=
  match db.getRoom d roomId with
  | Some room =>
      if db.room_is_custom room =? 1
      then (db.deleteRoom d roomId,
            {| activeRooms := delete roomId (activeRooms rm) |}, true)
      else (d, rm, false)
  | None => (d, rm, false)
  end.

Definition default_maxInactiveMs : Z := 24 * 60 * 60 * 1000.

(** One turn of the [forEach] of [cleanupInactiveRooms]. *)
Definition cleanup_one (now maxInactiveMs : Z)
    (entry : string * ActiveRoom) (s : db.Database * t) : db.Database * t :=
  let '(roomId, activeRoom) := entry in
  let '(d, rm) := s in
  if (js.size (players activeRoom) =? 0)
     && (maxInactiveMs <? now - lastActivity activeRoom)
  then
    match db.getRoom d roomId with
    | Some room =>
        if db.room_is_custom room =? 1
        then let '(d', rm', _) := deleteRoom d rm roomId in (d', rm')
        else s
    | None => s
    end
  else s.

(** Each turn touches the rows and the entry of its own room only, so the
    order in which the entries are visited does not matter. *)
Definition cleanupInactiveRooms (d : db.Database) (rm : t)
    (now maxInactiveMs : Z) : db.Database * t :=
  foldr (cleanup_one now maxInactiveMs) (d, rm)
    (map_to_list (activeRooms rm)).

End roomManager.

(** ** [backend/server.js] *)

Module server.

(** The variables [playerId], [playerName] and [currentRoomId] of a
    connection's closure. They are [null] until the first join or rejoin,
    which assigns all three. *)
Record Session := {
  playerId : string;
  playerName : string;
  currentRoomId : string
}.

Record Conn := {
  session : option Session;
  (* [ws.readyState === WebSocket.OPEN] *)
  isOpen : bool
}.

Record State := {
  st_db : db.Database;
  st_roomManager : roomManager.t;
  st_conns : gmap nat Conn
}.

(** *** Messages *)

(** A buffered client event of a [queueReplay] message. *)
Record QueuedEvent := {
  qe_type : string;
  qe_points : list (Z * Z);
  qe_color : string;
  qe_size : Z;
  qe_tool : option string;
  qe_text : string;
  qe_timestamp : option Z
}.

Inductive ClientMessage :=
| Join (roomId : string) (playerId playerName : option string)
| Rejoin (roomId playerId playerName : string) (lastEventTimestamp : option Z)
| Draw (points : list (Z * Z)) (color : string) (size : Z)
    (tool : option string)
| Clear
| Message (text : string)
| DrawStart
| DrawEnd
| CanvasSnapshot (snapshotData : option string)
| QueueReplay (events : option (list QueuedEvent))
| Unknown (type : string)
| Unparseable.

Inductive ServerMessage :=
| error (message : string)
| roomState (state : option roomManager.RoomState)
    (playerId playerName : string)
| rejoinState (state : option roomManager.RoomState)
    (missedEvents : list DrawEvent) (playerId playerName : string)
| userJoined (playerId playerName : string) (isRejoin : bool) (timestamp : Z)
| userLeft (playerId playerName : string) (timestamp : Z)
| draw (event : DrawEvent)
| clear (playerId playerName : string) (timestamp : Z)
| message (msg : ChatMessage)
| drawIndicator (isDrawing : bool) (playerId playerName : string).

(** [ws.send] calls, in order: the connection written to and the message. *)
Definition Sends := list (nat * ServerMessage).

Definition ws_open (st : State) (c : nat) : bool :=
  match st_conns st !! c with
  | Some conn => isOpen conn
  | None => false
  end.

(** [broadcastToRoom(roomId, message, excludePlayerId = null)] *)
Definition broadcastToRoom (st : State) (roomId : string)
    (msg : ServerMessage) (excludePlayerId : option string) : Sends :=
  (λ player, (roomManager.ws player, msg))
  <$> filter (λ player,
                Some (roomManager.playerId player) ≠ excludePlayerId
                ∧ ws_open st (roomManager.ws player) = true)
        (roomManager.getPlayersInRoom (st_roomManager st) roomId).

Definition set_session (st : State) (c : nat) (s : Session) : State :=
  {| st_db := st_db st;
     st_roomManager := st_roomManager st;
     st_conns := <[c := {| session := Some s; isOpen := ws_open st c |}]>
                   (st_conns st) |}.

Definition with_manager (st : State) (rm : roomManager.t) : State :=
  {| st_db := st_db st; st_roomManager := rm; st_conns := st_conns st |}.

Definition with_db_manager (st : State) (d : db.Database)
    (rm : roomManager.t) : State :=
  {| st_db := d; st_roomManager := rm; st_conns := st_conns st |}.

(** *** WebSocket handlers *)

(** The part of [handleJoin] and [handleRejoin] after the closure variables
    are assigned; [reply] builds the state message of the handler. *)
Definition enter_room (c : nat) (st : State) (roomId pid pname : string)
    (missing : string)
    (reply : option roomManager.RoomState → ServerMessage)
    (isRejoin : bool) (now : Z) : State * Sends :=
  if negb (roomManager.roomExists (st_db st) roomId)
  then (st, [(c, error missing)])
  else
    let player := {| roomManager.playerId := pid;
                     roomManager.playerName := pname;
                     roomManager.ws := c;
                     roomManager.isDrawing := false |} in
    let '(rm1, added) :=
      roomManager.addPlayer (st_db st) (st_roomManager st) roomId player now in
    if negb added
    then (with_manager st rm1, [(c, error "Room is full")])
    else
      let '(rm2, rs) := roomManager.getRoomState (st_db st) rm1 roomId now in
      let st2 := with_manager st rm2 in
      (st2,
       (c, reply rs)
       :: broadcastToRoom st2 roomId (userJoined pid pname isRejoin now)
            (Some pid)).

Definition handleJoin (c : nat) (st : State) (roomId : string)
    (pid pname : option string) (now : Z) (uuid : string) : State * Sends :=
  let playerId := js.or_else pid uuid in
  let playerName := js.or_else pname ("Player " +:+ js.slice0 4 playerId) in
  let st1 := set_session st c {| playerId := playerId;
                                 playerName := playerName;
                                 currentRoomId := roomId |} in
  enter_room c st1 roomId playerId playerName "Room does not exist"
    (λ rs, roomState rs playerId playerName) false now.

(** [missedEvents] of [handleRejoin] *)
Definition missedEvents_of (lastEventTimestamp : option Z)
    (rs : option roomManager.RoomState) : list DrawEvent :=
  match rs with
  | Some rs =>
      if js.truthy_num lastEventTimestamp
      then filter (λ e, default 0 lastEventTimestamp < de_timestamp e)
             (roomManager.drawingEvents rs)
      else []
  | None => []
  end.

Definition handleRejoin (c : nat) (st : State) (roomId pid pname : string)
    (lastEventTimestamp : option Z) (now : Z) : State * Sends :=
  let st1 := set_session st c {| playerId := pid; playerName := pname;
                                 currentRoomId := roomId |} in
  enter_room c st1 roomId pid pname "Room no longer exists"
    (λ rs, rejoinState rs (missedEvents_of lastEventTimestamp rs) pid pname)
    true now.

(** The guard [if (!currentRoomId || !playerId) return;] *)
Definition attached (conn : Conn) : option Session :=
  match session conn with
  | Some s =>
      if js.truthy (Some (currentRoomId s)) && js.truthy (Some (playerId s))
      then Some s else None
  | None => None
  end.

Definition store_draw (st : State) (s : Session) (drawEvent : DrawEvent)
    (now : Z) : State * Sends :=
  let '(d, rm) :=
    roomManager.addDrawingEvent (st_db st) (st_roomManager st)
      (currentRoomId s) drawEvent now in
  let st' := with_db_manager st d rm in
  (st', broadcastToRoom st' (currentRoomId s) (draw drawEvent)
          (Some (playerId s))).

Definition store_chat (st : State) (s : Session) (chatMessage : ChatMessage)
    (now : Z) : State * Sends :=
  let '(d, rm) :=
    roomManager.addChatMessage (st_db st) (st_roomManager st)
      (currentRoomId s) chatMessage now in
  let st' := with_db_manager st d rm in
  (st', broadcastToRoom st' (currentRoomId s) (message chatMessage) None).

Definition handleDraw (conn : Conn) (st : State) (points : list (Z * Z))
    (color : string) (size : Z) (tool : option string) (now : Z)
    : State * Sends :=
  match attached conn with
  | None => (st, [])
  | Some s =>
      store_draw st s
        {| de_type := "draw"; de_points := points; de_color := color;
           de_size := size; de_tool := js.or_else tool "pen";
           de_playerId := playerId s; de_timestamp := now |} now
  end.

Definition handleClear (conn : Conn) (st : State) (now : Z) : State * Sends :=
  match attached conn with
  | None => (st, [])
  | Some s =>
      let '(d, rm) :=
        roomManager.clearCanvas (st_db st) (st_roomManager st)
          (currentRoomId s) now in
      let st' := with_db_manager st d rm in
      (st', broadcastToRoom st' (currentRoomId s)
              (clear (playerId s) (playerName s) now) None)
  end.

(** The validation of [handleChatMessage]: [true] when the text is kept. *)
Definition chat_text_ok (text : string) : bool :=
  js.truthy (Some text) && negb (js.length (js.trim text) =? 0)
  && negb (140 <? js.length text).

Definition handleChatMessage (conn : Conn) (st : State) (text : string)
    (now : Z) : State * Sends :=
  match attached conn with
  | None => (st, [])
  | Some s =>
      if chat_text_ok text
      then store_chat st s
             {| msg_text := js.trim text; msg_playerId := playerId s;
                msg_playerName := playerName s; msg_timestamp := now |} now
      else (st, [])
  end.

Definition handleDrawIndicator (conn : Conn) (st : State) (isDrawing : bool)
    : State * Sends :=
  match attached conn with
  | None => (st, [])
  | Some s =>
      let st' :=
        with_manager st
          (roomManager.setPlayerDrawing (st_roomManager st) (currentRoomId s)
             (playerId s) isDrawing) in
      (st', broadcastToRoom st' (currentRoomId s)
              (drawIndicator isDrawing (playerId s) (playerName s))
              (Some (playerId s)))
  end.

Definition handleCanvasSnapshot (conn : Conn) (st : State)
    (snapshotData : option string) (now : Z) : State * Sends :=
  match attached conn with
  | None => (st, [])
  | Some s =>
      if js.truthy snapshotData
      then
        let '(d, rm) :=
          roomManager.saveCanvasSnapshot (st_db st) (st_roomManager st)
            (currentRoomId s) (default "" snapshotData) now in
        (with_db_manager st d rm, [])
      else (st, [])
  end.

(** One turn of the [forEach] of [handleQueueReplay]. *)
Definition replay_one (s : Session) (now : Z) (acc : State * Sends)
    (event : QueuedEvent) : State * Sends :=
  let '(st, sent) := acc in
  if String.eqb (qe_type event) "draw" then
    let '(st', out) :=
      store_draw st s
        {| de_type := "draw"; de_points := qe_points event;
           de_color := qe_color event; de_size := qe_size event;
           de_tool := js.or_else (qe_tool event) "pen";
           de_playerId := playerId s;
           de_timestamp := js.or_else_num (qe_timestamp event) now |} now in
    (st', sent ++ out)
  else if String.eqb (qe_type event) "message" then
    let '(st', out) :=
      store_chat st s
        {| msg_text := qe_text event; msg_playerId := playerId s;
           msg_playerName := playerName s;
           msg_timestamp := js.or_else_num (qe_timestamp event) now |} now in
    (st', sent ++ out)
  else acc.

Definition handleQueueReplay (conn : Conn) (st : State)
    (events : option (list QueuedEvent)) (now : Z) : State * Sends :=
  match attached conn with
  | None => (st, [])
  | Some s =>
      match events with
      | None => (st, [])
      | Some events => foldl (replay_one s now) (st, []) events
      end
  end.

Definition handleMessage (c : nat) (conn : Conn) (st : State)
    (m : ClientMessage) (now : Z) (uuid : string) : State * Sends :=
  match m with
  | Join roomId pid pname => handleJoin c st roomId pid pname now uuid
  | Rejoin roomId pid pname last => handleRejoin c st roomId pid pname last now
  | Draw points color size tool => handleDraw conn st points color size tool now
  | Clear => handleClear conn st now
  | Message text => handleChatMessage conn st text now
  | DrawStart => handleDrawIndicator conn st true
  | DrawEnd => handleDrawIndicator conn st false
  | CanvasSnapshot data => handleCanvasSnapshot conn st data now
  | QueueReplay events => handleQueueReplay conn st events now
  | Unknown _ => (st, [])
  | Unparseable => (st, [(c, error "Invalid message format")])
  end.

(** [ws.on('close', ...)] *)
Definition handleClose (c : nat) (conn : Conn) (st : State) (now : Z)
    : State * Sends :=
  let st0 :=
    {| st_db := st_db st; st_roomManager := st_roomManager st;
       st_conns := <[c := {| session := session conn; isOpen := false |}]>
                     (st_conns st) |} in
  match attached conn with
  | None => (st0, [])
  | Some s =>
      let '(rm, _) :=
        roomManager.removePlayer (st_db st0) (st_roomManager st0)
          (currentRoomId s) (playerId s) now in
      let st1 := with_manager st0 rm in
      (st1, broadcastToRoom st1 (currentRoomId s)
              (userLeft (playerId s) (playerName s) now) (Some (playerId s)))
  end.

(** *** REST routes *)

Inductive HttpResponse :=
| http_error (status : Z) (error : string)
| http_room (room : option roomManager.RoomInfo)
| http_success.

(** [GET /api/rooms] *)
Definition get_rooms (st : State) : list roomManager.RoomInfo :=
  roomManager.getAllRooms (st_db st) (st_roomManager st).

(** [GET /api/rooms/:roomId/history] *)
Definition get_history (st : State) (roomId : string) : list ChatMessage :=
  roomManager.getChatHistory (st_db st) roomId.

(** [POST /api/rooms] *)
Definition post_rooms (st : State) (name : option string) (uuid : string)
    (now : Z) : State * HttpResponse :=
  if negb (js.truthy name) || (js.length (js.trim (default "" name)) =? 0)
  then (st, http_error 400 "Room name required")
  else if 20 <? js.length (js.trim (default "" name))
  then (st, http_error 400 "Room name too long (max 20 characters)")
  else
    let roomId := "custom-" +:+ js.slice0 8 uuid in
    let '(d, room) :=
      roomManager.createRoom (st_db st) (st_roomManager st)
        (js.trim (default "" name)) roomId true now in
    (with_db_manager st d (st_roomManager st), http_room room).

(** [DELETE /api/rooms/:roomId] *)
Definition delete_rooms (st : State) (roomId : string)
    : State * HttpResponse :=
  match roomManager.getRoomInfo (st_db st) (st_roomManager st) roomId with
  | None => (st, http_error 404 "Room not found")
  | Some roomInfo =>
      if negb (roomManager.info_isCustom roomInfo)
      then (st, http_error 403 "Cannot delete default rooms")
      else if 0 <? roomManager.info_playerCount roomInfo
      then (st, http_error 400 "Cannot delete room with active players")
      else
        let '(d, rm, _) :=
          roomManager.deleteRoom (st_db st) (st_roomManager st) roomId in
        (with_db_manager st d rm, http_success)
  end.

(** *** Start-up, the hourly timer and the event loop *)

Definition startServer (now : Z) : State :=
  {| st_db := roomManager.initializeDefaultRooms db.empty now;
     st_roomManager := roomManager.new;
     st_conns := ∅ |}.

Definition hourly (st : State) (now : Z) : State :=
  let '(d, rm) :=
    roomManager.cleanupInactiveRooms (st_db st) (st_roomManager st) now
      roomManager.default_maxInactiveMs in
  with_db_manager st (db.cleanupOldData d now db.default_maxAgeMs) rm.

Inductive Event :=
| Connection (c : nat)
| WsMessage (c : nat) (m : ClientMessage) (now : Z) (uuid : string)
| WsClose (c : nat) (now : Z)
| PostRooms (name : option string) (uuid : string) (now : Z)
| DeleteRooms (roomId : string)
| Hourly (now : Z).

Definition step (st : State) (ev : Event) : State * Sends :=
  match ev with
  | Connection c =>
      match st_conns st !! c with
      | Some _ => (st, [])
      | None =>
          ({| st_db := st_db st; st_roomManager := st_roomManager st;
              st_conns := <[c := {| session := None; isOpen := true |}]>
                            (st_conns st) |}, [])
      end
  | WsMessage c m now uuid =>
      match st_conns st !! c with
      | Some conn =>
          if isOpen conn then handleMessage c conn st m now uuid else (st, [])
      | None => (st, [])
      end
  | WsClose c now =>
      match st_conns st !! c with
      | Some conn =>
          if isOpen conn then handleClose c conn st now else (st, [])
      | None => (st, [])
      end
  | PostRooms name uuid now => ((post_rooms st name uuid now).1, [])
  | DeleteRooms roomId => ((delete_rooms st roomId).1, [])
  | Hourly now => (hourly st now, [])
  end.

(** The state after a run of events, and everything sent during it. *)
Definition run (st : State) (evs : list Event) : State * Sends :=
  foldl (λ '(st, sent) ev, let '(st', out) := step st ev in (st', sent ++ out))
    (st, []) evs.

Inductive reachable : State → Prop :=
| reachable_start now : reachable (startServer now)
| reachable_step st ev : reachable st → reachable (step st ev).1.

End server.

(** ** The browser application *)

(** The drawing code of the browser works on the pixel data of the canvas,
    a [Uint8ClampedArray] with four bytes (red, green, blue, alpha) per
    pixel, row after row. Coordinates are integers: the pointer handlers
    round them ([Math.round]) before they reach this code. *)
Module client.

(** [{ r, g, b }]; a component read past the data is [undefined]. *)
Record Rgb := { r : option Z; g : option Z; b : option Z }.

(** [data[idx]]: [undefined] outside the array. *)
Definition at_index (data : list Z) (idx : Z) : option Z :=
  if idx <? 0 then None else data !! Z.to_nat idx.

(** What a [Uint8ClampedArray] keeps of a value written to it. *)
Definition to_uint8_clamped (v : option Z) : Z :=
  match v with
  | Some v => Z.max 0 (Z.min 255 v)
  | None => 0
  end.

(** [data[idx] = v]: a write outside the array is ignored. *)
Definition store (data : list Z) (idx : Z) (v : option Z) : list Z :=
  if idx <? 0 then data else <[Z.to_nat idx := to_uint8_clamped v]> data.

Definition getPixelColor (data : list Z) (x y width : Z) : Rgb :=
  let idx := (y * width + x) * 4 in
  {| r := at_index data idx;
     g := at_index data (idx + 1);
     b := at_index data (idx + 2) |}.

Definition setPixelColor (data : list Z) (x y width : Z) (color : Rgb)
    : list Z :=
  let idx := (y * width + x) * 4 in
  let data := store data idx (r color) in
  let data := store data (idx + 1) (g color) in
  let data := store data (idx + 2) (b color) in
  store data (idx + 3) (Some 255).

(** The value of a hexadecimal digit, [[a-f\d]] without regard to case. *)
Definition hex_digit (c : Ascii.ascii) : option Z :=
  let n := Z.of_nat (Ascii.nat_of_ascii c) in
  if (48 <=? n) && (n <=? 57) then Some (n - 48)
  else if (97 <=? n) && (n <=? 102) then Some (n - 87)
  else if (65 <=? n) && (n <=? 70) then Some (n - 55)
  else None.

(** [parseInt(pair, 16)] of two hexadecimal digits *)
Definition hex_pair (hi lo : Ascii.ascii) : option Z :=
  match hex_digit hi, hex_digit lo with
  | Some h, Some l => Some (16 * h + l)
  | _, _ => None
  end.

Definition black : Rgb := {| r := Some 0; g := Some 0; b := Some 0 |}.

(** [hexToRgb]: an optional [#] and exactly six hexadecimal digits give
    the colour; anything else gives black. *)
Definition hexToRgb (hex : string) : Rgb :=
  let digits :=
    match hex with
    | String c rest =>
        if Nat.eqb (Ascii.nat_of_ascii c) 35 then rest else hex
    | EmptyString => hex
    end in
  match String.list_ascii_of_string digits with
  | [r1; r2; g1; g2; b1; b2] =>
      match hex_pair r1 r2, hex_pair g1 g2, hex_pair b1 b2 with
      | Some r, Some g, Some b =>
          {| r := Some r; g := Some g; b := Some b |}
      | _, _, _ => black
      end
  | _ => black
  end.

(** [Math.abs(a - b) <= tolerance]; [false] when a side is [undefined]. *)
Definition near (a b : option Z) (tolerance : Z) : bool :=
  match a, b with
  | Some a, Some b => Z.abs (a - b) <=? tolerance
  | _, _ => false
  end.

(** [colorsMatch(c1, c2)] with the default tolerance of 10 *)
Definition colorsMatch (c1 c2 : Rgb) : bool :=
  near (r c1) (r c2) 10 && near (g c1) (g c2) 10 && near (b c1) (b c2) 10.

(** [stack.push([x + 1, y], [x - 1, y], [x, y + 1], [x, y - 1])], written
    with the top of the stack first. *)
Definition pushed (x y : Z) : list (Z * Z) :=
  [(x, y - 1); (x, y + 1); (x - 1, y); (x + 1, y)].

(** The [while] loop of [floodFill]. The stack is a list with its top
    first; the set [visited] holds the pairs whose key [`${x},${y}`] was
    added. [fuel] bounds the number of turns; [None] when it runs out. *)
Fixpoint fill_loop (fuel : nat) (width height : Z) (targetColor fill : Rgb)
    (stack : list (Z * Z)) (visited : gset (Z * Z)) (data : list Z)
    : option (list Z) :=
  match fuel with
  | O => None
  | S fuel =>
      match stack with
      | [] => Some data
      | (x, y) :: stack =>
          if decide ((x, y) ∈ visited)
          then fill_loop fuel width height targetColor fill stack visited data
          else if (x <? 0) || (width <=? x) || (y <? 0) || (height <=? y)
          then fill_loop fuel width height targetColor fill stack visited data
          else if negb (colorsMatch (getPixelColor data x y width) targetColor)
          then fill_loop fuel width height targetColor fill stack visited data
          else
            fill_loop fuel width height targetColor fill
              (pushed x y ++ stack) ({[(x, y)]} ∪ visited)
              (setPixelColor data x y width fill)
      end
  end.

(** [floodFill(startX, startY, fillColor)] on the pixel data of a canvas of
    [width] by [height] pixels: the data put back on the canvas. *)
Definition floodFill (fuel : nat) (width height : Z) (data : list Z)
    (startX startY : Z) (fillColor : string) : option (list Z) :=
  let targetColor := getPixelColor data startX startY width in
  let fill := hexToRgb fillColor in
  if colorsMatch targetColor fill then Some data
  else fill_loop fuel width height targetColor fill [(startX, startY)] ∅ data.

(** *** Undo *)

(** The canvas and the undo stack; an image is the pixel data that
    [getImageData] copies out of the canvas. *)
Record Easel := {
  canvas : list Z;
  undoStack : list (list Z)
}.

Definition maxUndoSteps : nat := 10.

(** [push] the current image; [shift] the oldest one out when the stack is
    over its limit. *)
Definition saveUndoState (e : Easel) : Easel :=
  let stack := undoStack e ++ [canvas e] in
  {| canvas := canvas e;
     undoStack := if (maxUndoSteps <? length stack)%nat
                  then drop 1 stack else stack |}.

(** [pop] the last image and put it on the canvas. *)
Definition undo (e : Easel) : Easel :=
  match reverse (undoStack e) with
  | [] => e
  | imageData :: rest =>
      {| canvas := imageData; undoStack := reverse rest |}
  end.

(** *** Connection, room and drawing state *)

(** An entry of [state.messages]: a chat message, or a line of the
    application itself ([{ type: 'system', text, timestamp }]). *)
Inductive ChatEntry :=
| chat_entry (message : ChatMessage)
| system_entry (text : string) (timestamp : Z).

(** [state.currentStroke]. Between two strokes its colour, size and tool
    are [null], written [""] and [0] here; they are set before they are
    read. *)
Record Stroke := {
  points : list (Z * Z);
  color : string;
  size : Z;
  tool : string
}.

(** The fields of [state] that the connection, room, chat and stroke code
    reads and writes. [isOpen] stands for
    [state.ws && state.ws.readyState === WebSocket.OPEN]. The canvas, what
    is painted on it, the undo stack and the timers are left out. *)
Record State := {
  isOpen : bool;
  isConnected : bool;
  playerId : string;
  playerName : string;
  currentRoom : option string;
  activePlayers : list roomManager.PlayerInfo;
  isDrawing : bool;
  currentTool : string;
  currentColor : string;
  currentSize : Z;
  currentStroke : Stroke;
  shapeStart : option (Z * Z);
  messages : list ChatEntry;
  eventQueue : list server.QueuedEvent;
  lastEventTimestamp : Z;
  reconnectAttempts : Z
}.

Definition set_isOpen (v : bool) (st : State) : State :=
  {| isOpen := v;
     isConnected := isConnected st;
     playerId := playerId st;
     playerName := playerName st;
     currentRoom := currentRoom st;
     activePlayers := activePlayers st;
     isDrawing := isDrawing st;
     currentTool := currentTool st;
     currentColor := currentColor st;
     currentSize := currentSize st;
     currentStroke := currentStroke st;
     shapeStart := shapeStart st;
     messages := messages st;
     eventQueue := eventQueue st;
     lastEventTimestamp := lastEventTimestamp st;
     reconnectAttempts := reconnectAttempts st |}.

Definition set_isConnected (v : bool) (st : State) : State :=
  {| isOpen := isOpen st;
     isConnected := v;
     playerId := playerId st;
     playerName := playerName st;
     currentRoom := currentRoom st;
     activePlayers := activePlayers st;
     isDrawing := isDrawing st;
     currentTool := currentTool st;
     currentColor := currentColor st;
     currentSize := currentSize st;
     currentStroke := currentStroke st;
     shapeStart := shapeStart st;
     messages := messages st;
     eventQueue := eventQueue st;
     lastEventTimestamp := lastEventTimestamp st;
     reconnectAttempts := reconnectAttempts st |}.

Definition set_playerId (v : string) (st : State) : State :=
  {| isOpen := isOpen st;
     isConnected := isConnected st;
     playerId := v;
     playerName := playerName st;
     currentRoom := currentRoom st;
     activePlayers := activePlayers st;
     isDrawing := isDrawing st;
     currentTool := currentTool st;
     currentColor := currentColor st;
     currentSize := currentSize st;
     currentStroke := currentStroke st;
     shapeStart := shapeStart st;
     messages := messages st;
     eventQueue := eventQueue st;
     lastEventTimestamp := lastEventTimestamp st;
     reconnectAttempts := reconnectAttempts st |}.

Definition set_playerName (v : string) (st : State) : State :=
  {| isOpen := isOpen st;
     isConnected := isConnected st;
     playerId := playerId st;
     playerName := v;
     currentRoom := currentRoom st;
     activePlayers := activePlayers st;
     isDrawing := isDrawing st;
     currentTool := currentTool st;
     currentColor := currentColor st;
     currentSize := currentSize st;
     currentStroke := currentStroke st;
     shapeStart := shapeStart st;
     messages := messages st;
     eventQueue := eventQueue st;
     lastEventTimestamp := lastEventTimestamp st;
     reconnectAttempts := reconnectAttempts st |}.

Definition set_currentRoom (v : option string) (st : State) : State :=
  {| isOpen := isOpen st;
     isConnected := isConnected st;
     playerId := playerId st;
     playerName := playerName st;
     currentRoom := v;
     activePlayers := activePlayers st;
     isDrawing := isDrawing st;
     currentTool := currentTool st;
     currentColor := currentColor st;
     currentSize := currentSize st;
     currentStroke := currentStroke st;
     shapeStart := shapeStart st;
     messages := messages st;
     eventQueue := eventQueue st;
     lastEventTimestamp := lastEventTimestamp st;
     reconnectAttempts := reconnectAttempts st |}.

Definition set_activePlayers (v : list roomManager.PlayerInfo) (st : State) : State :=
  {| isOpen := isOpen st;
     isConnected := isConnected st;
     playerId := playerId st;
     playerName := playerName st;
     currentRoom := currentRoom st;
     activePlayers := v;
     isDrawing := isDrawing st;
     currentTool := currentTool st;
     currentColor := currentColor st;
     currentSize := currentSize st;
     currentStroke := currentStroke st;
     shapeStart := shapeStart st;
     messages := messages st;
     eventQueue := eventQueue st;
     lastEventTimestamp := lastEventTimestamp st;
     reconnectAttempts := reconnectAttempts st |}.

Definition set_isDrawing (v : bool) (st : State) : State :=
  {| isOpen := isOpen st;
     isConnected := isConnected st;
     playerId := playerId st;
     playerName := playerName st;
     currentRoom := currentRoom st;
     activePlayers := activePlayers st;
     isDrawing := v;
     currentTool := currentTool st;
     currentColor := currentColor st;
     currentSize := currentSize st;
     currentStroke := currentStroke st;
     shapeStart := shapeStart st;
     messages := messages st;
     eventQueue := eventQueue st;
     lastEventTimestamp := lastEventTimestamp st;
     reconnectAttempts := reconnectAttempts st |}.

Definition set_currentTool (v : string) (st : State) : State :=
  {| isOpen := isOpen st;
     isConnected := isConnected st;
     playerId := playerId st;
     playerName := playerName st;
     currentRoom := currentRoom st;
     activePlayers := activePlayers st;
     isDrawing := isDrawing st;
     currentTool := v;
     currentColor := currentColor st;
     currentSize := currentSize st;
     currentStroke := currentStroke st;
     shapeStart := shapeStart st;
     messages := messages st;
     eventQueue := eventQueue st;
     lastEventTimestamp := lastEventTimestamp st;
     reconnectAttempts := reconnectAttempts st |}.

Definition set_currentColor (v : string) (st : State) : State :=
  {| isOpen := isOpen st;
     isConnected := isConnected st;
     playerId := playerId st;
     playerName := playerName st;
     currentRoom := currentRoom st;
     activePlayers := activePlayers st;
     isDrawing := isDrawing st;
     currentTool := currentTool st;
     currentColor := v;
     currentSize := currentSize st;
     currentStroke := currentStroke st;
     shapeStart := shapeStart st;
     messages := messages st;
     eventQueue := eventQueue st;
     lastEventTimestamp := lastEventTimestamp st;
     reconnectAttempts := reconnectAttempts st |}.

Definition set_currentSize (v : Z) (st : State) : State :=
  {| isOpen := isOpen st;
     isConnected := isConnected st;
     playerId := playerId st;
     playerName := playerName st;
     currentRoom := currentRoom st;
     activePlayers := activePlayers st;
     isDrawing := isDrawing st;
     currentTool := currentTool st;
     currentColor := currentColor st;
     currentSize := v;
     currentStroke := currentStroke st;
     shapeStart := shapeStart st;
     messages := messages st;
     eventQueue := eventQueue st;
     lastEventTimestamp := lastEventTimestamp st;
     reconnectAttempts := reconnectAttempts st |}.

Definition set_currentStroke (v : Stroke) (st : State) : State :=
  {| isOpen := isOpen st;
     isConnected := isConnected st;
     playerId := playerId st;
     playerName := playerName st;
     currentRoom := currentRoom st;
     activePlayers := activePlayers st;
     isDrawing := isDrawing st;
     currentTool := currentTool st;
     currentColor := currentColor st;
     currentSize := currentSize st;
     currentStroke := v;
     shapeStart := shapeStart st;
     messages := messages st;
     eventQueue := eventQueue st;
     lastEventTimestamp := lastEventTimestamp st;
     reconnectAttempts := reconnectAttempts st |}.

Definition set_shapeStart (v : option (Z * Z)) (st : State) : State :=
  {| isOpen := isOpen st;
     isConnected := isConnected st;
     playerId := playerId st;
     playerName := playerName st;
     currentRoom := currentRoom st;
     activePlayers := activePlayers st;
     isDrawing := isDrawing st;
     currentTool := currentTool st;
     currentColor := currentColor st;
     currentSize := currentSize st;
     currentStroke := currentStroke st;
     shapeStart := v;
     messages := messages st;
     eventQueue := eventQueue st;
     lastEventTimestamp := lastEventTimestamp st;
     reconnectAttempts := reconnectAttempts st |}.

Definition set_messages (v : list ChatEntry) (st : State) : State :=
  {| isOpen := isOpen st;
     isConnected := isConnected st;
     playerId := playerId st;
     playerName := playerName st;
     currentRoom := currentRoom st;
     activePlayers := activePlayers st;
     isDrawing := isDrawing st;
     currentTool := currentTool st;
     currentColor := currentColor st;
     currentSize := currentSize st;
     currentStroke := currentStroke st;
     shapeStart := shapeStart st;
     messages := v;
     eventQueue := eventQueue st;
     lastEventTimestamp := lastEventTimestamp st;
     reconnectAttempts := reconnectAttempts st |}.

Definition set_eventQueue (v : list server.QueuedEvent) (st : State) : State :=
  {| isOpen := isOpen st;
     isConnected := isConnected st;
     playerId := playerId st;
     playerName := playerName st;
     currentRoom := currentRoom st;
     activePlayers := activePlayers st;
     isDrawing := isDrawing st;
     currentTool := currentTool st;
     currentColor := currentColor st;
     currentSize := currentSize st;
     currentStroke := currentStroke st;
     shapeStart := shapeStart st;
     messages := messages st;
     eventQueue := v;
     lastEventTimestamp := lastEventTimestamp st;
     reconnectAttempts := reconnectAttempts st |}.

Definition set_lastEventTimestamp (v : Z) (st : State) : State :=
  {| isOpen := isOpen st;
     isConnected := isConnected st;
     playerId := playerId st;
     playerName := playerName st;
     currentRoom := currentRoom st;
     activePlayers := activePlayers st;
     isDrawing := isDrawing st;
     currentTool := currentTool st;
     currentColor := currentColor st;
     currentSize := currentSize st;
     currentStroke := currentStroke st;
     shapeStart := shapeStart st;
     messages := messages st;
     eventQueue := eventQueue st;
     lastEventTimestamp := v;
     reconnectAttempts := reconnectAttempts st |}.

Definition set_reconnectAttempts (v : Z) (st : State) : State :=
  {| isOpen := isOpen st;
     isConnected := isConnected st;
     playerId := playerId st;
     playerName := playerName st;
     currentRoom := currentRoom st;
     activePlayers := activePlayers st;
     isDrawing := isDrawing st;
     currentTool := currentTool st;
     currentColor := currentColor st;
     currentSize := currentSize st;
     currentStroke := currentStroke st;
     shapeStart := shapeStart st;
     messages := messages st;
     eventQueue := eventQueue st;
     lastEventTimestamp := lastEventTimestamp st;
     reconnectAttempts := v |}.

(** What the client writes to its socket, as the server reads it. *)
Definition Sent := list server.ClientMessage.

(** [send(message)]: whether the message went out, and what went out. *)
Definition send (st : State) (message : server.ClientMessage)
    : bool * Sent :=
  if isOpen st then (true, [message]) else (false, []).

Definition joinRoom (st : State) (roomId : string) : State * Sent :=
  let st :=
    set_lastEventTimestamp 0
      (set_eventQueue [] (set_currentRoom (Some roomId) st)) in
  (st, (send st (server.Join roomId (Some (playerId st))
                   (Some (playerName st)))).2).

(** [rejoinRoom()]; a [null] room is written [""]. *)
Definition rejoinRoom (st : State) : State * Sent :=
  let rejoin :=
    (send st (server.Rejoin (default "" (currentRoom st)) (playerId st)
                (playerName st) (Some (lastEventTimestamp st)))).2 in
  if (0 <? length (eventQueue st))%nat
  then (set_eventQueue [] st,
        rejoin ++ (send st (server.QueueReplay (Some (eventQueue st)))).2)
  else (st, rejoin).

(** The socket's [open] event: the socket is open when it is handled. *)
Definition handleOpen (st : State) : State * Sent :=
  let st := set_reconnectAttempts 0 (set_isConnected true
              (set_isOpen true st)) in
  if js.truthy (currentRoom st) then rejoinRoom st else (st, []).

(** The socket's [close] event: the socket is closed when it is handled. *)
Definition handleClose (st : State) : State :=
  set_isConnected false (set_isOpen false st).

(** The pickers of [initTools]. *)
Definition pickTool (st : State) (tool : string) : State :=
  set_currentTool tool st.

Definition pickColor (st : State) (color : string) : State :=
  let st := set_currentColor color st in
  if String.eqb (currentTool st) "eraser" then set_currentTool "pen" st
  else st.

Definition pickSize (st : State) (size : Z) : State :=
  set_currentSize size st.

Definition freehand (tool : string) : bool :=
  bool_decide (tool ∈ ["pen"; "brush"; "eraser"]).

Definition shape (tool : string) : bool :=
  bool_decide (tool ∈ ["line"; "rect"; "circle"]).

Definition startDrawing (st : State) (coords : Z * Z) : State * Sent :=
  let st := set_isDrawing true st in
  let color :=
    if String.eqb (currentTool st) "eraser" then "#FFFFFF"
    else currentColor st in
  let size :=
    if String.eqb (currentTool st) "brush" then currentSize st * 2
    else currentSize st in
  let st :=
    set_currentStroke
      {| points := [coords]; color := color; size := size;
         tool := currentTool st |} st in
  let st := set_shapeStart (Some coords) st in
  (st, (send st server.DrawStart).2).

Definition continueDrawing (st : State) (coords : Z * Z) : State :=
  if freehand (currentTool st)
  then set_currentStroke
         {| points := points (currentStroke st) ++ [coords];
            color := color (currentStroke st);
            size := size (currentStroke st);
            tool := tool (currentStroke st) |} st
  else st.

(** [strokeData] as a message of its own and as an entry of the queue. *)
Definition stroke_message (s : Stroke) : server.ClientMessage :=
  server.Draw (points s) (color s) (size s) (Some (tool s)).

Definition stroke_queued (s : Stroke) : server.QueuedEvent :=
  {| server.qe_type := "draw"; server.qe_points := points s;
     server.qe_color := color s; server.qe_size := size s;
     server.qe_tool := Some (tool s); server.qe_text := "";
     server.qe_timestamp := None |}.

Definition no_stroke : Stroke :=
  {| points := []; color := ""; size := 0; tool := "" |}.

Definition finishDrawing (st : State) (coords : Z * Z) : State * Sent :=
  let st := set_isDrawing false st in
  let stroke := currentStroke st in
  let stroke :=
    match shapeStart st with
    | Some start =>
        if shape (currentTool st)
        then {| points := [start; coords]; color := color stroke;
                size := size stroke; tool := currentTool st |}
        else if String.eqb (currentTool st) "fill"
        then {| points := [coords]; color := currentColor st;
                size := size stroke; tool := "fill" |}
        else stroke
    | None =>
        if String.eqb (currentTool st) "fill"
        then {| points := [coords]; color := currentColor st;
                size := size stroke; tool := "fill" |}
        else stroke
    end in
  let '(st, sent) :=
    if (0 <? length (points stroke))%nat
    then
      let '(ok, sent) := send st (stroke_message stroke) in
      if ok then (st, sent)
      else (set_eventQueue (eventQueue st ++ [stroke_queued stroke]) st, sent)
    else (st, []) in
  let st := set_shapeStart None (set_currentStroke no_stroke st) in
  (st, sent ++ (send st server.DrawEnd).2).

(** [messageData] as an entry of the queue; sent directly, the server
    reads its text only. *)
Definition message_queued (text : string) (now : Z) : server.QueuedEvent :=
  {| server.qe_type := "message"; server.qe_points := [];
     server.qe_color := ""; server.qe_size := 0; server.qe_tool := None;
     server.qe_text := text; server.qe_timestamp := Some now |}.

(** [sendMessage()] with what the input field holds. *)
Definition sendMessage (st : State) (input : string) (now : Z)
    : State * Sent :=
  let text := js.trim input in
  if negb (js.truthy (Some text)) then (st, [])
  else
    let '(ok, sent) := send st (server.Message text) in
    if ok then (st, sent)
    else (set_eventQueue (eventQueue st ++ [message_queued text now]) st,
          sent).

(** [message.timestamp] of a message of the server. *)
Definition timestamp_of (m : server.ServerMessage) : option Z :=
  match m with
  | server.userJoined _ _ _ t => Some t
  | server.userLeft _ _ t => Some t
  | server.draw event => Some (de_timestamp event)
  | server.clear _ _ t => Some t
  | server.message msg => Some (msg_timestamp msg)
  | _ => None
  end.

Definition addSystemMessage (st : State) (text : string) (now : Z) : State :=
  set_messages (messages st ++ [system_entry text now]) st.

Definition state_players (rs : option roomManager.RoomState)
    : list roomManager.PlayerInfo :=
  match rs with Some rs => roomManager.activePlayers rs | None => [] end.

Definition state_messages (rs : option roomManager.RoomState)
    : list ChatEntry :=
  match rs with
  | Some rs => chat_entry <$> roomManager.chatHistory rs
  | None => []
  end.

(** [player.isDrawing = ...] on the first player found with the id. *)
Fixpoint mark_drawing (pid : string) (flag : bool)
    (players : list roomManager.PlayerInfo) : list roomManager.PlayerInfo :=
  match players with
  | [] => []
  | p :: players =>
      if String.eqb (roomManager.pi_playerId p) pid
      then {| roomManager.pi_playerId := roomManager.pi_playerId p;
              roomManager.pi_playerName := roomManager.pi_playerName p;
              roomManager.pi_isDrawing := flag |} :: players
      else p :: mark_drawing pid flag players
  end.

(** [handleMessage] for a message of the server: the watermark, then the
    handler of the message's type. *)
Definition handleMessage (st : State) (m : server.ServerMessage) (now : Z)
    : State :=
  let st :=
    if js.truthy_num (timestamp_of m)
    then set_lastEventTimestamp
           (Z.max (lastEventTimestamp st) (default 0 (timestamp_of m))) st
    else st in
  match m with
  | server.roomState rs pid pname =>
      set_messages (state_messages rs)
        (set_activePlayers (state_players rs)
           (set_playerName pname (set_playerId pid st)))
  | server.rejoinState rs _ _ _ =>
      addSystemMessage
        (set_messages (state_messages rs)
           (set_activePlayers (state_players rs) st))
        "Reconnected!" now
  | server.userJoined pid pname isRejoin _ =>
      addSystemMessage
        (set_activePlayers
           (activePlayers st
            ++ [ {| roomManager.pi_playerId := pid;
                    roomManager.pi_playerName := pname;
                    roomManager.pi_isDrawing := false |} ]) st)
        (pname +:+ " " +:+ (if isRejoin then "reconnected" else "joined"))
        now
  | server.userLeft pid pname _ =>
      addSystemMessage
        (set_activePlayers
           (filter (λ p, roomManager.pi_playerId p ≠ pid) (activePlayers st))
           st)
        (pname +:+ " left") now
  | server.draw _ => st
  | server.clear _ pname _ =>
      addSystemMessage st (pname +:+ " cleared the canvas") now
  | server.message msg => set_messages (messages st ++ [chat_entry msg]) st
  | server.drawIndicator flag pid _ =>
      set_activePlayers (mark_drawing pid flag (activePlayers st)) st
  | server.error _ => st
  end.

End client.

(** * Properties *)

(** ** Facts about [js.Map] *)

Section map_facts.
Context {V : Type}.
Implicit Types (m : js.Map V) (k : string) (v : V).

Lemma map_get_set_eq k v m : js.get k (js.set k v m) = Some v.
Proof.
  induction m as [|[k' v'] m IH]; simpl.
  - by rewrite decide_True.
  - destruct (decide (k' = k)) as [->|Hne]; simpl.
    + by rewrite decide_True.
    + by rewrite decide_False.
Qed.

Lemma map_get_set_ne k k' v m :
  k ≠ k' → js.get k' (js.set k v m) = js.get k' m.
Proof.
  intros Hne. induction m as [|[k0 v0] m IH]; simpl.
  - by rewrite decide_False.
  - destruct (decide (k0 = k)) as [->|Hne0]; simpl.
    + by rewrite !decide_False.
    + by rewrite IH.
Qed.

Lemma map_size_set k v m :
  js.size (js.set k v m)
  = if js.has k m then js.size m else js.size m + 1.
Proof.
  unfold js.size, js.has. induction m as [|[k' v'] m IH]; simpl; [done|].
  destruct (decide (k' = k)); simpl; [done|].
  destruct (js.get k m); lia.
Qed.

Lemma map_size_set_le k v m : js.size (js.set k v m) ≤ js.size m + 1.
Proof. rewrite map_size_set. destruct (js.has k m); lia. Qed.

Lemma map_size_delete_le k m : js.size (js.delete k m).1 ≤ js.size m.
Proof.
  unfold js.size. induction m as [|[k' v'] m IH]; simpl; [done|].
  destruct (decide (k' = k)); simpl; [lia|].
  destruct (js.delete k m) as [m' b]. simpl in *. lia.
Qed.

Lemma map_get_delete_eq k m :
  NoDup (js.keys m) → js.get k (js.delete k m).1 = None.
Proof.
  unfold js.keys. induction m as [|[k' v'] m IH]; simpl; [done|].
  intros [Hnotin Hnd]%NoDup_cons.
  destruct (decide (k' = k)) as [->|Hne]; simpl.
  - clear IH. induction m as [|[k0 v0] m IH]; simpl; [done|].
    apply not_elem_of_cons in Hnotin as [Hne Hnotin].
    rewrite decide_False by done. apply IH; [done|].
    by apply NoDup_cons in Hnd as [_ ?].
  - specialize (IH Hnd). destruct (js.delete k m) as [m' b]. simpl in *.
    by rewrite decide_False.
Qed.

Lemma map_values_size m : Z.of_nat (length (js.values m)) = js.size m.
Proof. unfold js.values, js.size. by rewrite length_fmap. Qed.

Lemma map_get_values k v m : js.get k m = Some v → v ∈ js.values m.
Proof.
  unfold js.values. induction m as [|[k' v'] m IH]; simpl; [done|].
  destruct (decide (k' = k)).
  - intros [= ->]. apply elem_of_cons. by left.
  - intros ?%IH. apply elem_of_cons. by right.
Qed.

End map_facts.

(** ** The capacity of a room *)

(** The operations of the registry that change a room's active set. *)
Inductive RegistryOp :=
| OpAddPlayer (roomId : string) (player : roomManager.Player) (now : Z)
| OpRemovePlayer (roomId playerId : string) (now : Z).

Definition apply_op (d : db.Database) (rm : roomManager.t) (op : RegistryOp)
    : roomManager.t :=
  match op with
  | OpAddPlayer roomId player now =>
      (roomManager.addPlayer d rm roomId player now).1
  | OpRemovePlayer roomId playerId now =>
      (roomManager.removePlayer d rm roomId playerId now).1
  end.

(** [listPlayers(roomId).length <= maxPlayers] for every room of the
    directory. *)
Definition capacity_ok (d : db.Database) (rm : roomManager.t) : Prop :=
  ∀ roomId room,
    db.getRoom d roomId = Some room →
    Z.of_nat (length (roomManager.getPlayersInRoom rm roomId))
    ≤ roomManager.maxPlayers_of room.

(** The number of active players of a room, as [addPlayer] reads it. *)
Definition active_size (rm : roomManager.t) (roomId : string) : Z :=
  Z.of_nat (length (roomManager.getPlayersInRoom rm roomId)).

Lemma getPlayersInRoom_getActiveRoom rm roomId now roomId' :
  roomManager.getPlayersInRoom (roomManager.getActiveRoom rm roomId now).1
    roomId'
  = roomManager.getPlayersInRoom rm roomId'.
Proof.
  unfold roomManager.getActiveRoom, roomManager.getPlayersInRoom.
  destruct (roomManager.activeRooms rm !! roomId) eqn:E; simpl; [done|].
  destruct (decide (roomId = roomId')) as [<-|Hne].
  - by rewrite lookup_insert_eq, E.
  - by rewrite lookup_insert_ne.
Qed.

Lemma getActiveRoom_players rm roomId now :
  js.values (roomManager.players (roomManager.getActiveRoom rm roomId now).2)
  = roomManager.getPlayersInRoom rm roomId.
Proof.
  unfold roomManager.getActiveRoom, roomManager.getPlayersInRoom.
  by destruct (roomManager.activeRooms rm !! roomId).
Qed.

Lemma getActiveRoom_size rm roomId now :
  js.size (roomManager.players (roomManager.getActiveRoom rm roomId now).2)
  = active_size rm roomId.
Proof.
  unfold active_size.
  by rewrite <- (getActiveRoom_players rm roomId now), map_values_size.
Qed.

(** [addPlayer] when it refuses: nothing about the players changes. *)
Lemma addPlayer_refused d rm roomId player now :
  (db.getRoom d roomId = None
   ∨ ∃ room, db.getRoom d roomId = Some room
             ∧ roomManager.maxPlayers_of room ≤ active_size rm roomId) →
  (roomManager.addPlayer d rm roomId player now).2 = false
  ∧ ∀ roomId',
      roomManager.getPlayersInRoom
        (roomManager.addPlayer d rm roomId player now).1 roomId'
      = roomManager.getPlayersInRoom rm roomId'.
Proof.
  unfold roomManager.addPlayer.
  intros [->|(room & -> & Hfull)]; [done|].
  pose proof (getActiveRoom_size rm roomId now) as Hsize.
  pose proof (getPlayersInRoom_getActiveRoom rm roomId now) as Hsame.
  destruct (roomManager.getActiveRoom rm roomId now) as [rm1 activeRoom].
  simpl in *. rewrite Hsize.
  destruct (Z.leb_spec (roomManager.maxPlayers_of room) (active_size rm roomId));
    [done | lia].
Qed.

(** [addPlayer] when it accepts: the player is set under its id in the
    room's map and the other rooms keep their players. *)
Lemma addPlayer_accepted d rm roomId player now room :
  db.getRoom d roomId = Some room →
  active_size rm roomId < roomManager.maxPlayers_of room →
  ∃ activeRoom,
    (roomManager.addPlayer d rm roomId player now).2 = true
    ∧ roomManager.activeRooms (roomManager.addPlayer d rm roomId player now).1
      !! roomId = Some activeRoom
    ∧ js.get (roomManager.playerId player) (roomManager.players activeRoom)
      = Some player
    ∧ js.size (roomManager.players activeRoom) ≤ active_size rm roomId + 1
    ∧ ∀ roomId', roomId' ≠ roomId →
        roomManager.getPlayersInRoom
          (roomManager.addPlayer d rm roomId player now).1 roomId'
        = roomManager.getPlayersInRoom rm roomId'.
Proof.
  intros Hroom Hfree. unfold roomManager.addPlayer. rewrite Hroom.
  pose proof (getActiveRoom_size rm roomId now) as Hsize.
  pose proof (getPlayersInRoom_getActiveRoom rm roomId now) as Hsame.
  destruct (roomManager.getActiveRoom rm roomId now) as [rm1 activeRoom].
  simpl in *. rewrite Hsize.
  destruct (Z.leb_spec (roomManager.maxPlayers_of room) (active_size rm roomId));
    [lia|].
  eexists. simpl. split; [done|]. split; [apply lookup_insert_eq|]. simpl.
  split; [apply map_get_set_eq|]. split.
  - rewrite <- Hsize. apply map_size_set_le.
  - intros roomId' Hne. rewrite <- Hsame.
    unfold roomManager.getPlayersInRoom. simpl. by rewrite lookup_insert_ne.
Qed.

Lemma removePlayer_size d rm roomId playerId now roomId' :
  active_size (roomManager.removePlayer d rm roomId playerId now).1 roomId'
  ≤ active_size rm roomId'.
Proof.
  unfold roomManager.removePlayer, active_size, roomManager.getPlayersInRoom.
  destruct (roomManager.activeRooms rm !! roomId) as [activeRoom|] eqn:E;
    [|done].
  pose proof (map_size_delete_le playerId (roomManager.players activeRoom))
    as Hle.
  destruct (js.delete playerId (roomManager.players activeRoom))
    as [players' removed].
  simpl in *. destruct (decide (roomId = roomId')) as [<-|Hne].
  - rewrite lookup_insert_eq, E. simpl. by rewrite !map_values_size.
  - by rewrite lookup_insert_ne.
Qed.

Lemma apply_op_capacity d rm op :
  capacity_ok d rm → capacity_ok d (apply_op d rm op).
Proof.
  intros Hok roomId' room' Hroom'. specialize (Hok roomId' room' Hroom').
  fold (active_size rm roomId') in Hok.
  fold (active_size (apply_op d rm op) roomId').
  destruct op as [roomId player now|roomId playerId now]; simpl.
  - destruct (db.getRoom d roomId) as [room|] eqn:Hroom.
    + destruct (Z.le_gt_cases (roomManager.maxPlayers_of room)
                  (active_size rm roomId)) as [Hfull|Hfree].
      * destruct (addPlayer_refused d rm roomId player now) as [_ Hsame];
          [by eauto|].
        unfold active_size. by rewrite Hsame.
      * destruct (addPlayer_accepted d rm roomId player now room Hroom)
          as (activeRoom & _ & Hlook & _ & Hsize & Hother); [lia|].
        destruct (decide (roomId' = roomId)) as [->|Hne].
        -- unfold active_size, roomManager.getPlayersInRoom. rewrite Hlook.
           rewrite map_values_size. simplify_eq. lia.
        -- unfold active_size. by rewrite Hother.
    + destruct (addPlayer_refused d rm roomId player now) as [_ Hsame];
        [by left|].
      unfold active_size. by rewrite Hsame.
  - pose proof (removePlayer_size d rm roomId playerId now roomId'). lia.
Qed.

(** ** Facts about [ORDER BY] *)

Section order_by_facts.
Context {A : Type} (le : A → A → bool).

Definition sorted_by (l : list A) : Prop :=
  StronglySorted (λ a b, le a b = true) l.

Lemma insert_perm x l : sql.insert le x l ≡ₚ x :: l.
Proof.
  induction l as [|y l IH]; simpl; [done|].
  destruct (le x y); [done|]. rewrite IH. apply Permutation_swap.
Qed.

Lemma order_by_perm l : sql.order_by le l ≡ₚ l.
Proof.
  induction l as [|x l IH]; simpl; [done|].
  rewrite insert_perm. by f_equiv.
Qed.

Lemma order_by_elem_of x l : x ∈ sql.order_by le l ↔ x ∈ l.
Proof. by rewrite order_by_perm. Qed.

Lemma order_by_length l : length (sql.order_by le l) = length l.
Proof. by rewrite order_by_perm. Qed.

Hypothesis le_total : ∀ a b, le a b = false → le b a = true.
Hypothesis le_trans : ∀ a b c, le a b = true → le b c = true → le a c = true.

Lemma insert_sorted x l : sorted_by l → sorted_by (sql.insert le x l).
Proof.
  unfold sorted_by. induction l as [|y l IH]; simpl; intros Hs.
  - repeat constructor.
  - apply StronglySorted_cons in Hs as [Hy Hs].
    destruct (le x y) eqn:Hxy.
    + apply StronglySorted_cons. split.
      * constructor; [done|]. eapply Forall_impl; [exact Hy|].
        intros z Hz. simpl in *. by eapply le_trans.
      * by apply StronglySorted_cons.
    + apply StronglySorted_cons. split; [|by apply IH].
      rewrite insert_perm. constructor; [by apply le_total | done].
Qed.

Lemma order_by_sorted l : sorted_by (sql.order_by le l).
Proof.
  induction l as [|x l IH]; simpl; [constructor|]. by apply insert_sorted.
Qed.

(** Inserting below the head of a sorted list is a cons. *)
Lemma insert_least x l :
  sorted_by l → Forall (λ z, le x z = true) l → sql.insert le x l = x :: l.
Proof. destruct l as [|y l]; simpl; [done|]. intros _ [-> _]%Forall_cons. done. Qed.

Lemma filter_insert (P : A → Prop) `{!∀ a, Decision (P a)} x l :
  sorted_by l →
  filter P (sql.insert le x l)
  = if decide (P x) then sql.insert le x (filter P l) else filter P l.
Proof.
  unfold sorted_by. induction l as [|y l IH]; simpl; intros Hs.
  - rewrite filter_cons, filter_nil. by destruct (decide (P x)).
  - apply StronglySorted_cons in Hs as [Hy Hs]. specialize (IH Hs).
    destruct (le x y) eqn:Hxy.
    + rewrite (filter_cons P x). destruct (decide (P x)); [|done].
      symmetry. apply insert_least.
      * assert (sorted_by (y :: l)) as Hsyl by by apply StronglySorted_cons.
        clear -Hsyl. unfold sorted_by in *.
        induction Hsyl as [|z l' Hs' IH' Hz]; [rewrite filter_nil; constructor|].
        rewrite filter_cons. destruct (decide (P z)); [|done].
        constructor; [done|]. apply Forall_forall. intros w Hw.
        apply list_elem_of_filter in Hw as [_ Hw].
        by eapply Forall_forall in Hz.
      * apply Forall_forall. intros z [_ Hz]%list_elem_of_filter.
        apply elem_of_cons in Hz as [->|Hz]; [done|].
        eapply le_trans; [exact Hxy|]. by eapply Forall_forall in Hy.
    + rewrite (filter_cons P y), (filter_cons P y), IH.
      destruct (decide (P y)), (decide (P x)); simpl; try done.
      by rewrite Hxy.
Qed.

Lemma filter_sorted (P : A → Prop) `{!∀ a, Decision (P a)} l :
  sorted_by l → sorted_by (filter P l).
Proof.
  unfold sorted_by. induction 1 as [|z l' Hs' IH' Hz];
    [rewrite filter_nil; constructor|].
  rewrite filter_cons. destruct (decide (P z)); [|done].
  constructor; [done|]. apply Forall_forall. intros w Hw.
  apply list_elem_of_filter in Hw as [_ Hw]. by eapply Forall_forall in Hz.
Qed.

(** A stable sort commutes with a filter. *)
Lemma filter_order_by (P : A → Prop) `{!∀ a, Decision (P a)} l :
  filter P (sql.order_by le l) = sql.order_by le (filter P l).
Proof.
  induction l as [|x l IH]; simpl; [done|].
  rewrite filter_insert by apply order_by_sorted.
  rewrite filter_cons. destruct (decide (P x)); simpl; by rewrite IH.
Qed.

End order_by_facts.

Lemma asc_total {A} (key : A → Z) a b :
  sql.asc key a b = false → sql.asc key b a = true.
Proof. unfold sql.asc. lia. Qed.

Lemma asc_trans {A} (key : A → Z) a b c :
  sql.asc key a b = true → sql.asc key b c = true → sql.asc key a c = true.
Proof. unfold sql.asc. lia. Qed.

Lemma desc_total {A} (key : A → Z) a b :
  sql.desc key a b = false → sql.desc key b a = true.
Proof. unfold sql.desc. lia. Qed.

Lemma desc_trans {A} (key : A → Z) a b c :
  sql.desc key a b = true → sql.desc key b c = true → sql.desc key a c = true.
Proof. unfold sql.desc. lia. Qed.

Lemma filter_fmap {A B} (f : A → B) (P : B → Prop) `{!∀ b, Decision (P b)}
    (l : list A) :
  filter P (f <$> l) = f <$> filter (λ a, P (f a)) l.
Proof.
  induction l as [|x l IH]; [done|]. rewrite fmap_cons, !filter_cons.
  destruct (decide (P (f x))); simpl; by rewrite IH.
Qed.

Lemma filter_all {A} (P : A → Prop) `{!∀ a, Decision (P a)} (l : list A) :
  Forall P l → filter P l = l.
Proof.
  induction 1 as [|x l Hx Hl IH]; [done|].
  by rewrite filter_cons_True, IH.
Qed.

Lemma filter_none {A} (P : A → Prop) `{!∀ a, Decision (P a)} (l : list A) :
  Forall (λ a, ¬ P a) l → filter P l = [].
Proof.
  induction 1 as [|x l Hx Hl IH]; [done|]. by rewrite filter_cons_False.
Qed.

(** A list in ascending key order splits at any bound into the rows up to
    the bound followed by the rows above it. *)
Lemma sorted_split {A} (key : A → Z) (bound : Z) (l : list A) :
  sorted_by (sql.asc key) l →
  l = filter (λ a, key a ≤ bound) l ++ filter (λ a, bound < key a) l.
Proof.
  unfold sorted_by. induction 1 as [|x l Hs IH Hx]; [done|].
  rewrite !filter_cons. destruct (decide (key x ≤ bound)) as [Hle|Hgt].
  - rewrite decide_False by lia. simpl. by rewrite <- IH.
  - rewrite decide_True by lia.
    rewrite (filter_none (λ a, key a ≤ bound)), (filter_all (λ a, bound < key a));
      [done| |].
    + eapply Forall_impl; [exact Hx|]. unfold sql.asc. intros a Ha. lia.
    + eapply Forall_impl; [exact Hx|]. unfold sql.asc. intros a Ha. lia.
Qed.

(** ** Rejoin and the missed events *)

(** The timestamp [getRoomState] reads the drawing events from: that of
    the room's snapshot, or 0 without one. *)
Definition snapshot_timestamp (d : db.Database) (roomId : string) : Z :=
  match db.getCanvasSnapshot d roomId with
  | Some s => db.timestamp s
  | None => 0
  end.

Definition ascending (l : list DrawEvent) : Prop :=
  StronglySorted (λ a b, de_timestamp a ≤ de_timestamp b) l.

Lemma getDrawingEvents_ascending d roomId since :
  ascending (db.getDrawingEvents d roomId since).
Proof.
  unfold ascending, db.getDrawingEvents, db.drawing_rows_since.
  eapply StronglySorted_fmap;
    [|apply (order_by_sorted (sql.asc db.ev_timestamp));
      [apply asc_total | apply asc_trans]].
  unfold sql.asc. simpl. intros x y Hxy. lia.
Qed.

Lemma getDrawingEvents_since d roomId since :
  Forall (λ e, since < de_timestamp e) (db.getDrawingEvents d roomId since).
Proof.
  unfold db.getDrawingEvents, db.drawing_rows_since.
  apply Forall_fmap, Forall_forall. intros row Hrow.
  apply order_by_elem_of, list_elem_of_filter in Hrow as [[_ Hts] _]. done.
Qed.

(** The events since a timestamp are the room's rows above it, no other. *)
Lemma elem_of_getDrawingEvents d roomId since e :
  e ∈ db.getDrawingEvents d roomId since
  ↔ ∃ row, row ∈ db.drawing_events d
           ∧ db.ev_room_id row = roomId
           ∧ since < db.ev_timestamp row
           ∧ e = db.event_of_row row.
Proof.
  unfold db.getDrawingEvents, db.drawing_rows_since.
  rewrite list_elem_of_fmap. split.
  - intros (row & -> & Hrow).
    apply order_by_elem_of, list_elem_of_filter in Hrow as [[? ?] ?].
    by exists row.
  - intros (row & Hrow & Hroom & Hts & ->). exists row. split; [done|].
    apply order_by_elem_of, list_elem_of_filter. by repeat split.
Qed.

(** Filtering the events since [s] by a watermark [t] reads the events since
    the later of the two. *)
Lemma filter_getDrawingEvents d roomId s t :
  filter (λ e, t < de_timestamp e) (db.getDrawingEvents d roomId s)
  = db.getDrawingEvents d roomId (Z.max t s).
Proof.
  unfold db.getDrawingEvents, db.drawing_rows_since.
  rewrite filter_fmap. f_equal. simpl.
  rewrite (filter_order_by (sql.asc db.ev_timestamp))
    by (apply asc_total || apply asc_trans).
  f_equal. rewrite list_filter_filter. apply list_filter_iff.
  intros row. simpl. split.
  - intros [? [? ?]]. split; [done | lia].
  - intros [? ?]. repeat split; [lia | done | lia].
Qed.

Lemma getRoomState_known d rm roomId now room :
  db.getRoom d roomId = Some room →
  ∃ rs, (roomManager.getRoomState d rm roomId now).2 = Some rs
        ∧ roomManager.drawingEvents rs
          = db.getDrawingEvents d roomId (snapshot_timestamp d roomId)
        ∧ roomManager.canvasSnapshot rs
          = db.snapshotData <$> db.getCanvasSnapshot d roomId
        ∧ roomManager.chatHistory rs
          = db.getChatHistory d roomId roomManager.MAX_CHAT_HISTORY.
Proof.
  intros Hroom. unfold roomManager.getRoomState. rewrite Hroom.
  destruct (roomManager.getActiveRoom rm roomId now) as [rm1 activeRoom].
  eexists. split; [done|]. simpl. split; [|done].
  unfold roomManager.state_drawingEvents, snapshot_timestamp.
  by destruct (db.getCanvasSnapshot d roomId).
Qed.

Lemma missedEvents_of_state d roomId T rs :
  roomManager.drawingEvents rs
  = db.getDrawingEvents d roomId (snapshot_timestamp d roomId) →
  server.missedEvents_of T (Some rs)
  = if js.truthy_num T
    then db.getDrawingEvents d roomId
           (Z.max (default 0 T) (snapshot_timestamp d roomId))
    else [].
Proof.
  intros Hev. unfold server.missedEvents_of.
  destruct (js.truthy_num T); [|done].
  rewrite Hev. apply filter_getDrawingEvents.
Qed.

(** What a rejoin that is let in sends back to its connection. *)
Lemma handleRejoin_accepted c st roomId pid pname T now room :
  db.getRoom (server.st_db st) roomId = Some room →
  active_size (server.st_roomManager st) roomId
  < roomManager.maxPlayers_of room →
  ∃ rs rest,
    (server.handleRejoin c st roomId pid pname T now).2
    = (c, server.rejoinState (Some rs) (server.missedEvents_of T (Some rs))
            pid pname) :: rest
    ∧ roomManager.drawingEvents rs
      = db.getDrawingEvents (server.st_db st) roomId
          (snapshot_timestamp (server.st_db st) roomId).
Proof.
  intros Hroom Hfree.
  unfold server.handleRejoin, server.enter_room, roomManager.roomExists.
  simpl. rewrite Hroom. simpl.
  match goal with
  | |- context [roomManager.addPlayer ?d ?rm ?r ?p ?n] =>
      destruct (addPlayer_accepted d rm r p n room Hroom Hfree)
        as (activeRoom & Hadded & _);
      destruct (roomManager.addPlayer d rm r p n) as [rm1 added]
  end.
  simpl in Hadded. subst added. simpl.
  destruct (getRoomState_known (server.st_db st) rm1 roomId now room Hroom)
    as (rs & Hrs & Hev & _).
  destruct (roomManager.getRoomState (server.st_db st) rm1 roomId now)
    as [rm2 rs']. simpl in Hrs. subst rs'.
  eexists _, _. split; [reflexivity | done].
Qed.

(** A session of one player in room [chat-a]: a stroke at 150, a snapshot at
    200, a stroke at 250, a disconnect, and a new connection. *)
Definition alice_trace : list server.Event :=
  [ server.Connection 1;
    server.WsMessage 1
      (server.Join "chat-a" (Some "alice") (Some "Alice")) 10 "";
    server.WsMessage 1 (server.Draw [(1, 1); (2, 2)] "#000000" 2 None) 150 "";
    server.WsMessage 1
      (server.CanvasSnapshot (Some "data:image/png;base64,AAAA")) 200 "";
    server.WsMessage 1 (server.Draw [(3, 3); (4, 4)] "#000000" 2 None) 250 "";
    server.WsClose 1 300;
    server.Connection 2 ].

Definition alice_state : server.State :=
  (server.run (server.startServer 0) alice_trace).1.

(** The claim as the specification words it: the missed events of a rejoin
    with watermark [T] are [drawingEventsSince(roomId, T)]. *)
Definition missedEvents_are_events_since (c : nat) (st : server.State)
    (roomId pid pname : string) (T now : Z) : Prop :=
  ∀ rs missed rest,
    (server.handleRejoin c st roomId pid pname (Some T) now).2
    = (c, server.rejoinState rs missed pid pname) :: rest →
    missed = db.getDrawingEvents (server.st_db st) roomId T.

Definition stroke (points : list (Z * Z)) (playerId : string) (timestamp : Z)
    : DrawEvent :=
  {| de_type := "draw"; de_points := points; de_color := "#000000";
     de_size := 2; de_tool := "pen"; de_playerId := playerId;
     de_timestamp := timestamp |}.

Example alice_events_since_100 :
  db.getDrawingEvents (server.st_db alice_state) "chat-a" 100
  = [stroke [(1, 1); (2, 2)] "alice" 150; stroke [(3, 3); (4, 4)] "alice" 250].
Proof. vm_compute. reflexivity. Qed.

Example alice_rejoin_100 :
  ∃ rs,
    (server.handleRejoin 2 alice_state "chat-a" "alice" "Alice" (Some 100) 400).2
    = [(2%nat, server.rejoinState rs [stroke [(3, 3); (4, 4)] "alice" 250]
                 "alice" "Alice")].
Proof. eexists. vm_compute. reflexivity. Qed.

(** C2, the claim as stated, fails: with a snapshot at 200 and strokes at 150
    and 250, a rejoin with watermark 100 is sent the stroke at 250 only,
    while the drawing events since 100 are both strokes. *)
Lemma C2_counterexample :
  ¬ missedEvents_are_events_since 2 alice_state "chat-a" "alice" "Alice"
      100 400.
Proof.
  intros Hclaim. destruct alice_rejoin_100 as [rs Hout].
  apply Hclaim in Hout. rewrite alice_events_since_100 in Hout. discriminate.
Qed.

(** C2, amended. A rejoin that is let in answers with the room state and
    [missedEvents]; the latter are those of the state's drawing events (the
    persisted events of the room after its snapshot, after 0 without one)
    whose timestamp is strictly greater than the watermark [T]: exactly
    [drawingEventsSince(roomId, max(T, snapshot timestamp))], ascending by
    timestamp, none with timestamp [= T]; they are empty when [T] is absent
    or 0. *)
Theorem C2_rejoin_missedEvents c st roomId pid pname T now room :
  db.getRoom (server.st_db st) roomId = Some room →
  active_size (server.st_roomManager st) roomId
  < roomManager.maxPlayers_of room →
  ∃ rs missed rest,
    (server.handleRejoin c st roomId pid pname T now).2
    = (c, server.rejoinState (Some rs) missed pid pname) :: rest
    ∧ roomManager.drawingEvents rs
      = db.getDrawingEvents (server.st_db st) roomId
          (snapshot_timestamp (server.st_db st) roomId)
    ∧ missed
      = (if js.truthy_num T
         then db.getDrawingEvents (server.st_db st) roomId
                (Z.max (default 0 T)
                   (snapshot_timestamp (server.st_db st) roomId))
         else [])
    ∧ (∀ e, e ∈ missed
            ↔ js.truthy_num T = true
              ∧ ∃ row, row ∈ db.drawing_events (server.st_db st)
                       ∧ db.ev_room_id row = roomId
                       ∧ Z.max (default 0 T)
                           (snapshot_timestamp (server.st_db st) roomId)
                         < db.ev_timestamp row
                       ∧ e = db.event_of_row row)
    ∧ ascending missed
    ∧ Forall (λ e, default 0 T < de_timestamp e) missed.
Proof.
  intros Hroom Hfree.
  destruct (handleRejoin_accepted c st roomId pid pname T now room Hroom Hfree)
    as (rs & rest & Hout & Hev).
  exists rs, (server.missedEvents_of T (Some rs)), rest.
  split; [done|]. split; [done|].
  rewrite (missedEvents_of_state (server.st_db st) roomId T rs Hev).
  split; [done|]. destruct (js.truthy_num T).
  - split; [|split; [apply getDrawingEvents_ascending|]].
    + intros e. rewrite elem_of_getDrawingEvents. tauto.
    + eapply Forall_impl; [apply getDrawingEvents_since|].
      intros e He. simpl in He. lia.
  - split; [|split; constructor].
    intros e. split; [by intros ?%elem_of_nil | by intros [? _]].
Qed.

(** ** Replaying a room state *)

(** The persisted drawing events of a room, all of them, in ascending
    timestamp order (rows with equal timestamps in rowid order, which is
    their id order: ids are handed out increasing). *)
Definition room_rows (d : db.Database) (roomId : string) : list db.DrawingRow :=
  sql.order_by (sql.asc db.ev_timestamp)
    (filter (λ r, db.ev_room_id r = roomId) (db.drawing_events d)).

Definition full_history (d : db.Database) (roomId : string) : list DrawEvent :=
  db.event_of_row <$> room_rows d roomId.

(** The persisted drawing events of a room up to a timestamp, included. *)
Definition events_until (d : db.Database) (roomId : string) (t : Z)
    : list DrawEvent :=
  db.event_of_row <$> filter (λ r, db.ev_timestamp r ≤ t) (room_rows d roomId).

Lemma getDrawingEvents_room_rows d roomId since :
  db.getDrawingEvents d roomId since
  = db.event_of_row
    <$> filter (λ r, since < db.ev_timestamp r) (room_rows d roomId).
Proof.
  unfold db.getDrawingEvents, db.drawing_rows_since, room_rows. f_equal.
  rewrite (filter_order_by (sql.asc db.ev_timestamp))
    by (apply asc_total || apply asc_trans).
  f_equal. rewrite list_filter_filter. apply list_filter_iff.
  intros row. simpl. tauto.
Qed.

Lemma full_history_split d roomId t :
  full_history d roomId
  = events_until d roomId t ++ db.getDrawingEvents d roomId t.
Proof.
  rewrite getDrawingEvents_room_rows. unfold full_history, events_until.
  rewrite <- fmap_app. f_equal. apply sorted_split.
  apply order_by_sorted; [apply asc_total | apply asc_trans].
Qed.

Section replay.
Context {Canvas : Type}.
(** The canvas semantics is the clients': a blank canvas, the effect of one
    drawing event, and the canvas a snapshot's data decodes to. *)
Variable blank : Canvas.
Variable paint : Canvas → DrawEvent → Canvas.
Variable decode : string → Canvas.

Definition replay_events (c : Canvas) (events : list DrawEvent) : Canvas :=
  foldl paint c events.

(** Replaying a room state, in the order the clients' [handleRoomState]
    does it: a cleared canvas, the snapshot when there is one, then the
    drawing events one by one. *)
Definition replay_state (rs : roomManager.RoomState) : Canvas :=
  replay_events
    (match roomManager.canvasSnapshot rs with
     | Some data => decode data
     | None => blank
     end)
    (roomManager.drawingEvents rs).

Definition replay_history (d : db.Database) (roomId : string) : Canvas :=
  replay_events blank (full_history d roomId).

(** The round-trip law as the specification words it, for every state the
    server can be in. *)
Definition snapshot_replay_law : Prop :=
  ∀ st roomId now rs,
    server.reachable st →
    (roomManager.getRoomState (server.st_db st) (server.st_roomManager st)
       roomId now).2 = Some rs →
    is_Some (roomManager.canvasSnapshot rs) →
    replay_state rs = replay_history (server.st_db st) roomId.

End replay.

Lemma reachable_run st evs :
  server.reachable st → server.reachable (server.run st evs).1.
Proof.
  unfold server.run. generalize (@nil (nat * server.ServerMessage)) as sent.
  revert st. induction evs as [|ev evs IH]; intros st sent Hst; [done|].
  simpl. destruct (server.step st ev) as [st' out] eqn:Hstep.
  apply IH. change st' with (st', out).1. rewrite <- Hstep.
  by constructor.
Qed.

(** A snapshot arrives at 100; at 200 the same client replays a stroke it
    had buffered at 50. *)
Definition late_trace : list server.Event :=
  [ server.Connection 1;
    server.WsMessage 1
      (server.Join "chat-a" (Some "alice") (Some "Alice")) 10 "";
    server.WsMessage 1
      (server.CanvasSnapshot (Some "data:image/png;base64,AAAA")) 100 "" ].

Definition late_replay : server.Event :=
  server.WsMessage 1
    (server.QueueReplay
       (Some [ {| server.qe_type := "draw";
                  server.qe_points := [(1, 1); (2, 2)];
                  server.qe_color := "#000000"; server.qe_size := 2;
                  server.qe_tool := Some "pen"; server.qe_text := "";
                  server.qe_timestamp := Some 50 |} ])) 200 "".

Definition snapshot_state : server.State :=
  (server.run (server.startServer 0) late_trace).1.

Definition late_state : server.State :=
  (server.run (server.startServer 0) (late_trace ++ [late_replay])).1.

Example snapshot_state_view :
  (roomManager.getRoomState (server.st_db snapshot_state)
     (server.st_roomManager snapshot_state) "chat-a" 300).2
  = Some {| roomManager.roomId := "chat-a"; roomManager.roomName := "Chat A";
            roomManager.activePlayers :=
              [ {| roomManager.pi_playerId := "alice";
                   roomManager.pi_playerName := "Alice";
                   roomManager.pi_isDrawing := false |} ];
            roomManager.chatHistory := [];
            roomManager.drawingEvents := [];
            roomManager.canvasSnapshot := Some "data:image/png;base64,AAAA" |}
  ∧ full_history (server.st_db snapshot_state) "chat-a" = [].
Proof. vm_compute. done. Qed.

Example late_state_view :
  (roomManager.getRoomState (server.st_db late_state)
     (server.st_roomManager late_state) "chat-a" 300).2
  = Some {| roomManager.roomId := "chat-a"; roomManager.roomName := "Chat A";
            roomManager.activePlayers :=
              [ {| roomManager.pi_playerId := "alice";
                   roomManager.pi_playerName := "Alice";
                   roomManager.pi_isDrawing := false |} ];
            roomManager.chatHistory := [];
            roomManager.drawingEvents := [];
            roomManager.canvasSnapshot := Some "data:image/png;base64,AAAA" |}
  ∧ full_history (server.st_db late_state) "chat-a"
    = [stroke [(1, 1); (2, 2)] "alice" 50].
Proof. vm_compute. done. Qed.

(** Whatever the canvas semantics, the law forces the stroke replayed late
    to leave a blank canvas blank. *)
Lemma snapshot_replay_law_blank {Canvas} (blank : Canvas)
    (paint : Canvas → DrawEvent → Canvas) (decode : string → Canvas) :
  snapshot_replay_law blank paint decode →
  paint blank (stroke [(1, 1); (2, 2)] "alice" 50) = blank.
Proof.
  intros Hlaw.
  destruct snapshot_state_view as [Hview1 Hhist1].
  destruct late_state_view as [Hview2 Hhist2].
  pose proof (Hlaw snapshot_state "chat-a" 300 _
                (reachable_run _ _ (server.reachable_start 0)) Hview1
                (mk_is_Some _ _ eq_refl)) as H1.
  pose proof (Hlaw late_state "chat-a" 300 _
                (reachable_run _ _ (server.reachable_start 0)) Hview2
                (mk_is_Some _ _ eq_refl)) as H2.
  unfold replay_state, replay_history in H1, H2.
  rewrite Hhist1 in H1. rewrite Hhist2 in H2. simpl in H1, H2. congruence.
Qed.

(** C3, the claim as stated, fails: on a canvas that keeps the list of the
    strokes painted on it, no reading of the snapshot data makes the law
    hold. The snapshot saved at 100 is returned alone both before and after
    a stroke stamped 50 is appended to the log. *)
Lemma C3_counterexample :
  ¬ ∃ decode : string → list DrawEvent,
      snapshot_replay_law [] (λ canvas e, canvas ++ [e]) decode.
Proof.
  intros [decode Hlaw]. apply snapshot_replay_law_blank in Hlaw. discriminate.
Qed.

(** C3, amended. For a room with a snapshot, the room state carries the
    snapshot's data and exactly the persisted drawing events with a
    timestamp strictly greater than the snapshot's, ascending by timestamp;
    replaying it gives the canvas of the full persisted history whenever the
    snapshot's data is the canvas of the persisted events up to the
    snapshot's timestamp. *)
Theorem C3_snapshot_replay {Canvas} (blank : Canvas)
    (paint : Canvas → DrawEvent → Canvas) (decode : string → Canvas)
    d rm roomId now room s :
  db.getRoom d roomId = Some room →
  db.getCanvasSnapshot d roomId = Some s →
  decode (db.snapshotData s)
  = replay_events paint blank (events_until d roomId (db.timestamp s)) →
  ∃ rs,
    (roomManager.getRoomState d rm roomId now).2 = Some rs
    ∧ roomManager.canvasSnapshot rs = Some (db.snapshotData s)
    ∧ roomManager.drawingEvents rs
      = db.getDrawingEvents d roomId (db.timestamp s)
    ∧ ascending (roomManager.drawingEvents rs)
    ∧ replay_state blank paint decode rs = replay_history blank paint d roomId.
Proof.
  intros Hroom Hsnap Hdecode.
  destruct (getRoomState_known d rm roomId now room Hroom)
    as (rs & Hrs & Hev & Hcs & _).
  unfold snapshot_timestamp in Hev. rewrite Hsnap in Hev, Hcs. simpl in Hcs.
  exists rs. repeat split; try done.
  - rewrite Hev. apply getDrawingEvents_ascending.
  - unfold replay_state, replay_history. rewrite Hcs, Hev, Hdecode.
    rewrite (full_history_split d roomId (db.timestamp s)).
    unfold replay_events. by rewrite foldl_app.
Qed.

(** ** Compaction *)

(** C4. The cleanup pass only deletes drawing events: it keeps every
    snapshot, and every drawing event with a timestamp at or after the
    cutoff. A drawing event it deletes is older than the cutoff and its room
    has a snapshot taken after the cutoff (so with a timestamp [>=] the
    cutoff), which is later than the event. *)
Theorem C4_compaction_safety d now maxAgeMs :
  let cutoff := now - maxAgeMs in
  let d' := db.cleanupOldData d now maxAgeMs in
  db.canvas_snapshots d' = db.canvas_snapshots d
  ∧ (∀ row, row ∈ db.drawing_events d' → row ∈ db.drawing_events d)
  ∧ (∀ row, row ∈ db.drawing_events d → cutoff ≤ db.ev_timestamp row →
       row ∈ db.drawing_events d')
  ∧ (∀ row, row ∈ db.drawing_events d → row ∉ db.drawing_events d' →
       db.ev_timestamp row < cutoff
       ∧ ∃ snap, snap ∈ db.canvas_snapshots d'
                 ∧ db.snap_room_id snap = db.ev_room_id row
                 ∧ cutoff ≤ db.snap_timestamp snap
                 ∧ db.ev_timestamp row < db.snap_timestamp snap).
Proof.
  simpl. split; [done|]. split; [|split].
  - intros row Hrow. by apply list_elem_of_filter in Hrow as [_ ?].
  - intros row Hrow Hts. apply list_elem_of_filter. split; [|done].
    intros [Hold _]. lia.
  - intros row Hrow Hgone.
    destruct (decide (db.ev_timestamp row < now - maxAgeMs
                      ∧ db.ev_room_id row
                        ∈ db.rooms_with_snapshot_after d (now - maxAgeMs)))
      as [[Hold Hin]|Hkeep].
    + split; [done|]. unfold db.rooms_with_snapshot_after in Hin.
      apply list_elem_of_fmap in Hin as (snap & Hroom & Hsnap).
      apply list_elem_of_filter in Hsnap as [Hts Hsnap].
      exists snap. repeat split; [done | done | lia | lia].
    + exfalso. apply Hgone. apply list_elem_of_filter. by split.
Qed.

(** ** One snapshot per room *)

Definition snapshots_of (d : db.Database) (roomId : string)
    : list db.SnapshotRow :=
  filter (λ s, db.snap_room_id s = roomId) (db.canvas_snapshots d).

Definition one_snapshot (d : db.Database) : Prop :=
  ∀ roomId, (length (snapshots_of d roomId) ≤ 1)%nat.

Lemma one_snapshot_same d d' :
  db.canvas_snapshots d' = db.canvas_snapshots d →
  one_snapshot d → one_snapshot d'.
Proof. unfold one_snapshot, snapshots_of. by intros ->. Qed.

Lemma one_snapshot_filter d d' (P : db.SnapshotRow → Prop)
    `{!∀ s, Decision (P s)} :
  db.canvas_snapshots d' = filter P (db.canvas_snapshots d) →
  one_snapshot d → one_snapshot d'.
Proof.
  unfold one_snapshot, snapshots_of. intros -> Hone roomId.
  rewrite list_filter_filter.
  rewrite (list_filter_iff _ (λ s, P s ∧ db.snap_room_id s = roomId))
    by (intros s; tauto).
  rewrite <- list_filter_filter.
  etrans; [apply length_filter | apply Hone].
Qed.

Lemma snapshots_of_save d roomId data t :
  snapshots_of (db.saveCanvasSnapshot d roomId data t) roomId
  = [ {| db.snap_id := db.canvas_snapshots_seq d + 1;
         db.snap_room_id := roomId; db.snap_snapshot_data := data;
         db.snap_timestamp := t |} ].
Proof.
  unfold snapshots_of. simpl. rewrite filter_app, list_filter_filter.
  rewrite filter_none; [|apply Forall_forall; intros s _ [? ?]; done].
  by rewrite filter_cons_True.
Qed.

Lemma snapshots_of_save_ne d roomId data t roomId' :
  roomId' ≠ roomId →
  snapshots_of (db.saveCanvasSnapshot d roomId data t) roomId'
  = snapshots_of d roomId'.
Proof.
  intros Hne. unfold snapshots_of. simpl.
  rewrite filter_app, list_filter_filter, filter_cons_False, filter_nil, app_nil_r
    by (simpl; congruence).
  apply list_filter_iff. intros s. split; [tauto | intros ?; split; congruence].
Qed.

Lemma one_snapshot_save d roomId data t :
  one_snapshot d → one_snapshot (db.saveCanvasSnapshot d roomId data t).
Proof.
  intros Hone roomId'. destruct (decide (roomId' = roomId)) as [->|Hne].
  - by rewrite snapshots_of_save.
  - rewrite snapshots_of_save_ne by done. apply Hone.
Qed.

Lemma getCanvasSnapshot_save d roomId data t :
  db.getCanvasSnapshot (db.saveCanvasSnapshot d roomId data t) roomId
  = Some {| db.snapshotData := data; db.timestamp := t |}.
Proof.
  unfold db.getCanvasSnapshot.
  change (filter _ (db.canvas_snapshots (db.saveCanvasSnapshot d roomId data t)))
    with (snapshots_of (db.saveCanvasSnapshot d roomId data t) roomId).
  by rewrite snapshots_of_save.
Qed.

Create HintDb snapshots.

Lemma one_snapshot_empty : one_snapshot db.empty.
Proof. intros roomId. unfold snapshots_of. simpl. lia. Qed.

Lemma one_snapshot_createRoom d id name isCustom now :
  one_snapshot d → one_snapshot (db.createRoom d id name isCustom now).
Proof. by apply one_snapshot_same. Qed.

Lemma one_snapshot_deleteRoom d roomId :
  one_snapshot d → one_snapshot (db.deleteRoom d roomId).
Proof. by eapply one_snapshot_filter. Qed.

Lemma one_snapshot_addChatMessage d roomId pid pname text t :
  one_snapshot d → one_snapshot (db.addChatMessage d roomId pid pname text t).
Proof. by apply one_snapshot_same. Qed.

Lemma one_snapshot_addDrawingEvent d roomId pid type data t :
  one_snapshot d → one_snapshot (db.addDrawingEvent d roomId pid type data t).
Proof. by apply one_snapshot_same. Qed.

Lemma one_snapshot_clearDrawingEvents d roomId :
  one_snapshot d → one_snapshot (db.clearDrawingEvents d roomId).
Proof. by apply one_snapshot_same. Qed.

Lemma one_snapshot_clearCanvasSnapshot d roomId :
  one_snapshot d → one_snapshot (db.clearCanvasSnapshot d roomId).
Proof. by eapply one_snapshot_filter. Qed.

Lemma one_snapshot_cleanupOldData d now maxAgeMs :
  one_snapshot d → one_snapshot (db.cleanupOldData d now maxAgeMs).
Proof. by apply one_snapshot_same. Qed.

#[export] Hint Resolve one_snapshot_empty one_snapshot_createRoom
  one_snapshot_deleteRoom one_snapshot_addChatMessage
  one_snapshot_addDrawingEvent one_snapshot_clearDrawingEvents
  one_snapshot_clearCanvasSnapshot one_snapshot_cleanupOldData
  one_snapshot_save : snapshots.

Lemma one_snapshot_initializeDefaultRooms d now :
  one_snapshot d → one_snapshot (roomManager.initializeDefaultRooms d now).
Proof.
  unfold roomManager.initializeDefaultRooms.
  generalize roomManager.default_rooms. intros rooms. revert d.
  induction rooms as [|[roomId name] rooms IH]; intros d Hone; [done|].
  simpl. apply IH. destruct (db.getRoom d roomId); auto with snapshots.
Qed.

Lemma one_snapshot_manager_deleteRoom d rm roomId :
  one_snapshot d → one_snapshot (roomManager.deleteRoom d rm roomId).1.1.
Proof.
  intros Hone. unfold roomManager.deleteRoom.
  destruct (db.getRoom d roomId) as [room|]; [|done].
  destruct (db.room_is_custom room =? 1); simpl; auto with snapshots.
Qed.

Lemma one_snapshot_cleanup_one now maxInactiveMs entry s :
  one_snapshot s.1 →
  one_snapshot (roomManager.cleanup_one now maxInactiveMs entry s).1.
Proof.
  destruct entry as [roomId activeRoom], s as [d rm]. simpl. intros Hone.
  destruct (_ && _); [|done].
  destruct (db.getRoom d roomId) as [room|] eqn:Hroom; [|done].
  destruct (db.room_is_custom room =? 1) eqn:Hcustom; [|done].
  pose proof (one_snapshot_manager_deleteRoom d rm roomId Hone) as Hdel.
  by destruct (roomManager.deleteRoom d rm roomId) as [[d' rm'] ok].
Qed.

Lemma one_snapshot_cleanupInactiveRooms d rm now maxInactiveMs :
  one_snapshot d →
  one_snapshot (roomManager.cleanupInactiveRooms d rm now maxInactiveMs).1.
Proof.
  intros Hone. unfold roomManager.cleanupInactiveRooms.
  induction (map_to_list (roomManager.activeRooms rm)) as [|entry l IH];
    [done|].
  simpl. by apply one_snapshot_cleanup_one.
Qed.

Lemma one_snapshot_store_draw st s ev now :
  one_snapshot (server.st_db st) →
  one_snapshot (server.st_db (server.store_draw st s ev now).1).
Proof.
  intros Hone. unfold server.store_draw, roomManager.addDrawingEvent.
  destruct (roomManager.getActiveRoom _ _ _) as [rm1 activeRoom]. simpl.
  auto with snapshots.
Qed.

Lemma one_snapshot_store_chat st s msg now :
  one_snapshot (server.st_db st) →
  one_snapshot (server.st_db (server.store_chat st s msg now).1).
Proof. intros Hone. simpl. auto with snapshots. Qed.

Lemma one_snapshot_replay_one s now acc e :
  one_snapshot (server.st_db acc.1) →
  one_snapshot (server.st_db (server.replay_one s now acc e).1).
Proof.
  destruct acc as [st sent]. intros Hone. simpl in Hone.
  unfold server.replay_one.
  destruct (String.eqb (server.qe_type e) "draw").
  - match goal with
    | |- context [server.store_draw ?st ?s ?ev ?now] =>
        pose proof (one_snapshot_store_draw st s ev now Hone);
        by destruct (server.store_draw st s ev now)
    end.
  - destruct (String.eqb (server.qe_type e) "message"); [|done].
    match goal with
    | |- context [server.store_chat ?st ?s ?m ?now] =>
        pose proof (one_snapshot_store_chat st s m now Hone);
        by destruct (server.store_chat st s m now)
    end.
Qed.

Lemma one_snapshot_enter_room c st roomId pid pname missing reply isRejoin now :
  one_snapshot (server.st_db st) →
  one_snapshot
    (server.st_db
       (server.enter_room c st roomId pid pname missing reply isRejoin now).1).
Proof.
  intros Hone. unfold server.enter_room.
  destruct (negb _); [done|].
  destruct (roomManager.addPlayer _ _ _ _ _) as [rm1 added].
  destruct (negb added); [done|].
  by destruct (roomManager.getRoomState _ _ _ _) as [rm2 rs].
Qed.

Lemma one_snapshot_handleMessage c conn st m now uuid :
  one_snapshot (server.st_db st) →
  one_snapshot (server.st_db (server.handleMessage c conn st m now uuid).1).
Proof.
  intros Hone.
  destruct m as [roomId pid pname|roomId pid pname last|points color size tool
                | |text| | |data|events|type| ]; simpl; try done.
  - by apply one_snapshot_enter_room.
  - by apply one_snapshot_enter_room.
  - unfold server.handleDraw. destruct (server.attached conn); [|done].
    by apply one_snapshot_store_draw.
  - unfold server.handleClear. destruct (server.attached conn); [|done].
    simpl. auto with snapshots.
  - unfold server.handleChatMessage. destruct (server.attached conn); [|done].
    destruct (server.chat_text_ok text); [|done].
    by apply one_snapshot_store_chat.
  - unfold server.handleDrawIndicator. by destruct (server.attached conn).
  - unfold server.handleDrawIndicator. by destruct (server.attached conn).
  - unfold server.handleCanvasSnapshot. destruct (server.attached conn); [|done].
    destruct (js.truthy data); [|done]. simpl. auto with snapshots.
  - unfold server.handleQueueReplay. destruct (server.attached conn) as [s|];
      [|done].
    destruct events as [events|]; [|done].
    assert (one_snapshot (server.st_db (st, @nil (nat * server.ServerMessage)).1))
      as Hacc by done.
    revert Hacc. generalize (st, @nil (nat * server.ServerMessage)).
    induction events as [|e events IH]; intros acc Hacc; [done|].
    simpl. apply IH. by apply one_snapshot_replay_one.
Qed.

Lemma one_snapshot_step st ev :
  one_snapshot (server.st_db st) →
  one_snapshot (server.st_db (server.step st ev).1).
Proof.
  intros Hone. destruct ev as [c|c m now uuid|c now|name uuid now|roomId|now];
    simpl.
  - by destruct (server.st_conns st !! c).
  - destruct (server.st_conns st !! c) as [conn|]; [|done].
    destruct (server.isOpen conn); [|done].
    by apply one_snapshot_handleMessage.
  - destruct (server.st_conns st !! c) as [conn|]; [|done].
    destruct (server.isOpen conn); [|done].
    unfold server.handleClose. destruct (server.attached conn); [|done].
    by destruct (roomManager.removePlayer _ _ _ _ _).
  - unfold server.post_rooms. destruct (_ || _); [done|].
    destruct (20 <? _); [done|]. simpl. auto with snapshots.
  - unfold server.delete_rooms.
    destruct (roomManager.getRoomInfo _ _ _) as [info|]; [|done].
    destruct (negb _); [done|]. destruct (0 <? _); [done|].
    pose proof (one_snapshot_manager_deleteRoom (server.st_db st)
                  (server.st_roomManager st) roomId Hone).
    by destruct (roomManager.deleteRoom _ _ _) as [[d rm] ok].
  - unfold server.hourly.
    pose proof (one_snapshot_cleanupInactiveRooms (server.st_db st)
                  (server.st_roomManager st) now
                  roomManager.default_maxInactiveMs Hone).
    destruct (roomManager.cleanupInactiveRooms _ _ _ _) as [d rm].
    simpl. auto with snapshots.
Qed.

(** C8. In every state the server reaches a room has at most one snapshot,
    and every operation of the server keeps it so. [saveCanvasSnapshot]
    leaves exactly the new snapshot for its room, which [getCanvasSnapshot]
    then returns, and does not touch the snapshots of the other rooms. *)
Theorem C8_single_snapshot :
  (∀ st, server.reachable st → one_snapshot (server.st_db st))
  ∧ (∀ st ev, one_snapshot (server.st_db st) →
       one_snapshot (server.st_db (server.step st ev).1))
  ∧ (∀ d roomId data t,
       snapshots_of (db.saveCanvasSnapshot d roomId data t) roomId
       = [ {| db.snap_id := db.canvas_snapshots_seq d + 1;
              db.snap_room_id := roomId; db.snap_snapshot_data := data;
              db.snap_timestamp := t |} ]
       ∧ db.getCanvasSnapshot (db.saveCanvasSnapshot d roomId data t) roomId
         = Some {| db.snapshotData := data; db.timestamp := t |}
       ∧ ∀ roomId', roomId' ≠ roomId →
           snapshots_of (db.saveCanvasSnapshot d roomId data t) roomId'
           = snapshots_of d roomId').
Proof.
  split; [|split].
  - induction 1 as [now|st ev Hst IH].
    + apply one_snapshot_initializeDefaultRooms, one_snapshot_empty.
    + by apply one_snapshot_step.
  - apply one_snapshot_step.
  - intros d roomId data t. split; [apply snapshots_of_save|].
    split; [apply getCanvasSnapshot_save|].
    intros roomId' Hne. by apply snapshots_of_save_ne.
Qed.

(** ** Storing and broadcasting *)

(** Two states with the same open sockets and the same players in every
    room: a broadcast reaches the same sockets in both. *)
Definition same_audience (st st' : server.State) : Prop :=
  (∀ c, server.ws_open st' c = server.ws_open st c)
  ∧ ∀ roomId,
      roomManager.getPlayersInRoom (server.st_roomManager st') roomId
      = roomManager.getPlayersInRoom (server.st_roomManager st) roomId.

Lemma same_audience_refl st : same_audience st st.
Proof. done. Qed.

Lemma same_audience_trans st1 st2 st3 :
  same_audience st1 st2 → same_audience st2 st3 → same_audience st1 st3.
Proof.
  intros [Hc1 Hp1] [Hc2 Hp2]. split.
  - intros c. by rewrite Hc2, Hc1.
  - intros roomId. by rewrite Hp2, Hp1.
Qed.

Lemma broadcastToRoom_same st st' roomId msg exclude :
  same_audience st st' →
  server.broadcastToRoom st' roomId msg exclude
  = server.broadcastToRoom st roomId msg exclude.
Proof.
  intros [Hconns Hplayers]. unfold server.broadcastToRoom.
  rewrite Hplayers. f_equal. apply list_filter_iff. intros player.
  by rewrite Hconns.
Qed.

(** A broadcast without an excluded player: one copy for each player of
    the room whose socket is open, in the order of the room's players. *)
Lemma broadcastToRoom_open st roomId msg :
  server.broadcastToRoom st roomId msg None
  = (λ p, (roomManager.ws p, msg))
    <$> filter (λ p, server.ws_open st (roomManager.ws p) = true)
          (roomManager.getPlayersInRoom (server.st_roomManager st) roomId).
Proof.
  unfold server.broadcastToRoom. f_equal. apply list_filter_iff.
  intros p. split; [by intros [_ ?]|by split].
Qed.

(** A broadcast that excludes a player: one copy for each player of the
    room under another id whose socket is open. *)
Lemma broadcastToRoom_others st roomId msg pid :
  server.broadcastToRoom st roomId msg (Some pid)
  = (λ p, (roomManager.ws p, msg))
    <$> filter (λ p, roomManager.playerId p ≠ pid
                     ∧ server.ws_open st (roomManager.ws p) = true)
          (roomManager.getPlayersInRoom (server.st_roomManager st) roomId).
Proof.
  unfold server.broadcastToRoom. f_equal. apply list_filter_iff.
  intros p. split; intros [Hid Hopen]; (split; [congruence|done]).
Qed.

Lemma getPlayersInRoom_touch rm roomId now roomId' :
  roomManager.getPlayersInRoom (roomManager.touch rm roomId now) roomId'
  = roomManager.getPlayersInRoom rm roomId'.
Proof.
  unfold roomManager.touch, roomManager.getPlayersInRoom.
  destruct (roomManager.activeRooms rm !! roomId) as [activeRoom|] eqn:E;
    [|done].
  simpl. destruct (decide (roomId = roomId')) as [<-|Hne].
  - by rewrite lookup_insert_eq, E.
  - by rewrite lookup_insert_ne.
Qed.

Lemma getPlayersInRoom_addDrawingEvent d rm roomId ev now roomId' :
  roomManager.getPlayersInRoom
    (roomManager.addDrawingEvent d rm roomId ev now).2 roomId'
  = roomManager.getPlayersInRoom rm roomId'.
Proof.
  unfold roomManager.addDrawingEvent.
  pose proof (getPlayersInRoom_getActiveRoom rm roomId now roomId') as Hsame.
  pose proof (getActiveRoom_players rm roomId now) as Hplayers.
  destruct (roomManager.getActiveRoom rm roomId now) as [rm1 activeRoom].
  simpl in *. rewrite <- Hsame.
  unfold roomManager.getPlayersInRoom at 1. simpl.
  destruct (decide (roomId = roomId')) as [<-|Hne].
  - rewrite lookup_insert_eq. simpl. by rewrite Hplayers, Hsame.
  - by rewrite lookup_insert_ne.
Qed.

(** The row [addDrawingEvent] inserts for an event. *)
Definition drawing_row (d : db.Database) (roomId : string) (ev : DrawEvent)
    : db.DrawingRow :=
  {| db.ev_id := db.drawing_events_seq d + 1;
     db.ev_room_id := roomId;
     db.ev_player_id := de_playerId ev;
     db.ev_event_type := js.or_else (Some (de_type ev)) "draw";
     db.ev_event_data :=
       {| db.points := de_points ev; db.color := de_color ev;
          db.size := de_size ev; db.tool := de_tool ev |};
     db.ev_timestamp := de_timestamp ev |}.

(** The row [addChatMessage] inserts for a message. *)
Definition chat_row (d : db.Database) (roomId : string) (m : ChatMessage)
    : db.ChatRow :=
  {| db.chat_id := db.chat_messages_seq d + 1;
     db.chat_room_id := roomId;
     db.chat_player_id := msg_playerId m;
     db.chat_player_name := msg_playerName m;
     db.chat_message := msg_text m;
     db.chat_timestamp := msg_timestamp m |}.

Lemma store_draw_spec st s ev now :
  let r := server.store_draw st s ev now in
  db.drawing_events (server.st_db r.1)
  = db.drawing_events (server.st_db st)
    ++ [drawing_row (server.st_db st) (server.currentRoomId s) ev]
  ∧ db.drawing_events_seq (server.st_db r.1)
    = db.drawing_events_seq (server.st_db st) + 1
  ∧ db.chat_messages (server.st_db r.1) = db.chat_messages (server.st_db st)
  ∧ db.chat_messages_seq (server.st_db r.1)
    = db.chat_messages_seq (server.st_db st)
  ∧ same_audience st r.1
  ∧ r.2 = server.broadcastToRoom st (server.currentRoomId s) (server.draw ev)
            (Some (server.playerId s)).
Proof.
  unfold server.store_draw.
  pose proof (getPlayersInRoom_addDrawingEvent (server.st_db st)
                (server.st_roomManager st) (server.currentRoomId s) ev now)
    as Hplayers.
  assert ((roomManager.addDrawingEvent (server.st_db st)
             (server.st_roomManager st) (server.currentRoomId s) ev now).1
          = db.addDrawingEvent (server.st_db st) (server.currentRoomId s)
              (de_playerId ev) (js.or_else (Some (de_type ev)) "draw")
              {| db.points := de_points ev; db.color := de_color ev;
                 db.size := de_size ev; db.tool := de_tool ev |}
              (de_timestamp ev)) as Hdb.
  { unfold roomManager.addDrawingEvent.
    by destruct (roomManager.getActiveRoom _ _ _). }
  destruct (roomManager.addDrawingEvent _ _ _ _ _) as [d rm].
  simpl in *. subst d. simpl.
  assert (same_audience st
            (server.with_db_manager st
               (db.addDrawingEvent (server.st_db st) (server.currentRoomId s)
                  (de_playerId ev) (js.or_else (Some (de_type ev)) "draw")
                  {| db.points := de_points ev; db.color := de_color ev;
                     db.size := de_size ev; db.tool := de_tool ev |}
                  (de_timestamp ev)) rm)) as Hsame by done.
  repeat split; try done. by apply broadcastToRoom_same.
Qed.

Lemma store_chat_spec st s m now :
  let r := server.store_chat st s m now in
  db.chat_messages (server.st_db r.1)
  = db.chat_messages (server.st_db st)
    ++ [chat_row (server.st_db st) (server.currentRoomId s) m]
  ∧ db.chat_messages_seq (server.st_db r.1)
    = db.chat_messages_seq (server.st_db st) + 1
  ∧ db.drawing_events (server.st_db r.1) = db.drawing_events (server.st_db st)
  ∧ db.drawing_events_seq (server.st_db r.1)
    = db.drawing_events_seq (server.st_db st)
  ∧ same_audience st r.1
  ∧ r.2 = server.broadcastToRoom st (server.currentRoomId s)
            (server.message m) None.
Proof.
  simpl.
  assert (same_audience st (server.store_chat st s m now).1) as Hsame.
  { split; [done|]. intros roomId. simpl. apply getPlayersInRoom_touch. }
  repeat split; try done; try apply Hsame.
  by apply broadcastToRoom_same.
Qed.

(** ** Chat messages *)

Lemma js_length_zero s : js.length s = 0 ↔ s = "".
Proof. unfold js.length. destruct s; simpl; split; (done || lia). Qed.

(** What the handler's validation accepts: a text that is not blank and
    whose length, before trimming, is at most 140. *)
Lemma chat_text_ok_iff text :
  server.chat_text_ok text = true
  ↔ js.trim text ≠ "" ∧ js.length text ≤ 140.
Proof.
  unfold server.chat_text_ok, js.truthy.
  rewrite !andb_true_iff, !negb_true_iff, Z.eqb_neq, Z.ltb_ge, js_length_zero.
  split; [tauto|]. intros [Htrim Hlen]. repeat split; try done.
  destruct text; [done|]. reflexivity.
Qed.

(** The validation as the specification words it: the text is empty, or
    longer than 140, after trimming. *)
Definition text_invalid (text : string) : Prop :=
  js.trim text = "" ∨ 140 < js.length (js.trim text).

(** The claim as the specification words it, for an invalid text: nothing
    changes and the client is told. *)
Definition invalid_chat_notified (c : nat) (conn : server.Conn)
    (st : server.State) (text : string) (now : Z) : Prop :=
  text_invalid text →
  (server.handleChatMessage conn st text now).1 = st
  ∧ ∃ reason,
      (c, server.error reason) ∈ (server.handleChatMessage conn st text now).2.

Definition joined_trace : list server.Event :=
  [ server.Connection 1;
    server.WsMessage 1
      (server.Join "chat-a" (Some "alice") (Some "Alice")) 10 "" ].

Definition joined_state : server.State :=
  (server.run (server.startServer 0) joined_trace).1.

Definition alice_conn : server.Conn :=
  {| server.session :=
       Some {| server.playerId := "alice"; server.playerName := "Alice";
               server.currentRoomId := "chat-a" |};
     server.isOpen := true |}.

Example joined_state_conn : server.st_conns joined_state !! 1%nat = Some alice_conn.
Proof. vm_compute. reflexivity. Qed.

Example blank_chat_dropped :
  server.handleChatMessage alice_conn joined_state "   " 50 = (joined_state, []).
Proof. vm_compute. reflexivity. Qed.

(** 139 letters followed by 5 spaces: 139 characters after trimming, 144
    before. *)
Definition padded_text : string :=
  String.string_of_list_ascii
    (replicate 139 (Ascii.ascii_of_nat 97) ++ replicate 5 (Ascii.ascii_of_nat 32)).

Example padded_chat_dropped :
  ¬ text_invalid padded_text
  ∧ server.handleChatMessage alice_conn joined_state padded_text 50
    = (joined_state, []).
Proof.
  split; [|vm_compute; reflexivity].
  intros [Hempty|Hlong].
  - vm_compute in Hempty. discriminate.
  - vm_compute in Hlong. discriminate.
Qed.

(** C5, the claim as stated, fails: a blank text from a player of the room
    is dropped without a word to the client. *)
Lemma C5_counterexample :
  ¬ invalid_chat_notified 1 alice_conn joined_state "   " 50.
Proof.
  intros Hclaim. destruct Hclaim as [_ [reason Hsent]].
  - left. vm_compute. reflexivity.
  - rewrite blank_chat_dropped in Hsent. simpl in Hsent. by apply elem_of_nil in Hsent.
Qed.

(** C5, amended. For a connection that has joined, a chat text is kept
    exactly when it is not blank and its length before trimming is at most
    140. A text that is not kept is dropped silently: the state is unchanged
    and nothing is sent, to the sender or to anyone. A text that is kept is
    persisted trimmed, stamped with the sender's identity and the time of
    receipt, and broadcast: the sends are exactly one copy of the message
    for each player of the room whose socket is open, the sender's own seat
    included, in the order of the room's players. *)
Theorem C5_chat_validation conn st s text now :
  server.attached conn = Some s →
  let r := server.handleChatMessage conn st text now in
  let room := server.currentRoomId s in
  let chatMessage :=
    {| msg_text := js.trim text; msg_playerId := server.playerId s;
       msg_playerName := server.playerName s; msg_timestamp := now |} in
  (server.chat_text_ok text = true
   ↔ js.trim text ≠ "" ∧ js.length text ≤ 140)
  ∧ (server.chat_text_ok text = false → r = (st, []))
  ∧ (server.chat_text_ok text = true →
       db.chat_messages (server.st_db r.1)
       = db.chat_messages (server.st_db st)
         ++ [chat_row (server.st_db st) room chatMessage]
       ∧ r.2 = (λ p, (roomManager.ws p, server.message chatMessage))
               <$> filter
                     (λ p, server.ws_open st (roomManager.ws p) = true)
                     (roomManager.getPlayersInRoom
                        (server.st_roomManager st) room)
       ∧ ∀ p,
           p ∈ roomManager.getPlayersInRoom (server.st_roomManager st) room →
           server.ws_open st (roomManager.ws p) = true →
           (roomManager.ws p, server.message chatMessage) ∈ r.2).
Proof.
  intros Hs. cbv zeta. split; [apply chat_text_ok_iff|].
  unfold server.handleChatMessage. rewrite Hs. split.
  - by intros ->.
  - intros ->.
    match goal with
    | |- context [server.store_chat ?st ?s ?m ?now] =>
        destruct (store_chat_spec st s m now) as (Hchat & _ & _ & _ & _ & Hout)
    end.
    cbv zeta in Hchat, Hout. rewrite Hout, broadcastToRoom_open.
    split; [exact Hchat|]. split; [done|].
    intros p Hp Hopen. apply list_elem_of_fmap. exists p.
    split; [done|]. by apply list_elem_of_filter.
Qed.

(** ** Replaying a client's queue *)

(** The timestamp a replayed event gets: its own unless that is missing or
    0, else the time of receipt ([event.timestamp || Date.now()]). *)
Definition replay_stamp (e : server.QueuedEvent) (now : Z) : Z :=
  match server.qe_timestamp e with
  | Some t => if t =? 0 then now else t
  | None => now
  end.

(** The drawing event built from a replayed [draw], attributed to the
    replaying connection. *)
Definition replayed_draw (s : server.Session) (e : server.QueuedEvent)
    (now : Z) : DrawEvent :=
  {| de_type := "draw"; de_points := server.qe_points e;
     de_color := server.qe_color e; de_size := server.qe_size e;
     de_tool := match server.qe_tool e with
                | Some t => if String.eqb t "" then "pen" else t
                | None => "pen"
                end;
     de_playerId := server.playerId s;
     de_timestamp := replay_stamp e now |}.

(** The chat message built from a replayed [message]. *)
Definition replayed_chat (s : server.Session) (e : server.QueuedEvent)
    (now : Z) : ChatMessage :=
  {| msg_text := server.qe_text e; msg_playerId := server.playerId s;
     msg_playerName := server.playerName s;
     msg_timestamp := replay_stamp e now |}.

Lemma or_else_num_stamp e now :
  js.or_else_num (server.qe_timestamp e) now = replay_stamp e now.
Proof.
  unfold js.or_else_num, replay_stamp, js.truthy_num.
  destruct (server.qe_timestamp e) as [t|]; [|done]. by destruct (t =? 0).
Qed.

Lemma or_else_tool e :
  js.or_else (server.qe_tool e) "pen"
  = match server.qe_tool e with
    | Some t => if String.eqb t "" then "pen" else t
    | None => "pen"
    end.
Proof.
  unfold js.or_else, js.truthy.
  destruct (server.qe_tool e) as [t|]; [|done]. by destruct (String.eqb t "").
Qed.

Lemma replay_one_draw s now st sent e :
  server.qe_type e = "draw" →
  server.replay_one s now (st, sent) e
  = ((server.store_draw st s (replayed_draw s e now) now).1,
     sent ++ (server.store_draw st s (replayed_draw s e now) now).2).
Proof.
  intros Htype. unfold server.replay_one. rewrite Htype. simpl String.eqb.
  cbv iota. rewrite or_else_num_stamp, or_else_tool.
  fold (replayed_draw s e now).
  by destruct (server.store_draw st s (replayed_draw s e now) now).
Qed.

Lemma replay_one_message s now st sent e :
  server.qe_type e = "message" →
  server.replay_one s now (st, sent) e
  = ((server.store_chat st s (replayed_chat s e now) now).1,
     sent ++ (server.store_chat st s (replayed_chat s e now) now).2).
Proof.
  intros Htype. unfold server.replay_one. rewrite Htype. simpl String.eqb.
  cbv iota. rewrite or_else_num_stamp. fold (replayed_chat s e now).
  by destruct (server.store_chat st s (replayed_chat s e now) now).
Qed.

Lemma replay_one_other s now acc e :
  server.qe_type e ≠ "draw" → server.qe_type e ≠ "message" →
  server.replay_one s now acc e = acc.
Proof.
  intros Hd Hm. unfold server.replay_one. destruct acc as [st sent].
  apply String.eqb_neq in Hd, Hm. by rewrite Hd, Hm.
Qed.

(** The claim as the specification words it, for the timestamp of a
    replayed [draw]: the row appended for it carries the timestamp of the
    event whenever the event has one. *)
Definition replay_takes_timestamp (conn : server.Conn) (st : server.State)
    (e : server.QueuedEvent) (now : Z) : Prop :=
  ∀ t,
    server.qe_timestamp e = Some t →
    db.ev_timestamp
    <$> last (db.drawing_events
                (server.st_db
                   (server.handleQueueReplay conn st (Some [e]) now).1))
    = Some t.

(** A stroke buffered with the timestamp 0. *)
Definition unstamped_stroke : server.QueuedEvent :=
  {| server.qe_type := "draw"; server.qe_points := [(1, 1); (2, 2)];
     server.qe_color := "#000000"; server.qe_size := 2;
     server.qe_tool := Some "pen"; server.qe_text := "";
     server.qe_timestamp := Some 0 |}.

(** C6, the claim as stated, fails: a buffered event whose timestamp is
    present and 0 is stamped with the time of receipt, here 50. *)
Lemma C6_counterexample :
  ¬ replay_takes_timestamp alice_conn joined_state unstamped_stroke 50.
Proof.
  intros Hclaim. specialize (Hclaim 0 eq_refl).
  vm_compute in Hclaim. discriminate.
Qed.

(** C6, amended. A queue replay from a connection that has joined handles
    the buffered events one by one, in order. A [draw] is appended to the
    drawing events, a [message] to the chat messages, each attributed to the
    replaying connection and stamped with the event's own timestamp when
    that is present and not 0, and with the time of receipt otherwise. Each
    is broadcast: a [draw] is sent once to each player of the room, under
    another id than the replaying one, whose socket is open, and a [message]
    once to each player of the room whose socket is open. Any other kind is
    skipped. Nothing is deduplicated: the same [draw] twice gives two rows
    and sends every recipient the same message twice. *)
Theorem C6_queueReplay conn st s now :
  server.attached conn = Some s →
  let room := server.currentRoomId s in
  let others st0 :=
    filter (λ p, roomManager.playerId p ≠ server.playerId s
                 ∧ server.ws_open st0 (roomManager.ws p) = true)
      (roomManager.getPlayersInRoom (server.st_roomManager st0) room) in
  let everyone st0 :=
    filter (λ p, server.ws_open st0 (roomManager.ws p) = true)
      (roomManager.getPlayersInRoom (server.st_roomManager st0) room) in
  server.handleQueueReplay conn st (Some []) now = (st, [])
  ∧ (∀ evs e,
       server.handleQueueReplay conn st (Some (evs ++ [e])) now
       = server.replay_one s now
           (server.handleQueueReplay conn st (Some evs) now) e)
  ∧ (∀ e,
       replay_stamp e now
       = match server.qe_timestamp e with
         | Some t => if t =? 0 then now else t
         | None => now
         end)
  ∧ (∀ st0 sent e,
       server.qe_type e = "draw" →
       let r := server.replay_one s now (st0, sent) e in
       db.drawing_events (server.st_db r.1)
       = db.drawing_events (server.st_db st0)
         ++ [drawing_row (server.st_db st0) room (replayed_draw s e now)]
       ∧ db.chat_messages (server.st_db r.1)
         = db.chat_messages (server.st_db st0)
       ∧ r.2 = sent
               ++ ((λ p, (roomManager.ws p,
                          server.draw (replayed_draw s e now)))
                   <$> others st0))
  ∧ (∀ st0 sent e,
       server.qe_type e = "message" →
       let r := server.replay_one s now (st0, sent) e in
       db.chat_messages (server.st_db r.1)
       = db.chat_messages (server.st_db st0)
         ++ [chat_row (server.st_db st0) room (replayed_chat s e now)]
       ∧ db.drawing_events (server.st_db r.1)
         = db.drawing_events (server.st_db st0)
       ∧ r.2 = sent
               ++ ((λ p, (roomManager.ws p,
                          server.message (replayed_chat s e now)))
                   <$> everyone st0))
  ∧ (∀ acc e,
       server.qe_type e ≠ "draw" → server.qe_type e ≠ "message" →
       server.replay_one s now acc e = acc)
  ∧ (∀ e,
       server.qe_type e = "draw" →
       let r := server.handleQueueReplay conn st (Some [e; e]) now in
       let row := drawing_row (server.st_db st) room (replayed_draw s e now) in
       let sent :=
         (λ p, (roomManager.ws p, server.draw (replayed_draw s e now)))
         <$> others st in
       db.drawing_events (server.st_db r.1)
       = db.drawing_events (server.st_db st)
         ++ [ row;
              {| db.ev_id := db.ev_id row + 1;
                 db.ev_room_id := db.ev_room_id row;
                 db.ev_player_id := db.ev_player_id row;
                 db.ev_event_type := db.ev_event_type row;
                 db.ev_event_data := db.ev_event_data row;
                 db.ev_timestamp := db.ev_timestamp row |} ]
       ∧ r.2 = sent ++ sent).
Proof.
  intros Hs room others everyone. unfold server.handleQueueReplay.
  rewrite Hs.
  split; [done|]. split; [intros evs e; by rewrite foldl_app|].
  split; [done|]. split; [|split; [|split]].
  - intros st0 sent e Htype. cbv zeta. rewrite replay_one_draw by done.
    destruct (store_draw_spec st0 s (replayed_draw s e now) now)
      as (Hev & _ & Hchat & _ & _ & Hout).
    cbn [fst snd]. by rewrite Hout, broadcastToRoom_others.
  - intros st0 sent e Htype. cbv zeta. rewrite replay_one_message by done.
    destruct (store_chat_spec st0 s (replayed_chat s e now) now)
      as (Hchat & _ & Hev & _ & _ & Hout).
    cbn [fst snd]. by rewrite Hout, broadcastToRoom_open.
  - intros acc e. apply replay_one_other.
  - intros e Htype. cbv zeta. cbn [foldl].
    rewrite (replay_one_draw s now st) by done.
    set (st1 := (server.store_draw st s (replayed_draw s e now) now).1).
    rewrite (replay_one_draw s now st1) by done. cbn [fst snd].
    destruct (store_draw_spec st s (replayed_draw s e now) now)
      as (Hev1 & Hseq1 & _ & _ & Hsame1 & Hout1).
    destruct (store_draw_spec st1 s (replayed_draw s e now) now)
      as (Hev2 & _ & _ & _ & _ & Hout2).
    cbv zeta in Hev1, Hseq1, Hsame1, Hout1, Hev2, Hout2. fold st1 in Hev1, Hseq1, Hsame1.
    rewrite Hev2, Hev1, Hout2, Hout1.
    rewrite (broadcastToRoom_same st st1 _ _ _ Hsame1).
    rewrite broadcastToRoom_others.
    split; [|done]. rewrite <- app_assoc. cbn [app]. do 3 f_equal.
    unfold drawing_row. cbn. by rewrite Hseq1.
Qed.

(** ** Deleting a room *)

Lemma getRoom_deleteRoom d roomId : db.getRoom (db.deleteRoom d roomId) roomId = None.
Proof.
  unfold db.getRoom. simpl. rewrite filter_none; [done|].
  apply Forall_forall. intros row [Hne _]%list_elem_of_filter. by intros ?.
Qed.

Lemma getActivePlayerCount_nonneg rm roomId :
  0 ≤ roomManager.getActivePlayerCount rm roomId.
Proof.
  unfold roomManager.getActivePlayerCount, js.size.
  destruct (roomManager.activeRooms rm !! roomId); lia.
Qed.

(** [RoomManager.deleteRoom] does not look at the players of a custom
    room: the check for active players is made by its callers, the DELETE
    route and [cleanupInactiveRooms]. *)
Lemma manager_deleteRoom_custom d rm roomId room :
  db.getRoom d roomId = Some room →
  db.room_is_custom room = 1 →
  roomManager.deleteRoom d rm roomId
  = (db.deleteRoom d roomId,
     {| roomManager.activeRooms := delete roomId (roomManager.activeRooms rm) |},
     true).
Proof.
  intros Hroom Hcustom. unfold roomManager.deleteRoom.
  apply Z.eqb_eq in Hcustom. by rewrite Hroom, Hcustom.
Qed.

(** C7. Deleting a room through [DELETE /api/rooms/:roomId]: a room that is
    not custom is refused with status 403 and a room with active players
    with status 400, both leaving the state as it was; otherwise the room's
    row, its chat messages, its drawing events and its snapshots are removed
    (and nothing of another room), and its entry in the active rooms is
    dropped. [RoomManager.deleteRoom] itself refuses a room that is not
    custom by returning [false]. *)
Theorem C7_deleteRoom st roomId room :
  db.getRoom (server.st_db st) roomId = Some room →
  let d := server.st_db st in
  let rm := server.st_roomManager st in
  let r := server.delete_rooms st roomId in
  (db.room_is_custom room ≠ 1 →
     r = (st, server.http_error 403 "Cannot delete default rooms")
     ∧ roomManager.deleteRoom d rm roomId = (d, rm, false))
  ∧ (db.room_is_custom room = 1 →
     0 < roomManager.getActivePlayerCount rm roomId →
     r = (st, server.http_error 400 "Cannot delete room with active players"))
  ∧ (db.room_is_custom room = 1 →
     roomManager.getActivePlayerCount rm roomId = 0 →
     r.2 = server.http_success
     ∧ db.getRoom (server.st_db r.1) roomId = None
     ∧ db.rooms (server.st_db r.1)
       = filter (λ row, db.room_id row ≠ roomId) (db.rooms d)
     ∧ db.chat_messages (server.st_db r.1)
       = filter (λ row, db.chat_room_id row ≠ roomId) (db.chat_messages d)
     ∧ db.drawing_events (server.st_db r.1)
       = filter (λ row, db.ev_room_id row ≠ roomId) (db.drawing_events d)
     ∧ db.canvas_snapshots (server.st_db r.1)
       = filter (λ row, db.snap_room_id row ≠ roomId) (db.canvas_snapshots d)
     ∧ roomManager.activeRooms (server.st_roomManager r.1)
       = delete roomId (roomManager.activeRooms rm)
     ∧ roomManager.getPlayersInRoom (server.st_roomManager r.1) roomId = []).
Proof.
  intros Hroom. cbv zeta.
  unfold server.delete_rooms, roomManager.getRoomInfo, roomManager.deleteRoom.
  rewrite Hroom. cbn [roomManager.info_isCustom roomManager.info_playerCount].
  split; [|split].
  - intros Hcustom. apply Z.eqb_neq in Hcustom. by rewrite Hcustom.
  - intros Hcustom Hplayers. apply Z.eqb_eq in Hcustom. rewrite Hcustom.
    apply Z.ltb_lt in Hplayers. by rewrite Hplayers.
  - intros Hcustom Hplayers. apply Z.eqb_eq in Hcustom.
    rewrite Hcustom, Hplayers. cbn.
    split; [done|]. split; [apply getRoom_deleteRoom|].
    repeat (split; [done|]).
    unfold roomManager.getPlayersInRoom. cbn. by rewrite lookup_delete_eq.
Qed.

(** ** Chat history *)

Lemma StronglySorted_mono {A} (R1 R2 : relation A) (l : list A) :
  (∀ a b, R1 a b → R2 a b) → StronglySorted R1 l → StronglySorted R2 l.
Proof.
  intros Himpl. induction 1 as [|x l Hs IH Hx]; constructor; [done|].
  eapply Forall_impl; [exact Hx|]. auto.
Qed.

Lemma StronglySorted_reverse {A} (R : relation A) (l : list A) :
  StronglySorted R l → StronglySorted (flip R) (reverse l).
Proof.
  induction 1 as [|x l Hs IH Hx]; [constructor|].
  rewrite reverse_cons. apply StronglySorted_app. split; [|split].
  - intros a b Ha Hb. apply list_elem_of_singleton in Hb as ->.
    rewrite elem_of_reverse in Ha. unfold flip.
    rewrite Forall_forall in Hx. by apply Hx.
  - done.
  - repeat constructor.
Qed.

(** The rows of a room's chat messages. *)
Definition chat_rows (d : db.Database) (roomId : string) : list db.ChatRow :=
  filter (λ r, db.chat_room_id r = roomId) (db.chat_messages d).

(** The ordering key of the specification, [(timestamp, id)]. *)
Definition by_timestamp_id (a b : db.ChatRow) : bool :=
  (db.chat_timestamp a <? db.chat_timestamp b)
  || ((db.chat_timestamp a =? db.chat_timestamp b)
      && (db.chat_id a <=? db.chat_id b)).

(** The history as the specification words it: the last [limit] messages of
    the room in ascending [(timestamp, id)] order, in that order. *)
Definition chatHistory_spec (d : db.Database) (roomId : string) (limit : nat)
    : list ChatMessage :=
  db.chat_of_row
  <$> roomManager.slice_last limit
        (sql.order_by by_timestamp_id (chat_rows d roomId)).

(** Two players of [chat-a] write within the same millisecond. *)
Definition same_ms_trace : list server.Event :=
  [ server.Connection 1;
    server.WsMessage 1
      (server.Join "chat-a" (Some "alice") (Some "Alice")) 10 "";
    server.Connection 2;
    server.WsMessage 2 (server.Join "chat-a" (Some "bob") (Some "Bob")) 20 "";
    server.WsMessage 1 (server.Message "first") 100 "";
    server.WsMessage 2 (server.Message "second") 100 "" ].

Definition same_ms_state : server.State :=
  (server.run (server.startServer 0) same_ms_trace).1.

Example same_ms_rows :
  chat_rows (server.st_db same_ms_state) "chat-a"
  = [ {| db.chat_id := 1; db.chat_room_id := "chat-a";
         db.chat_player_id := "alice"; db.chat_player_name := "Alice";
         db.chat_message := "first"; db.chat_timestamp := 100 |};
      {| db.chat_id := 2; db.chat_room_id := "chat-a";
         db.chat_player_id := "bob"; db.chat_player_name := "Bob";
         db.chat_message := "second"; db.chat_timestamp := 100 |} ].
Proof. vm_compute. reflexivity. Qed.

Example same_ms_history :
  msg_text <$> db.getChatHistory (server.st_db same_ms_state) "chat-a" 50
  = ["second"; "first"].
Proof. vm_compute. reflexivity. Qed.

Example same_ms_history_spec :
  msg_text <$> chatHistory_spec (server.st_db same_ms_state) "chat-a" 50
  = ["first"; "second"].
Proof. vm_compute. reflexivity. Qed.

(** C9. The code at the failing input. Two messages of [chat-a] are stamped
    in the same millisecond: [first], written first, has id 1 and [second]
    has id 2. The history lists [second] before [first], where the ascending
    [(timestamp, id)] order of the claim, which is also the order in which
    they were written and broadcast, lists [first] before [second]. *)
Theorem C9_equal_timestamps :
  (λ r, (db.chat_id r, db.chat_message r, db.chat_timestamp r))
  <$> chat_rows (server.st_db same_ms_state) "chat-a"
  = [(1, "first", 100); (2, "second", 100)]
  ∧ msg_text <$> db.getChatHistory (server.st_db same_ms_state) "chat-a" 50
    = ["second"; "first"]
  ∧ msg_text <$> chatHistory_spec (server.st_db same_ms_state) "chat-a" 50
    = ["first"; "second"]
  ∧ db.getChatHistory (server.st_db same_ms_state) "chat-a" 50
    ≠ chatHistory_spec (server.st_db same_ms_state) "chat-a" 50.
Proof.
  split; [by rewrite same_ms_rows|].
  split; [exact same_ms_history|]. split; [exact same_ms_history_spec|].
  intros Heq. pose proof same_ms_history as Hcode.
  rewrite Heq, same_ms_history_spec in Hcode. discriminate.
Qed.

(** Whatever the order among equal timestamps, the chat history holds
    [limit] messages of the room, all of them when there are fewer, in
    ascending timestamp order, and every message it leaves out is no more
    recent, by timestamp, than any message it holds. *)
Lemma getChatHistory_latest d roomId limit :
  ∃ kept dropped,
    chat_rows d roomId ≡ₚ kept ++ dropped
    ∧ db.getChatHistory d roomId limit = db.chat_of_row <$> kept
    ∧ length kept = min limit (length (chat_rows d roomId))
    ∧ StronglySorted
        (λ a b, db.chat_timestamp a ≤ db.chat_timestamp b) kept
    ∧ StronglySorted
        (λ a b, msg_timestamp a ≤ msg_timestamp b)
        (db.getChatHistory d roomId limit)
    ∧ ∀ k o, k ∈ kept → o ∈ dropped →
        db.chat_timestamp o ≤ db.chat_timestamp k.
Proof.
  set (sorted := sql.order_by (sql.desc db.chat_timestamp) (chat_rows d roomId)).
  assert (sorted_by (sql.desc db.chat_timestamp) sorted) as Hsorted
    by (apply order_by_sorted; [apply desc_total | apply desc_trans]).
  unfold sorted_by in Hsorted. rewrite <- (take_drop limit sorted) in Hsorted.
  apply StronglySorted_app in Hsorted as (Hcross & Htake & _).
  assert (StronglySorted (λ a b, db.chat_timestamp a ≤ db.chat_timestamp b)
            (reverse (take limit sorted))) as Hasc.
  { eapply StronglySorted_mono; [|apply StronglySorted_reverse, Htake].
    unfold flip, sql.desc. intros a b Hab. simpl in Hab. lia. }
  exists (reverse (take limit sorted)), (drop limit sorted).
  split; [|split; [|split; [|split; [|split]]]].
  - rewrite reverse_Permutation, take_drop. unfold sorted.
    by rewrite order_by_perm.
  - done.
  - rewrite length_reverse, length_take. unfold sorted.
    by rewrite order_by_length.
  - done.
  - unfold db.getChatHistory, db.chat_history_rows, sql.limit.
    fold (chat_rows d roomId). fold sorted.
    eapply StronglySorted_fmap; [|exact Hasc]. done.
  - intros k o Hk Ho. rewrite elem_of_reverse in Hk.
    specialize (Hcross k o Hk Ho). unfold sql.desc in Hcross. lia.
Qed.

(** ** A rejected join leaves the connection attached *)






(** ** The capacity in every state of the server *)

Lemma getRoom_elem_of d roomId room :
  db.getRoom d roomId = Some room → room ∈ db.rooms d.
Proof.
  unfold db.getRoom. intros Hhead. apply head_Some_elem_of in Hhead.
  by apply list_elem_of_filter in Hhead as [_ ?].
Defined.

(** Every room of the directory has the capacity [createRoom] writes. *)
Definition rooms_default_max (d : db.Database) : Prop :=
  Forall (λ room, db.room_max_players room = 4) (db.rooms d).

(** No active room holds more than [n] players. *)
Definition rooms_within (rm : roomManager.t) (n : Z) : Prop :=
  ∀ roomId activeRoom,
    roomManager.activeRooms rm !! roomId = Some activeRoom →
    js.size (roomManager.players activeRoom) ≤ n.

Definition capacity_inv (st : server.State) : Prop :=
  rooms_default_max (server.st_db st)
  ∧ rooms_within (server.st_roomManager st) 4.

Lemma rooms_within_insert rm roomId activeRoom n :
  rooms_within rm n →
  js.size (roomManager.players activeRoom) ≤ n →
  rooms_within
    {| roomManager.activeRooms :=
         <[roomId := activeRoom]> (roomManager.activeRooms rm) |} n.
Proof.
  intros Hin Hsize roomId' activeRoom'. simpl.
  destruct (decide (roomId = roomId')) as [<-|Hne].
  - rewrite lookup_insert_eq. by intros [= <-].
  - rewrite lookup_insert_ne by done. apply Hin.
Qed.

Lemma rooms_within_delete rm roomId n :
  rooms_within rm n →
  rooms_within
    {| roomManager.activeRooms := delete roomId (roomManager.activeRooms rm) |}
    n.
Proof.
  intros Hin roomId' activeRoom'. simpl.
  destruct (decide (roomId = roomId')) as [<-|Hne].
  - by rewrite lookup_delete_eq.
  - rewrite lookup_delete_ne by done. apply Hin.
Qed.

Lemma rooms_within_getActiveRoom rm roomId now n :
  0 ≤ n →
  rooms_within rm n →
  rooms_within (roomManager.getActiveRoom rm roomId now).1 n
  ∧ js.size
      (roomManager.players (roomManager.getActiveRoom rm roomId now).2) ≤ n.
Proof.
  intros Hn Hin. unfold roomManager.getActiveRoom.
  destruct (roomManager.activeRooms rm !! roomId) as [activeRoom|] eqn:E;
    simpl.
  - split; [done|]. by eapply Hin.
  - split; [|done]. by apply rooms_within_insert.
Qed.

Lemma rooms_within_addPlayer d rm roomId player now :
  rooms_default_max d →
  rooms_within rm 4 →
  rooms_within (roomManager.addPlayer d rm roomId player now).1 4.
Proof.
  intros Hmax Hin. unfold roomManager.addPlayer.
  destruct (db.getRoom d roomId) as [room|] eqn:Hroom; [|done].
  destruct (rooms_within_getActiveRoom rm roomId now 4) as [Hin1 Hsize];
    [done | done |].
  destruct (roomManager.getActiveRoom rm roomId now) as [rm1 activeRoom].
  simpl in Hin1, Hsize.
  assert (roomManager.maxPlayers_of room = 4) as Hfour.
  { apply getRoom_elem_of in Hroom. unfold rooms_default_max in Hmax.
    rewrite Forall_forall in Hmax. unfold roomManager.maxPlayers_of.
    by rewrite (Hmax room Hroom). }
  rewrite Hfour.
  destruct (Z.leb_spec 4 (js.size (roomManager.players activeRoom)));
    [done|].
  simpl. apply rooms_within_insert; [done|]. simpl.
  pose proof (map_size_set_le (roomManager.playerId player) player
                (roomManager.players activeRoom)).
  lia.
Qed.

Lemma rooms_within_removePlayer d rm roomId playerId now n :
  rooms_within rm n →
  rooms_within (roomManager.removePlayer d rm roomId playerId now).1 n.
Proof.
  intros Hin. unfold roomManager.removePlayer.
  destruct (roomManager.activeRooms rm !! roomId) as [activeRoom|] eqn:E;
    [|done].
  pose proof (map_size_delete_le playerId (roomManager.players activeRoom))
    as Hle.
  destruct (js.delete playerId (roomManager.players activeRoom))
    as [players' removed].
  simpl in *. apply rooms_within_insert; [done|]. simpl.
  specialize (Hin roomId activeRoom E). lia.
Qed.

Lemma rooms_within_touch rm roomId now n :
  rooms_within rm n → rooms_within (roomManager.touch rm roomId now) n.
Proof.
  intros Hin. unfold roomManager.touch.
  destruct (roomManager.activeRooms rm !! roomId) as [activeRoom|] eqn:E;
    [|done].
  apply rooms_within_insert; [done|]. simpl. by apply (Hin roomId).
Qed.

Lemma rooms_within_clearCache rm roomId now n :
  rooms_within rm n → rooms_within (roomManager.clearCache rm roomId now) n.
Proof.
  intros Hin. unfold roomManager.clearCache.
  destruct (roomManager.activeRooms rm !! roomId) as [activeRoom|] eqn:E;
    [|done].
  apply rooms_within_insert; [done|]. simpl. by apply (Hin roomId).
Qed.

Lemma rooms_within_addDrawingEvent d rm roomId ev now n :
  0 ≤ n →
  rooms_within rm n →
  rooms_within (roomManager.addDrawingEvent d rm roomId ev now).2 n.
Proof.
  intros Hn Hin. unfold roomManager.addDrawingEvent.
  destruct (rooms_within_getActiveRoom rm roomId now n) as [Hin1 Hsize];
    [done | done |].
  destruct (roomManager.getActiveRoom rm roomId now) as [rm1 activeRoom].
  simpl. by apply rooms_within_insert.
Qed.

Lemma map_has_get {V} k (v : V) m : js.get k m = Some v → js.has k m = true.
Proof. unfold js.has. by intros ->. Qed.

Lemma rooms_within_setPlayerDrawing rm roomId playerId isDrawing n :
  rooms_within rm n →
  rooms_within (roomManager.setPlayerDrawing rm roomId playerId isDrawing) n.
Proof.
  intros Hin. unfold roomManager.setPlayerDrawing.
  destruct (roomManager.activeRooms rm !! roomId) as [activeRoom|] eqn:E;
    [|done].
  destruct (js.get playerId (roomManager.players activeRoom)) as [p|] eqn:Hp;
    [|done].
  apply rooms_within_insert; [done|]. simpl.
  rewrite map_size_set, (map_has_get _ _ _ Hp). by apply (Hin roomId).
Qed.

Lemma rooms_within_getRoomState d rm roomId now n :
  0 ≤ n →
  rooms_within rm n →
  rooms_within (roomManager.getRoomState d rm roomId now).1 n.
Proof.
  intros Hn Hin. unfold roomManager.getRoomState.
  destruct (db.getRoom d roomId); [|done].
  destruct (rooms_within_getActiveRoom rm roomId now n) as [Hin1 _];
    [done | done |].
  by destruct (roomManager.getActiveRoom rm roomId now).
Qed.

Lemma Forall_filter_keep {A} (P Q : A → Prop) `{!∀ a, Decision (P a)}
    (l : list A) :
  Forall Q l → Forall Q (filter P l).
Proof.
  rewrite !Forall_forall. intros Hall a [_ Ha]%list_elem_of_filter. auto.
Qed.

Lemma rooms_default_max_same d d' :
  db.rooms d' = db.rooms d → rooms_default_max d → rooms_default_max d'.
Proof. unfold rooms_default_max. by intros ->. Qed.

Lemma rooms_default_max_createRoom d id name isCustom now :
  rooms_default_max d →
  rooms_default_max (db.createRoom d id name isCustom now).
Proof.
  unfold rooms_default_max. simpl. intros Hmax. apply Forall_app. split.
  - by apply Forall_filter_keep.
  - by repeat constructor.
Qed.

Lemma rooms_default_max_deleteRoom d roomId :
  rooms_default_max d → rooms_default_max (db.deleteRoom d roomId).
Proof. unfold rooms_default_max. simpl. by apply Forall_filter_keep. Qed.

Lemma rooms_default_max_initializeDefaultRooms d now :
  rooms_default_max d →
  rooms_default_max (roomManager.initializeDefaultRooms d now).
Proof.
  unfold roomManager.initializeDefaultRooms.
  generalize roomManager.default_rooms. intros rooms. revert d.
  induction rooms as [|[roomId name] rooms IH]; intros d Hmax; [done|].
  simpl. apply IH. destruct (db.getRoom d roomId); [done|].
  by apply rooms_default_max_createRoom.
Qed.

Lemma capacity_inv_manager_deleteRoom d rm roomId :
  rooms_default_max d → rooms_within rm 4 →
  rooms_default_max (roomManager.deleteRoom d rm roomId).1.1
  ∧ rooms_within (roomManager.deleteRoom d rm roomId).1.2 4.
Proof.
  intros Hmax Hin. unfold roomManager.deleteRoom.
  destruct (db.getRoom d roomId) as [room|]; [|done].
  destruct (db.room_is_custom room =? 1); [|done]. simpl. split.
  - by apply rooms_default_max_deleteRoom.
  - by apply rooms_within_delete.
Qed.

Lemma capacity_inv_cleanup_one now maxInactiveMs entry s :
  rooms_default_max s.1 → rooms_within s.2 4 →
  rooms_default_max (roomManager.cleanup_one now maxInactiveMs entry s).1
  ∧ rooms_within (roomManager.cleanup_one now maxInactiveMs entry s).2 4.
Proof.
  destruct entry as [roomId activeRoom], s as [d rm]. simpl. intros Hmax Hin.
  destruct (_ && _); [|done].
  destruct (db.getRoom d roomId) as [room|] eqn:Hroom; [|done].
  destruct (db.room_is_custom room =? 1) eqn:Hcustom; [|done].
  pose proof (capacity_inv_manager_deleteRoom d rm roomId Hmax Hin) as Hdel.
  by destruct (roomManager.deleteRoom d rm roomId) as [[d' rm'] ok].
Qed.

Lemma capacity_inv_cleanupInactiveRooms d rm now maxInactiveMs :
  rooms_default_max d → rooms_within rm 4 →
  rooms_default_max
    (roomManager.cleanupInactiveRooms d rm now maxInactiveMs).1
  ∧ rooms_within (roomManager.cleanupInactiveRooms d rm now maxInactiveMs).2 4.
Proof.
  intros Hmax Hin. unfold roomManager.cleanupInactiveRooms.
  induction (map_to_list (roomManager.activeRooms rm)) as [|entry l IH];
    [done|].
  simpl. destruct IH as [IH1 IH2]. by apply capacity_inv_cleanup_one.
Qed.

Lemma capacity_inv_store_draw st s ev now :
  capacity_inv st → capacity_inv (server.store_draw st s ev now).1.
Proof.
  intros [Hmax Hin]. unfold server.store_draw.
  pose proof (rooms_within_addDrawingEvent (server.st_db st)
                (server.st_roomManager st) (server.currentRoomId s) ev now 4
                ltac:(done) Hin) as Hin'.
  assert (db.rooms (roomManager.addDrawingEvent (server.st_db st)
                      (server.st_roomManager st) (server.currentRoomId s)
                      ev now).1 = db.rooms (server.st_db st)) as Hrooms.
  { unfold roomManager.addDrawingEvent.
    by destruct (roomManager.getActiveRoom _ _ _). }
  destruct (roomManager.addDrawingEvent _ _ _ _ _) as [d rm].
  split; [|done]. by eapply rooms_default_max_same.
Qed.

Lemma capacity_inv_store_chat st s msg now :
  capacity_inv st → capacity_inv (server.store_chat st s msg now).1.
Proof.
  intros [Hmax Hin]. split; [done|]. simpl. by apply rooms_within_touch.
Qed.

Lemma capacity_inv_replay_one s now acc e :
  capacity_inv acc.1 → capacity_inv (server.replay_one s now acc e).1.
Proof.
  destruct acc as [st sent]. intros Hinv. simpl in Hinv.
  unfold server.replay_one.
  destruct (String.eqb (server.qe_type e) "draw").
  - match goal with
    | |- context [server.store_draw ?st ?s ?ev ?now] =>
        pose proof (capacity_inv_store_draw st s ev now Hinv);
        by destruct (server.store_draw st s ev now)
    end.
  - destruct (String.eqb (server.qe_type e) "message"); [|done].
    match goal with
    | |- context [server.store_chat ?st ?s ?m ?now] =>
        pose proof (capacity_inv_store_chat st s m now Hinv);
        by destruct (server.store_chat st s m now)
    end.
Qed.

Lemma capacity_inv_enter_room c st roomId pid pname missing reply isRejoin now :
  capacity_inv st →
  capacity_inv
    (server.enter_room c st roomId pid pname missing reply isRejoin now).1.
Proof.
  intros [Hmax Hin]. unfold server.enter_room.
  destruct (negb _); [done|].
  match goal with
  | |- context [roomManager.addPlayer ?d ?rm ?r ?p ?n] =>
      pose proof (rooms_within_addPlayer d rm r p n Hmax Hin) as Hin1;
      destruct (roomManager.addPlayer d rm r p n) as [rm1 added]
  end.
  simpl in Hin1. destruct (negb added); [done|].
  pose proof (rooms_within_getRoomState (server.st_db st) rm1 roomId now 4
                ltac:(done) Hin1) as Hin2.
  by destruct (roomManager.getRoomState _ _ _ _) as [rm2 rs].
Qed.

Lemma capacity_inv_handleMessage c conn st m now uuid :
  capacity_inv st → capacity_inv (server.handleMessage c conn st m now uuid).1.
Proof.
  intros Hinv.
  destruct m as [roomId pid pname|roomId pid pname last|points color size tool
                | |text| | |data|events|type| ]; simpl; try done.
  - by apply capacity_inv_enter_room.
  - by apply capacity_inv_enter_room.
  - unfold server.handleDraw. destruct (server.attached conn); [|done].
    by apply capacity_inv_store_draw.
  - unfold server.handleClear. destruct (server.attached conn); [|done].
    destruct Hinv as [Hmax Hin]. split; [done|]. simpl.
    by apply rooms_within_clearCache.
  - unfold server.handleChatMessage. destruct (server.attached conn); [|done].
    destruct (server.chat_text_ok text); [|done].
    by apply capacity_inv_store_chat.
  - unfold server.handleDrawIndicator. destruct (server.attached conn); [|done].
    destruct Hinv as [Hmax Hin]. split; [done|]. simpl.
    by apply rooms_within_setPlayerDrawing.
  - unfold server.handleDrawIndicator. destruct (server.attached conn); [|done].
    destruct Hinv as [Hmax Hin]. split; [done|]. simpl.
    by apply rooms_within_setPlayerDrawing.
  - unfold server.handleCanvasSnapshot. destruct (server.attached conn); [|done].
    destruct (js.truthy data); [|done].
    destruct Hinv as [Hmax Hin]. split; [done|]. simpl.
    by apply rooms_within_clearCache.
  - unfold server.handleQueueReplay. destruct (server.attached conn) as [s|];
      [|done].
    destruct events as [events|]; [|done].
    assert (capacity_inv (st, @nil (nat * server.ServerMessage)).1)
      as Hacc by done.
    revert Hacc. generalize (st, @nil (nat * server.ServerMessage)).
    induction events as [|e events IH]; intros acc Hacc; [done|].
    simpl. apply IH. by apply capacity_inv_replay_one.
Qed.

Lemma capacity_inv_step st ev :
  capacity_inv st → capacity_inv (server.step st ev).1.
Proof.
  intros Hinv. destruct ev as [c|c m now uuid|c now|name uuid now|roomId|now];
    simpl.
  - by destruct (server.st_conns st !! c).
  - destruct (server.st_conns st !! c) as [conn|]; [|done].
    destruct (server.isOpen conn); [|done].
    by apply capacity_inv_handleMessage.
  - destruct (server.st_conns st !! c) as [conn|]; [|done].
    destruct (server.isOpen conn); [|done].
    unfold server.handleClose. destruct (server.attached conn) as [s|];
      [|done].
    destruct Hinv as [Hmax Hin].
    match goal with
    | |- context [roomManager.removePlayer ?d ?rm ?r ?p ?n] =>
        pose proof (rooms_within_removePlayer d rm r p n 4 Hin) as Hin1;
        destruct (roomManager.removePlayer d rm r p n) as [rm1 removed]
    end.
    by split.
  - unfold server.post_rooms. destruct (_ || _); [done|].
    destruct (20 <? _); [done|]. destruct Hinv as [Hmax Hin].
    split; [|done]. simpl. by apply rooms_default_max_createRoom.
  - unfold server.delete_rooms.
    destruct (roomManager.getRoomInfo _ _ _) as [info|]; [|done].
    destruct (negb _); [done|]. destruct (0 <? _); [done|].
    destruct Hinv as [Hmax Hin].
    pose proof (capacity_inv_manager_deleteRoom (server.st_db st)
                  (server.st_roomManager st) roomId Hmax Hin) as Hdel.
    by destruct (roomManager.deleteRoom _ _ _) as [[d rm] ok].
  - unfold server.hourly. destruct Hinv as [Hmax Hin].
    pose proof (capacity_inv_cleanupInactiveRooms (server.st_db st)
                  (server.st_roomManager st) now
                  roomManager.default_maxInactiveMs Hmax Hin) as [Hmax' Hin'].
    destruct (roomManager.cleanupInactiveRooms _ _ _ _) as [d rm].
    split; [|done]. by eapply rooms_default_max_same.
Qed.

Lemma reachable_capacity_inv st : server.reachable st → capacity_inv st.
Proof.
  induction 1 as [now|st ev Hst IH].
  - split.
    + apply rooms_default_max_initializeDefaultRooms. constructor.
    + intros roomId activeRoom Hlook. simpl in Hlook.
      by rewrite lookup_empty in Hlook.
  - by apply capacity_inv_step.
Qed.

Lemma capacity_inv_capacity_ok st :
  capacity_inv st →
  capacity_ok (server.st_db st) (server.st_roomManager st).
Proof.
  intros [Hmax Hin] roomId room Hroom.
  apply getRoom_elem_of in Hroom. unfold rooms_default_max in Hmax.
  rewrite Forall_forall in Hmax. unfold roomManager.maxPlayers_of.
  rewrite (Hmax room Hroom). simpl.
  unfold roomManager.getPlayersInRoom.
  destruct (roomManager.activeRooms (server.st_roomManager st) !! roomId)
    as [activeRoom|] eqn:E; [|done].
  rewrite map_values_size. by eapply Hin.
Qed.

(** C1. No room of the directory ever holds more active players than its
    [maxPlayers]: not along any sequence of [addPlayer] / [removePlayer]
    calls, and not in any state the server reaches. [addPlayer] returns
    [false], leaving every room's players as they were, when the room is
    unknown or already holds [maxPlayers] players; otherwise it returns
    [true] and the player is registered under its id. *)
Theorem C1_capacity_never_exceeded d rm ops :
  capacity_ok d rm →
  capacity_ok d (foldl (apply_op d) rm ops)
  ∧ (∀ st, server.reachable st →
       capacity_ok (server.st_db st) (server.st_roomManager st))
  ∧ (∀ rm0 roomId player now,
       (db.getRoom d roomId = None
        ∨ ∃ room, db.getRoom d roomId = Some room
                  ∧ roomManager.maxPlayers_of room ≤ active_size rm0 roomId) →
       (roomManager.addPlayer d rm0 roomId player now).2 = false
       ∧ ∀ roomId',
           roomManager.getPlayersInRoom
             (roomManager.addPlayer d rm0 roomId player now).1 roomId'
           = roomManager.getPlayersInRoom rm0 roomId')
  ∧ (∀ rm0 roomId player now room,
       db.getRoom d roomId = Some room →
       active_size rm0 roomId < roomManager.maxPlayers_of room →
       (roomManager.addPlayer d rm0 roomId player now).2 = true
       ∧ player ∈ roomManager.getPlayersInRoom
                    (roomManager.addPlayer d rm0 roomId player now).1 roomId).
Proof.
  intros Hok. split; [|split; [|split]].
  - revert rm Hok. induction ops as [|op ops IH]; intros rm Hok; [done|].
    simpl. apply IH. by apply apply_op_capacity.
  - intros st Hst. by apply capacity_inv_capacity_ok, reachable_capacity_inv.
  - intros. by apply addPlayer_refused.
  - intros rm0 roomId player now room Hroom Hfree.
    destruct (addPlayer_accepted d rm0 roomId player now room Hroom Hfree)
      as (activeRoom & Htrue & Hlook & Hget & _).
    split; [done|]. unfold roomManager.getPlayersInRoom. rewrite Hlook.
    by eapply map_get_values.
Qed.

(** * The properties at concrete states *)

Lemma capacity_ok_new d :
  Forall (λ room, 0 ≤ roomManager.maxPlayers_of room) (db.rooms d) →
  capacity_ok d roomManager.new.
Proof.
  intros Hrooms roomId room Hroom. apply getRoom_elem_of in Hroom.
  rewrite Forall_forall in Hrooms. by apply Hrooms.
Defined.

Definition player (pid name : string) (c : nat) : roomManager.Player :=
  {| roomManager.playerId := pid; roomManager.playerName := name;
     roomManager.ws := c; roomManager.isDrawing := false |}.

(** Five players try to enter [chat-a] and one leaves. *)
Definition crowd : list RegistryOp :=
  [ OpAddPlayer "chat-a" (player "p1" "One" 1) 1;
    OpAddPlayer "chat-a" (player "p2" "Two" 2) 2;
    OpAddPlayer "chat-a" (player "p3" "Three" 3) 3;
    OpAddPlayer "chat-a" (player "p4" "Four" 4) 4;
    OpAddPlayer "chat-a" (player "p5" "Five" 5) 5;
    OpRemovePlayer "chat-a" "p1" 6 ].

Example crowd_players :
  roomManager.playerId
  <$> roomManager.getPlayersInRoom
        (foldl (apply_op (server.st_db (server.startServer 0)))
           roomManager.new crowd) "chat-a"
  = ["p2"; "p3"; "p4"].
Proof. vm_compute. reflexivity. Qed.

Lemma C1_witness :
  capacity_ok (server.st_db (server.startServer 0)) roomManager.new
  ∧ capacity_ok (server.st_db (server.startServer 0))
      (foldl (apply_op (server.st_db (server.startServer 0)))
         roomManager.new crowd).
Proof.
  assert (capacity_ok (server.st_db (server.startServer 0)) roomManager.new)
    as Hok.
  { apply capacity_ok_new. vm_compute. repeat constructor; discriminate. }
  split; [exact Hok|].
  apply (C1_capacity_never_exceeded (server.st_db (server.startServer 0))
           roomManager.new crowd Hok).
Defined.

Definition chat_a : db.RoomRow :=
  {| db.room_id := "chat-a"; db.room_name := "Chat A";
     db.room_created_at := 0; db.room_max_players := 4;
     db.room_is_custom := 0 |}.

Lemma C2_witness :
  db.getRoom (server.st_db alice_state) "chat-a" = Some chat_a
  ∧ active_size (server.st_roomManager alice_state) "chat-a"
    < roomManager.maxPlayers_of chat_a
  ∧ ∃ rs missed rest,
      (server.handleRejoin 2 alice_state "chat-a" "alice" "Alice"
         (Some 100) 400).2
      = (2%nat, server.rejoinState (Some rs) missed "alice" "Alice") :: rest
      ∧ missed
        = db.getDrawingEvents (server.st_db alice_state) "chat-a"
            (Z.max 100 (snapshot_timestamp (server.st_db alice_state) "chat-a"))
      ∧ ascending missed.
Proof.
  assert (db.getRoom (server.st_db alice_state) "chat-a" = Some chat_a)
    as Hroom by (vm_compute; reflexivity).
  assert (active_size (server.st_roomManager alice_state) "chat-a"
          < roomManager.maxPlayers_of chat_a) as Hfree
    by (vm_compute; reflexivity).
  split; [exact Hroom|]. split; [exact Hfree|].
  destruct (C2_rejoin_missedEvents 2 alice_state "chat-a" "alice" "Alice"
              (Some 100) 400 chat_a Hroom Hfree)
    as (rs & missed & rest & Hout & _ & Hmissed & _ & Hasc & _).
  exists rs, missed, rest. split; [exact Hout|]. split; [exact Hmissed|].
  exact Hasc.
Defined.

(** A canvas that keeps the strokes painted on it, and a reading of the
    snapshot of [alice_state] as the canvas its client had at 200. *)
Definition strokes_decode (data : string) : list DrawEvent :=
  if String.eqb data "data:image/png;base64,AAAA"
  then [stroke [(1, 1); (2, 2)] "alice" 150] else [].

Definition alice_snapshot : db.Snapshot :=
  {| db.snapshotData := "data:image/png;base64,AAAA"; db.timestamp := 200 |}.

Lemma C3_witness :
  db.getRoom (server.st_db alice_state) "chat-a" = Some chat_a
  ∧ db.getCanvasSnapshot (server.st_db alice_state) "chat-a"
    = Some alice_snapshot
  ∧ strokes_decode (db.snapshotData alice_snapshot)
    = replay_events (λ canvas e, canvas ++ [e]) []
        (events_until (server.st_db alice_state) "chat-a"
           (db.timestamp alice_snapshot))
  ∧ ∃ rs,
      (roomManager.getRoomState (server.st_db alice_state)
         (server.st_roomManager alice_state) "chat-a" 400).2 = Some rs
      ∧ replay_state [] (λ canvas e, canvas ++ [e]) strokes_decode rs
        = replay_history [] (λ canvas e, canvas ++ [e])
            (server.st_db alice_state) "chat-a".
Proof.
  assert (db.getRoom (server.st_db alice_state) "chat-a" = Some chat_a)
    as Hroom by (vm_compute; reflexivity).
  assert (db.getCanvasSnapshot (server.st_db alice_state) "chat-a"
          = Some alice_snapshot) as Hsnap by (vm_compute; reflexivity).
  assert (strokes_decode (db.snapshotData alice_snapshot)
          = replay_events (λ canvas e, canvas ++ [e]) []
              (events_until (server.st_db alice_state) "chat-a"
                 (db.timestamp alice_snapshot))) as Hdecode
    by (vm_compute; reflexivity).
  split; [exact Hroom|]. split; [exact Hsnap|]. split; [exact Hdecode|].
  destruct (C3_snapshot_replay [] (λ canvas e, canvas ++ [e]) strokes_decode
              (server.st_db alice_state) (server.st_roomManager alice_state)
              "chat-a" 400 chat_a alice_snapshot Hroom Hsnap Hdecode)
    as (rs & Hrs & _ & _ & _ & Hreplay).
  exists rs. split; [exact Hrs | exact Hreplay].
Defined.

Definition alice_session : server.Session :=
  {| server.playerId := "alice"; server.playerName := "Alice";
     server.currentRoomId := "chat-a" |}.

Lemma C5_witness :
  server.attached alice_conn = Some alice_session
  ∧ server.chat_text_ok " hello " = true
  ∧ db.chat_messages
      (server.st_db
         (server.handleChatMessage alice_conn same_ms_state " hello " 150).1)
    = db.chat_messages (server.st_db same_ms_state)
      ++ [ {| db.chat_id := 3; db.chat_room_id := "chat-a";
              db.chat_player_id := "alice"; db.chat_player_name := "Alice";
              db.chat_message := "hello"; db.chat_timestamp := 150 |} ]
  ∧ (server.handleChatMessage alice_conn same_ms_state " hello " 150).2
    = [ (1%nat,
         server.message
           {| msg_text := "hello"; msg_playerId := "alice";
              msg_playerName := "Alice"; msg_timestamp := 150 |});
        (2%nat,
         server.message
           {| msg_text := "hello"; msg_playerId := "alice";
              msg_playerName := "Alice"; msg_timestamp := 150 |}) ].
Proof.
  assert (server.attached alice_conn = Some alice_session) as Hs
    by reflexivity.
  assert (server.chat_text_ok " hello " = true) as Hok
    by (vm_compute; reflexivity).
  split; [exact Hs|]. split; [exact Hok|].
  destruct (C5_chat_validation alice_conn same_ms_state alice_session
              " hello " 150 Hs) as (_ & _ & Hkept).
  destruct (Hkept Hok) as (Hrows & Hsent & _). split.
  - etrans; [exact Hrows|]. vm_compute. reflexivity.
  - etrans; [exact Hsent|]. vm_compute. reflexivity.
Defined.

Definition buffered_stroke : server.QueuedEvent :=
  {| server.qe_type := "draw"; server.qe_points := [(1, 1); (2, 2)];
     server.qe_color := "#000000"; server.qe_size := 2;
     server.qe_tool := Some "pen"; server.qe_text := "";
     server.qe_timestamp := Some 40 |}.

Lemma C6_witness :
  server.attached alice_conn = Some alice_session
  ∧ server.qe_type buffered_stroke = "draw"
  ∧ length
      (db.drawing_events
         (server.st_db
            (server.handleQueueReplay alice_conn same_ms_state
               (Some [buffered_stroke; buffered_stroke]) 150).1))
    = 2%nat
  ∧ (server.handleQueueReplay alice_conn same_ms_state
       (Some [buffered_stroke; buffered_stroke]) 150).2
    = [ (2%nat, server.draw (replayed_draw alice_session buffered_stroke 150));
        (2%nat, server.draw (replayed_draw alice_session buffered_stroke 150)) ].
Proof.
  assert (server.attached alice_conn = Some alice_session) as Hs
    by reflexivity.
  split; [exact Hs|]. split; [reflexivity|].
  destruct (C6_queueReplay alice_conn same_ms_state alice_session 150 Hs)
    as (_ & _ & _ & _ & _ & _ & Htwice).
  destruct (Htwice buffered_stroke eq_refl) as [Hrows Hsent]. split.
  - rewrite Hrows. vm_compute. reflexivity.
  - etrans; [exact Hsent|]. vm_compute. reflexivity.
Defined.

(** A custom room is created and nobody enters it. *)
Definition custom_state : server.State :=
  (server.run (server.startServer 0)
     [server.PostRooms (Some "Doodles") "1b9d6bcd-bbfd-4b2d-9b5d-ab8dfbbd4bed"
        5]).1.

Definition doodles : db.RoomRow :=
  {| db.room_id := "custom-1b9d6bcd"; db.room_name := "Doodles";
     db.room_created_at := 5; db.room_max_players := 4;
     db.room_is_custom := 1 |}.

Lemma C7_witness :
  db.getRoom (server.st_db custom_state) "custom-1b9d6bcd" = Some doodles
  ∧ (server.delete_rooms custom_state "custom-1b9d6bcd").2
    = server.http_success
  ∧ db.getRoom
      (server.st_db (server.delete_rooms custom_state "custom-1b9d6bcd").1)
      "custom-1b9d6bcd" = None.
Proof.
  assert (db.getRoom (server.st_db custom_state) "custom-1b9d6bcd"
          = Some doodles) as Hroom by (vm_compute; reflexivity).
  split; [exact Hroom|].
  destruct (C7_deleteRoom custom_state "custom-1b9d6bcd" doodles Hroom)
    as (_ & _ & Hdeleted).
  destruct (Hdeleted eq_refl eq_refl) as (Hok & Hgone & _).
  split; [exact Hok | exact Hgone].
Defined.







(** * Further properties of the engine *)

(** ** Rooms: create and look up *)

Lemma getRoom_createRoom_ne d id name isCustom now id' :
  id' ≠ id →
  db.getRoom (db.createRoom d id name isCustom now) id' = db.getRoom d id'.
Proof.
  intros Hne. unfold db.getRoom. simpl.
  rewrite filter_app, filter_cons_False, filter_nil, app_nil_r
    by (simpl; congruence).
  rewrite list_filter_filter. f_equal. apply list_filter_iff.
  intros row. split; [tauto|]. intros ?. split; congruence.
Qed.

Lemma rooms_with_id_createRoom d id name isCustom now :
  filter (λ r, db.room_id r = id)
    (db.rooms (db.createRoom d id name isCustom now))
  = [ {| db.room_id := id; db.room_name := name; db.room_created_at := now;
         db.room_max_players := 4;
         db.room_is_custom := if isCustom then 1 else 0 |} ].
Proof.
  simpl. rewrite filter_app, list_filter_filter.
  rewrite filter_none; [|apply Forall_forall; intros s _ [? ?]; done].
  by rewrite filter_cons_True.
Qed.

(** X1. [createRoom] followed by [getRoom] gives back the row just written,
    with capacity 4; the id then names exactly one row; every other id reads
    as before; and the chat messages, drawing events and snapshots are not
    touched, also when the id existed already. *)
Theorem createRoom_then_getRoom d id name isCustom now :
  let d' := db.createRoom d id name isCustom now in
  db.getRoom d' id
  = Some {| db.room_id := id; db.room_name := name;
            db.room_created_at := now; db.room_max_players := 4;
            db.room_is_custom := if isCustom then 1 else 0 |}
  ∧ length (filter (λ r, db.room_id r = id) (db.rooms d')) = 1%nat
  ∧ (∀ id', id' ≠ id → db.getRoom d' id' = db.getRoom d id')
  ∧ (∀ roomId n since,
       db.getChatHistory d' roomId n = db.getChatHistory d roomId n
       ∧ db.getDrawingEvents d' roomId since
         = db.getDrawingEvents d roomId since
       ∧ db.getCanvasSnapshot d' roomId = db.getCanvasSnapshot d roomId).
Proof.
  cbv zeta. split; [|split; [|split]].
  - unfold db.getRoom. by rewrite rooms_with_id_createRoom.
  - by rewrite rooms_with_id_createRoom.
  - intros id' Hne. by apply getRoom_createRoom_ne.
  - done.
Qed.

(** ** Appending to the log and reading it back *)

Lemma order_by_snoc {A} (le : A → A → bool) (l : list A) (x : A) :
  sql.order_by le (l ++ [x]) = foldr (sql.insert le) [x] l.
Proof. unfold sql.order_by. by rewrite foldr_app. Qed.

(** A row that sorts strictly before all the others comes first, although
    it was inserted last. *)
Lemma order_by_desc_snoc {A} (key : A → Z) (l : list A) (x : A) :
  Forall (λ y, key y < key x) l →
  sql.order_by (sql.desc key) (l ++ [x])
  = x :: sql.order_by (sql.desc key) l.
Proof.
  rewrite order_by_snoc. induction 1 as [|y l Hy Hl IH]; [done|].
  simpl. rewrite IH. simpl. unfold sql.desc at 1.
  destruct (Z.leb_spec (key x) (key y)); [lia | done].
Qed.

Lemma insert_snoc {A} (le : A → A → bool) (y x : A) (s : list A) :
  le y x = true → sql.insert le y (s ++ [x]) = sql.insert le y s ++ [x].
Proof.
  intros Hyx. induction s as [|z s IH]; simpl.
  - by rewrite Hyx.
  - destruct (le y z); [done|]. by rewrite IH.
Qed.

(** A row that sorts after all the others, ties included, comes last. *)
Lemma order_by_asc_snoc {A} (key : A → Z) (l : list A) (x : A) :
  Forall (λ y, key y ≤ key x) l →
  sql.order_by (sql.asc key) (l ++ [x])
  = sql.order_by (sql.asc key) l ++ [x].
Proof.
  rewrite order_by_snoc. induction 1 as [|y l Hy Hl IH]; [done|].
  simpl. rewrite IH. apply insert_snoc. unfold sql.asc. lia.
Qed.

(** X2. A chat message appended with a timestamp later than every message
    of its room is the last one of the history read back: the history of
    [n + 1] messages is the former history of [n] followed by it. A limit of
    0 reads nothing. *)
Theorem addChatMessage_then_getChatHistory d roomId pid pname text t n :
  Forall (λ row, db.chat_timestamp row < t) (chat_rows d roomId) →
  db.getChatHistory (db.addChatMessage d roomId pid pname text t) roomId (S n)
  = db.getChatHistory d roomId n
    ++ [ {| msg_text := text; msg_playerId := pid; msg_playerName := pname;
            msg_timestamp := t |} ]
  ∧ db.getChatHistory (db.addChatMessage d roomId pid pname text t) roomId 0
    = [].
Proof.
  intros Hlater. split; [|done].
  unfold db.getChatHistory, db.chat_history_rows, sql.limit. simpl.
  rewrite filter_app, filter_cons_True, filter_nil by done.
  fold (chat_rows d roomId). rewrite order_by_desc_snoc by done.
  simpl. by rewrite reverse_cons, fmap_app.
Qed.

(** The rows of a room's drawing events. *)
Definition drawing_rows (d : db.Database) (roomId : string)
    : list db.DrawingRow :=
  filter (λ r, db.ev_room_id r = roomId) (db.drawing_events d).

Lemma drawing_rows_since_alt d roomId since :
  db.drawing_rows_since d roomId since
  = sql.order_by (sql.asc db.ev_timestamp)
      (filter (λ r, since < db.ev_timestamp r) (drawing_rows d roomId)).
Proof.
  unfold db.drawing_rows_since, drawing_rows. f_equal.
  rewrite list_filter_filter. apply list_filter_iff. intros row. tauto.
Qed.

(** X3. A drawing event stored with [addDrawingEvent] under a timestamp not
    earlier than any event of its room reads back as the last event, field
    for field, for every since-timestamp below its own, and does not show
    for the others. *)
Theorem addDrawingEvent_then_getDrawingEvents d rm roomId ev now since :
  de_type ev ≠ "" →
  Forall (λ row, db.ev_timestamp row ≤ de_timestamp ev)
    (drawing_rows d roomId) →
  db.getDrawingEvents (roomManager.addDrawingEvent d rm roomId ev now).1
    roomId since
  = db.getDrawingEvents d roomId since
    ++ (if decide (since < de_timestamp ev) then [ev] else []).
Proof.
  intros Htype Hlatest.
  assert ((roomManager.addDrawingEvent d rm roomId ev now).1
          = db.addDrawingEvent d roomId (de_playerId ev)
              (js.or_else (Some (de_type ev)) "draw")
              {| db.points := de_points ev; db.color := de_color ev;
                 db.size := de_size ev; db.tool := de_tool ev |}
              (de_timestamp ev)) as ->.
  { unfold roomManager.addDrawingEvent.
    by destruct (roomManager.getActiveRoom _ _ _). }
  unfold db.getDrawingEvents. rewrite !drawing_rows_since_alt.
  unfold drawing_rows at 1. simpl.
  rewrite filter_app, filter_cons_True, filter_nil by done.
  fold (drawing_rows d roomId). rewrite filter_app.
  rewrite filter_cons, filter_nil. simpl.
  destruct (decide (since < de_timestamp ev)) as [Hnew|Hold].
  - rewrite order_by_asc_snoc.
    + rewrite fmap_app. f_equal. simpl. unfold db.event_of_row. simpl.
      unfold js.or_else, js.truthy. apply String.eqb_neq in Htype.
      rewrite Htype. simpl. by destruct ev.
    + by apply Forall_filter_keep.
  - by rewrite !app_nil_r.
Qed.

(** ** Rooms do not see each other's log *)

(** What is persisted for one room. *)
Definition room_log (d : db.Database) (roomId : string)
    : list db.ChatRow * list db.DrawingRow * list db.SnapshotRow :=
  (chat_rows d roomId, drawing_rows d roomId, snapshots_of d roomId).

(** [d'] differs from [d] in the log of room [roomId] at most. *)
Definition only_touches (roomId : string) (d d' : db.Database) : Prop :=
  db.rooms d' = db.rooms d
  ∧ ∀ r, r ≠ roomId → room_log d' r = room_log d r.

Lemma only_touches_refl roomId d : only_touches roomId d d.
Proof. done. Qed.

Lemma only_touches_trans roomId d1 d2 d3 :
  only_touches roomId d1 d2 → only_touches roomId d2 d3 →
  only_touches roomId d1 d3.
Proof.
  intros [Hr1 Hl1] [Hr2 Hl2]. split; [congruence|].
  intros r Hne. by rewrite Hl2, Hl1.
Qed.

Lemma filter_snoc_other {A} (P : A → Prop) `{!∀ a, Decision (P a)}
    (l : list A) (x : A) :
  ¬ P x → filter P (l ++ [x]) = filter P l.
Proof.
  intros Hx. by rewrite filter_app, filter_cons_False, filter_nil, app_nil_r.
Qed.

Lemma filter_filter_other {A} (P Q : A → Prop) `{!∀ a, Decision (P a)}
    `{!∀ a, Decision (Q a)} (l : list A) :
  (∀ a, P a → Q a) → filter P (filter Q l) = filter P l.
Proof.
  intros Himpl. rewrite list_filter_filter. apply list_filter_iff.
  intros a. split; [tauto | auto].
Qed.

Lemma only_touches_addChatMessage d roomId pid pname text t :
  only_touches roomId d (db.addChatMessage d roomId pid pname text t).
Proof.
  split; [done|]. intros r Hne. unfold room_log, chat_rows. simpl.
  by rewrite filter_snoc_other by (simpl; congruence).
Qed.

Lemma only_touches_addDrawingEvent d roomId pid type data t :
  only_touches roomId d (db.addDrawingEvent d roomId pid type data t).
Proof.
  split; [done|]. intros r Hne. unfold room_log, drawing_rows. simpl.
  by rewrite filter_snoc_other by (simpl; congruence).
Qed.

Lemma only_touches_clearDrawingEvents d roomId :
  only_touches roomId d (db.clearDrawingEvents d roomId).
Proof.
  split; [done|]. intros r Hne. unfold room_log, drawing_rows. simpl.
  by rewrite filter_filter_other by (intros a; congruence).
Qed.

Lemma only_touches_clearCanvasSnapshot d roomId :
  only_touches roomId d (db.clearCanvasSnapshot d roomId).
Proof.
  split; [done|]. intros r Hne. unfold room_log, snapshots_of. simpl.
  by rewrite filter_filter_other by (intros a; congruence).
Qed.

Lemma only_touches_saveCanvasSnapshot d roomId data t :
  only_touches roomId d (db.saveCanvasSnapshot d roomId data t).
Proof.
  split; [done|]. intros r Hne. unfold room_log.
  rewrite snapshots_of_save_ne by done. done.
Qed.

Lemma only_touches_store_draw st s ev now :
  only_touches (server.currentRoomId s) (server.st_db st)
    (server.st_db (server.store_draw st s ev now).1).
Proof.
  unfold server.store_draw, roomManager.addDrawingEvent.
  destruct (roomManager.getActiveRoom _ _ _) as [rm1 activeRoom]. simpl.
  apply only_touches_addDrawingEvent.
Qed.

Lemma only_touches_store_chat st s msg now :
  only_touches (server.currentRoomId s) (server.st_db st)
    (server.st_db (server.store_chat st s msg now).1).
Proof. simpl. apply only_touches_addChatMessage. Qed.

Lemma only_touches_replay_one s now acc e :
  only_touches (server.currentRoomId s) (server.st_db acc.1)
    (server.st_db (server.replay_one s now acc e).1).
Proof.
  destruct acc as [st sent]. unfold server.replay_one.
  destruct (String.eqb (server.qe_type e) "draw").
  - match goal with
    | |- context [server.store_draw ?st ?s ?ev ?now] =>
        pose proof (only_touches_store_draw st s ev now);
        by destruct (server.store_draw st s ev now)
    end.
  - destruct (String.eqb (server.qe_type e) "message"); [|done].
    match goal with
    | |- context [server.store_chat ?st ?s ?m ?now] =>
        pose proof (only_touches_store_chat st s m now);
        by destruct (server.store_chat st s m now)
    end.
Qed.

Lemma only_touches_replay s now events acc :
  only_touches (server.currentRoomId s) (server.st_db acc.1)
    (server.st_db (foldl (server.replay_one s now) acc events).1).
Proof.
  revert acc. induction events as [|e events IH]; intros acc; [done|].
  simpl. eapply only_touches_trans; [apply only_touches_replay_one | apply IH].
Qed.

Lemma db_enter_room c st roomId pid pname missing reply isRejoin now :
  server.st_db
    (server.enter_room c st roomId pid pname missing reply isRejoin now).1
  = server.st_db st.
Proof.
  unfold server.enter_room. destruct (negb _); [done|].
  destruct (roomManager.addPlayer _ _ _ _ _) as [rm1 added].
  destruct (negb added); [done|].
  by destruct (roomManager.getRoomState _ _ _ _) as [rm2 rs].
Qed.

(** What a message does to the database: nothing when its connection has
    not joined, and otherwise nothing outside the log of the connection's
    room. *)
Lemma handleMessage_only_touches c conn st m now uuid :
  match server.attached conn with
  | Some s =>
      only_touches (server.currentRoomId s) (server.st_db st)
        (server.st_db (server.handleMessage c conn st m now uuid).1)
  | None =>
      server.st_db (server.handleMessage c conn st m now uuid).1
      = server.st_db st
  end.
Proof.
  assert (∀ st', server.st_db st' = server.st_db st →
            match server.attached conn with
            | Some s =>
                only_touches (server.currentRoomId s) (server.st_db st)
                  (server.st_db st')
            | None => server.st_db st' = server.st_db st
            end) as Hsame.
  { intros st' ->. by destruct (server.attached conn). }
  destruct m as [roomId pid pname|roomId pid pname last|points color size tool
                | |text| | |data|events|type| ]; simpl.
  - apply Hsame. unfold server.handleJoin. by rewrite db_enter_room.
  - apply Hsame. unfold server.handleRejoin. by rewrite db_enter_room.
  - unfold server.handleDraw. destruct (server.attached conn) as [s|]; [|done].
    apply only_touches_store_draw.
  - unfold server.handleClear. destruct (server.attached conn) as [s|]; [|done].
    simpl. eapply only_touches_trans;
      [apply only_touches_clearDrawingEvents
      |apply only_touches_clearCanvasSnapshot].
  - unfold server.handleChatMessage.
    destruct (server.attached conn) as [s|]; [|done].
    destruct (server.chat_text_ok text); [|done].
    apply only_touches_store_chat.
  - unfold server.handleDrawIndicator.
    by destruct (server.attached conn) as [s|].
  - unfold server.handleDrawIndicator.
    by destruct (server.attached conn) as [s|].
  - unfold server.handleCanvasSnapshot.
    destruct (server.attached conn) as [s|]; [|done].
    destruct (js.truthy data); [|done]. simpl.
    apply only_touches_saveCanvasSnapshot.
  - unfold server.handleQueueReplay.
    destruct (server.attached conn) as [s|]; [|done].
    destruct events as [events|]; [|done].
    apply (only_touches_replay s now events (st, [])).
  - by apply Hsame.
  - by apply Hsame.
Qed.

Lemma getChatHistory_chat_rows d d' roomId n :
  chat_rows d' roomId = chat_rows d roomId →
  db.getChatHistory d' roomId n = db.getChatHistory d roomId n.
Proof.
  unfold db.getChatHistory, db.chat_history_rows, chat_rows. by intros ->.
Qed.

Lemma getDrawingEvents_drawing_rows d d' roomId since :
  drawing_rows d' roomId = drawing_rows d roomId →
  db.getDrawingEvents d' roomId since = db.getDrawingEvents d roomId since.
Proof.
  unfold db.getDrawingEvents. rewrite !drawing_rows_since_alt. by intros ->.
Qed.

Lemma getCanvasSnapshot_snapshots_of d d' roomId :
  snapshots_of d' roomId = snapshots_of d roomId →
  db.getCanvasSnapshot d' roomId = db.getCanvasSnapshot d roomId.
Proof. unfold db.getCanvasSnapshot, snapshots_of. by intros ->. Qed.

(** X4. A WebSocket message changes nothing that is persisted for a room
    other than the current room of its connection: the room's row, chat
    history, drawing events and snapshot read as before. From a connection
    that has not joined it changes nothing in the database. *)
Theorem message_leaves_other_rooms c conn st m now uuid roomId :
  server.st_conns st !! c = Some conn →
  (∀ s, server.attached conn = Some s → server.currentRoomId s ≠ roomId) →
  let d := server.st_db st in
  let d' := server.st_db (server.step st (server.WsMessage c m now uuid)).1 in
  db.getRoom d' roomId = db.getRoom d roomId
  ∧ (∀ n, db.getChatHistory d' roomId n = db.getChatHistory d roomId n)
  ∧ (∀ since,
       db.getDrawingEvents d' roomId since = db.getDrawingEvents d roomId since)
  ∧ db.getCanvasSnapshot d' roomId = db.getCanvasSnapshot d roomId
  ∧ (server.attached conn = None → d' = d).
Proof.
  intros Hconn Hother. cbv zeta. simpl. rewrite Hconn.
  destruct (server.isOpen conn); [|done].
  pose proof (handleMessage_only_touches c conn st m now uuid) as Htouch.
  destruct (server.attached conn) as [s|] eqn:Hs.
  - destruct Htouch as [Hrooms Hlog].
    specialize (Hlog roomId (not_eq_sym (Hother s eq_refl))).
    unfold room_log in Hlog. simplify_eq.
    split; [unfold db.getRoom; by rewrite Hrooms|].
    split; [intros n; by apply getChatHistory_chat_rows|].
    split; [intros since; by apply getDrawingEvents_drawing_rows|].
    split; [by apply getCanvasSnapshot_snapshots_of | done].
  - by rewrite Htouch.
Qed.

(** ** Who is sent what *)

(** A socket that is open and belongs to a player of the room. *)
Definition listens (st : server.State) (roomId : string) (c : nat) : Prop :=
  server.ws_open st c = true
  ∧ ∃ player, player ∈ roomManager.getPlayersInRoom
                         (server.st_roomManager st) roomId
              ∧ roomManager.ws player = c.

Lemma elem_of_broadcastToRoom st roomId msg exclude c m :
  (c, m) ∈ server.broadcastToRoom st roomId msg exclude
  ↔ m = msg
    ∧ server.ws_open st c = true
    ∧ ∃ player, player ∈ roomManager.getPlayersInRoom
                           (server.st_roomManager st) roomId
                ∧ roomManager.ws player = c
                ∧ Some (roomManager.playerId player) ≠ exclude.
Proof.
  unfold server.broadcastToRoom. rewrite list_elem_of_fmap. split.
  - intros (player & [= -> ->] & [[Hex Hopen] Hin]%list_elem_of_filter).
    eauto 10.
  - intros (-> & Hopen & player & Hin & <- & Hex). exists player.
    split; [done|]. apply list_elem_of_filter. by repeat split.
Qed.

Lemma broadcastToRoom_listens st roomId msg exclude c m :
  (c, m) ∈ server.broadcastToRoom st roomId msg exclude → listens st roomId c.
Proof.
  intros (_ & Hopen & player & Hin & Hws & _)%elem_of_broadcastToRoom.
  split; eauto.
Qed.

Lemma listens_same_audience st st' roomId c :
  same_audience st st' → listens st roomId c → listens st' roomId c.
Proof.
  intros [Hopen Hplayers] [Ho (player & Hin & Hws)]. split.
  - by rewrite Hopen.
  - exists player. by rewrite Hplayers.
Qed.

Lemma replay_one_same_audience s now st sent e :
  same_audience st (server.replay_one s now (st, sent) e).1
  ∧ ∀ c m, (c, m) ∈ (server.replay_one s now (st, sent) e).2 →
      (c, m) ∈ sent ∨ listens st (server.currentRoomId s) c.
Proof.
  unfold server.replay_one.
  destruct (String.eqb (server.qe_type e) "draw").
  - match goal with
    | |- context [server.store_draw ?st ?s ?ev ?now] =>
        destruct (store_draw_spec st s ev now)
          as (_ & _ & _ & _ & Hsame & Hout);
        destruct (server.store_draw st s ev now) as [st' out]
    end.
    simpl in *. split; [done|]. intros c m [?|Hin]%elem_of_app; [by left|].
    right. subst out. by eapply broadcastToRoom_listens.
  - destruct (String.eqb (server.qe_type e) "message");
      [|split; [apply same_audience_refl | by left]].
    match goal with
    | |- context [server.store_chat ?st ?s ?msg ?now] =>
        destruct (store_chat_spec st s msg now)
          as (_ & _ & _ & _ & Hsame & Hout);
        destruct (server.store_chat st s msg now) as [st' out]
    end.
    simpl in *. split; [done|]. intros c m [?|Hin]%elem_of_app; [by left|].
    right. subst out. by eapply broadcastToRoom_listens.
Qed.

Lemma replay_same_audience s now events st sent :
  same_audience st (foldl (server.replay_one s now) (st, sent) events).1
  ∧ ∀ c m, (c, m) ∈ (foldl (server.replay_one s now) (st, sent) events).2 →
      (c, m) ∈ sent ∨ listens st (server.currentRoomId s) c.
Proof.
  revert st sent. induction events as [|e events IH]; intros st sent.
  { split; [apply same_audience_refl | by left]. }
  cbn [foldl].
  destruct (replay_one_same_audience s now st sent e) as [Hsame Hout].
  destruct (server.replay_one s now (st, sent) e) as [st1 sent1].
  cbn [fst snd] in Hsame, Hout. destruct (IH st1 sent1) as [Hsame' Hout']. split.
  - by eapply same_audience_trans.
  - intros c m Hin. destruct (Hout' c m Hin) as [Hin1|Hl].
    + apply Hout in Hin1. tauto.
    + right. destruct Hsame as [Hopen Hplayers].
      destruct Hl as [Ho (player & Hp & Hws)]. split.
      * by rewrite <- Hopen.
      * exists player. by rewrite <- Hplayers.
Qed.

(** The session of a connection after a step. *)
Definition session_of (st : server.State) (c : nat) : option server.Session :=
  match server.st_conns st !! c with
  | Some conn => server.session conn
  | None => None
  end.

Lemma enter_room_sends c st roomId pid pname missing reply isRejoin now :
  let r := server.enter_room c st roomId pid pname missing reply isRejoin now in
  server.st_conns r.1 = server.st_conns st
  ∧ ∀ c' m, (c', m) ∈ r.2 → c' = c ∨ listens r.1 roomId c'.
Proof.
  cbv zeta. unfold server.enter_room. destruct (negb _).
  { split; [done|]. intros c' m [= -> ->]%list_elem_of_singleton. by left. }
  destruct (roomManager.addPlayer _ _ _ _ _) as [rm1 added].
  destruct (negb added).
  { split; [done|]. intros c' m [= -> ->]%list_elem_of_singleton. by left. }
  destruct (roomManager.getRoomState _ _ _ _) as [rm2 rs]. simpl.
  split; [done|]. intros c' m [[= -> ->]|Hin]%elem_of_cons; [by left|].
  right. by eapply broadcastToRoom_listens.
Qed.

(** X5. Whatever a step of the server sends goes either to the connection
    the event came from, or to an open socket of a player who, after the
    step, is registered in that connection's current room. The REST routes,
    the timer and a new connection send nothing over the sockets. *)
Theorem sends_stay_in_room st ev c' m :
  (c', m) ∈ (server.step st ev).2 →
  ∃ c now,
    (ev = server.WsClose c now ∨ ∃ msg uuid, ev = server.WsMessage c msg now uuid)
    ∧ (c' = c
       ∨ ∃ s, session_of (server.step st ev).1 c = Some s
              ∧ listens (server.step st ev).1 (server.currentRoomId s) c').
Proof.
  destruct ev as [c|c msg now uuid|c now|name uuid now|roomId|now]; simpl;
    try by intros ?%elem_of_nil.
  - destruct (server.st_conns st !! c); by intros ?%elem_of_nil.
  - destruct (server.st_conns st !! c) as [conn|] eqn:Hconn;
      [|by intros ?%elem_of_nil].
    destruct (server.isOpen conn) eqn:Hopen; [|by intros ?%elem_of_nil].
    intros Hin. exists c, now. split; [eauto|].
    destruct msg as [roomId pid pname|roomId pid pname last
                    |points color size tool| |text| | |data|events|type| ];
      simpl in *.
    + unfold server.handleJoin in *.
      match type of Hin with
      | context [server.enter_room c ?st1 ?r ?p ?n ?mi ?re ?ir ?no] =>
          destruct (enter_room_sends c st1 r p n mi re ir no) as [Hconns Hout];
          destruct (Hout _ _ Hin) as [?|Hl]; [by left|]; right;
          exists {| server.playerId := p; server.playerName := n;
                    server.currentRoomId := r |}
      end.
      split; [|exact Hl]. unfold session_of. rewrite Hconns. simpl.
      by rewrite lookup_insert_eq.
    + unfold server.handleRejoin in *.
      match type of Hin with
      | context [server.enter_room c ?st1 ?r ?p ?n ?mi ?re ?ir ?no] =>
          destruct (enter_room_sends c st1 r p n mi re ir no) as [Hconns Hout];
          destruct (Hout _ _ Hin) as [?|Hl]; [by left|]; right;
          exists {| server.playerId := p; server.playerName := n;
                    server.currentRoomId := r |}
      end.
      split; [|exact Hl]. unfold session_of. rewrite Hconns. simpl.
      by rewrite lookup_insert_eq.
    + unfold server.handleDraw, server.attached in *.
      destruct (server.session conn) as [s|] eqn:Hs;
        [|by apply elem_of_nil in Hin].
      destruct (_ && _); [|by apply elem_of_nil in Hin].
      destruct (store_draw_spec st s
                  {| de_type := "draw"; de_points := points; de_color := color;
                     de_size := size; de_tool := js.or_else tool "pen";
                     de_playerId := server.playerId s; de_timestamp := now |}
                  now) as (_ & _ & _ & _ & Hsame & Hout).
      cbv zeta in Hsame, Hout. rewrite Hout in Hin. right. exists s. split.
      * unfold session_of. destruct Hsame as [_ _].
        unfold server.store_draw.
        destruct (roomManager.addDrawingEvent _ _ _ _ _). simpl.
        by rewrite Hconn.
      * eapply listens_same_audience; [exact Hsame|].
        by eapply broadcastToRoom_listens.
    + unfold server.handleClear, server.attached in *.
      destruct (server.session conn) as [s|] eqn:Hs;
        [|by apply elem_of_nil in Hin].
      destruct (_ && _); [|by apply elem_of_nil in Hin].
      simpl in *. right. exists s. split.
      * unfold session_of. simpl. by rewrite Hconn.
      * by eapply broadcastToRoom_listens.
    + unfold server.handleChatMessage, server.attached in *.
      destruct (server.session conn) as [s|] eqn:Hs;
        [|by apply elem_of_nil in Hin].
      destruct (_ && _); [|by apply elem_of_nil in Hin].
      destruct (server.chat_text_ok text); [|by apply elem_of_nil in Hin].
      match type of Hin with
      | context [server.store_chat st s ?msg now] =>
          destruct (store_chat_spec st s msg now)
            as (_ & _ & _ & _ & Hsame & Hout)
      end.
      cbv zeta in Hsame, Hout. rewrite Hout in Hin. right. exists s. split.
      * unfold session_of. simpl. by rewrite Hconn.
      * eapply listens_same_audience; [exact Hsame|].
        by eapply broadcastToRoom_listens.
    + unfold server.handleDrawIndicator, server.attached in *.
      destruct (server.session conn) as [s|] eqn:Hs;
        [|by apply elem_of_nil in Hin].
      destruct (_ && _); [|by apply elem_of_nil in Hin].
      simpl in *. right. exists s. split.
      * unfold session_of. simpl. by rewrite Hconn.
      * by eapply broadcastToRoom_listens.
    + unfold server.handleDrawIndicator, server.attached in *.
      destruct (server.session conn) as [s|] eqn:Hs;
        [|by apply elem_of_nil in Hin].
      destruct (_ && _); [|by apply elem_of_nil in Hin].
      simpl in *. right. exists s. split.
      * unfold session_of. simpl. by rewrite Hconn.
      * by eapply broadcastToRoom_listens.
    + unfold server.handleCanvasSnapshot in *.
      destruct (server.attached conn); [|by apply elem_of_nil in Hin].
      destruct (js.truthy data); by apply elem_of_nil in Hin.
    + unfold server.handleQueueReplay, server.attached in *.
      destruct (server.session conn) as [s|] eqn:Hs;
        [|by apply elem_of_nil in Hin].
      destruct (_ && _); [|by apply elem_of_nil in Hin].
      destruct events as [events|]; [|by apply elem_of_nil in Hin].
      destruct (replay_same_audience s now events st []) as [Hsame Hout].
      destruct (Hout _ _ Hin) as [?%elem_of_nil|Hl]; [done|].
      right. exists s. split.
      * unfold session_of. destruct Hsame as [_ _].
        assert (∀ acc, server.st_conns
                         (foldl (server.replay_one s now) acc events).1
                       = server.st_conns acc.1) as Hconns.
        { clear. induction events as [|e events IH]; intros acc; [done|].
          simpl. rewrite IH. destruct acc as [st sent].
          unfold server.replay_one.
          destruct (String.eqb _ "draw").
          - unfold server.store_draw.
            by destruct (roomManager.addDrawingEvent _ _ _ _ _).
          - by destruct (String.eqb _ "message"). }
        rewrite Hconns. simpl. by rewrite Hconn.
      * by eapply listens_same_audience.
    + by apply elem_of_nil in Hin.
    + apply list_elem_of_singleton in Hin as [= -> ->]. by left.
  - destruct (server.st_conns st !! c) as [conn|] eqn:Hconn;
      [|by intros ?%elem_of_nil].
    destruct (server.isOpen conn) eqn:Hopen; [|by intros ?%elem_of_nil].
    intros Hin. exists c, now. split; [eauto|].
    unfold server.handleClose, server.attached in *.
    destruct (server.session conn) as [s|] eqn:Hs;
      [|by apply elem_of_nil in Hin].
    destruct (_ && _); [|by apply elem_of_nil in Hin].
    destruct (roomManager.removePlayer _ _ _ _ _) as [rm removed].
    simpl in *. right. exists s. split.
    + unfold session_of. simpl. by rewrite lookup_insert_eq.
    + by eapply broadcastToRoom_listens.
Qed.

(** ** Invariants of the database along the server's steps *)

Section db_invariant.
Variable P : db.Database → Prop.
Hypothesis P_start : ∀ now, P (server.st_db (server.startServer now)).
Hypothesis P_createRoom : ∀ d uuid name now,
  P d → P (db.createRoom d ("custom-" +:+ js.slice0 8 uuid) name true now).
Hypothesis P_deleteRoom : ∀ d roomId room,
  P d → db.getRoom d roomId = Some room → db.room_is_custom room = 1 →
  P (db.deleteRoom d roomId).
Hypothesis P_addChatMessage : ∀ d roomId pid pname text t,
  P d → P (db.addChatMessage d roomId pid pname text t).
Hypothesis P_addDrawingEvent : ∀ d roomId pid type data t,
  P d → P (db.addDrawingEvent d roomId pid type data t).
Hypothesis P_clearDrawingEvents : ∀ d roomId,
  P d → P (db.clearDrawingEvents d roomId).
Hypothesis P_clearCanvasSnapshot : ∀ d roomId,
  P d → P (db.clearCanvasSnapshot d roomId).
Hypothesis P_saveCanvasSnapshot : ∀ d roomId data t,
  P d → P (db.saveCanvasSnapshot d roomId data t).
Hypothesis P_cleanupOldData : ∀ d now maxAgeMs,
  P d → P (db.cleanupOldData d now maxAgeMs).

Lemma db_inv_manager_deleteRoom d rm roomId :
  P d → P (roomManager.deleteRoom d rm roomId).1.1.
Proof.
  intros Hd. unfold roomManager.deleteRoom.
  destruct (db.getRoom d roomId) as [room|] eqn:Hroom; [|done].
  destruct (Z.eqb_spec (db.room_is_custom room) 1); [|done].
  simpl. by eapply P_deleteRoom.
Qed.

Lemma db_inv_cleanupInactiveRooms d rm now maxInactiveMs :
  P d → P (roomManager.cleanupInactiveRooms d rm now maxInactiveMs).1.
Proof.
  intros Hd. unfold roomManager.cleanupInactiveRooms.
  induction (map_to_list (roomManager.activeRooms rm)) as [|entry l IH];
    [done|].
  simpl. destruct entry as [roomId activeRoom].
  destruct (foldr _ _ l) as [d1 rm1]. simpl in *.
  destruct (_ && _); [|done].
  destruct (db.getRoom d1 roomId) as [room|] eqn:Hroom; [|done].
  destruct (db.room_is_custom room =? 1) eqn:Hcustom; [|done].
  pose proof (db_inv_manager_deleteRoom d1 rm1 roomId IH) as Hdel.
  by destruct (roomManager.deleteRoom d1 rm1 roomId) as [[d' rm'] ok].
Qed.

Lemma db_inv_store_draw st s ev now :
  P (server.st_db st) → P (server.st_db (server.store_draw st s ev now).1).
Proof.
  intros Hd. unfold server.store_draw, roomManager.addDrawingEvent.
  destruct (roomManager.getActiveRoom _ _ _) as [rm1 activeRoom]. simpl.
  by apply P_addDrawingEvent.
Qed.

Lemma db_inv_replay s now events acc :
  P (server.st_db acc.1) →
  P (server.st_db (foldl (server.replay_one s now) acc events).1).
Proof.
  revert acc. induction events as [|e events IH]; intros acc Hacc; [done|].
  cbn [foldl]. apply IH. destruct acc as [st sent]. unfold server.replay_one.
  destruct (String.eqb (server.qe_type e) "draw").
  - match goal with
    | |- context [server.store_draw ?st ?s ?ev ?now] =>
        pose proof (db_inv_store_draw st s ev now Hacc);
        by destruct (server.store_draw st s ev now)
    end.
  - destruct (String.eqb (server.qe_type e) "message"); [|done].
    simpl. by apply P_addChatMessage.
Qed.

Lemma db_inv_handleMessage c conn st m now uuid :
  P (server.st_db st) →
  P (server.st_db (server.handleMessage c conn st m now uuid).1).
Proof.
  intros Hd.
  destruct m as [roomId pid pname|roomId pid pname last|points color size tool
                | |text| | |data|events|type| ]; simpl; try done.
  - unfold server.handleJoin. by rewrite db_enter_room.
  - unfold server.handleRejoin. by rewrite db_enter_room.
  - unfold server.handleDraw. destruct (server.attached conn); [|done].
    by apply db_inv_store_draw.
  - unfold server.handleClear. destruct (server.attached conn); [|done].
    simpl. by apply P_clearCanvasSnapshot, P_clearDrawingEvents.
  - unfold server.handleChatMessage. destruct (server.attached conn); [|done].
    destruct (server.chat_text_ok text); [|done].
    simpl. by apply P_addChatMessage.
  - unfold server.handleDrawIndicator. by destruct (server.attached conn).
  - unfold server.handleDrawIndicator. by destruct (server.attached conn).
  - unfold server.handleCanvasSnapshot. destruct (server.attached conn); [|done].
    destruct (js.truthy data); [|done]. simpl. by apply P_saveCanvasSnapshot.
  - unfold server.handleQueueReplay. destruct (server.attached conn) as [s|];
      [|done].
    destruct events as [events|]; [|done].
    by apply (db_inv_replay s now events (st, [])).
Qed.

Lemma db_inv_step st ev :
  P (server.st_db st) → P (server.st_db (server.step st ev).1).
Proof.
  intros Hd. destruct ev as [c|c m now uuid|c now|name uuid now|roomId|now];
    simpl.
  - by destruct (server.st_conns st !! c).
  - destruct (server.st_conns st !! c) as [conn|]; [|done].
    destruct (server.isOpen conn); [|done]. by apply db_inv_handleMessage.
  - destruct (server.st_conns st !! c) as [conn|]; [|done].
    destruct (server.isOpen conn); [|done].
    unfold server.handleClose. destruct (server.attached conn); [|done].
    by destruct (roomManager.removePlayer _ _ _ _ _).
  - unfold server.post_rooms. destruct (_ || _); [done|].
    destruct (20 <? _); [done|]. simpl. by apply P_createRoom.
  - unfold server.delete_rooms.
    destruct (roomManager.getRoomInfo _ _ _) as [info|]; [|done].
    destruct (negb _); [done|]. destruct (0 <? _); [done|].
    pose proof (db_inv_manager_deleteRoom (server.st_db st)
                  (server.st_roomManager st) roomId Hd).
    by destruct (roomManager.deleteRoom _ _ _) as [[d rm] ok].
  - unfold server.hourly.
    pose proof (db_inv_cleanupInactiveRooms (server.st_db st)
                  (server.st_roomManager st) now
                  roomManager.default_maxInactiveMs Hd).
    destruct (roomManager.cleanupInactiveRooms _ _ _ _) as [d rm].
    simpl. by apply P_cleanupOldData.
Qed.

Lemma db_inv_reachable st : server.reachable st → P (server.st_db st).
Proof.
  induction 1 as [now|st ev Hst IH]; [apply P_start | by apply db_inv_step].
Qed.

End db_invariant.

(** ** Row ids *)

(** The rows' ids increase along the table, are positive and do not exceed
    the AUTOINCREMENT counter. *)
Definition increasing {A} (id : A → Z) (seq : Z) (rows : list A) : Prop :=
  StronglySorted (λ a b, id a < id b) rows
  ∧ Forall (λ a, 0 < id a ≤ seq) rows.

Definition ids_ok (d : db.Database) : Prop :=
  (0 ≤ db.chat_messages_seq d ∧ 0 ≤ db.drawing_events_seq d
   ∧ 0 ≤ db.canvas_snapshots_seq d)
  ∧ increasing db.chat_id (db.chat_messages_seq d) (db.chat_messages d)
  ∧ increasing db.ev_id (db.drawing_events_seq d) (db.drawing_events d)
  ∧ increasing db.snap_id (db.canvas_snapshots_seq d) (db.canvas_snapshots d).

Lemma StronglySorted_filter {A} (R : relation A) (P : A → Prop)
    `{!∀ a, Decision (P a)} (l : list A) :
  StronglySorted R l → StronglySorted R (filter P l).
Proof.
  induction 1 as [|x l Hs IH Hx]; [rewrite filter_nil; constructor|].
  rewrite filter_cons. destruct (decide (P x)); [|done].
  constructor; [done|]. by apply Forall_filter_keep.
Qed.

Lemma increasing_filter {A} (id : A → Z) seq (P : A → Prop)
    `{!∀ a, Decision (P a)} (rows : list A) :
  increasing id seq rows → increasing id seq (filter P rows).
Proof.
  intros [Hs Hb]. split; [by apply StronglySorted_filter|].
  by apply Forall_filter_keep.
Qed.

Lemma increasing_snoc {A} (id : A → Z) seq (rows : list A) (x : A) :
  0 ≤ seq → id x = seq + 1 →
  increasing id seq rows → increasing id (seq + 1) (rows ++ [x]).
Proof.
  intros Hseq Hx [Hs Hb]. split.
  - apply StronglySorted_app. split; [|split; [done | repeat constructor]].
    intros a b Ha Hb'. apply list_elem_of_singleton in Hb' as ->.
    rewrite Forall_forall in Hb. specialize (Hb a Ha). lia.
  - apply Forall_app. split.
    + eapply Forall_impl; [exact Hb|]. intros a Ha. simpl in Ha. lia.
    + repeat constructor; lia.
Qed.

Lemma ids_ok_reachable st : server.reachable st → ids_ok (server.st_db st).
Proof.
  apply db_inv_reachable; [|unfold ids_ok; simpl ..].
  - intros now. unfold server.startServer. cbn [server.st_db].
    assert (∀ d, ids_ok d →
              ids_ok (roomManager.initializeDefaultRooms d now)) as Hinit.
    { unfold roomManager.initializeDefaultRooms.
      generalize roomManager.default_rooms. intros rooms.
      induction rooms as [|[roomId name] rooms IH]; intros d Hd; [done|].
      simpl. apply IH. by destruct (db.getRoom d roomId). }
    apply Hinit. unfold ids_ok, increasing. simpl.
    repeat split; (lia || constructor).
  - done.
  - intros d roomId room (Hseq & Hc & He & Hs) _ _. split; [done|].
    split; [|split]; by apply increasing_filter.
  - intros d roomId pid pname text t (Hseq & Hc & He & Hs).
    split; [lia|]. split; [|done]. apply increasing_snoc; [lia | done | done].
  - intros d roomId pid type data t (Hseq & Hc & He & Hs).
    split; [lia|]. split; [done|]. split; [|done].
    apply increasing_snoc; [lia | done | done].
  - intros d roomId (Hseq & Hc & He & Hs). split; [done|].
    split; [done|]. split; [|done]. by apply increasing_filter.
  - intros d roomId (Hseq & Hc & He & Hs). split; [done|].
    split; [done|]. split; [done|]. by apply increasing_filter.
  - intros d roomId data t (Hseq & Hc & He & Hs). split; [lia|].
    split; [done|]. split; [done|].
    apply increasing_snoc; [lia | done |]. by apply increasing_filter.
  - intros d now maxAgeMs (Hseq & Hc & He & Hs). split; [done|].
    split; [|split; [|done]]; by apply increasing_filter.
Qed.

Lemma increasing_NoDup {A} (id : A → Z) seq (rows : list A) :
  increasing id seq rows → NoDup (id <$> rows).
Proof.
  intros [Hs _]. induction Hs as [|x l Hs IH Hx]; [constructor|].
  rewrite fmap_cons. constructor; [|done].
  intros (y & Heq & Hy)%list_elem_of_fmap.
  rewrite Forall_forall in Hx. specialize (Hx y Hy). lia.
Qed.

(** X6. In every state the server reaches, the ids of the chat messages, of
    the drawing events and of the snapshots are positive, pairwise distinct,
    increasing in insertion order and at most the table's counter; the next
    row gets the counter plus one, so an id is not handed out twice, also
    not after rows were deleted. *)
Theorem ids_never_reused st :
  server.reachable st →
  let d := server.st_db st in
  increasing db.chat_id (db.chat_messages_seq d) (db.chat_messages d)
  ∧ increasing db.ev_id (db.drawing_events_seq d) (db.drawing_events d)
  ∧ increasing db.snap_id (db.canvas_snapshots_seq d) (db.canvas_snapshots d)
  ∧ NoDup (db.chat_id <$> db.chat_messages d)
  ∧ NoDup (db.ev_id <$> db.drawing_events d)
  ∧ NoDup (db.snap_id <$> db.canvas_snapshots d)
  ∧ (∀ roomId pid pname text t row,
       row ∈ db.chat_messages d →
       db.chat_id row
       < db.chat_messages_seq (db.addChatMessage d roomId pid pname text t))
  ∧ (∀ roomId pid type data t row,
       row ∈ db.drawing_events d →
       db.ev_id row
       < db.drawing_events_seq (db.addDrawingEvent d roomId pid type data t)).
Proof.
  intros Hst. cbv zeta.
  destruct (ids_ok_reachable st Hst) as (_ & Hc & He & Hs).
  split; [done|]. split; [done|]. split; [done|].
  split; [by eapply increasing_NoDup|]. split; [by eapply increasing_NoDup|].
  split; [by eapply increasing_NoDup|]. split.
  - intros roomId pid pname text t row Hrow. simpl.
    destruct Hc as [_ Hb]. rewrite Forall_forall in Hb.
    specialize (Hb row Hrow). lia.
  - intros roomId pid type data t row Hrow. simpl.
    destruct He as [_ Hb]. rewrite Forall_forall in Hb.
    specialize (Hb row Hrow). lia.
Qed.

(** ** The directory of rooms *)

Lemma getRoom_deleteRoom_ne d roomId roomId' :
  roomId' ≠ roomId →
  db.getRoom (db.deleteRoom d roomId) roomId' = db.getRoom d roomId'.
Proof.
  intros Hne. unfold db.getRoom. simpl.
  by rewrite filter_filter_other by (intros a; congruence).
Qed.

Lemma getRoom_room_id d roomId room :
  db.getRoom d roomId = Some room → db.room_id room = roomId.
Proof.
  unfold db.getRoom. intros Hhead. apply head_Some_elem_of in Hhead.
  by apply list_elem_of_filter in Hhead as [? _].
Qed.

Lemma NoDup_fmap_filter {A B} (f : A → B) (P : A → Prop)
    `{!∀ a, Decision (P a)} (l : list A) :
  NoDup (f <$> l) → NoDup (f <$> filter P l).
Proof.
  induction l as [|x l IH]; [done|]. rewrite fmap_cons.
  intros [Hx Hl]%NoDup_cons. rewrite filter_cons.
  destruct (decide (P x)); [|by apply IH].
  rewrite fmap_cons. apply NoDup_cons. split; [|by apply IH].
  intros (y & Heq & Hy)%list_elem_of_fmap.
  apply list_elem_of_filter in Hy as [_ Hy]. apply Hx.
  apply list_elem_of_fmap. eauto.
Qed.

(** The directory is well formed: one row per id, capacity 4, a 0/1 custom
    flag, and the four default rooms present and not custom. *)
Definition directory_ok (d : db.Database) : Prop :=
  NoDup (db.room_id <$> db.rooms d)
  ∧ Forall (λ room, db.room_max_players room = 4
                    ∧ (db.room_is_custom room = 0 ∨ db.room_is_custom room = 1))
      (db.rooms d)
  ∧ Forall (λ '(roomId, name),
              ∃ room, db.getRoom d roomId = Some room
                      ∧ db.room_name room = name
                      ∧ db.room_is_custom room = 0)
      roomManager.default_rooms.

Lemma directory_ok_createRoom d id name isCustom now :
  Forall (λ '(roomId, _), roomId ≠ id) roomManager.default_rooms →
  directory_ok d → directory_ok (db.createRoom d id name isCustom now).
Proof.
  intros Hfresh (Hnd & Hall & Hdef). split; [|split].
  - simpl. rewrite fmap_app. apply NoDup_app. split; [|split].
    + by apply NoDup_fmap_filter.
    + intros x (row & -> & Hrow)%list_elem_of_fmap.
      apply list_elem_of_filter in Hrow as [Hne _].
      intros Heq%list_elem_of_singleton. done.
    + repeat constructor. by intros ?%elem_of_nil.
  - simpl. apply Forall_app. split; [by apply Forall_filter_keep|].
    constructor; [|constructor]. simpl. split; [done|].
    destruct isCustom; auto.
  - rewrite Forall_forall in Hdef, Hfresh. apply Forall_forall.
    intros [roomId name'] Hin. specialize (Hdef _ Hin). specialize (Hfresh _ Hin).
    simpl in *. by rewrite getRoom_createRoom_ne.
Qed.

Lemma directory_ok_deleteRoom d roomId room :
  directory_ok d → db.getRoom d roomId = Some room →
  db.room_is_custom room = 1 → directory_ok (db.deleteRoom d roomId).
Proof.
  intros (Hnd & Hall & Hdef) Hroom Hcustom. split; [|split].
  - simpl. by apply NoDup_fmap_filter.
  - simpl. by apply Forall_filter_keep.
  - rewrite Forall_forall in Hdef. apply Forall_forall.
    intros [roomId' name'] Hin. destruct (Hdef _ Hin) as (row & Hrow & Hname & Hnc).
    exists row. split; [|done]. rewrite getRoom_deleteRoom_ne; [done|].
    intros ->. simplify_eq. lia.
Qed.

Lemma directory_ok_same d d' :
  db.rooms d' = db.rooms d → directory_ok d → directory_ok d'.
Proof.
  unfold directory_ok, db.getRoom. by intros ->.
Qed.

Lemma directory_ok_start now :
  directory_ok (server.st_db (server.startServer now)).
Proof.
  split; [|split].
  - apply (bool_decide_unpack _). vm_compute. exact I.
  - repeat (constructor; [simpl; auto|]). constructor.
  - repeat (constructor; [eexists; split; [reflexivity | done]|]). constructor.
Qed.

Lemma custom_id_not_default uuid :
  Forall (λ '(roomId, _), roomId ≠ "custom-" +:+ js.slice0 8 uuid)
    roomManager.default_rooms.
Proof.
  repeat (constructor; [simpl; intros Heq; discriminate Heq|]). constructor.
Qed.

Lemma directory_ok_reachable st :
  server.reachable st → directory_ok (server.st_db st).
Proof.
  apply db_inv_reachable.
  - apply directory_ok_start.
  - intros d uuid name now Hd. apply directory_ok_createRoom; [|done].
    apply custom_id_not_default.
  - intros d roomId room Hd Hroom Hcustom. by eapply directory_ok_deleteRoom.
  - intros. by eapply directory_ok_same.
  - intros. by eapply directory_ok_same.
  - intros. by eapply directory_ok_same.
  - intros. by eapply directory_ok_same.
  - intros. by eapply directory_ok_same.
  - intros. by eapply directory_ok_same.
Qed.

(** X7. In every state the server reaches the four default rooms [chat-a]
    to [chat-d] exist under their names and are not custom (no route and no
    timer deletes them, and a created room's id starts with [custom-]); a
    room id names one row only; every room has capacity 4 and a custom flag
    of 0 or 1. *)
Theorem default_rooms_always_exist st :
  server.reachable st →
  let d := server.st_db st in
  (∀ roomId name,
     (roomId, name) ∈ roomManager.default_rooms →
     ∃ room, db.getRoom d roomId = Some room
             ∧ db.room_name room = name
             ∧ roomManager.getRoomInfo d (server.st_roomManager st) roomId
               = Some {| roomManager.info_id := roomId;
                         roomManager.info_name := name;
                         roomManager.info_playerCount :=
                           roomManager.getActivePlayerCount
                             (server.st_roomManager st) roomId;
                         roomManager.info_maxPlayers := 4;
                         roomManager.info_isCustom := false |})
  ∧ NoDup (db.room_id <$> db.rooms d)
  ∧ (∀ roomId room,
       db.getRoom d roomId = Some room →
       roomManager.maxPlayers_of room = 4
       ∧ (db.room_is_custom room = 0 ∨ db.room_is_custom room = 1)).
Proof.
  intros Hst. cbv zeta.
  destruct (directory_ok_reachable st Hst) as (Hnd & Hall & Hdef).
  rewrite Forall_forall in Hall.
  pose proof (proj1 (Forall_forall _ _) Hdef) as Hdef'. clear Hdef.
  assert (∀ roomId room,
            db.getRoom (server.st_db st) roomId = Some room →
            roomManager.maxPlayers_of room = 4
            ∧ (db.room_is_custom room = 0 ∨ db.room_is_custom room = 1))
    as Hrooms.
  { intros roomId room Hroom. apply getRoom_elem_of in Hroom.
    destruct (Hall room Hroom) as [Hmax Hc].
    unfold roomManager.maxPlayers_of. by rewrite Hmax. }
  split; [|by split].
  intros roomId name Hin.
  destruct (Hdef' _ Hin) as (room & Hroom & Hname & Hc).
  exists room. split; [done|]. split; [done|].
  unfold roomManager.getRoomInfo. rewrite Hroom.
  destruct (Hrooms roomId room Hroom) as [Hmax _].
  by rewrite Hmax, Hname, Hc, (getRoom_room_id _ _ _ Hroom).
Qed.

(** ** Invariants of the active rooms along the server's steps *)

Section room_invariant.
Variable Q : roomManager.ActiveRoom → Prop.
Hypothesis Q_fresh : ∀ now,
  Q {| roomManager.players := []; roomManager.drawingEventsCache := [];
       roomManager.lastActivity := now |}.
Hypothesis Q_add : ∀ activeRoom player n,
  Q activeRoom →
  Q {| roomManager.players :=
         js.set (roomManager.playerId player) player
           (roomManager.players activeRoom);
       roomManager.drawingEventsCache :=
         roomManager.drawingEventsCache activeRoom;
       roomManager.lastActivity := n |}.
Hypothesis Q_remove : ∀ activeRoom playerId n,
  Q activeRoom →
  Q {| roomManager.players :=
         (js.delete playerId (roomManager.players activeRoom)).1;
       roomManager.drawingEventsCache :=
         roomManager.drawingEventsCache activeRoom;
       roomManager.lastActivity := n |}.
Hypothesis Q_flag : ∀ activeRoom playerId player isDrawing,
  Q activeRoom →
  js.get playerId (roomManager.players activeRoom) = Some player →
  Q {| roomManager.players :=
         js.set playerId
           {| roomManager.playerId := roomManager.playerId player;
              roomManager.playerName := roomManager.playerName player;
              roomManager.ws := roomManager.ws player;
              roomManager.isDrawing := isDrawing |}
           (roomManager.players activeRoom);
       roomManager.drawingEventsCache :=
         roomManager.drawingEventsCache activeRoom;
       roomManager.lastActivity := roomManager.lastActivity activeRoom |}.
Hypothesis Q_push : ∀ activeRoom ev n,
  Q activeRoom →
  Q {| roomManager.players := roomManager.players activeRoom;
       roomManager.drawingEventsCache :=
         (let cache := roomManager.drawingEventsCache activeRoom ++ [ev] in
          if (roomManager.MAX_DRAWING_EVENTS_MEMORY <? length cache)%nat
          then roomManager.slice_last roomManager.MAX_DRAWING_EVENTS_MEMORY
                 cache
          else cache);
       roomManager.lastActivity := n |}.
Hypothesis Q_cache : ∀ activeRoom n,
  Q activeRoom →
  Q {| roomManager.players := roomManager.players activeRoom;
       roomManager.drawingEventsCache := [];
       roomManager.lastActivity := n |}.
Hypothesis Q_touch : ∀ activeRoom n,
  Q activeRoom →
  Q {| roomManager.players := roomManager.players activeRoom;
       roomManager.drawingEventsCache :=
         roomManager.drawingEventsCache activeRoom;
       roomManager.lastActivity := n |}.

Definition rooms_all (rm : roomManager.t) : Prop :=
  ∀ roomId activeRoom,
    roomManager.activeRooms rm !! roomId = Some activeRoom → Q activeRoom.

Lemma rooms_all_insert rm roomId activeRoom :
  rooms_all rm → Q activeRoom →
  rooms_all {| roomManager.activeRooms :=
                 <[roomId := activeRoom]> (roomManager.activeRooms rm) |}.
Proof.
  intros Hall HQ roomId' activeRoom'. simpl.
  destruct (decide (roomId = roomId')) as [<-|Hne].
  - rewrite lookup_insert_eq. by intros [= <-].
  - rewrite lookup_insert_ne by done. apply Hall.
Qed.

Lemma rooms_all_delete rm roomId :
  rooms_all rm →
  rooms_all {| roomManager.activeRooms :=
                 delete roomId (roomManager.activeRooms rm) |}.
Proof.
  intros Hall roomId' activeRoom'. simpl.
  destruct (decide (roomId = roomId')) as [<-|Hne].
  - by rewrite lookup_delete_eq.
  - rewrite lookup_delete_ne by done. apply Hall.
Qed.

Lemma rooms_all_getActiveRoom rm roomId now :
  rooms_all rm →
  rooms_all (roomManager.getActiveRoom rm roomId now).1
  ∧ Q (roomManager.getActiveRoom rm roomId now).2.
Proof.
  intros Hall. unfold roomManager.getActiveRoom.
  destruct (roomManager.activeRooms rm !! roomId) as [activeRoom|] eqn:E;
    simpl.
  - split; [done|]. by eapply Hall.
  - split; [|done]. by apply rooms_all_insert.
Qed.

Lemma rooms_all_addPlayer d rm roomId player now :
  rooms_all rm → rooms_all (roomManager.addPlayer d rm roomId player now).1.
Proof.
  intros Hall. unfold roomManager.addPlayer.
  destruct (db.getRoom d roomId) as [room|]; [|done].
  destruct (rooms_all_getActiveRoom rm roomId now Hall) as [Hall1 HQ].
  destruct (roomManager.getActiveRoom rm roomId now) as [rm1 activeRoom].
  destruct (_ <=? _); [done|]. simpl. apply rooms_all_insert; [done|].
  by apply Q_add.
Qed.

Lemma rooms_all_removePlayer d rm roomId playerId now :
  rooms_all rm →
  rooms_all (roomManager.removePlayer d rm roomId playerId now).1.
Proof.
  intros Hall. unfold roomManager.removePlayer.
  destruct (roomManager.activeRooms rm !! roomId) as [activeRoom|] eqn:E;
    [|done].
  pose proof (Q_remove activeRoom playerId) as HQ.
  destruct (js.delete playerId (roomManager.players activeRoom))
    as [players' removed].
  simpl in *. apply rooms_all_insert; [done|]. apply HQ. by eapply Hall.
Qed.

Lemma rooms_all_touch rm roomId now :
  rooms_all rm → rooms_all (roomManager.touch rm roomId now).
Proof.
  intros Hall. unfold roomManager.touch.
  destruct (roomManager.activeRooms rm !! roomId) as [activeRoom|] eqn:E;
    [|done].
  apply rooms_all_insert; [done|]. apply Q_touch. by eapply Hall.
Qed.

Lemma rooms_all_clearCache rm roomId now :
  rooms_all rm → rooms_all (roomManager.clearCache rm roomId now).
Proof.
  intros Hall. unfold roomManager.clearCache.
  destruct (roomManager.activeRooms rm !! roomId) as [activeRoom|] eqn:E;
    [|done].
  apply rooms_all_insert; [done|]. apply Q_cache. by eapply Hall.
Qed.

Lemma rooms_all_addDrawingEvent d rm roomId ev now :
  rooms_all rm →
  rooms_all (roomManager.addDrawingEvent d rm roomId ev now).2.
Proof.
  intros Hall. unfold roomManager.addDrawingEvent.
  destruct (rooms_all_getActiveRoom rm roomId now Hall) as [Hall1 HQ].
  destruct (roomManager.getActiveRoom rm roomId now) as [rm1 activeRoom].
  simpl. apply rooms_all_insert; [done|]. by apply Q_push.
Qed.

Lemma rooms_all_setPlayerDrawing rm roomId playerId isDrawing :
  rooms_all rm →
  rooms_all (roomManager.setPlayerDrawing rm roomId playerId isDrawing).
Proof.
  intros Hall. unfold roomManager.setPlayerDrawing.
  destruct (roomManager.activeRooms rm !! roomId) as [activeRoom|] eqn:E;
    [|done].
  destruct (js.get playerId (roomManager.players activeRoom)) as [p|] eqn:Hp;
    [|done].
  apply rooms_all_insert; [done|]. apply Q_flag; [|done]. by eapply Hall.
Qed.

Lemma rooms_all_getRoomState d rm roomId now :
  rooms_all rm → rooms_all (roomManager.getRoomState d rm roomId now).1.
Proof.
  intros Hall. unfold roomManager.getRoomState.
  destruct (db.getRoom d roomId); [|done].
  destruct (rooms_all_getActiveRoom rm roomId now Hall) as [Hall1 _].
  by destruct (roomManager.getActiveRoom rm roomId now).
Qed.

Lemma rooms_all_deleteRoom d rm roomId :
  rooms_all rm → rooms_all (roomManager.deleteRoom d rm roomId).1.2.
Proof.
  intros Hall. unfold roomManager.deleteRoom.
  destruct (db.getRoom d roomId) as [room|]; [|done].
  destruct (db.room_is_custom room =? 1); [|done]. simpl.
  by apply rooms_all_delete.
Qed.

Lemma rooms_all_cleanupInactiveRooms d rm now maxInactiveMs :
  rooms_all rm →
  rooms_all (roomManager.cleanupInactiveRooms d rm now maxInactiveMs).2.
Proof.
  intros Hall. unfold roomManager.cleanupInactiveRooms.
  induction (map_to_list (roomManager.activeRooms rm)) as [|entry l IH];
    [done|].
  simpl. destruct entry as [roomId activeRoom].
  destruct (foldr _ _ l) as [d1 rm1]. simpl in *.
  destruct (_ && _); [|done].
  destruct (db.getRoom d1 roomId) as [room|] eqn:Hroom; [|done].
  destruct (db.room_is_custom room =? 1) eqn:Hcustom; [|done].
  pose proof (rooms_all_deleteRoom d1 rm1 roomId IH) as Hdel.
  by destruct (roomManager.deleteRoom d1 rm1 roomId) as [[d' rm'] ok].
Qed.

Lemma rooms_all_store_draw st s ev now :
  rooms_all (server.st_roomManager st) →
  rooms_all (server.st_roomManager (server.store_draw st s ev now).1).
Proof.
  intros Hall. unfold server.store_draw.
  pose proof (rooms_all_addDrawingEvent (server.st_db st)
                (server.st_roomManager st) (server.currentRoomId s) ev now Hall).
  by destruct (roomManager.addDrawingEvent _ _ _ _ _).
Qed.

Lemma rooms_all_replay s now events acc :
  rooms_all (server.st_roomManager acc.1) →
  rooms_all
    (server.st_roomManager (foldl (server.replay_one s now) acc events).1).
Proof.
  revert acc. induction events as [|e events IH]; intros acc Hacc; [done|].
  cbn [foldl]. apply IH. destruct acc as [st sent]. unfold server.replay_one.
  destruct (String.eqb (server.qe_type e) "draw").
  - match goal with
    | |- context [server.store_draw ?st ?s ?ev ?now] =>
        pose proof (rooms_all_store_draw st s ev now Hacc);
        by destruct (server.store_draw st s ev now)
    end.
  - destruct (String.eqb (server.qe_type e) "message"); [|done].
    simpl. by apply rooms_all_touch.
Qed.

Lemma rooms_all_enter_room c st roomId pid pname missing reply isRejoin now :
  rooms_all (server.st_roomManager st) →
  rooms_all
    (server.st_roomManager
       (server.enter_room c st roomId pid pname missing reply isRejoin now).1).
Proof.
  intros Hall. unfold server.enter_room. destruct (negb _); [done|].
  match goal with
  | |- context [roomManager.addPlayer ?d ?rm ?r ?p ?n] =>
      pose proof (rooms_all_addPlayer d rm r p n Hall) as Hall1;
      destruct (roomManager.addPlayer d rm r p n) as [rm1 added]
  end.
  simpl in Hall1. destruct (negb added); [done|].
  pose proof (rooms_all_getRoomState (server.st_db st) rm1 roomId now Hall1).
  by destruct (roomManager.getRoomState _ _ _ _) as [rm2 rs].
Qed.

Lemma rooms_all_handleMessage c conn st m now uuid :
  rooms_all (server.st_roomManager st) →
  rooms_all
    (server.st_roomManager (server.handleMessage c conn st m now uuid).1).
Proof.
  intros Hall.
  destruct m as [roomId pid pname|roomId pid pname last|points color size tool
                | |text| | |data|events|type| ]; simpl; try done.
  - by apply rooms_all_enter_room.
  - by apply rooms_all_enter_room.
  - unfold server.handleDraw. destruct (server.attached conn); [|done].
    by apply rooms_all_store_draw.
  - unfold server.handleClear. destruct (server.attached conn); [|done].
    simpl. by apply rooms_all_clearCache.
  - unfold server.handleChatMessage. destruct (server.attached conn); [|done].
    destruct (server.chat_text_ok text); [|done].
    simpl. by apply rooms_all_touch.
  - unfold server.handleDrawIndicator. destruct (server.attached conn); [|done].
    simpl. by apply rooms_all_setPlayerDrawing.
  - unfold server.handleDrawIndicator. destruct (server.attached conn); [|done].
    simpl. by apply rooms_all_setPlayerDrawing.
  - unfold server.handleCanvasSnapshot. destruct (server.attached conn); [|done].
    destruct (js.truthy data); [|done]. simpl. by apply rooms_all_clearCache.
  - unfold server.handleQueueReplay. destruct (server.attached conn) as [s|];
      [|done].
    destruct events as [events|]; [|done].
    by apply (rooms_all_replay s now events (st, [])).
Qed.

Lemma rooms_all_step st ev :
  rooms_all (server.st_roomManager st) →
  rooms_all (server.st_roomManager (server.step st ev).1).
Proof.
  intros Hall. destruct ev as [c|c m now uuid|c now|name uuid now|roomId|now];
    simpl.
  - by destruct (server.st_conns st !! c).
  - destruct (server.st_conns st !! c) as [conn|]; [|done].
    destruct (server.isOpen conn); [|done]. by apply rooms_all_handleMessage.
  - destruct (server.st_conns st !! c) as [conn|]; [|done].
    destruct (server.isOpen conn); [|done].
    unfold server.handleClose. destruct (server.attached conn) as [s|];
      [|done].
    match goal with
    | |- context [roomManager.removePlayer ?d ?rm ?r ?p ?n] =>
        pose proof (rooms_all_removePlayer d rm r p n Hall) as Hall1;
        by destruct (roomManager.removePlayer d rm r p n) as [rm1 removed]
    end.
  - unfold server.post_rooms. destruct (_ || _); [done|].
    by destruct (20 <? _).
  - unfold server.delete_rooms.
    destruct (roomManager.getRoomInfo _ _ _) as [info|]; [|done].
    destruct (negb _); [done|]. destruct (0 <? _); [done|].
    pose proof (rooms_all_deleteRoom (server.st_db st)
                  (server.st_roomManager st) roomId Hall).
    by destruct (roomManager.deleteRoom _ _ _) as [[d rm] ok].
  - unfold server.hourly.
    pose proof (rooms_all_cleanupInactiveRooms (server.st_db st)
                  (server.st_roomManager st) now
                  roomManager.default_maxInactiveMs Hall).
    by destruct (roomManager.cleanupInactiveRooms _ _ _ _) as [d rm].
Qed.

Lemma rooms_all_reachable st :
  server.reachable st → rooms_all (server.st_roomManager st).
Proof.
  induction 1 as [now|st ev Hst IH]; [|by apply rooms_all_step].
  intros roomId activeRoom Hlook. simpl in Hlook.
  by rewrite lookup_empty in Hlook.
Qed.

End room_invariant.

(** ** The seats of a room *)

Section seat_facts.
Context {V : Type}.
Implicit Types (m : list (string * V)) (k : string) (v : V).

Lemma map_keys_set k v m :
  js.keys (js.set k v m)
  = if js.has k m then js.keys m else js.keys m ++ [k].
Proof.
  unfold js.has. induction m as [|[k' v'] m IH]; [done|].
  cbn [js.set js.get]. destruct (decide (k' = k)) as [->|Hne]; [done|].
  unfold js.keys in *. rewrite !fmap_cons, IH.
  by destruct (js.get k m).
Qed.

Lemma map_has_keys k m : js.has k m = true ↔ k ∈ js.keys m.
Proof.
  unfold js.keys, js.has. induction m as [|[k' v'] m IH]; simpl.
  - split; [done|]. by intros ?%elem_of_nil.
  - destruct (decide (k' = k)) as [->|Hne].
    + split; [|done]. intros _. apply elem_of_cons. by left.
    + rewrite IH, elem_of_cons. split; [by right|].
      by intros [?|?].
Qed.

Lemma map_keys_set_NoDup k v m :
  NoDup (js.keys m) → NoDup (js.keys (js.set k v m)).
Proof.
  intros Hnd. rewrite map_keys_set. destruct (js.has k m) eqn:Hhas; [done|].
  apply NoDup_app. split; [done|]. split; [|apply NoDup_singleton].
  intros k' Hk' ->%list_elem_of_singleton.
  apply map_has_keys in Hk'. congruence.
Qed.

Lemma map_set_Forall (P : string * V → Prop) k v m :
  Forall P m → P (k, v) → Forall P (js.set k v m).
Proof.
  intros Hall HP. induction Hall as [|[k' v'] m Hx Hm IH]; simpl.
  - by constructor.
  - destruct (decide (k' = k)); by constructor.
Qed.

Lemma map_delete_filter k m :
  NoDup (js.keys m) →
  (js.delete k m).1 = filter (λ e, e.1 ≠ k) m.
Proof.
  unfold js.keys. induction m as [|[k' v'] m IH]; [done|].
  rewrite fmap_cons. intros [Hnotin Hnd]%NoDup_cons.
  rewrite filter_cons. cbn [js.delete fst].
  destruct (decide (k' = k)) as [->|Hne].
  - rewrite decide_False by (intros Hk; by apply Hk).
    cbn [fst]. symmetry. apply filter_all. apply Forall_forall.
    intros [k' v''] Hin. cbn [fst]. intros ->. apply Hnotin.
    apply list_elem_of_fmap. by exists (k, v'').
  - rewrite decide_True by done. specialize (IH Hnd).
    destruct (js.delete k m) as [m' b]. cbn [fst] in *. by rewrite IH.
Qed.

Lemma map_delete_removed k m :
  (js.delete k m).2 = js.has k m.
Proof.
  unfold js.has. induction m as [|[k' v'] m IH]; simpl; [done|].
  destruct (decide (k' = k)); [done|].
  destruct (js.delete k m) as [m' b]. simpl in *. done.
Qed.

Lemma map_get_elem_of k v m : js.get k m = Some v → (k, v) ∈ m.
Proof.
  induction m as [|[k' v'] m IH]; simpl; [done|].
  destruct (decide (k' = k)) as [->|Hne].
  - intros [= ->]. apply elem_of_cons. by left.
  - intros ?%IH. apply elem_of_cons. by right.
Qed.

Lemma map_elem_of_get k v m :
  NoDup (js.keys m) → (k, v) ∈ m → js.get k m = Some v.
Proof.
  unfold js.keys. induction m as [|[k' v'] m IH]; simpl.
  - by intros _ ?%elem_of_nil.
  - intros [Hnotin Hnd]%NoDup_cons [Heq|Hin]%elem_of_cons.
    + injection Heq as -> ->. by rewrite decide_True.
    + rewrite decide_False; [by apply IH|].
      intros ->. apply Hnotin. apply list_elem_of_fmap. by exists (k, v).
Qed.

End seat_facts.

(** The players of an active room are keyed by their own [playerId], no id
    twice, and the in-memory cache of drawing events is within its limit. *)
Definition seats_ok (activeRoom : roomManager.ActiveRoom) : Prop :=
  NoDup (js.keys (roomManager.players activeRoom))
  ∧ Forall (λ e, e.1 = roomManager.playerId e.2)
      (roomManager.players activeRoom)
  ∧ (length (roomManager.drawingEventsCache activeRoom)
     ≤ roomManager.MAX_DRAWING_EVENTS_MEMORY)%nat.

Lemma seats_ok_delete activeRoom playerId cache n :
  seats_ok activeRoom →
  (length cache ≤ roomManager.MAX_DRAWING_EVENTS_MEMORY)%nat →
  seats_ok
    {| roomManager.players :=
         (js.delete playerId (roomManager.players activeRoom)).1;
       roomManager.drawingEventsCache := cache;
       roomManager.lastActivity := n |}.
Proof.
  intros (Hnd & Hkey & Hlen) Hcache. unfold seats_ok. simpl.
  rewrite map_delete_filter by done. split; [|split; [|done]].
  - unfold js.keys. by apply NoDup_fmap_filter.
  - by apply Forall_filter_keep.
Qed.

Lemma slice_last_length {A} (n : nat) (l : list A) :
  (length (roomManager.slice_last n l) ≤ n)%nat.
Proof. unfold roomManager.slice_last. rewrite length_drop. lia. Qed.

Lemma seats_ok_reachable st :
  server.reachable st →
  rooms_all seats_ok (server.st_roomManager st).
Proof.
  apply rooms_all_reachable.
  - intros now. unfold seats_ok. simpl. split; [constructor|].
    split; [constructor|]. unfold roomManager.MAX_DRAWING_EVENTS_MEMORY. lia.
  - intros activeRoom player n (Hnd & Hkey & Hlen). unfold seats_ok. simpl.
    split; [by apply map_keys_set_NoDup|]. split; [|done].
    by apply map_set_Forall.
  - intros activeRoom playerId n Hok. by apply seats_ok_delete; [|apply Hok].
  - intros activeRoom playerId player isDrawing (Hnd & Hkey & Hlen) Hget.
    unfold seats_ok. simpl.
    split; [by apply map_keys_set_NoDup|]. split; [|done].
    apply map_set_Forall; [done|]. simpl.
    apply map_get_elem_of in Hget.
    by apply (proj1 (Forall_forall _ _) Hkey) in Hget.
  - intros activeRoom ev n (Hnd & Hkey & Hlen). unfold seats_ok. simpl.
    split; [done|]. split; [done|].
    destruct (_ <? _)%nat eqn:Hlt; [apply slice_last_length|].
    apply Nat.ltb_ge in Hlt. done.
  - intros activeRoom n (Hnd & Hkey & Hlen). unfold seats_ok. simpl.
    split; [done|]. split; [done|].
    unfold roomManager.MAX_DRAWING_EVENTS_MEMORY. lia.
  - intros activeRoom n Hok. exact Hok.
Qed.

(** X8. In every state the server can reach, the players listed for a room
    have pairwise different ids, each is stored under its own id, and the
    cache of drawing events of an active room holds at most
    [MAX_DRAWING_EVENTS_MEMORY] events. *)
Theorem seats_are_distinct st roomId :
  server.reachable st →
  NoDup (roomManager.playerId
         <$> roomManager.getPlayersInRoom (server.st_roomManager st) roomId)
  ∧ ∀ activeRoom,
      roomManager.activeRooms (server.st_roomManager st) !! roomId
      = Some activeRoom →
      (∀ playerId player,
         js.get playerId (roomManager.players activeRoom) = Some player ↔
         player ∈ js.values (roomManager.players activeRoom)
         ∧ roomManager.playerId player = playerId)
      ∧ (length (roomManager.drawingEventsCache activeRoom) ≤ 500)%nat.
Proof.
  intros Hreach. pose proof (seats_ok_reachable st Hreach) as Hall.
  assert (∀ activeRoom,
            roomManager.activeRooms (server.st_roomManager st) !! roomId
            = Some activeRoom →
            js.keys (roomManager.players activeRoom)
            = roomManager.playerId
              <$> js.values (roomManager.players activeRoom)) as Hkeys.
  { intros activeRoom Hlook. destruct (Hall _ _ Hlook) as (_ & Hkey & _).
    unfold js.keys, js.values. rewrite <- list_fmap_compose.
    apply Forall_fmap_ext_1. eapply Forall_impl; [exact Hkey|]. done. }
  split.
  - unfold roomManager.getPlayersInRoom.
    destruct (roomManager.activeRooms _ !! roomId) as [activeRoom|] eqn:Hlook;
      [|constructor].
    rewrite <- (Hkeys _ eq_refl). by destruct (Hall _ _ Hlook).
  - intros activeRoom Hlook. destruct (Hall _ _ Hlook) as (Hnd & Hkey & Hlen).
    split; [|exact Hlen]. intros playerId player. split.
    + intros Hget. apply map_get_elem_of in Hget as Hin. split.
      * unfold js.values. apply list_elem_of_fmap. by exists (playerId, player).
      * by apply (proj1 (Forall_forall _ _) Hkey) in Hin.
    + intros [Hin <-]. apply map_elem_of_get; [done|].
      unfold js.values in Hin. apply list_elem_of_fmap in Hin as ([k p] & -> & Hin).
      simpl. apply (proj1 (Forall_forall _ _) Hkey) in Hin as Hk.
      simpl in Hk. by rewrite <- Hk.
Qed.

(** ** Taking and leaving a seat *)

Lemma filter_ext_Forall {A} (P Q : A → Prop) `{!∀ a, Decision (P a)}
    `{!∀ a, Decision (Q a)} (l : list A) :
  Forall (λ a, P a ↔ Q a) l → filter P l = filter Q l.
Proof.
  induction 1 as [|x l Hx Hl IH]; [done|]. rewrite !filter_cons, IH.
  destruct (decide (P x)), (decide (Q x)); [done| | |done]; exfalso; tauto.
Qed.

Lemma seats_after_delete (players : list (string * roomManager.Player))
    playerId :
  NoDup (js.keys players) →
  Forall (λ e, e.1 = roomManager.playerId e.2) players →
  js.values (js.delete playerId players).1
  = filter (λ p, roomManager.playerId p ≠ playerId) (js.values players).
Proof.
  intros Hnd Hkey. rewrite map_delete_filter by done. unfold js.values.
  rewrite filter_fmap. f_equal. apply filter_ext_Forall.
  eapply Forall_impl; [exact Hkey|]. intros e He. simpl in *. by rewrite He.
Qed.

Lemma seats_after_set (players : list (string * roomManager.Player)) player :
  NoDup (js.keys players) →
  Forall (λ e, e.1 = roomManager.playerId e.2) players →
  js.values (js.set (roomManager.playerId player) player players)
  = if decide (roomManager.playerId player
               ∈ roomManager.playerId <$> js.values players)
    then (λ p, if decide (roomManager.playerId p
                          = roomManager.playerId player)
               then player else p) <$> js.values players
    else js.values players ++ [player].
Proof.
  unfold js.keys, js.values.
  induction players as [|[k p] players IH]; [done|].
  rewrite !fmap_cons. cbn [fst snd]. intros [Hnotin Hnd]%NoDup_cons.
  intros [Hk Hkey]%Forall_cons. cbn [fst snd] in Hk. subst k.
  cbn [js.set]. destruct (decide (_ = _)) as [Heq|Hne].
  - rewrite decide_True by (apply elem_of_cons; by left).
    rewrite fmap_cons. cbn [snd]. f_equal.
    symmetry. etrans; [|apply list_fmap_id]. apply Forall_fmap_ext_1.
    apply Forall_forall. intros p' Hp'. rewrite decide_False; [done|].
    intros Heq'. apply Hnotin. apply list_elem_of_fmap in Hp' as (e & -> & He).
    apply list_elem_of_fmap. exists e. split; [|done].
    apply (proj1 (Forall_forall _ _) Hkey) in He. congruence.
  - rewrite fmap_cons. cbn [snd]. rewrite (IH Hnd Hkey).
    destruct (decide (_ ∈ _ <$> players.*2)) as [Hin|Hnin].
    + rewrite decide_True by (apply elem_of_cons; by right).
      done.
    + rewrite decide_False; [done|].
      intros [?|?]%elem_of_cons; [congruence|done].
Qed.

(** The players map of a room, empty when the room is not active. *)
Definition players_of (rm : roomManager.t) (roomId : string)
    : js.Map roomManager.Player :=
  match roomManager.activeRooms rm !! roomId with
  | Some activeRoom => roomManager.players activeRoom
  | None => []
  end.

Lemma getPlayersInRoom_players_of rm roomId :
  roomManager.getPlayersInRoom rm roomId = js.values (players_of rm roomId).
Proof.
  unfold roomManager.getPlayersInRoom, players_of.
  by destruct (roomManager.activeRooms rm !! roomId).
Qed.

Lemma getActivePlayerCount_players_of rm roomId :
  roomManager.getActivePlayerCount rm roomId = js.size (players_of rm roomId).
Proof.
  unfold roomManager.getActivePlayerCount, players_of.
  by destruct (roomManager.activeRooms rm !! roomId).
Qed.

Lemma addPlayer_seats d rm roomId player now room :
  db.getRoom d roomId = Some room →
  roomManager.getActivePlayerCount rm roomId < roomManager.maxPlayers_of room →
  (roomManager.addPlayer d rm roomId player now).2 = true
  ∧ (∃ activeRoom,
       roomManager.activeRooms (roomManager.addPlayer d rm roomId player now).1
       !! roomId = Some activeRoom
       ∧ roomManager.players activeRoom
         = js.set (roomManager.playerId player) player (players_of rm roomId))
  ∧ ∀ roomId', roomId' ≠ roomId →
      roomManager.activeRooms (roomManager.addPlayer d rm roomId player now).1
      !! roomId'
      = roomManager.activeRooms rm !! roomId'.
Proof.
  intros Hroom Hlt. rewrite getActivePlayerCount_players_of in Hlt.
  unfold roomManager.addPlayer, roomManager.getActiveRoom, players_of in *.
  rewrite Hroom.
  destruct (roomManager.activeRooms rm !! roomId) as [activeRoom|] eqn:Hlook.
  - destruct (_ <=? _) eqn:Hfull; [lia|]. simpl. split; [done|]. split.
    + eexists. by rewrite lookup_insert_eq.
    + intros roomId' Hne. by rewrite lookup_insert_ne.
  - cbn [roomManager.players roomManager.drawingEventsCache
         roomManager.activeRooms].
    change (js.size (@nil (string * roomManager.Player))) with 0 in *.
    destruct (_ <=? _) eqn:Hfull; [lia|].
    cbn [fst snd roomManager.activeRooms]. split; [done|]. split.
    + eexists. by rewrite lookup_insert_eq.
    + intros roomId' Hne. by rewrite !lookup_insert_ne.
Qed.

(** What the room state shows of a player. *)
Definition shown (p : roomManager.Player) : roomManager.PlayerInfo :=
  {| roomManager.pi_playerId := roomManager.playerId p;
     roomManager.pi_playerName := roomManager.playerName p;
     roomManager.pi_isDrawing := roomManager.isDrawing p |}.

(** X9. A [join] for a room that exists and has a free seat, sent on an open
    connection of a reachable state, seats the player: a player who was
    not in the room is added after the others, a player whose id was
    already in the room replaces that seat in place (the seat then belongs
    to the new connection). The joiner is answered first with the room
    state listing exactly the players now seated, and every other open
    player of the room is told that the player joined. *)
Theorem join_seats_player st c conn roomId pid pname now uuid room :
  server.reachable st →
  server.st_conns st !! c = Some conn →
  server.isOpen conn = true →
  db.getRoom (server.st_db st) roomId = Some room →
  roomManager.getActivePlayerCount (server.st_roomManager st) roomId < 4 →
  let playerId := js.or_else pid uuid in
  let playerName := js.or_else pname ("Player " +:+ js.slice0 4 playerId) in
  let seat := {| roomManager.playerId := playerId;
                 roomManager.playerName := playerName;
                 roomManager.ws := c;
                 roomManager.isDrawing := false |} in
  let result :=
    server.step st (server.WsMessage c (server.Join roomId pid pname) now uuid)
  in
  let before :=
    roomManager.getPlayersInRoom (server.st_roomManager st) roomId in
  let after :=
    roomManager.getPlayersInRoom (server.st_roomManager result.1) roomId in
  after
  = (if decide (playerId ∈ roomManager.playerId <$> before)
     then (λ p, if decide (roomManager.playerId p = playerId)
                then seat else p) <$> before
     else before ++ [seat])
  ∧ (∃ rs,
       head result.2
       = Some (c, server.roomState (Some rs) playerId playerName)
       ∧ roomManager.roomId rs = roomId
       ∧ roomManager.activePlayers rs = shown <$> after)
  ∧ ∀ p, p ∈ after → roomManager.playerId p ≠ playerId →
         server.ws_open st (roomManager.ws p) = true →
         (roomManager.ws p, server.userJoined playerId playerName false now)
         ∈ result.2.
Proof.
  intros Hreach Hconn Hopen Hroom Hfree playerId playerName seat.
  pose proof (seats_ok_reachable st Hreach) as Hseats.
  pose proof (directory_ok_reachable st Hreach) as (_ & Hmax & _).
  assert (roomManager.maxPlayers_of room = 4) as Hfour.
  { apply getRoom_elem_of in Hroom as Hin.
    apply (proj1 (Forall_forall _ _) Hmax) in Hin as [Hin _].
    unfold roomManager.maxPlayers_of. by rewrite Hin. }
  assert (NoDup (js.keys (players_of (server.st_roomManager st) roomId))
          ∧ Forall (λ e, e.1 = roomManager.playerId e.2)
              (players_of (server.st_roomManager st) roomId)) as [Hnd Hkey].
  { unfold players_of.
    destruct (roomManager.activeRooms _ !! roomId) as [activeRoom|] eqn:Hlook.
    - destruct (Hseats _ _ Hlook) as (? & ? & _). done.
    - split; constructor. }
  cbv zeta. unfold server.step. rewrite Hconn, Hopen.
  unfold server.handleMessage, server.handleJoin. fold playerId playerName.
  unfold server.enter_room. fold seat.
  set (st1 := server.set_session st c _).
  change (server.st_db st1) with (server.st_db st).
  change (server.st_roomManager st1) with (server.st_roomManager st).
  unfold roomManager.roomExists. rewrite Hroom. cbn [negb].
  destruct (addPlayer_seats (server.st_db st) (server.st_roomManager st)
              roomId seat now room Hroom) as (Hadded & (activeRoom & Hlook & Hplayers) & _);
    [by rewrite Hfour|].
  destruct (roomManager.addPlayer _ _ roomId seat now) as [rm1 added].
  cbn [fst snd] in *. subst added. cbn [negb].
  unfold roomManager.getRoomState. rewrite Hroom.
  unfold roomManager.getActiveRoom. rewrite Hlook. cbn [fst snd].
  unfold server.with_manager. cbn [server.st_roomManager].
  assert (roomManager.getPlayersInRoom rm1 roomId
          = js.values (roomManager.players activeRoom)) as Hafter.
  { unfold roomManager.getPlayersInRoom. by rewrite Hlook. }
  rewrite Hafter, Hplayers.
  rewrite (getPlayersInRoom_players_of (server.st_roomManager st)).
  split; [|split].
  - by rewrite <- (seats_after_set _ seat).
  - eexists. split; [done|]. cbn [roomManager.roomId roomManager.activePlayers].
    split; [|done].
    unfold db.getRoom in Hroom. apply head_Some_elem_of in Hroom.
    by apply list_elem_of_filter in Hroom as [? _].
  - intros p Hp Hne Hws. apply elem_of_cons. right.
    apply elem_of_broadcastToRoom. split; [done|]. split.
    + unfold server.ws_open in *. cbn [server.st_conns]. subst st1.
      unfold server.set_session. cbn [server.st_conns].
      destruct (decide (c = roomManager.ws p)) as [<-|Hc].
      * rewrite lookup_insert_eq. cbn [server.isOpen].
        unfold server.ws_open. by rewrite Hconn.
      * by rewrite lookup_insert_ne.
    + exists p. cbn [server.st_roomManager]. rewrite Hafter, Hplayers.
      split; [done|]. split; [done|]. congruence.
Qed.

(** X10. Closing an open connection frees, in the room the connection is
    attached to, the seat stored under the connection's player id and no
    other seat, whichever connection holds that seat by then. The other
    rooms and the database stay as they were, and the connection is
    closed afterwards. A connection that is not attached frees nothing. *)
Theorem close_frees_one_seat st c conn now :
  server.reachable st →
  server.st_conns st !! c = Some conn →
  server.isOpen conn = true →
  let st' := (server.step st (server.WsClose c now)).1 in
  server.st_db st' = server.st_db st
  ∧ server.ws_open st' c = false
  ∧ match server.attached conn with
    | Some s =>
        roomManager.getPlayersInRoom (server.st_roomManager st')
          (server.currentRoomId s)
        = filter (λ p, roomManager.playerId p ≠ server.playerId s)
            (roomManager.getPlayersInRoom (server.st_roomManager st)
               (server.currentRoomId s))
        ∧ ∀ roomId, roomId ≠ server.currentRoomId s →
            roomManager.getPlayersInRoom (server.st_roomManager st') roomId
            = roomManager.getPlayersInRoom (server.st_roomManager st) roomId
    | None => server.st_roomManager st' = server.st_roomManager st
    end.
Proof.
  intros Hreach Hconn Hopen. cbv zeta.
  pose proof (seats_ok_reachable st Hreach) as Hseats.
  unfold server.step. rewrite Hconn, Hopen. unfold server.handleClose.
  destruct (server.attached conn) as [s|] eqn:Hatt.
  - cbn [server.st_db server.st_roomManager].
    unfold roomManager.removePlayer.
    destruct (roomManager.activeRooms (server.st_roomManager st)
              !! server.currentRoomId s) as [activeRoom|] eqn:Hlook.
    + destruct (Hseats _ _ Hlook) as (Hnd & Hkey & _).
      pose proof (seats_after_delete (roomManager.players activeRoom)
                    (server.playerId s) Hnd Hkey) as Hdel.
      destruct (js.delete (server.playerId s) (roomManager.players activeRoom))
        as [players' removed].
      cbn [fst snd] in *. unfold server.with_manager, server.ws_open.
      cbn [server.st_db server.st_roomManager server.st_conns fst].
      rewrite lookup_insert_eq. split; [done|]. split; [done|]. split.
      * unfold roomManager.getPlayersInRoom. cbn [roomManager.activeRooms].
        by rewrite lookup_insert_eq, Hlook.
      * intros roomId Hne. unfold roomManager.getPlayersInRoom.
        cbn [roomManager.activeRooms]. by rewrite lookup_insert_ne.
    + unfold server.with_manager, server.ws_open.
      cbn [server.st_db server.st_roomManager server.st_conns fst].
      rewrite lookup_insert_eq. split; [done|]. split; [done|]. split; [|done].
      unfold roomManager.getPlayersInRoom. by rewrite Hlook.
  - unfold server.ws_open. cbn [server.st_db server.st_roomManager
                                 server.st_conns fst].
    by rewrite lookup_insert_eq.
Qed.

(** ** The list of rooms *)

Lemma ascii_compare_refl c : Ascii.compare c c = Eq.
Proof. unfold Ascii.compare. apply N.compare_refl. Qed.

Lemma ascii_compare_lt_trans a b c :
  Ascii.compare a b = Lt → Ascii.compare b c = Lt → Ascii.compare a c = Lt.
Proof.
  unfold Ascii.compare. rewrite !N.compare_lt_iff. apply N.lt_trans.
Qed.

Lemma string_leb_trans a b c :
  String.leb a b = true → String.leb b c = true → String.leb a c = true.
Proof.
  unfold String.leb. revert b c.
  induction a as [|x a IH]; intros [|y b] [|z c]; cbn [String.compare];
    try done.
  destruct (Ascii.compare x y) eqn:Hxy, (Ascii.compare y z) eqn:Hyz;
    try done.
  - apply Ascii.compare_eq_iff in Hxy as ->.
    apply Ascii.compare_eq_iff in Hyz as ->.
    rewrite ascii_compare_refl. apply IH.
  - apply Ascii.compare_eq_iff in Hxy as ->. by rewrite Hyz.
  - apply Ascii.compare_eq_iff in Hyz as <-. by rewrite Hxy.
  - by rewrite (ascii_compare_lt_trans x y z).
Qed.

Lemma by_custom_name_total a b :
  db.by_custom_name a b = false → db.by_custom_name b a = true.
Proof.
  unfold db.by_custom_name. intros Hab.
  apply orb_false_iff in Hab as [Hlt Hrest].
  apply andb_false_iff in Hrest as [Hne|Hleb].
  - apply orb_true_iff. left. lia.
  - destruct (decide (db.room_is_custom b < db.room_is_custom a)).
    + apply orb_true_iff. left. lia.
    + apply orb_true_iff. right. apply andb_true_iff. split; [lia|].
      destruct (String.leb_total (db.room_name a) (db.room_name b));
        congruence.
Qed.

Lemma by_custom_name_trans a b c :
  db.by_custom_name a b = true → db.by_custom_name b c = true →
  db.by_custom_name a c = true.
Proof.
  unfold db.by_custom_name. intros Hab Hbc.
  apply orb_true_iff in Hab as [Hab|[Hab Hab']%andb_true_iff];
    apply orb_true_iff in Hbc as [Hbc|[Hbc Hbc']%andb_true_iff];
    apply orb_true_iff.
  - left. lia.
  - left. lia.
  - left. lia.
  - right. apply andb_true_iff. split; [lia|]. by eapply string_leb_trans.
Qed.

Lemma StronglySorted_lookup {A} (R : relation A) (l : list A) i j a b :
  StronglySorted R l → (i < j)%nat →
  l !! i = Some a → l !! j = Some b → R a b.
Proof.
  intros Hs. revert i j. induction Hs as [|x l Hs IH Hx]; intros i j Hij.
  - by rewrite lookup_nil.
  - destruct i as [|i], j as [|j]; try lia; simpl.
    + intros [= <-] Hb. apply list_elem_of_lookup_2 in Hb.
      by apply (proj1 (Forall_forall _ _) Hx) in Hb.
    + apply IH. lia.
Qed.

Lemma getRoom_of_row d room :
  NoDup (db.room_id <$> db.rooms d) → room ∈ db.rooms d →
  db.getRoom d (db.room_id room) = Some room.
Proof.
  unfold db.getRoom. induction (db.rooms d) as [|r l IH]; simpl.
  - by intros _ ?%elem_of_nil.
  - intros [Hnotin Hnd]%NoDup_cons [->|Hin]%elem_of_cons.
    + by rewrite filter_cons_True.
    + rewrite filter_cons_False; [by apply IH|].
      intros Heq. apply Hnotin. rewrite Heq. apply list_elem_of_fmap.
      by exists room.
Qed.

(** X11. [GET /api/rooms] in a reachable state lists every room of the
    database once: an entry is in the list exactly when [getRoomInfo]
    returns it for its id, no id is listed twice, every entry counts
    between 0 and 4 players out of 4, and the list is ordered with the
    default rooms before the custom ones and, within each group, by
    name. *)
Theorem rooms_listing st :
  server.reachable st →
  let listing := server.get_rooms st in
  (∀ info,
     info ∈ listing ↔
     roomManager.getRoomInfo (server.st_db st) (server.st_roomManager st)
       (roomManager.info_id info) = Some info)
  ∧ NoDup (roomManager.info_id <$> listing)
  ∧ length listing = length (db.rooms (server.st_db st))
  ∧ (∀ info, info ∈ listing →
       0 ≤ roomManager.info_playerCount info ≤ 4
       ∧ roomManager.info_maxPlayers info = 4)
  ∧ ∀ i j a b,
      (i < j)%nat → listing !! i = Some a → listing !! j = Some b →
      (roomManager.info_isCustom a = true →
       roomManager.info_isCustom b = true)
      ∧ (roomManager.info_isCustom a = roomManager.info_isCustom b →
         String.leb (roomManager.info_name a) (roomManager.info_name b)
         = true).
Proof.
  intros Hreach. cbv zeta.
  pose proof (directory_ok_reachable st Hreach) as (Hnd & Hrows & _).
  pose proof (reachable_capacity_inv st Hreach) as [_ Hwithin].
  unfold server.get_rooms, roomManager.getAllRooms, db.getAllRooms.
  set (d := server.st_db st) in *. set (rm := server.st_roomManager st) in *.
  assert (∀ room, room ∈ db.rooms d →
            roomManager.getRoomInfo d rm (db.room_id room)
            = Some (roomManager.info_of rm room)) as Hinfo.
  { intros room Hin. unfold roomManager.getRoomInfo.
    by rewrite (getRoom_of_row d room Hnd Hin). }
  split; [|split; [|split; [|split]]].
  - intros info. rewrite list_elem_of_fmap. split.
    + intros (room & -> & Hin). apply order_by_elem_of in Hin.
      by apply Hinfo.
    + unfold roomManager.getRoomInfo.
      destruct (db.getRoom d (roomManager.info_id info)) as [room|] eqn:Hroom;
        [|done].
      intros [= <-]. exists room. split.
      * unfold roomManager.info_of. cbn [roomManager.info_id].
        by rewrite (getRoom_room_id d _ room Hroom).
      * apply order_by_elem_of. by eapply getRoom_elem_of.
  - rewrite <- list_fmap_compose.
    change (roomManager.info_id ∘ roomManager.info_of rm) with db.room_id.
    by rewrite order_by_perm.
  - by rewrite length_fmap, order_by_length.
  - intros info (room & -> & Hin)%list_elem_of_fmap.
    apply order_by_elem_of in Hin.
    apply (proj1 (Forall_forall _ _) Hrows) in Hin as [Hmax _].
    unfold roomManager.info_of.
    cbn [roomManager.info_playerCount roomManager.info_maxPlayers].
    unfold roomManager.maxPlayers_of. rewrite Hmax. split; [|done].
    split; [apply getActivePlayerCount_nonneg|].
    unfold roomManager.getActivePlayerCount.
    destruct (roomManager.activeRooms rm !! db.room_id room) as [activeRoom|]
      eqn:Hlook; [by eapply Hwithin | lia].
  - intros i j a b Hij Ha Hb.
    rewrite list_lookup_fmap in Ha, Hb.
    destruct (sql.order_by db.by_custom_name (db.rooms d) !! i) as [ra|]
      eqn:Hra; [|done].
    destruct (sql.order_by db.by_custom_name (db.rooms d) !! j) as [rb|]
      eqn:Hrb; [|done].
    injection Ha as <-. injection Hb as <-.
    pose proof (order_by_sorted db.by_custom_name by_custom_name_total
                  by_custom_name_trans (db.rooms d)) as Hsorted.
    pose proof (StronglySorted_lookup _ _ i j ra rb Hsorted Hij Hra Hrb)
      as Hle.
    apply list_elem_of_lookup_2, order_by_elem_of in Hra, Hrb.
    apply (proj1 (Forall_forall _ _) Hrows) in Hra as [_ Hca].
    apply (proj1 (Forall_forall _ _) Hrows) in Hrb as [_ Hcb].
    unfold roomManager.info_of, db.by_custom_name in *.
    cbn [roomManager.info_isCustom roomManager.info_name].
    apply orb_true_iff in Hle as [Hlt|[Heq Hleb]%andb_true_iff].
    + split; [lia|]. intros Hsame. lia.
    + split; [lia|]. done.
Qed.

(** ** The sweep of inactive rooms *)

(** A room the sweep removes: active, without players, idle for longer
    than [maxInactiveMs], and custom. *)
Definition idle_custom (d : db.Database) (rm : roomManager.t)
    (now maxInactiveMs : Z) (roomId : string) : bool :=
  match roomManager.activeRooms rm !! roomId with
  | Some activeRoom =>
      (js.size (roomManager.players activeRoom) =? 0)
      && (maxInactiveMs <? now - roomManager.lastActivity activeRoom)
      && match db.getRoom d roomId with
         | Some room => db.room_is_custom room =? 1
         | None => false
         end
  | None => false
  end.

(** What the sweep leaves of room [roomId]: nothing, or what was there. *)
Definition swept (gone : bool) (d : db.Database) (rm : roomManager.t)
    (d' : db.Database) (rm' : roomManager.t) (roomId : string) : Prop :=
  if gone
  then db.getRoom d' roomId = None
       ∧ roomManager.activeRooms rm' !! roomId = None
       ∧ room_log d' roomId = ([], [], [])
  else db.getRoom d' roomId = db.getRoom d roomId
       ∧ roomManager.activeRooms rm' !! roomId
         = roomManager.activeRooms rm !! roomId
       ∧ room_log d' roomId = room_log d roomId.

Lemma room_log_deleteRoom d roomId :
  room_log (db.deleteRoom d roomId) roomId = ([], [], []).
Proof.
  unfold room_log, chat_rows, drawing_rows, snapshots_of. simpl.
  rewrite !filter_none; [done| | |]; apply Forall_forall;
    by intros row [Hne _]%list_elem_of_filter.
Qed.

Lemma room_log_deleteRoom_ne d roomId roomId' :
  roomId' ≠ roomId →
  room_log (db.deleteRoom d roomId) roomId' = room_log d roomId'.
Proof.
  intros Hne. unfold room_log, chat_rows, drawing_rows, snapshots_of. simpl.
  by rewrite !filter_filter_other by (intros a; congruence).
Qed.

Lemma cleanup_fold d rm now maxInactiveMs
    (l : list (string * roomManager.ActiveRoom)) :
  NoDup l.*1 →
  (∀ k activeRoom, (k, activeRoom) ∈ l →
     roomManager.activeRooms rm !! k = Some activeRoom) →
  ∀ roomId,
    swept (bool_decide (roomId ∈ l.*1)
           && idle_custom d rm now maxInactiveMs roomId)
      d rm
      (foldr (roomManager.cleanup_one now maxInactiveMs) (d, rm) l).1
      (foldr (roomManager.cleanup_one now maxInactiveMs) (d, rm) l).2
      roomId.
Proof.
  induction l as [|[k activeRoom] l IH]; [done|].
  rewrite fmap_cons. cbn [fst foldr]. intros [Hnotin Hnd]%NoDup_cons Hl.
  assert (∀ k' activeRoom', (k', activeRoom') ∈ l →
            roomManager.activeRooms rm !! k' = Some activeRoom') as Hl'.
  { intros k' activeRoom' Hin. apply Hl. apply elem_of_cons. by right. }
  specialize (IH Hnd Hl').
  assert (roomManager.activeRooms rm !! k = Some activeRoom) as Hk.
  { apply Hl. apply elem_of_cons. by left. }
  destruct (foldr _ _ l) as [d1 rm1]. cbn [fst snd] in IH.
  pose proof (IH k) as Hsame. rewrite bool_decide_eq_false_2 in Hsame by done.
  destruct Hsame as (Hroom1 & Hact1 & Hlog1).
  assert (roomManager.cleanup_one now maxInactiveMs (k, activeRoom) (d1, rm1)
          = if idle_custom d rm now maxInactiveMs k
            then (db.deleteRoom d1 k,
                  {| roomManager.activeRooms :=
                       delete k (roomManager.activeRooms rm1) |})
            else (d1, rm1)) as ->.
  { unfold roomManager.cleanup_one, idle_custom, roomManager.deleteRoom.
    rewrite Hk, Hroom1.
    destruct (_ && _); [|done].
    destruct (db.getRoom d k) as [room|]; [|done].
    by destruct (db.room_is_custom room =? 1). }
  intros roomId. destruct (decide (roomId = k)) as [->|Hne].
  - rewrite bool_decide_eq_true_2 by (apply elem_of_cons; by left).
    cbn [andb]. destruct (idle_custom d rm now maxInactiveMs k); cbn [fst snd].
    + split; [apply getRoom_deleteRoom|]. split; [|apply room_log_deleteRoom].
      cbn [roomManager.activeRooms]. by rewrite lookup_delete_eq.
    + done.
  - assert (bool_decide (roomId ∈ k :: l.*1) = bool_decide (roomId ∈ l.*1))
      as ->.
    { apply bool_decide_ext. rewrite elem_of_cons.
      split; [by intros [?|?] | by right]. }
    specialize (IH roomId).
    destruct (idle_custom d rm now maxInactiveMs k); cbn [fst snd]; [|done].
    unfold swept in *.
    rewrite getRoom_deleteRoom_ne, room_log_deleteRoom_ne by done.
    cbn [roomManager.activeRooms]. by rewrite lookup_delete_ne.
Qed.

(** X12. The sweep of inactive rooms removes exactly the rooms that, just
    before it, are active with no player, have been idle for longer than
    [maxInactiveMs] and are custom: such a room loses its row, its active
    state and its whole log. Every other room (a default room, a room with
    a player, a room touched recently, a room that is not active) keeps
    its row, its active state and its log. *)
Theorem sweep_removes_idle_custom_rooms d rm now maxInactiveMs roomId :
  let result := roomManager.cleanupInactiveRooms d rm now maxInactiveMs in
  (if idle_custom d rm now maxInactiveMs roomId
   then db.getRoom result.1 roomId = None
        ∧ roomManager.activeRooms result.2 !! roomId = None
        ∧ room_log result.1 roomId = ([], [], [])
   else db.getRoom result.1 roomId = db.getRoom d roomId
        ∧ roomManager.activeRooms result.2 !! roomId
          = roomManager.activeRooms rm !! roomId
        ∧ room_log result.1 roomId = room_log d roomId)
  ∧ (idle_custom d rm now maxInactiveMs roomId = true ↔
     ∃ activeRoom room,
       roomManager.activeRooms rm !! roomId = Some activeRoom
       ∧ roomManager.players activeRoom = []
       ∧ maxInactiveMs < now - roomManager.lastActivity activeRoom
       ∧ db.getRoom d roomId = Some room
       ∧ db.room_is_custom room = 1).
Proof.
  cbv zeta. split.
  - pose proof (cleanup_fold d rm now maxInactiveMs
                  (map_to_list (roomManager.activeRooms rm))
                  (NoDup_fst_map_to_list _)) as Hfold.
    unfold roomManager.cleanupInactiveRooms.
    specialize (Hfold (λ k activeRoom Hin,
                         proj1 (elem_of_map_to_list _ k activeRoom) Hin)
                  roomId).
    destruct (idle_custom d rm now maxInactiveMs roomId) eqn:Hidle.
    + rewrite bool_decide_eq_true_2 in Hfold; [exact Hfold|].
      unfold idle_custom in Hidle.
      destruct (roomManager.activeRooms rm !! roomId) as [activeRoom|]
        eqn:Hlook; [|done].
      apply list_elem_of_fmap. exists (roomId, activeRoom). split; [done|].
      by apply elem_of_map_to_list.
    + rewrite andb_false_r in Hfold. exact Hfold.
  - unfold idle_custom. split.
    + destruct (roomManager.activeRooms rm !! roomId) as [activeRoom|];
        [|done].
      intros [[Hsize Hidle]%andb_true_iff Hcustom]%andb_true_iff.
      destruct (db.getRoom d roomId) as [room|]; [|done].
      exists activeRoom, room. split; [done|]. split.
      * unfold js.size in Hsize.
        destruct (roomManager.players activeRoom); [done|simpl in Hsize; lia].
      * split; [lia|]. split; [done|lia].
    + intros (activeRoom & room & -> & Hplayers & Hidle & -> & Hcustom).
      rewrite Hplayers. apply andb_true_iff. split; [|lia].
      apply andb_true_iff. split; [done|lia].
Qed.

(** ** Old chat messages *)

Lemma take_filter_desc {A} (key : A → Z) (bound : Z) (n : nat) (l : list A) :
  sorted_by (sql.desc key) l →
  take n (filter (λ a, bound ≤ key a) l)
  = filter (λ a, bound ≤ key a) (take n l).
Proof.
  unfold sorted_by. intros Hs. revert n.
  induction Hs as [|x l Hs IH Hx]; intros n; [by destruct n|].
  destruct n as [|n]; [done|]. cbn [take]. rewrite !filter_cons.
  destruct (decide (bound ≤ key x)) as [Hle|Hgt].
  - cbn [take]. by rewrite IH.
  - rewrite !filter_none; [by destruct n| |].
    + apply Forall_forall. intros a Ha%subseteq_take.
      apply (proj1 (Forall_forall _ _) Hx) in Ha. unfold sql.desc in Ha. lia.
    + eapply Forall_impl; [exact Hx|]. unfold sql.desc. intros a Ha. lia.
Qed.

(** X13. After the cleanup pass, the chat history of a room is its chat
    history from before without the messages older than the cutoff: the
    pass drops old messages and nothing else, and it drops them whether or
    not the room is in use. *)
Theorem cleanup_drops_old_chat d now maxAgeMs roomId limit :
  db.getChatHistory (db.cleanupOldData d now maxAgeMs) roomId limit
  = filter (λ m, now - maxAgeMs ≤ msg_timestamp m)
      (db.getChatHistory d roomId limit).
Proof.
  unfold db.getChatHistory, db.chat_history_rows, sql.limit.
  rewrite filter_fmap, filter_reverse. f_equal. f_equal.
  cbn [db.chat_messages db.cleanupOldData db.chat_of_row msg_timestamp].
  rewrite <- (take_filter_desc db.chat_timestamp)
    by (apply order_by_sorted; [apply desc_total | apply desc_trans]).
  f_equal.
  rewrite (filter_order_by (sql.desc db.chat_timestamp)
             (desc_total _) (desc_trans _)).
  f_equal. rewrite !list_filter_filter. apply list_filter_iff.
  intros row. split; intros [? ?]; split; first [done | lia].
Qed.

(** ** Clearing the canvas *)

(** X14. A [clear] from an attached connection wipes the drawing of its
    room for late joiners as well: afterwards the room has no drawing
    event since any timestamp, no snapshot, and an empty cache, while its
    chat history, its row and its players are as before. The [clear]
    message goes to exactly the open connections of the room's players,
    the sender's included. *)
Theorem clear_wipes_canvas st c conn now uuid s :
  server.st_conns st !! c = Some conn →
  server.isOpen conn = true →
  server.attached conn = Some s →
  let result := server.step st (server.WsMessage c server.Clear now uuid) in
  let roomId := server.currentRoomId s in
  (∀ since, db.getDrawingEvents (server.st_db result.1) roomId since = [])
  ∧ db.getCanvasSnapshot (server.st_db result.1) roomId = None
  ∧ (∀ activeRoom,
       roomManager.activeRooms (server.st_roomManager result.1) !! roomId
       = Some activeRoom →
       roomManager.drawingEventsCache activeRoom = [])
  ∧ (∀ limit,
       db.getChatHistory (server.st_db result.1) roomId limit
       = db.getChatHistory (server.st_db st) roomId limit)
  ∧ db.rooms (server.st_db result.1) = db.rooms (server.st_db st)
  ∧ (∀ r, roomManager.getPlayersInRoom (server.st_roomManager result.1) r
          = roomManager.getPlayersInRoom (server.st_roomManager st) r)
  ∧ ∀ c' m,
      (c', m) ∈ result.2 ↔
      m = server.clear (server.playerId s) (server.playerName s) now
      ∧ listens st roomId c'.
Proof.
  intros Hconn Hopen Hatt. cbv zeta. unfold server.step.
  rewrite Hconn, Hopen. unfold server.handleMessage, server.handleClear.
  rewrite Hatt. unfold roomManager.clearCanvas, server.with_db_manager.
  cbn [fst snd server.st_db server.st_roomManager].
  assert (∀ r, roomManager.getPlayersInRoom
                 (roomManager.clearCache (server.st_roomManager st)
                    (server.currentRoomId s) (Some now)) r
               = roomManager.getPlayersInRoom (server.st_roomManager st) r)
    as Hplayers.
  { intros r. unfold roomManager.getPlayersInRoom, roomManager.clearCache.
    destruct (roomManager.activeRooms (server.st_roomManager st)
              !! server.currentRoomId s) as [activeRoom|] eqn:Hlook; [|done].
    cbn [roomManager.activeRooms].
    destruct (decide (server.currentRoomId s = r)) as [<-|Hne].
    - by rewrite lookup_insert_eq, Hlook.
    - by rewrite lookup_insert_ne. }
  split; [|split; [|split; [|split; [|split; [|split]]]]].
  - intros since. unfold db.getDrawingEvents, db.drawing_rows_since.
    cbn [db.drawing_events db.clearCanvasSnapshot db.clearDrawingEvents].
    rewrite filter_none; [done|]. apply Forall_forall.
    intros row [Hne _]%list_elem_of_filter [Heq _]. done.
  - unfold db.getCanvasSnapshot.
    cbn [db.canvas_snapshots db.clearCanvasSnapshot].
    rewrite filter_none; [done|]. apply Forall_forall.
    by intros row [Hne _]%list_elem_of_filter.
  - intros activeRoom. unfold roomManager.clearCache.
    destruct (roomManager.activeRooms (server.st_roomManager st)
              !! server.currentRoomId s) as [activeRoom0|] eqn:Hlook.
    + cbn [roomManager.activeRooms]. rewrite lookup_insert_eq.
      by intros [= <-].
    + by rewrite Hlook.
  - done.
  - done.
  - exact Hplayers.
  - intros c' m. rewrite elem_of_broadcastToRoom.
    unfold listens, server.ws_open.
    cbn [server.st_conns server.st_roomManager]. rewrite Hplayers.
    split.
    + intros (-> & Hws & p & Hp & Hc & _). split; [done|]. split; [done|].
      by exists p.
    + intros (-> & Hws & p & Hp & Hc). split; [done|]. split; [done|].
      exists p. split; [done|]. split; [done|]. done.
Qed.

(** ** Creating a room and deleting it again *)

Lemma getRoom_None_rows d roomId :
  db.getRoom d roomId = None →
  filter (λ r, db.room_id r ≠ roomId) (db.rooms d) = db.rooms d.
Proof.
  unfold db.getRoom. intros Hnone. apply filter_all. apply Forall_forall.
  intros row Hrow Heq.
  assert (row ∈ filter (λ r, db.room_id r = roomId) (db.rooms d)) as Hin
    by by apply list_elem_of_filter.
  destruct (filter _ (db.rooms d)); [by apply elem_of_nil in Hin | done].
Qed.

(** X15. A room created through [POST /api/rooms] is answered with its
    description: the id is made from the first 8 characters of the uuid,
    the name is the trimmed request name of 1 to 20 characters, the room
    is custom with 4 seats. When the id was not in use, the room can be
    deleted again through [DELETE /api/rooms/:roomId] as long as nobody
    has joined it, and the directory of rooms is then as it was before the
    room was created. A request that is refused changes nothing. *)
Theorem created_room_can_be_deleted st name uuid now :
  db.getRoom (server.st_db st) ("custom-" +:+ js.slice0 8 uuid) = None →
  roomManager.getActivePlayerCount (server.st_roomManager st)
    ("custom-" +:+ js.slice0 8 uuid) = 0 →
  let roomId := "custom-" +:+ js.slice0 8 uuid in
  let created := server.post_rooms st name uuid now in
  match created.2 with
  | server.http_room (Some info) =>
      roomManager.info_id info = roomId
      ∧ Some (roomManager.info_name info) = js.trim <$> name
      ∧ 1 ≤ js.length (roomManager.info_name info) ≤ 20
      ∧ roomManager.info_isCustom info = true
      ∧ roomManager.info_maxPlayers info = 4
      ∧ roomManager.info_playerCount info = 0
      ∧ roomManager.getRoomInfo (server.st_db created.1)
          (server.st_roomManager created.1) roomId = Some info
      ∧ (server.delete_rooms created.1 roomId).2 = server.http_success
      ∧ db.rooms (server.st_db (server.delete_rooms created.1 roomId).1)
        = db.rooms (server.st_db st)
      ∧ ∀ r, r ≠ roomId →
          room_log (server.st_db (server.delete_rooms created.1 roomId).1) r
          = room_log (server.st_db st) r
  | server.http_error status _ => status = 400 ∧ created.1 = st
  | _ => False
  end.
Proof.
  intros Hfresh Hempty roomId.
  change ("custom-" +:+ js.slice0 8 uuid) with roomId in Hfresh, Hempty.
  cbv zeta. unfold server.post_rooms.
  destruct (negb (js.truthy name) || _) eqn:Hblank; [done|].
  destruct (20 <? _) eqn:Hlong; [done|].
  fold roomId. unfold roomManager.createRoom, server.with_db_manager.
  cbn [fst snd].
  apply orb_false_iff in Hblank as [Hname Hblank].
  destruct name as [raw|]; [|done].
  change (default "" (Some raw)) with raw in *.
  assert (db.getRoom (db.createRoom (server.st_db st) roomId (js.trim raw)
                        true now) roomId
          = Some {| db.room_id := roomId; db.room_name := js.trim raw;
                    db.room_created_at := now; db.room_max_players := 4;
                    db.room_is_custom := 1 |}) as Hrow.
  { unfold db.getRoom, db.createRoom. cbn [db.rooms].
    rewrite filter_app, filter_none.
    - by rewrite filter_cons_True.
    - apply Forall_forall. by intros row [Hne _]%list_elem_of_filter. }
  unfold roomManager.getRoomInfo at 1. rewrite Hrow.
  cbn [roomManager.info_id roomManager.info_name roomManager.info_isCustom
       roomManager.info_maxPlayers roomManager.info_playerCount
       db.room_id db.room_name db.room_is_custom db.room_max_players
       server.st_db server.st_roomManager].
  split; [done|]. split; [done|]. split; [unfold js.length in *; lia|].
  split; [done|]. split; [done|]. split; [done|].
  unfold server.delete_rooms.
  cbn [server.st_db server.st_roomManager].
  unfold roomManager.getRoomInfo. rewrite Hrow.
  cbn [roomManager.info_isCustom roomManager.info_playerCount
       db.room_is_custom db.room_id db.room_name negb].
  split; [by rewrite Hempty|]. rewrite Hempty.
  change (1 =? 1) with true. change (0 <? 0) with false. cbn [negb].
  unfold roomManager.deleteRoom. rewrite Hrow. cbn [db.room_is_custom].
  change (1 =? 1) with true. unfold server.with_db_manager.
  cbn [fst snd server.st_db].
  split; [done|]. split.
  - unfold db.deleteRoom, db.createRoom. cbn [db.rooms].
    rewrite filter_app, filter_cons_False, filter_nil, app_nil_r
      by (intros Hne; by apply Hne).
    rewrite list_filter_filter.
    rewrite <- (getRoom_None_rows _ _ Hfresh) at 2.
    apply list_filter_iff. intros row. tauto.
  - intros r Hne. by rewrite room_log_deleteRoom_ne.
Qed.

(** ** Flood fill *)

Lemma length_filter_impl {A} (P Q : A → Prop) `{!∀ a, Decision (P a)}
    `{!∀ a, Decision (Q a)} (l : list A) :
  (∀ a, P a → Q a) → (length (filter P l) ≤ length (filter Q l))%nat.
Proof.
  intros Himpl. induction l as [|a l IH]; [done|]. rewrite !filter_cons.
  destruct (decide (P a)) as [HP|HP], (decide (Q a)) as [HQ|HQ]; simpl;
    try lia.
  by apply Himpl in HP.
Qed.

Lemma length_filter_lt {A} (P Q : A → Prop) `{!∀ a, Decision (P a)}
    `{!∀ a, Decision (Q a)} (l : list A) (x : A) :
  x ∈ l → (∀ a, P a → Q a) → Q x → ¬ P x →
  (length (filter P l) < length (filter Q l))%nat.
Proof.
  intros Hin Himpl HQ HP. induction l as [|a l IH];
    [by apply elem_of_nil in Hin|].
  rewrite !filter_cons. apply elem_of_cons in Hin as [<-|Hin].
  - rewrite decide_False, decide_True by done. simpl.
    pose proof (length_filter_impl P Q l Himpl). lia.
  - specialize (IH Hin).
    destruct (decide (P a)) as [HPa|HPa], (decide (Q a)) as [HQa|HQa]; simpl;
      try lia.
    by apply Himpl in HPa.
Qed.

Lemma length_store data idx v :
  length (client.store data idx v) = length data.
Proof.
  unfold client.store. destruct (idx <? 0); [done|]. apply length_insert.
Qed.

Lemma at_index_store_ne data i j v :
  i ≠ j →
  client.at_index (client.store data i v) j = client.at_index data j.
Proof.
  intros Hne. unfold client.at_index, client.store.
  destruct (i <? 0) eqn:Hi; [done|]. destruct (j <? 0) eqn:Hj; [done|].
  apply list_lookup_insert_ne. lia.
Qed.

Lemma at_index_store_eq data i v :
  0 ≤ i < Z.of_nat (length data) →
  client.at_index (client.store data i v) i
  = Some (client.to_uint8_clamped v).
Proof.
  intros Hi. unfold client.at_index, client.store.
  destruct (i <? 0) eqn:Hneg; [lia|]. apply list_lookup_insert_eq. lia.
Qed.

Section flood_fill.
Variables (width height : Z).

(** The pixels of the canvas. *)
Definition inside (p : Z * Z) : Prop :=
  0 ≤ p.1 < width ∧ 0 ≤ p.2 < height.

Definition canvas_pixels : list (Z * Z) :=
  list_prod (seqZ 0 width) (seqZ 0 height).

Lemma elem_of_canvas_pixels p : p ∈ canvas_pixels ↔ inside p.
Proof.
  destruct p as [x y]. unfold canvas_pixels, inside.
  rewrite list_elem_of_In, in_prod_iff, <- !list_elem_of_In, !elem_of_seqZ.
  simpl. lia.
Qed.

Lemma length_canvas_pixels :
  length canvas_pixels = (Z.to_nat width * Z.to_nat height)%nat.
Proof. unfold canvas_pixels. by rewrite length_prod, !length_seqZ. Qed.

(** How many pixels of the canvas the loop has not marked yet. *)
Definition unvisited (visited : gset (Z * Z)) : nat :=
  length (filter (λ p, p ∉ visited) canvas_pixels).

Lemma unvisited_le visited :
  (unvisited visited ≤ Z.to_nat width * Z.to_nat height)%nat.
Proof.
  unfold unvisited. rewrite <- length_canvas_pixels. apply length_filter.
Qed.

Lemma unvisited_mark p visited :
  inside p → p ∉ visited →
  (unvisited ({[p]} ∪ visited) < unvisited visited)%nat.
Proof.
  intros Hin Hnew. unfold unvisited.
  apply (length_filter_lt _ _ _ p).
  - by apply elem_of_canvas_pixels.
  - intros a Ha Hv. apply Ha. apply elem_of_union. by right.
  - done.
  - intros Hp. apply Hp. apply elem_of_union. left.
    by apply elem_of_singleton.
Qed.

Lemma tested_inside x y :
  (x <? 0) || (width <=? x) || (y <? 0) || (height <=? y) = false ↔
  inside (x, y).
Proof.
  unfold inside. cbn [fst snd]. rewrite !orb_false_iff. lia.
Qed.

(** The loop stops: a turn either takes one pair off the stack, or marks a
    pixel of the canvas that was not marked and puts four pairs on. *)
Lemma fill_loop_terminates targetColor fill_ fuel stack visited data :
  (length stack + 4 * unvisited visited < fuel)%nat →
  is_Some (client.fill_loop fuel width height targetColor fill_ stack visited
             data).
Proof.
  revert stack visited data.
  induction fuel as [|fuel IH]; intros stack visited data Hfuel; [lia|].
  cbn [client.fill_loop]. destruct stack as [|[x y] stack]; [done|].
  cbn [length] in Hfuel.
  destruct (decide ((x, y) ∈ visited)) as [Hseen|Hnew]; [apply IH; lia|].
  destruct (_ || _) eqn:Hout; [apply IH; lia|].
  destruct (negb _); [apply IH; lia|].
  apply tested_inside in Hout.
  pose proof (unvisited_mark (x, y) visited Hout Hnew).
  apply IH. rewrite length_app. cbn [client.pushed length]. lia.
Qed.

(** The four bytes of a pixel. *)
Definition pixel_bytes (data : list Z) (p : Z * Z) : list (option Z) :=
  (λ k, client.at_index data ((p.2 * width + p.1) * 4 + k)) <$> [0; 1; 2; 3].

Lemma getPixelColor_bytes data data' p :
  pixel_bytes data p = pixel_bytes data' p →
  client.getPixelColor data p.1 p.2 width
  = client.getPixelColor data' p.1 p.2 width.
Proof.
  unfold pixel_bytes, client.getPixelColor. cbn [fmap list_fmap].
  rewrite !Z.add_0_r. intros [= -> -> -> _]. done.
Qed.

Lemma offset_inj p q :
  inside p → inside q → p.2 * width + p.1 = q.2 * width + q.1 → p = q.
Proof.
  destruct p as [x y], q as [x' y']. unfold inside. cbn [fst snd].
  intros [Hx Hy] [Hx' Hy'] Heq. assert (y = y') as -> by nia.
  f_equal. lia.
Qed.

Lemma length_setPixelColor data x y color :
  length (client.setPixelColor data x y width color) = length data.
Proof. unfold client.setPixelColor. by rewrite !length_store. Qed.

Lemma pixel_bytes_set_other data p q color :
  inside p → inside q → p ≠ q →
  pixel_bytes (client.setPixelColor data p.1 p.2 width color) q
  = pixel_bytes data q.
Proof.
  intros Hp Hq Hne.
  assert (p.2 * width + p.1 ≠ q.2 * width + q.1) as Hoff
    by (intros Heq; by apply Hne, offset_inj).
  unfold pixel_bytes, client.setPixelColor. cbn [fmap list_fmap].
  by rewrite !at_index_store_ne by lia.
Qed.

Lemma pixel_bytes_set_same data p color :
  inside p → length data = Z.to_nat (width * height * 4) →
  pixel_bytes (client.setPixelColor data p.1 p.2 width color) p
  = [ Some (client.to_uint8_clamped (client.r color));
      Some (client.to_uint8_clamped (client.g color));
      Some (client.to_uint8_clamped (client.b color));
      Some 255 ].
Proof.
  intros [Hx Hy] Hlen.
  assert (0 ≤ (p.2 * width + p.1) * 4
          ∧ (p.2 * width + p.1) * 4 + 3 < Z.of_nat (length data)) as [Hlo Hhi].
  { rewrite Hlen. split; [nia|]. rewrite Z2Nat.id by nia. nia. }
  unfold pixel_bytes, client.setPixelColor. cbn [fmap list_fmap].
  rewrite Z.add_0_r. f_equal; [|f_equal; [|f_equal; [|f_equal]]].
  - rewrite !at_index_store_ne by lia. apply at_index_store_eq. lia.
  - rewrite !at_index_store_ne by lia. apply at_index_store_eq.
    rewrite length_store. lia.
  - rewrite !at_index_store_ne by lia. apply at_index_store_eq.
    rewrite !length_store. lia.
  - apply at_index_store_eq. rewrite !length_store. lia.
Qed.

Variables (data : list Z) (targetColor fill_ : client.Rgb) (start : Z * Z).

(** A pixel whose colour in the data given to [floodFill] is within the
    tolerance of the target colour. *)
Definition matches (p : Z * Z) : Prop :=
  client.colorsMatch (client.getPixelColor data p.1 p.2 width) targetColor
  = true.

(** The pixels to fill: those reached from the start over matching pixels
    of the canvas, moving up, down, left or right. *)
Inductive region : Z * Z → Prop :=
| region_start : inside start → matches start → region start
| region_step p q :
    region p → q ∈ client.pushed p.1 p.2 → inside q → matches q → region q.

Definition painted : list (option Z) :=
  [ Some (client.to_uint8_clamped (client.r fill_));
    Some (client.to_uint8_clamped (client.g fill_));
    Some (client.to_uint8_clamped (client.b fill_));
    Some 255 ].

Definition fill_inv (stack : list (Z * Z)) (visited : gset (Z * Z))
    (cur : list Z) : Prop :=
  (∀ p, p ∈ visited → region p)
  ∧ (∀ p q, p ∈ visited → q ∈ client.pushed p.1 p.2 → inside q → matches q →
       q ∈ visited ∨ q ∈ stack)
  ∧ (inside start → matches start → start ∈ visited ∨ start ∈ stack)
  ∧ (∀ q, q ∈ stack →
       q = start ∨ ∃ p, p ∈ visited ∧ q ∈ client.pushed p.1 p.2)
  ∧ length cur = length data
  ∧ ∀ p, inside p →
      pixel_bytes cur p
      = if decide (p ∈ visited) then painted else pixel_bytes data p.

Definition filled (res : list Z) : Prop :=
  length res = length data
  ∧ ∀ p, inside p →
      (region p → pixel_bytes res p = painted)
      ∧ (¬ region p → pixel_bytes res p = pixel_bytes data p).

Hypothesis data_length : length data = Z.to_nat (width * height * 4).

Lemma fill_inv_skip p stack visited cur :
  (p ∈ visited ∨ ¬ (inside p ∧ matches p)) →
  fill_inv (p :: stack) visited cur → fill_inv stack visited cur.
Proof.
  intros Hskip (Hreg & Hclosed & Hstart & Hstack & Hlen & Hbytes).
  split; [done|]. split; [|split; [|split; [|done]]].
  - intros p' q Hp' Hq Hin Hm.
    destruct (Hclosed p' q Hp' Hq Hin Hm) as [?|[->|?]%elem_of_cons];
      [by left| |by right].
    destruct Hskip as [?|Hno]; [by left|]. by destruct Hno.
  - intros Hin Hm.
    destruct (Hstart Hin Hm) as [?|[Heq|?]%elem_of_cons];
      [by left| |by right].
    destruct Hskip as [?|Hno]; [left; by rewrite Heq|].
    destruct Hno. by rewrite <- Heq.
  - intros q Hq. apply Hstack. apply elem_of_cons. by right.
Qed.

Lemma fill_inv_mark p stack visited cur :
  p ∉ visited → inside p →
  client.colorsMatch (client.getPixelColor cur p.1 p.2 width) targetColor
  = true →
  fill_inv (p :: stack) visited cur →
  fill_inv (client.pushed p.1 p.2 ++ stack) ({[p]} ∪ visited)
    (client.setPixelColor cur p.1 p.2 width fill_).
Proof.
  intros Hnew Hin Hcur (Hreg & Hclosed & Hstart & Hstack & Hlen & Hbytes).
  assert (matches p) as Hm.
  { unfold matches. rewrite <- Hcur. f_equal. symmetry.
    apply getPixelColor_bytes.
    rewrite (Hbytes p Hin). by rewrite decide_False. }
  assert (region p) as Hp.
  { destruct (Hstack p) as [->|(p0 & Hp0 & Hq)];
      [apply elem_of_cons; by left | by apply region_start |].
    eapply region_step; [by apply Hreg| | |]; done. }
  split; [|split; [|split; [|split; [|split]]]].
  - intros p' [->%elem_of_singleton|Hp']%elem_of_union; [done|by apply Hreg].
  - intros p' q [->%elem_of_singleton|Hp']%elem_of_union Hq Hqin Hqm.
    + right. apply elem_of_app. by left.
    + destruct (Hclosed p' q Hp' Hq Hqin Hqm) as [?|[->|?]%elem_of_cons].
      * left. apply elem_of_union. by right.
      * left. apply elem_of_union. left. by apply elem_of_singleton.
      * right. apply elem_of_app. by right.
  - intros Hsin Hsm.
    destruct (Hstart Hsin Hsm) as [?|[Heq|?]%elem_of_cons].
    + left. apply elem_of_union. by right.
    + left. apply elem_of_union. left. by apply elem_of_singleton.
    + right. apply elem_of_app. by right.
  - intros q [Hq|Hq]%elem_of_app.
    + right. exists p. split; [|done]. apply elem_of_union. left.
      by apply elem_of_singleton.
    + destruct (Hstack q) as [?|(p0 & Hp0 & Hq0)];
        [apply elem_of_cons; by right | by left |].
      right. exists p0. split; [|done]. apply elem_of_union. by right.
  - by rewrite length_setPixelColor.
  - intros q Hq. destruct (decide (q = p)) as [->|Hne].
    + rewrite decide_True
        by (apply elem_of_union; left; by apply elem_of_singleton).
      apply pixel_bytes_set_same; [done|]. by rewrite Hlen.
    + rewrite pixel_bytes_set_other by done. rewrite (Hbytes q Hq).
      destruct (decide (q ∈ visited)) as [Hv|Hv].
      * rewrite decide_True; [done|]. apply elem_of_union. by right.
      * rewrite decide_False; [done|].
        intros [?%elem_of_singleton|?]%elem_of_union; done.
Qed.

Lemma fill_loop_spec fuel stack visited cur res :
  fill_inv stack visited cur →
  client.fill_loop fuel width height targetColor fill_ stack visited cur
  = Some res →
  filled res.
Proof.
  revert stack visited cur.
  induction fuel as [|fuel IH]; intros stack visited cur Hinv; [done|].
  cbn [client.fill_loop]. destruct stack as [|[x y] stack].
  - intros [= <-].
    destruct Hinv as (Hreg & Hclosed & Hstart & Hstack & Hlen & Hbytes).
    assert (∀ p, region p → p ∈ visited) as Hall.
    { induction 1 as [Hin Hm|p q Hp IHp Hq Hin Hm].
      - destruct (Hstart Hin Hm) as [?|?%elem_of_nil]; done.
      - destruct (Hclosed p q IHp Hq Hin Hm) as [?|?%elem_of_nil]; done. }
    split; [done|]. intros p Hp. rewrite (Hbytes p Hp). split.
    + intros Hr. by rewrite decide_True by by apply Hall.
    + intros Hr. rewrite decide_False; [done|]. intros Hv. by apply Hr, Hreg.
  - destruct (decide ((x, y) ∈ visited)) as [Hseen|Hnew].
    { apply IH. eapply fill_inv_skip; [|exact Hinv]. by left. }
    destruct (_ || _) eqn:Hout.
    { apply IH. eapply fill_inv_skip; [|exact Hinv]. right.
      intros [Hin _]. apply tested_inside in Hin. congruence. }
    apply tested_inside in Hout.
    destruct (client.colorsMatch _ _) eqn:Hmatch; cbn [negb].
    + apply IH. by apply (fill_inv_mark (x, y)).
    + apply IH. eapply fill_inv_skip; [|exact Hinv]. right.
      intros [_ Hm]. unfold matches in Hm.
      destruct Hinv as (_ & _ & _ & _ & _ & Hbytes).
      rewrite <- (getPixelColor_bytes cur data (x, y)) in Hm.
      * cbn [fst snd] in Hm. congruence.
      * rewrite (Hbytes (x, y) Hout). by rewrite decide_False.
Qed.

Lemma fill_inv_start : fill_inv [start] ∅ data.
Proof.
  split; [intros p Hp; by apply elem_of_empty in Hp|].
  split; [intros p q Hp; by apply elem_of_empty in Hp|].
  split; [intros _ _; right; apply elem_of_cons; by left|].
  split; [intros q Hq; left; by apply list_elem_of_singleton in Hq|].
  split; [done|]. intros p Hp. by rewrite decide_False by apply not_elem_of_empty.
Qed.

End flood_fill.

Lemma hex_digit_range c v : client.hex_digit c = Some v → 0 ≤ v ≤ 15.
Proof.
  unfold client.hex_digit. cbv zeta.
  set (n := Z.of_nat (Ascii.nat_of_ascii c)).
  destruct ((48 <=? n) && (n <=? 57)) eqn:H1; [intros [= <-]; lia|].
  destruct ((97 <=? n) && (n <=? 102)) eqn:H2; [intros [= <-]; lia|].
  destruct ((65 <=? n) && (n <=? 70)) eqn:H3; [intros [= <-]; lia|done].
Qed.

Lemma hex_pair_range hi lo v : client.hex_pair hi lo = Some v → 0 ≤ v ≤ 255.
Proof.
  unfold client.hex_pair.
  destruct (client.hex_digit hi) as [h|] eqn:Hh; [|done].
  destruct (client.hex_digit lo) as [l|] eqn:Hl; [|done].
  apply hex_digit_range in Hh, Hl. intros [= <-]. lia.
Qed.

(** A colour with three defined components between 0 and 255. *)
Definition opaque_colour (c : client.Rgb) : Prop :=
  ∃ r g b,
    c = {| client.r := Some r; client.g := Some g; client.b := Some b |}
    ∧ 0 ≤ r ≤ 255 ∧ 0 ≤ g ≤ 255 ∧ 0 ≤ b ≤ 255.

Lemma hexToRgb_range hex : opaque_colour (client.hexToRgb hex).
Proof.
  assert (opaque_colour client.black) as Hblack.
  { exists 0, 0, 0. split; [done|lia]. }
  unfold client.hexToRgb.
  destruct (String.list_ascii_of_string _)
    as [|r1 [|r2 [|g1 [|g2 [|b1 [|b2 [|]]]]]]]; try done.
  destruct (client.hex_pair r1 r2) as [r|] eqn:Hr; [|done].
  destruct (client.hex_pair g1 g2) as [g|] eqn:Hg; [|done].
  destruct (client.hex_pair b1 b2) as [b|] eqn:Hb; [|done].
  apply hex_pair_range in Hr, Hg, Hb. exists r, g, b. done.
Qed.

Lemma fill_loop_length fuel width height targetColor fill_ stack visited data
    res :
  client.fill_loop fuel width height targetColor fill_ stack visited data
  = Some res →
  length res = length data.
Proof.
  revert stack visited data.
  induction fuel as [|fuel IH]; intros stack visited data; [done|].
  cbn [client.fill_loop]. destruct stack as [|[x y] stack];
    [by intros [= <-]|].
  destruct (decide _); [apply IH|]. destruct (_ || _); [apply IH|].
  destruct (negb _); [apply IH|].
  intros Hres%IH. by rewrite Hres, length_setPixelColor.
Qed.

(** X16. [floodFill] always comes to an end: on a canvas of [width] by
    [height] pixels its loop takes at most [4 * width * height + 1] turns,
    whatever the pixel data, the start and the colour are, and it gives
    back pixel data of the same length. *)
Theorem floodFill_terminates fuel width height data startX startY fillColor :
  (4 * (Z.to_nat width * Z.to_nat height) + 1 < fuel)%nat →
  ∃ res,
    client.floodFill fuel width height data startX startY fillColor = Some res
    ∧ length res = length data.
Proof.
  intros Hfuel. unfold client.floodFill.
  destruct (client.colorsMatch _ _); [by exists data|].
  destruct (fill_loop_terminates width height
              (client.getPixelColor data startX startY width)
              (client.hexToRgb fillColor) fuel [(startX, startY)] ∅ data)
    as [res Hres].
  - pose proof (unvisited_le width height ∅). cbn [length]. lia.
  - exists res. split; [done|]. by eapply fill_loop_length.
Qed.

(** X17. What [floodFill] paints. When the colour at the start is within
    the tolerance of the fill colour, the data is given back as it is.
    Otherwise the pixels reached from the start over pixels of the canvas
    whose colour is within the tolerance of the colour at the start, moving
    up, down, left or right, get the fill colour and full opacity, and
    every other pixel of the canvas keeps its four bytes. A start on the
    canvas is itself painted, so that filling again from it with the same
    colour changes nothing; a start off the canvas paints nothing. *)
Theorem floodFill_fills_region fuel width height data startX startY fillColor
    res :
  length data = Z.to_nat (width * height * 4) →
  client.floodFill fuel width height data startX startY fillColor = Some res →
  let targetColor := client.getPixelColor data startX startY width in
  let fill := client.hexToRgb fillColor in
  let reached := region width height data targetColor (startX, startY) in
  if client.colorsMatch targetColor fill then res = data
  else
    length res = length data
    ∧ (∀ p, inside width height p →
         (reached p →
          client.getPixelColor res p.1 p.2 width = fill
          ∧ client.at_index res ((p.2 * width + p.1) * 4 + 3) = Some 255)
         ∧ (¬ reached p →
            pixel_bytes width res p = pixel_bytes width data p))
    ∧ (inside width height (startX, startY) →
       reached (startX, startY)
       ∧ ∀ fuel',
           client.floodFill fuel' width height res startX startY fillColor
           = Some res)
    ∧ (¬ inside width height (startX, startY) → ∀ p, ¬ reached p).
Proof.
  intros Hlen. unfold client.floodFill. cbv zeta.
  destruct (client.colorsMatch _ _) eqn:Hsame; [by intros [= <-]|].
  intros Hloop.
  destruct (fill_loop_spec width height data
              (client.getPixelColor data startX startY width)
              (client.hexToRgb fillColor) (startX, startY) Hlen fuel
              [(startX, startY)] ∅ data res) as [Hsize Hpixels].
  { apply fill_inv_start. }
  { exact Hloop. }
  assert (∀ p, inside width height p →
            region width height data
              (client.getPixelColor data startX startY width)
              (startX, startY) p →
            client.getPixelColor res p.1 p.2 width = client.hexToRgb fillColor
            ∧ client.at_index res ((p.2 * width + p.1) * 4 + 3) = Some 255)
    as Hpainted.
  { intros p Hp Hr. destruct (Hpixels p Hp) as [Hin _]. specialize (Hin Hr).
    destruct (hexToRgb_range fillColor) as (r & g & b & Hfill & Hr' & Hg & Hb).
    unfold painted, pixel_bytes in Hin. rewrite Hfill in *.
    cbn [fmap list_fmap client.r client.g client.b client.to_uint8_clamped]
      in Hin.
    injection Hin as H0 H1 H2 H3. split; [|done].
    unfold client.getPixelColor. rewrite Z.add_0_r in H0.
    rewrite H0, H1, H2. f_equal; f_equal; lia. }
  split; [done|]. split; [|split].
  - intros p Hp. destruct (Hpixels p Hp) as [_ Hout]. split; [|done].
    by apply Hpainted.
  - intros Hstart.
    assert (region width height data
              (client.getPixelColor data startX startY width)
              (startX, startY) (startX, startY)) as Hreached; last first.
    { split; [done|]. intros fuel'. unfold client.floodFill.
      destruct (Hpainted (startX, startY) Hstart Hreached) as [Hnow _].
      cbn [fst snd] in Hnow. rewrite Hnow.
      destruct (hexToRgb_range fillColor) as (r & g & b & -> & _).
      unfold client.colorsMatch. cbn [client.r client.g client.b client.near].
      by rewrite !Z.sub_diag. }
    apply region_start; [done|].
    unfold matches. cbn [fst snd].
    destruct Hstart as [Hx Hy]. cbn [fst snd] in Hx, Hy.
    assert (∀ k, 0 ≤ k < 4 →
              ∃ v, client.at_index data ((startY * width + startX) * 4 + k)
                   = Some v) as Hdef.
    { intros k Hk. unfold client.at_index.
      destruct (_ <? 0) eqn:Hneg; [nia|].
      apply lookup_lt_is_Some_2. rewrite Hlen. nia. }
    unfold client.colorsMatch, client.getPixelColor. cbn [client.r client.g client.b].
    destruct (Hdef 0 ltac:(lia)) as [v0 H0].
    destruct (Hdef 1 ltac:(lia)) as [v1 H1].
    destruct (Hdef 2 ltac:(lia)) as [v2 H2].
    rewrite Z.add_0_r in H0. rewrite H0, H1, H2. cbn [client.near].
    rewrite !Z.sub_diag. done.
  - intros Hout p Hr. apply Hout. clear Hpixels.
    induction Hr as [Hin _|p q _ IH _ _ _]; done.
Qed.

(** ** Undo *)

(** A stroke: [startDrawing] saves the canvas for undo, then the drawing
    leaves [image] on the canvas. *)
Definition drawn (e : client.Easel) (image : list Z) : client.Easel :=
  {| client.canvas := image;
     client.undoStack := client.undoStack (client.saveUndoState e) |}.

Lemma undo_snoc e l x :
  client.undoStack e = l ++ [x] →
  client.undo e = {| client.canvas := x; client.undoStack := l |}.
Proof.
  intros Hstack. unfold client.undo. rewrite Hstack, reverse_snoc.
  by rewrite reverse_involutive.
Qed.

Lemma iter_undo popped e l :
  client.undoStack e = l ++ popped → popped ≠ [] →
  Nat.iter (length popped) client.undo e
  = {| client.canvas := default (client.canvas e) (head popped);
       client.undoStack := l |}.
Proof.
  revert e. induction popped as [|x popped IH] using rev_ind;
    intros e Hstack Hne; [done|].
  rewrite length_app, Nat.add_comm. cbn [length Nat.add].
  rewrite Nat.iter_succ_r. rewrite app_assoc in Hstack.
  rewrite (undo_snoc e _ x Hstack).
  destruct popped as [|y popped]; [cbn; by rewrite app_nil_r|].
  rewrite IH by done. done.
Qed.

Lemma saved_stack e strokes :
  let full :=
    client.undoStack e
    ++ take (length strokes) (client.canvas e :: strokes) in
  client.undoStack (foldl drawn e strokes)
  = drop (length full - (client.maxUndoSteps
                         `max` length (client.undoStack e))) full
  ∧ Some (client.canvas (foldl drawn e strokes))
    = last (client.canvas e :: strokes).
Proof.
  cbv zeta. induction strokes as [|image strokes IH] using rev_ind.
  - cbn [foldl length take]. rewrite app_nil_r. split; [|done].
    rewrite (proj2 (Nat.sub_0_le _ _)) by lia. done.
  - destruct IH as [IHstack IHcanvas].
    rewrite foldl_app. cbn [foldl]. unfold drawn at 1.
    cbn [client.canvas client.undoStack]. split.
    + unfold client.saveUndoState. cbn [client.undoStack].
      rewrite IHstack.
      set (old := client.undoStack e) in *.
      set (history := client.canvas e :: strokes) in *.
      assert (history !! length strokes
              = Some (client.canvas (foldl drawn e strokes))) as Hlast.
      { rewrite IHcanvas, last_lookup. unfold history. done. }
      assert (take (length (strokes ++ [image]))
                (client.canvas e :: strokes ++ [image])
              = take (length strokes) history
                ++ [client.canvas (foldl drawn e strokes)]) as ->.
      { rewrite length_app. cbn [length].
        change (client.canvas e :: strokes ++ [image])
          with (history ++ [image]).
        rewrite take_app_le by (unfold history; cbn [length]; lia).
        rewrite Nat.add_1_r. by erewrite take_S_r. }
      set (pasts := take (length strokes) history).
      assert (length pasts = length strokes) as Hpasts.
      { unfold pasts. rewrite length_take. unfold history. cbn [length]. lia. }
      rewrite !length_app, length_drop, !length_app. cbn [length].
      unfold client.maxUndoSteps.
      set (x := client.canvas (foldl drawn e strokes)).
      rewrite (app_assoc old pasts [x]).
      set (full := old ++ pasts).
      assert (length full = (length old + length pasts)%nat) as Hfull
        by (unfold full; by rewrite length_app).
      rewrite <- Hfull.
      destruct (_ <? _)%nat eqn:Hover.
      * apply Nat.ltb_lt in Hover.
        replace (length old + (length pasts + 1) - 10 `max` length old)%nat
          with (length full - 10 `max` length old + 1)%nat by lia.
        rewrite <- drop_drop. by rewrite (drop_app_le full) by lia.
      * apply Nat.ltb_ge in Hover.
        replace (length old + (length pasts + 1) - 10 `max` length old)%nat
          with 0%nat by lia.
        replace (length full - 10 `max` length old)%nat with 0%nat by lia.
        done.
    + by rewrite app_comm_cons, last_snoc.
Qed.

(** X18. Undo steps back through the strokes: after any number of strokes,
    with nothing else painted in between, pressing undo [k] times, for [k]
    up to the number of strokes and up to [maxUndoSteps], puts the canvas
    back to what it was before the [k]-th last stroke. The stack never
    holds more than [maxUndoSteps] images, the oldest being dropped
    first. *)
Theorem undo_steps_back e strokes k :
  (length (client.undoStack e) ≤ client.maxUndoSteps)%nat →
  (0 < k ≤ length strokes)%nat →
  (k ≤ client.maxUndoSteps)%nat →
  let e' := foldl drawn e strokes in
  (length (client.undoStack e') ≤ client.maxUndoSteps)%nat
  ∧ (client.canvas e :: strokes) !! (length strokes - k)%nat
    = Some (client.canvas (Nat.iter k client.undo e'))
  ∧ length (client.undoStack (Nat.iter k client.undo e'))
    = (length (client.undoStack e') - k)%nat.
Proof.
  intros Hold Hk Hmax. cbv zeta.
  destruct (saved_stack e strokes) as [Hstack _]. cbv zeta in Hstack.
  unfold client.maxUndoSteps in *.
  set (old := client.undoStack e) in *.
  set (history := client.canvas e :: strokes) in *.
  set (pasts := take (length strokes) history) in *.
  assert (length pasts = length strokes) as Hpasts.
  { unfold pasts. rewrite length_take. unfold history. cbn [length]. lia. }
  set (full := old ++ pasts) in *.
  assert (length full = (length old + length strokes)%nat) as Hfull
    by (unfold full; rewrite length_app; lia).
  rewrite Nat.max_l in Hstack by lia.
  set (saved := client.undoStack (foldl drawn e strokes)) in *.
  assert (length saved = (length full - (length full - 10))%nat) as Hsaved
    by by rewrite Hstack, length_drop.
  split; [lia|].
  set (popped := drop (length saved - k) saved).
  assert (length popped = k) as Hpopped
    by (unfold popped; rewrite length_drop; lia).
  assert (popped ≠ []) as Hne.
  { intros Hnil. rewrite Hnil in Hpopped. cbn [length] in Hpopped. lia. }
  pose proof (iter_undo popped (foldl drawn e strokes)
                (take (length saved - k) saved)) as Hundo.
  rewrite Hpopped in Hundo.
  rewrite Hundo by (done || (unfold popped; by rewrite take_drop)).
  cbn [client.canvas client.undoStack]. split.
  - assert (head popped = history !! (length strokes - k)%nat) as ->.
    + unfold popped. rewrite head_lookup, lookup_drop, Nat.add_0_r, Hstack.
      rewrite lookup_drop, length_drop.
      replace (length full - 10 + (length full - (length full - 10) - k))%nat
        with (length old + (length strokes - k))%nat by lia.
      unfold full. rewrite lookup_app_r by lia.
      replace (length old + (length strokes - k) - length old)%nat
        with (length strokes - k)%nat by lia.
      unfold pasts. apply lookup_take_lt. lia.
    + destruct (history !! (length strokes - k)%nat) as [image|] eqn:Himage;
        [done|].
      apply lookup_ge_None in Himage. unfold history in Himage.
      cbn [length] in Himage. lia.
  - rewrite length_take. lia.
Qed.

(** ** Working offline *)

(** What a user does with the drawing tools. *)
Inductive Action :=
| PickTool (tool : string)
| PickColor (color : string)
| PickSize (size : Z)
| Gesture (start : Z * Z) (moves : list (Z * Z)) (finish : Z * Z).

Definition perform (st : client.State) (a : Action)
    : client.State * client.Sent :=
  match a with
  | PickTool tool => (client.pickTool st tool, [])
  | PickColor color => (client.pickColor st color, [])
  | PickSize size => (client.pickSize st size, [])
  | Gesture start moves finish =>
      let '(st, sent1) := client.startDrawing st start in
      let st := foldl client.continueDrawing st moves in
      let '(st, sent2) := client.finishDrawing st finish in
      (st, sent1 ++ sent2)
  end.

Definition perform_all (st : client.State) (acts : list Action)
    : client.State * client.Sent :=
  foldl (λ '(st, sent) a, let '(st', out) := perform st a in (st', sent ++ out))
    (st, []) acts.

(** The queue entry of a stroke that went out as a message. *)
Definition queued_form (m : server.ClientMessage)
    : option server.QueuedEvent :=
  match m with
  | server.Draw points color size tool =>
      Some {| server.qe_type := "draw"; server.qe_points := points;
              server.qe_color := color; server.qe_size := size;
              server.qe_tool := tool; server.qe_text := "";
              server.qe_timestamp := None |}
  | _ => None
  end.

(** Two states of the client that differ in the socket being open and in
    the queue only. *)
Definition twins (on off : client.State) : Prop :=
  client.isOpen on = true ∧ client.isOpen off = false
  ∧ client.set_eventQueue [] (client.set_isOpen false on)
    = client.set_eventQueue [] (client.set_isOpen false off).

Ltac twin_cases Htwins :=
  destruct Htwins as (Hon & Hoff & Hcore);
  match goal with
  | on : client.State, off : client.State |- _ =>
      destruct on, off; cbn in Hon, Hoff, Hcore;
      injection Hcore as -> -> -> -> -> -> -> -> -> -> -> -> -> ->; subst
  end.

Lemma twins_pickTool on off tool :
  twins on off → twins (client.pickTool on tool) (client.pickTool off tool).
Proof. intros Htwins. twin_cases Htwins. done. Qed.

Lemma twins_pickColor on off color :
  twins on off → twins (client.pickColor on color) (client.pickColor off color).
Proof.
  intros Htwins. twin_cases Htwins. unfold client.pickColor. cbn.
  by destruct (String.eqb _ _).
Qed.

Lemma twins_pickSize on off size :
  twins on off → twins (client.pickSize on size) (client.pickSize off size).
Proof. intros Htwins. twin_cases Htwins. done. Qed.

Lemma twins_startDrawing on off coords :
  twins on off →
  twins (client.startDrawing on coords).1 (client.startDrawing off coords).1
  ∧ (client.startDrawing off coords).2 = []
  ∧ omap queued_form (client.startDrawing on coords).2 = []
  ∧ client.eventQueue (client.startDrawing on coords).1 = client.eventQueue on
  ∧ client.eventQueue (client.startDrawing off coords).1
    = client.eventQueue off.
Proof. intros Htwins. twin_cases Htwins. done. Qed.

Lemma twins_continueDrawing on off coords :
  twins on off →
  twins (client.continueDrawing on coords) (client.continueDrawing off coords)
  ∧ client.eventQueue (client.continueDrawing on coords)
    = client.eventQueue on
  ∧ client.eventQueue (client.continueDrawing off coords)
    = client.eventQueue off.
Proof.
  intros Htwins. twin_cases Htwins. unfold client.continueDrawing. cbn.
  by destruct (client.freehand _).
Qed.

Lemma twins_moves on off moves :
  twins on off →
  twins (foldl client.continueDrawing on moves)
    (foldl client.continueDrawing off moves)
  ∧ client.eventQueue (foldl client.continueDrawing on moves)
    = client.eventQueue on
  ∧ client.eventQueue (foldl client.continueDrawing off moves)
    = client.eventQueue off.
Proof.
  revert on off. induction moves as [|coords moves IH]; intros on off Htwins;
    [done|].
  cbn [foldl].
  destruct (twins_continueDrawing on off coords Htwins) as (Ht & Hq & Hq').
  destruct (IH _ _ Ht) as (Ht' & Hqn & Hqf). split; [done|].
  split; congruence.
Qed.

Lemma twins_finishDrawing on off coords :
  twins on off →
  twins (client.finishDrawing on coords).1 (client.finishDrawing off coords).1
  ∧ (client.finishDrawing off coords).2 = []
  ∧ client.eventQueue (client.finishDrawing on coords).1
    = client.eventQueue on
  ∧ client.eventQueue (client.finishDrawing off coords).1
    = client.eventQueue off
      ++ omap queued_form (client.finishDrawing on coords).2.
Proof.
  intros Htwins. twin_cases Htwins. unfold client.finishDrawing. cbn.
  repeat match goal with
         | |- context [match ?x with Some _ => _ | None => _ end] =>
             is_var x; destruct x
         | |- context [if ?b then _ else _] => destruct b eqn:?
         end; cbn; rewrite ?app_nil_r; done.
Qed.

Lemma twins_perform on off a :
  twins on off →
  twins (perform on a).1 (perform off a).1
  ∧ (perform off a).2 = []
  ∧ client.eventQueue (perform on a).1 = client.eventQueue on
  ∧ client.eventQueue (perform off a).1
    = client.eventQueue off ++ omap queued_form (perform on a).2.
Proof.
  intros Htwins. destruct a as [tool|color|size|start moves finish];
    cbn [perform omap].
  - split; [by apply twins_pickTool|].
    twin_cases Htwins. by rewrite app_nil_r.
  - split; [by apply twins_pickColor|].
    twin_cases Htwins. unfold client.pickColor. cbn.
    destruct (String.eqb _ _); by rewrite app_nil_r.
  - split; [by apply twins_pickSize|].
    twin_cases Htwins. by rewrite app_nil_r.
  - destruct (twins_startDrawing on off start Htwins)
      as (Ht1 & Hs1 & Hq1 & Hqn1 & Hqf1).
    destruct (client.startDrawing on start) as [on1 sent1].
    destruct (client.startDrawing off start) as [off1 sent1'].
    cbn [fst snd] in *.
    destruct (twins_moves on1 off1 moves Ht1) as (Ht2 & Hqn2 & Hqf2).
    destruct (twins_finishDrawing _ _ finish Ht2)
      as (Ht3 & Hs3 & Hqn3 & Hqf3).
    destruct (client.finishDrawing (foldl _ on1 moves) finish)
      as [on3 sent3].
    destruct (client.finishDrawing (foldl _ off1 moves) finish)
      as [off3 sent3'].
    cbn [fst snd] in *. subst. split; [done|]. split; [done|].
    split; [congruence|]. rewrite omap_app, Hq1. cbn [app]. congruence.
Qed.

Lemma twins_perform_all on off acts :
  twins on off →
  twins (perform_all on acts).1 (perform_all off acts).1
  ∧ (perform_all off acts).2 = []
  ∧ client.eventQueue (perform_all on acts).1 = client.eventQueue on
  ∧ client.eventQueue (perform_all off acts).1
    = client.eventQueue off ++ omap queued_form (perform_all on acts).2.
Proof.
  induction acts as [|a acts IH] using rev_ind; intros Htwins.
  - cbn. by rewrite app_nil_r.
  - destruct (IH Htwins) as (Ht & Hs & Hqn & Hqf).
    unfold perform_all in *. rewrite !foldl_app. cbn [foldl].
    destruct (foldl _ (on, []) acts) as [on1 sent1].
    destruct (foldl _ (off, []) acts) as [off1 sent1'].
    cbn [fst snd] in *.
    destruct (twins_perform on1 off1 a Ht) as (Ht' & Hs' & Hqn' & Hqf').
    destruct (perform on1 a) as [on2 sent2].
    destruct (perform off1 a) as [off2 sent2'].
    cbn [fst snd] in *. subst. split; [done|]. split; [done|].
    split; [congruence|]. rewrite omap_app, Hqf', Hqf. by rewrite app_assoc.
Qed.

(** What a rejoin carries: the room, the identity and the watermark. *)
Definition ticket (st : client.State) : option string * string * string * Z :=
  (client.currentRoom st, client.playerId st, client.playerName st,
   client.lastEventTimestamp st).

Lemma ticket_continueDrawing st coords :
  ticket (client.continueDrawing st coords) = ticket st.
Proof. unfold client.continueDrawing. by destruct (client.freehand _). Qed.

Lemma ticket_moves st moves :
  ticket (foldl client.continueDrawing st moves) = ticket st.
Proof.
  revert st. induction moves as [|coords moves IH]; intros st; [done|].
  cbn [foldl]. by rewrite IH, ticket_continueDrawing.
Qed.

Lemma ticket_finishDrawing st coords :
  ticket (client.finishDrawing st coords).1 = ticket st.
Proof.
  unfold client.finishDrawing. cbv zeta.
  destruct (0 <? _)%nat; [|done].
  destruct (client.send _ _) as [[] sent]; done.
Qed.

Lemma ticket_perform st a : ticket (perform st a).1 = ticket st.
Proof.
  destruct a as [tool|color|size|start moves finish]; cbn [perform fst].
  - done.
  - unfold client.pickColor. by destruct (String.eqb _ _).
  - done.
  - destruct (client.startDrawing st start) as [st1 sent1] eqn:Hstart.
    assert (ticket st1 = ticket st) as <-.
    { change st1 with (st1, sent1).1. by rewrite <- Hstart. }
    rewrite <- (ticket_moves st1 moves).
    pose proof (ticket_finishDrawing (foldl client.continueDrawing st1 moves)
                  finish) as Hfinish.
    by destruct (client.finishDrawing _ finish).
Qed.

Lemma ticket_perform_all st acts : ticket (perform_all st acts).1 = ticket st.
Proof.
  induction acts as [|a acts IH] using rev_ind; [done|].
  unfold perform_all in *. rewrite foldl_app. cbn [foldl].
  destruct (foldl _ (st, []) acts) as [st1 sent1]. cbn [fst] in IH.
  rewrite <- IH, <- (ticket_perform st1 a). by destruct (perform st1 a).
Qed.

Lemma twins_open st :
  client.isOpen st = false → twins (client.set_isOpen true st) st.
Proof. intros Hoff. by destruct st. Qed.

(** X19. While the socket is closed the client sends nothing, and every
    stroke that would have gone out as a [draw] message had the socket
    been open is appended to the queue instead, in the same order and
    with the same points, colour, size and tool; with the socket open
    nothing is queued. When the socket opens again in a room, the client
    sends a [rejoin] with its room, identity and watermark, followed by
    one [queueReplay] with the whole queue when there is one, and the
    queue is empty afterwards. *)
Theorem offline_strokes_wait_in_queue st acts :
  client.isOpen st = false →
  let online := perform_all (client.set_isOpen true st) acts in
  let offline := perform_all st acts in
  let reopened := client.handleOpen offline.1 in
  offline.2 = []
  ∧ client.eventQueue online.1 = client.eventQueue st
  ∧ client.eventQueue offline.1
    = client.eventQueue st ++ omap queued_form online.2
  ∧ ∀ room,
      client.currentRoom st = Some room → room ≠ "" →
      client.eventQueue reopened.1 = []
      ∧ reopened.2
        = server.Rejoin room (client.playerId st) (client.playerName st)
            (Some (client.lastEventTimestamp st))
          :: match client.eventQueue offline.1 with
             | [] => []
             | queue => [server.QueueReplay (Some queue)]
             end.
Proof.
  intros Hoff. cbv zeta.
  destruct (twins_perform_all _ _ acts (twins_open st Hoff))
    as (_ & Hsent & Hqn & Hqf).
  split; [done|]. split; [done|]. split; [done|].
  intros room Hroom Hne. pose proof (ticket_perform_all st acts) as Hticket.
  unfold ticket in Hticket. injection Hticket as Hr Hid Hname Hmark.
  unfold client.handleOpen. cbv zeta.
  set (st1 := client.set_reconnectAttempts 0 _).
  assert (client.currentRoom st1 = Some room) as Hr1 by (cbn; congruence).
  assert (client.playerId st1 = client.playerId st) as Hid1 by done.
  assert (client.playerName st1 = client.playerName st) as Hname1 by done.
  assert (client.lastEventTimestamp st1 = client.lastEventTimestamp st)
    as Hmark1 by done.
  assert (client.eventQueue st1 = client.eventQueue (perform_all st acts).1)
    as Hq1 by done.
  assert (client.isOpen st1 = true) as Hopen by done.
  clearbody st1. rewrite Hr1. cbn [js.truthy].
  apply String.eqb_neq in Hne. rewrite Hne. cbn [negb].
  unfold client.rejoinRoom, client.send.
  rewrite Hopen, Hr1, Hid1, Hname1, Hmark1, Hq1. cbn [default snd].
  destruct (client.eventQueue (perform_all st acts).1) as [|e queue]; done.
Qed.

(** ** From the queue of a client to the log of the room *)

(** The server handles the messages a client wrote to connection [c], each
    at its time. *)
Definition deliver (st : server.State) (c : nat) (uuid : string)
    (sent : list (server.ClientMessage * Z)) : server.State :=
  foldl (λ st '(m, now), (server.step st (server.WsMessage c m now uuid)).1)
    st sent.

(** The row stored for a replayed stroke. *)
Definition stored_stroke (id : Z) (roomId playerId : string) (now : Z)
    (e : server.QueuedEvent) : db.DrawingRow :=
  {| db.ev_id := id; db.ev_room_id := roomId; db.ev_player_id := playerId;
     db.ev_event_type := "draw";
     db.ev_event_data :=
       {| db.points := server.qe_points e; db.color := server.qe_color e;
          db.size := server.qe_size e;
          db.tool := js.or_else (server.qe_tool e) "pen" |};
     db.ev_timestamp := js.or_else_num (server.qe_timestamp e) now |}.

Lemma store_draw_db st s ev now :
  server.st_db (server.store_draw st s ev now).1
  = db.addDrawingEvent (server.st_db st) (server.currentRoomId s)
      (de_playerId ev) (js.or_else (Some (de_type ev)) "draw")
      {| db.points := de_points ev; db.color := de_color ev;
         db.size := de_size ev; db.tool := de_tool ev |} (de_timestamp ev).
Proof.
  unfold server.store_draw, roomManager.addDrawingEvent.
  by destruct (roomManager.getActiveRoom _ _ _).
Qed.

Lemma replay_draws s now q :
  Forall (λ e, server.qe_type e = "draw") q →
  ∀ st sent,
    let d := server.st_db st in
    let d' := server.st_db (foldl (server.replay_one s now) (st, sent) q).1 in
    db.drawing_events d'
    = db.drawing_events d
      ++ imap (λ i e, stored_stroke
                        (db.drawing_events_seq d + 1 + Z.of_nat i)
                        (server.currentRoomId s) (server.playerId s) now e) q
    ∧ db.chat_messages d' = db.chat_messages d
    ∧ db.rooms d' = db.rooms d
    ∧ db.canvas_snapshots d' = db.canvas_snapshots d.
Proof.
  induction 1 as [|e q He Hq IH]; intros st sent; cbv zeta.
  - cbn [foldl imap fst]. by rewrite app_nil_r.
  - cbn [foldl]. rewrite replay_one_draw by done.
    specialize (IH (server.store_draw st s (replayed_draw s e now) now).1
                  (sent ++ (server.store_draw st s (replayed_draw s e now)
                              now).2)).
    cbv zeta in IH. destruct IH as (Hev & Hchat & Hrooms & Hsnap).
    split; [|split; [|split]].
    + etrans; [exact Hev|]. rewrite store_draw_db.
      cbn [db.drawing_events db.drawing_events_seq db.addDrawingEvent].
      rewrite <- app_assoc. f_equal. cbn [app imap]. f_equal.
      * unfold stored_stroke, replayed_draw. cbn.
        rewrite or_else_tool, or_else_num_stamp, Z.add_0_r. done.
      * apply imap_ext. intros i e' _. cbn. f_equal. lia.
    + etrans; [exact Hchat|]. by rewrite store_draw_db.
    + etrans; [exact Hrooms|]. by rewrite store_draw_db.
    + etrans; [exact Hsnap|]. by rewrite store_draw_db.
Qed.

Lemma conns_enter_room c st roomId pid pname missing reply isRejoin now :
  server.st_conns
    (server.enter_room c st roomId pid pname missing reply isRejoin now).1
  = server.st_conns st.
Proof.
  unfold server.enter_room. destruct (negb _); [done|].
  destruct (roomManager.addPlayer _ _ _ _ _) as [rm1 added].
  destruct (negb added); [done|].
  by destruct (roomManager.getRoomState _ _ _ _) as [rm2 rs].
Qed.

Lemma handleOpen_in_room st room :
  client.currentRoom st = Some room → room ≠ "" →
  client.eventQueue (client.handleOpen st).1 = []
  ∧ (client.handleOpen st).2
    = server.Rejoin room (client.playerId st) (client.playerName st)
        (Some (client.lastEventTimestamp st))
      :: match client.eventQueue st with
         | [] => []
         | queue => [server.QueueReplay (Some queue)]
         end.
Proof.
  intros Hroom Hne. unfold client.handleOpen. cbv zeta.
  set (st1 := client.set_reconnectAttempts 0 _).
  assert (client.currentRoom st1 = Some room) as Hr1 by done.
  assert (client.playerId st1 = client.playerId st) as Hid1 by done.
  assert (client.playerName st1 = client.playerName st) as Hname1 by done.
  assert (client.lastEventTimestamp st1 = client.lastEventTimestamp st)
    as Hmark1 by done.
  assert (client.eventQueue st1 = client.eventQueue st) as Hq1 by done.
  assert (client.isOpen st1 = true) as Hopen by done.
  clearbody st1. rewrite Hr1. cbn [js.truthy].
  apply String.eqb_neq in Hne. rewrite Hne. cbn [negb].
  unfold client.rejoinRoom, client.send.
  rewrite Hopen, Hr1, Hid1, Hname1, Hmark1, Hq1. cbn [default snd].
  destruct (client.eventQueue st) as [|e queue]; done.
Qed.

Lemma queued_form_draw sent :
  Forall (λ e, server.qe_type e = "draw") (omap queued_form sent).
Proof.
  apply Forall_forall. intros e (m & _ & Hm)%list_elem_of_omap.
  destruct m; try done. by injection Hm as <-.
Qed.

(** X20. Strokes drawn while the socket was closed reach the room. When
    the socket opens again and the server handles what the client then
    sends on an open connection, the drawing events of the database grow
    by one row for each stroke that would have gone out as a [draw]
    message had the socket been open: in the order drawn, in the client's
    room, under the client's player id, with the stroke's points, colour,
    size and tool, with consecutive ids, and all stamped with the time the
    replay was handled, since a queued stroke carries no timestamp. This
    does not depend on the rejoin being accepted. Nothing else in the
    database changes. *)
Theorem offline_strokes_reach_the_room cs acts st c conn t1 t2 uuid room :
  client.isOpen cs = false →
  client.eventQueue cs = [] →
  client.currentRoom cs = Some room →
  room ≠ "" →
  client.playerId cs ≠ "" →
  server.st_conns st !! c = Some conn →
  server.isOpen conn = true →
  let online := perform_all (client.set_isOpen true cs) acts in
  let reopened := client.handleOpen (perform_all cs acts).1 in
  let d := server.st_db st in
  let d' := server.st_db (deliver st c uuid (zip reopened.2 [t1; t2])) in
  db.drawing_events d'
  = db.drawing_events d
    ++ imap (λ i e, stored_stroke (db.drawing_events_seq d + 1 + Z.of_nat i)
                      room (client.playerId cs) t2 e)
         (omap queued_form online.2)
  ∧ Forall (λ e, server.qe_timestamp e = None) (omap queued_form online.2)
  ∧ db.chat_messages d' = db.chat_messages d
  ∧ db.rooms d' = db.rooms d
  ∧ db.canvas_snapshots d' = db.canvas_snapshots d.
Proof.
  intros Hoff Hempty Hroom Hne Hpid Hconn Hopen. cbv zeta.
  destruct (twins_perform_all _ _ acts (twins_open cs Hoff))
    as (_ & _ & _ & Hqueue).
  rewrite Hempty in Hqueue. cbn [app] in Hqueue.
  pose proof (ticket_perform_all cs acts) as Hticket.
  unfold ticket in Hticket. injection Hticket as Hr Hid Hname Hmark.
  destruct (handleOpen_in_room (perform_all cs acts).1 room)
    as [_ Hsent]; [congruence|done|].
  rewrite Hsent, Hqueue, Hid, Hname, Hmark.
  set (queue := omap queued_form _).
  assert (Forall (λ e, server.qe_timestamp e = None) queue) as Hstamps.
  { apply Forall_forall. intros e (m & _ & Hm)%list_elem_of_omap.
    destruct m; try done. by injection Hm as <-. }
  assert (Forall (λ e, server.qe_type e = "draw") queue) as Hdraws
    by apply queued_form_draw.
  set (s := {| server.playerId := client.playerId cs;
               server.playerName := client.playerName cs;
               server.currentRoomId := room |}).
  set (st1 := (server.step st
                 (server.WsMessage c
                    (server.Rejoin room (client.playerId cs)
                       (client.playerName cs)
                       (Some (client.lastEventTimestamp cs))) t1 uuid)).1).
  assert (server.st_db st1 = server.st_db st
          ∧ server.st_conns st1 !! c
            = Some {| server.session := Some s; server.isOpen := true |})
    as [Hdb1 Hconn1].
  { unfold st1, server.step. rewrite Hconn, Hopen.
    unfold server.handleMessage, server.handleRejoin.
    rewrite db_enter_room, conns_enter_room.
    unfold server.set_session, server.ws_open.
    cbn [server.st_db server.st_conns]. rewrite lookup_insert_eq, Hconn, Hopen.
    done. }
  clearbody queue. destruct queue as [|e rest] eqn:Hq.
  - cbn [zip zip_with deliver foldl imap]. fold st1.
    rewrite app_nil_r, Hdb1. done.
  - cbn [zip zip_with deliver foldl]. fold st1.
    assert (server.step st1
              (server.WsMessage c (server.QueueReplay (Some (e :: rest)))
                 t2 uuid)
            = foldl (server.replay_one s t2) (st1, []) (e :: rest)) as ->.
    { unfold server.step. rewrite Hconn1. cbn [server.isOpen].
      unfold server.handleMessage, server.handleQueueReplay.
      assert (server.attached
                {| server.session := Some s; server.isOpen := true |}
              = Some s) as ->; [|done].
      unfold server.attached. cbn [server.session s server.currentRoomId
                                    server.playerId js.truthy].
      apply String.eqb_neq in Hne, Hpid. by rewrite Hne, Hpid. }
    destruct (replay_draws s t2 (e :: rest)) with (st := st1)
      (sent := @nil (nat * server.ServerMessage))
      as (Hev & Hchat & Hrooms & Hsnap); [done|].
    rewrite <- Hdb1.
    split; [exact Hev|]. split; [done|].
    split; [exact Hchat|]. split; [exact Hrooms|exact Hsnap].
Qed.

(** ** The drawing indicator *)

Definition with_drawing (flag : bool) (p : roomManager.Player)
    : roomManager.Player :=
  {| roomManager.playerId := roomManager.playerId p;
     roomManager.playerName := roomManager.playerName p;
     roomManager.ws := roomManager.ws p;
     roomManager.isDrawing := flag |}.

Lemma seats_after_flag (players : list (string * roomManager.Player))
    playerId flag :
  NoDup (js.keys players) →
  Forall (λ e, e.1 = roomManager.playerId e.2) players →
  js.values
    (match js.get playerId players with
     | Some player => js.set playerId (with_drawing flag player) players
     | None => players
     end)
  = (λ p, if decide (roomManager.playerId p = playerId)
          then with_drawing flag p else p) <$> js.values players.
Proof.
  unfold js.keys, js.values.
  induction players as [|[k p] players IH]; [done|].
  rewrite !fmap_cons. cbn [fst snd]. intros [Hnotin Hnd]%NoDup_cons.
  intros [Hk Hkey]%Forall_cons. cbn [fst snd] in Hk. subst k.
  specialize (IH Hnd Hkey). cbn [js.get].
  destruct (decide (roomManager.playerId p = playerId)) as [Heq|Hne].
  - cbn [js.set]. rewrite decide_True by done. rewrite fmap_cons.
    cbn [snd]. f_equal. symmetry. etrans; [|apply list_fmap_id].
    apply Forall_fmap_ext_1. apply Forall_forall. intros p' Hp'.
    rewrite decide_False; [done|]. intros Heq'. apply Hnotin.
    apply list_elem_of_fmap in Hp' as (e & -> & He).
    apply list_elem_of_fmap. exists e. split; [|done].
    apply (proj1 (Forall_forall _ _) Hkey) in He. congruence.
  - destruct (js.get playerId players) as [player|] eqn:Hget.
    + cbn [js.set]. rewrite decide_False by done. rewrite fmap_cons.
      cbn [snd]. by rewrite IH.
    + rewrite fmap_cons. cbn [snd]. f_equal. exact IH.
Qed.

(** X21. A [drawStart] or [drawEnd] from an attached connection sets the
    drawing flag of the seat stored under the connection's player id, in
    the connection's room, and changes no other seat, no other room and
    nothing in the database; when the player has no seat there, nothing
    changes. The indicator is forwarded to the open connections of the
    other players of the room and not to the player's own seat. *)
Theorem draw_indicator_marks_one_seat st c conn s (flag : bool) now uuid :
  server.reachable st →
  server.st_conns st !! c = Some conn →
  server.isOpen conn = true →
  server.attached conn = Some s →
  let m := if flag then server.DrawStart else server.DrawEnd in
  let result := server.step st (server.WsMessage c m now uuid) in
  let roomId := server.currentRoomId s in
  roomManager.getPlayersInRoom (server.st_roomManager result.1) roomId
  = (λ p, if decide (roomManager.playerId p = server.playerId s)
          then with_drawing flag p else p)
    <$> roomManager.getPlayersInRoom (server.st_roomManager st) roomId
  ∧ (∀ r, r ≠ roomId →
       roomManager.activeRooms (server.st_roomManager result.1) !! r
       = roomManager.activeRooms (server.st_roomManager st) !! r)
  ∧ server.st_db result.1 = server.st_db st
  ∧ server.st_conns result.1 = server.st_conns st
  ∧ ∀ c' m',
      (c', m') ∈ result.2 ↔
      m' = server.drawIndicator flag (server.playerId s) (server.playerName s)
      ∧ server.ws_open st c' = true
      ∧ ∃ p, p ∈ roomManager.getPlayersInRoom (server.st_roomManager st)
                   roomId
             ∧ roomManager.ws p = c'
             ∧ roomManager.playerId p ≠ server.playerId s.
Proof.
  intros Hreach Hconn Hopen Hatt. cbv zeta.
  pose proof (seats_ok_reachable st Hreach) as Hseats.
  assert (server.step st
            (server.WsMessage c
               (if flag then server.DrawStart else server.DrawEnd) now uuid)
          = server.handleDrawIndicator conn st flag) as ->.
  { unfold server.step. rewrite Hconn, Hopen. by destruct flag. }
  unfold server.handleDrawIndicator. rewrite Hatt.
  cbn [fst snd]. unfold server.with_manager.
  cbn [server.st_db server.st_roomManager server.st_conns].
  set (rm := server.st_roomManager st).
  set (rm' := roomManager.setPlayerDrawing rm _ _ _).
  assert (roomManager.getPlayersInRoom rm' (server.currentRoomId s)
          = (λ p, if decide (roomManager.playerId p = server.playerId s)
                  then with_drawing flag p else p)
            <$> roomManager.getPlayersInRoom rm (server.currentRoomId s))
    as Hplayers.
  { unfold rm', roomManager.setPlayerDrawing, roomManager.getPlayersInRoom.
    destruct (roomManager.activeRooms rm !! server.currentRoomId s)
      as [activeRoom|] eqn:Hlook; [|by rewrite Hlook].
    destruct (Hseats _ _ Hlook) as (Hnd & Hkey & _).
    rewrite <- (seats_after_flag _ _ flag Hnd Hkey).
    destruct (js.get _ _) as [player|]; [|by rewrite Hlook].
    cbn [roomManager.activeRooms]. by rewrite lookup_insert_eq. }
  split; [exact Hplayers|]. split; [|split; [done|split; [done|]]].
  - intros r Hne. unfold rm', roomManager.setPlayerDrawing.
    destruct (roomManager.activeRooms rm !! server.currentRoomId s)
      as [activeRoom|]; [|done].
    destruct (js.get _ _); [|done].
    cbn [roomManager.activeRooms]. by rewrite lookup_insert_ne.
  - intros c' m'. rewrite elem_of_broadcastToRoom.
    unfold server.ws_open. cbn [server.st_conns server.st_roomManager].
    rewrite Hplayers. split.
    + intros (-> & Hws & p & Hp & Hc & Hother). split; [done|].
      split; [done|].
      apply list_elem_of_fmap in Hp as (p0 & -> & Hp0).
      exists p0. split; [done|].
      destruct (decide (roomManager.playerId p0 = server.playerId s))
        as [Heq|Hne].
      * exfalso. apply Hother. cbn. by rewrite Heq.
      * split; [done|done].
    + intros (-> & Hws & p & Hp & Hc & Hother). split; [done|].
      split; [done|]. exists p. split.
      * apply list_elem_of_fmap. exists p. split; [|done].
        by rewrite decide_False.
      * split; [done|]. congruence.
Qed.

(** ** Clearing the chat history *)

(** X22. [clearChatHistory] leaves a room without chat history and takes
    nothing else away: the histories of the other rooms, the rooms, the
    drawing events and the snapshots read as before. *)
Theorem clearChatHistory_then_getChatHistory d roomId :
  let d' := db.clearChatHistory d roomId in
  (∀ limit, db.getChatHistory d' roomId limit = [])
  ∧ (∀ r limit, r ≠ roomId →
       db.getChatHistory d' r limit = db.getChatHistory d r limit)
  ∧ (∀ r, db.getRoom d' r = db.getRoom d r
          ∧ db.getCanvasSnapshot d' r = db.getCanvasSnapshot d r
          ∧ ∀ since, db.getDrawingEvents d' r since
                     = db.getDrawingEvents d r since).
Proof.
  cbv zeta. split; [|split].
  - intros limit. unfold db.getChatHistory, db.chat_history_rows.
    cbn [db.chat_messages db.clearChatHistory].
    rewrite filter_none; [by destruct limit|]. apply Forall_forall.
    by intros row [Hne _]%list_elem_of_filter.
  - intros r limit Hne. unfold db.getChatHistory, db.chat_history_rows.
    cbn [db.chat_messages db.clearChatHistory].
    by rewrite filter_filter_other by (intros a; congruence).
  - done.
Qed.

(** ** Joining, seen from both sides *)

Lemma join_reply st c conn roomId pid pname now uuid room :
  server.reachable st →
  server.st_conns st !! c = Some conn →
  server.isOpen conn = true →
  db.getRoom (server.st_db st) roomId = Some room →
  roomManager.getActivePlayerCount (server.st_roomManager st) roomId < 4 →
  let playerId := js.or_else pid uuid in
  let playerName := js.or_else pname ("Player " +:+ js.slice0 4 playerId) in
  let result :=
    server.step st (server.WsMessage c (server.Join roomId pid pname) now uuid)
  in
  ∃ rs,
    head result.2 = Some (c, server.roomState (Some rs) playerId playerName)
    ∧ roomManager.activePlayers rs
      = shown <$> roomManager.getPlayersInRoom
                    (server.st_roomManager result.1) roomId
    ∧ roomManager.chatHistory rs
      = db.getChatHistory (server.st_db result.1) roomId
          roomManager.MAX_CHAT_HISTORY
    ∧ session_of result.1 c
      = Some {| server.playerId := playerId;
                server.playerName := playerName;
                server.currentRoomId := roomId |}
    ∧ {| roomManager.playerId := playerId;
         roomManager.playerName := playerName;
         roomManager.ws := c; roomManager.isDrawing := false |}
      ∈ roomManager.getPlayersInRoom (server.st_roomManager result.1) roomId.
Proof.
  intros Hreach Hconn Hopen Hroom Hfree playerId playerName.
  pose proof (directory_ok_reachable st Hreach) as (_ & Hmax & _).
  assert (roomManager.maxPlayers_of room = 4) as Hfour.
  { apply getRoom_elem_of in Hroom as Hin.
    apply (proj1 (Forall_forall _ _) Hmax) in Hin as [Hin _].
    unfold roomManager.maxPlayers_of. by rewrite Hin. }
  cbv zeta. unfold server.step. rewrite Hconn, Hopen.
  unfold server.handleMessage, server.handleJoin. fold playerId playerName.
  unfold server.enter_room.
  set (seat := {| roomManager.playerId := playerId;
                  roomManager.playerName := playerName;
                  roomManager.ws := c; roomManager.isDrawing := false |}).
  set (st1 := server.set_session st c _).
  change (server.st_db st1) with (server.st_db st).
  change (server.st_roomManager st1) with (server.st_roomManager st).
  unfold roomManager.roomExists. rewrite Hroom. cbn [negb].
  destruct (addPlayer_seats (server.st_db st) (server.st_roomManager st)
              roomId seat now room Hroom)
    as (Hadded & (activeRoom & Hlook & Hplayers) & _);
    [by rewrite Hfour|].
  destruct (roomManager.addPlayer _ _ roomId seat now) as [rm1 added].
  cbn [fst snd] in *. subst added. cbn [negb].
  unfold roomManager.getRoomState. rewrite Hroom.
  unfold roomManager.getActiveRoom. rewrite Hlook. cbn [fst snd].
  unfold server.with_manager, session_of.
  cbn [server.st_roomManager server.st_db server.st_conns head].
  eexists. split; [done|].
  cbn [roomManager.activePlayers roomManager.chatHistory].
  split; [|split; [done|split]].
  - unfold roomManager.getPlayersInRoom. by rewrite Hlook.
  - unfold st1, server.set_session. cbn [server.st_conns].
    by rewrite lookup_insert_eq.
  - unfold roomManager.getPlayersInRoom. rewrite Hlook, Hplayers.
    eapply map_get_values. apply map_get_set_eq.
Qed.


(** X23. A join, seen from both sides. The client asks to join with its
    id and name; the server, in a reachable state, for a room that exists
    and has a free seat, answers first with the room state; when the
    client has handled that answer, it uses the identity the server keeps
    for the connection (its own id, or a fresh one when that was empty),
    it lists exactly the players the server has seated in the room, itself
    included, its chat log is the chat history of the room, its queue is
    empty and its watermark is 0. *)
Theorem join_round_trip cs st c conn roomId now uuid room later :
  server.reachable st →
  server.st_conns st !! c = Some conn →
  server.isOpen conn = true →
  db.getRoom (server.st_db st) roomId = Some room →
  roomManager.getActivePlayerCount (server.st_roomManager st) roomId < 4 →
  client.isOpen cs = true →
  let joining := client.joinRoom cs roomId in
  ∃ request reply,
    joining.2 = [request]
    ∧ let result := server.step st (server.WsMessage c request now uuid) in
      let cs' := client.handleMessage joining.1 reply later in
      head result.2 = Some (c, reply)
      ∧ session_of result.1 c
        = Some {| server.playerId := client.playerId cs';
                  server.playerName := client.playerName cs';
                  server.currentRoomId := roomId |}
      ∧ client.playerId cs' = js.or_else (Some (client.playerId cs)) uuid
      ∧ client.currentRoom cs' = Some roomId
      ∧ client.activePlayers cs'
        = shown <$> roomManager.getPlayersInRoom
                      (server.st_roomManager result.1) roomId
      ∧ client.playerId cs'
        ∈ roomManager.pi_playerId <$> client.activePlayers cs'
      ∧ client.messages cs'
        = client.chat_entry
          <$> db.getChatHistory (server.st_db result.1) roomId 50
      ∧ client.eventQueue cs' = []
      ∧ client.lastEventTimestamp cs' = 0.
Proof.
  intros Hreach Hconn Hopen Hroom Hfree Hup. cbv zeta.
  destruct (join_reply st c conn roomId (Some (client.playerId cs))
              (Some (client.playerName cs)) now uuid room
              Hreach Hconn Hopen Hroom Hfree)
    as (rs & Hhead & Hplayers & Hchat & Hsession & Hseat).
  eexists _, _. split.
  { unfold client.joinRoom, client.send. cbn. rewrite Hup. done. }
  split; [exact Hhead|]. cbn.
  split; [exact Hsession|]. split; [done|]. split; [done|].
  split; [exact Hplayers|]. split; [|split; [by rewrite Hchat|done]].
  rewrite Hplayers, <- list_fmap_compose. apply list_elem_of_fmap.
  eexists. split; [|exact Hseat]. done.
Qed.

(** ** Reading a colour *)

(** A colour written the way the palette of the page writes it: two
    hexadecimal digits per component. *)
Definition hex_char (upper : bool) (d : Z) : Ascii.ascii :=
  Ascii.ascii_of_nat
    (Z.to_nat (if d <? 10 then 48 + d else if upper then 55 + d else 87 + d)).

Definition two_hex (upper : bool) (n : Z) : string :=
  String (hex_char upper (n / 16)) (String (hex_char upper (n mod 16)) "").

Lemma hex_digit_char upper d :
  0 ≤ d < 16 → client.hex_digit (hex_char upper d) = Some d.
Proof.
  intros Hd.
  assert (d = 0 ∨ d = 1 ∨ d = 2 ∨ d = 3 ∨ d = 4 ∨ d = 5 ∨ d = 6 ∨ d = 7
          ∨ d = 8 ∨ d = 9 ∨ d = 10 ∨ d = 11 ∨ d = 12 ∨ d = 13 ∨ d = 14
          ∨ d = 15) as Hcases by lia.
  destruct upper;
    repeat (destruct Hcases as [->|Hcases]; [vm_compute; reflexivity|]);
    subst d; vm_compute; reflexivity.
Qed.

Lemma hex_pair_two upper n :
  0 ≤ n ≤ 255 →
  client.hex_pair (hex_char upper (n / 16)) (hex_char upper (n mod 16))
  = Some n.
Proof.
  intros Hn. unfold client.hex_pair.
  rewrite !hex_digit_char.
  - f_equal. pose proof (Z.div_mod n 16). lia.
  - apply Z.mod_pos_bound. lia.
  - split; [apply Z.div_pos; lia|]. apply Z.div_lt_upper_bound; lia.
Qed.

Lemma hex_char_not_hash upper d :
  0 ≤ d < 16 → Nat.eqb (Ascii.nat_of_ascii (hex_char upper d)) 35 = false.
Proof.
  intros Hd.
  assert (d = 0 ∨ d = 1 ∨ d = 2 ∨ d = 3 ∨ d = 4 ∨ d = 5 ∨ d = 6 ∨ d = 7
          ∨ d = 8 ∨ d = 9 ∨ d = 10 ∨ d = 11 ∨ d = 12 ∨ d = 13 ∨ d = 14
          ∨ d = 15) as Hcases by lia.
  destruct upper;
    repeat (destruct Hcases as [->|Hcases]; [vm_compute; reflexivity|]);
    subst d; vm_compute; reflexivity.
Qed.

Lemma append_String c (s t : string) : String c s +:+ t = String c (s +:+ t).
Proof. reflexivity. Qed.

Lemma append_empty (t : string) : "" +:+ t = t.
Proof. reflexivity. Qed.

(** X25. [hexToRgb] reads back a colour written with two hexadecimal
    digits per component, in lower or upper case and with or without the
    leading [#]; whatever it is given, it answers a colour whose three
    components are numbers between 0 and 255; a string of neither six nor
    seven characters is read as black, and so is a [#] followed by more or
    fewer than six characters. *)
Theorem hexToRgb_reads_colours r g b (upper hash : bool) :
  0 ≤ r ≤ 255 → 0 ≤ g ≤ 255 → 0 ≤ b ≤ 255 →
  client.hexToRgb
    ((if hash then "#" else "")
     +:+ two_hex upper r +:+ two_hex upper g +:+ two_hex upper b)
  = {| client.r := Some r; client.g := Some g; client.b := Some b |}
  ∧ (∀ hex, opaque_colour (client.hexToRgb hex))
  ∧ ∀ hex,
      (String.length hex ≠ 6%nat → String.length hex ≠ 7%nat →
       client.hexToRgb hex = client.black)
      ∧ (String.length hex ≠ 6%nat →
         client.hexToRgb ("#" +:+ hex) = client.black).
Proof.
  intros Hr Hg Hb. split; [|split; [apply hexToRgb_range|]].
  - unfold client.hexToRgb, two_hex.
    destruct hash; rewrite ?append_String, ?append_empty.
    + match goal with
      | |- context [Nat.eqb ?n 35] => change (Nat.eqb n 35) with true
      end.
      cbn [String.list_ascii_of_string].
      by rewrite !hex_pair_two.
    + rewrite hex_char_not_hash.
      * cbn [String.list_ascii_of_string]. by rewrite !hex_pair_two.
      * split; [apply Z.div_pos; lia|]. apply Z.div_lt_upper_bound; lia.
  - intros hex.
    assert (∀ digits,
              String.length digits ≠ 6%nat →
              match String.list_ascii_of_string digits with
              | [r1; r2; g1; g2; b1; b2] =>
                  match client.hex_pair r1 r2, client.hex_pair g1 g2,
                        client.hex_pair b1 b2 with
                  | Some r, Some g, Some b =>
                      {| client.r := Some r; client.g := Some g;
                         client.b := Some b |}
                  | _, _, _ => client.black
                  end
              | _ => client.black
              end = client.black) as Hshort.
    { intros digits Hd.
      destruct digits as [|c1 [|c2 [|c3 [|c4 [|c5 [|c6 [|c7 rest]]]]]]];
        try done. }
    split.
    + intros Hsix Hseven. unfold client.hexToRgb.
      destruct hex as [|c rest]; [done|].
      destruct (Nat.eqb _ 35); [|by apply Hshort].
      apply Hshort. cbn [String.length] in Hseven. lia.
    + intros Hsix. unfold client.hexToRgb.
      rewrite ?append_String, ?append_empty.
      match goal with
      | |- context [Nat.eqb ?n 35] => change (Nat.eqb n 35) with true
      end.
      by apply Hshort.
Qed.

(** ** What the members of a room see *)

(** What connection [b] receives of what a step sends. *)
Definition inbox (b : nat) (sent : list (nat * server.ServerMessage))
    : list server.ServerMessage :=
  (λ x, x.2) <$> filter (λ x, x.1 = b) sent.

(** The client handles what arrived, in order. *)
Definition receive (cs : client.State) (arrived : list server.ServerMessage)
    (now : Z) : client.State :=
  foldl (λ cs m, client.handleMessage cs m now) cs arrived.

Lemma filter_unique {A} (P : A → Prop) `{!∀ a, Decision (P a)} (l : list A)
    (x : A) :
  NoDup l → x ∈ l → P x → (∀ y, y ∈ l → P y → y = x) → filter P l = [x].
Proof.
  induction l as [|a l IH]; [by intros _ ?%elem_of_nil|].
  intros [Hnotin Hnd]%NoDup_cons Hin HP Hone. rewrite filter_cons.
  apply elem_of_cons in Hin as [<-|Hin].
  - rewrite decide_True by done. f_equal. apply filter_none.
    apply Forall_forall. intros y Hy HPy.
    assert (y = x) as -> by (apply Hone; [apply elem_of_cons; by right|done]).
    done.
  - rewrite decide_False.
    + apply IH; [done|done|done|]. intros y Hy. apply Hone.
      apply elem_of_cons. by right.
    + intros HPa.
      assert (a = x) as -> by (apply Hone; [apply elem_of_cons; by left|done]).
      done.
Qed.

Lemma inbox_broadcast st roomId msg exclude b me :
  NoDup (roomManager.getPlayersInRoom (server.st_roomManager st) roomId) →
  me ∈ roomManager.getPlayersInRoom (server.st_roomManager st) roomId →
  roomManager.ws me = b →
  (∀ p, p ∈ roomManager.getPlayersInRoom (server.st_roomManager st) roomId →
        roomManager.ws p = b → p = me) →
  Some (roomManager.playerId me) ≠ exclude →
  server.ws_open st b = true →
  inbox b (server.broadcastToRoom st roomId msg exclude) = [msg].
Proof.
  intros Hnd Hme Hws Hone Hother Hopen. unfold inbox, server.broadcastToRoom.
  rewrite filter_fmap, <- list_fmap_compose, list_filter_filter.
  rewrite (filter_unique _ _ me); [done|done|done| |].
  - cbn. by rewrite Hws.
  - intros p Hp [Hb _]. by apply Hone.
Qed.

Lemma shown_filter pid (players : list roomManager.Player) :
  filter (λ p, roomManager.pi_playerId p ≠ pid) (shown <$> players)
  = shown <$> filter (λ p, roomManager.playerId p ≠ pid) players.
Proof. by rewrite filter_fmap. Qed.

Lemma mark_drawing_shown pid flag (players : list roomManager.Player) :
  NoDup (roomManager.playerId <$> players) →
  client.mark_drawing pid flag (shown <$> players)
  = shown <$> ((λ p, if decide (roomManager.playerId p = pid)
                     then with_drawing flag p else p) <$> players).
Proof.
  induction players as [|p players IH]; [done|].
  rewrite !fmap_cons. intros [Hnotin Hnd]%NoDup_cons.
  cbn [client.mark_drawing shown roomManager.pi_playerId].
  destruct (String.eqb (roomManager.playerId p) pid) eqn:Heq.
  - apply String.eqb_eq in Heq. rewrite decide_True by done.
    f_equal. f_equal. symmetry. etrans; [|apply list_fmap_id].
    apply Forall_fmap_ext_1. apply Forall_forall. intros p' Hp'.
    rewrite decide_False; [done|]. intros Heq'. apply Hnotin.
    rewrite Heq, <- Heq'. apply list_elem_of_fmap. by exists p'.
  - apply String.eqb_neq in Heq. rewrite decide_False by done.
    f_equal. by apply IH.
Qed.

Lemma activePlayers_handleMessage cs m now :
  client.activePlayers (client.handleMessage cs m now)
  = match m with
    | server.roomState rs _ _ | server.rejoinState rs _ _ _ =>
        client.state_players rs
    | server.userJoined pid pname _ _ =>
        client.activePlayers cs
        ++ [ {| roomManager.pi_playerId := pid;
                roomManager.pi_playerName := pname;
                roomManager.pi_isDrawing := false |} ]
    | server.userLeft pid _ _ =>
        filter (λ p, roomManager.pi_playerId p ≠ pid)
          (client.activePlayers cs)
    | server.drawIndicator flag pid _ =>
        client.mark_drawing pid flag (client.activePlayers cs)
    | _ => client.activePlayers cs
    end.
Proof.
  unfold client.handleMessage. destruct (js.truthy_num _); by destruct m.
Qed.

(** What happens in a room, on a connection [c]. *)
Inductive Happening :=
| NewPlayer (pid pname : option string)
| Leaving
| Indicator (flag : bool).

Definition event_of (h : Happening) (c : nat) (roomId : string) (now : Z)
    (uuid : string) : server.Event :=
  match h with
  | NewPlayer pid pname =>
      server.WsMessage c (server.Join roomId pid pname) now uuid
  | Leaving => server.WsClose c now
  | Indicator flag =>
      server.WsMessage c (if flag then server.DrawStart else server.DrawEnd)
        now uuid
  end.

(** The happening comes from somebody else than the member [me]: a new
    player takes a free seat of the room under an id that has no seat
    there; a player who leaves or draws is attached to the room under
    another id than the member's. *)
Definition from_another (st : server.State) (conn : server.Conn)
    (roomId uuid : string) (me : roomManager.Player) (h : Happening) : Prop :=
  match h with
  | NewPlayer pid pname =>
      (∃ room, db.getRoom (server.st_db st) roomId = Some room)
      ∧ roomManager.getActivePlayerCount (server.st_roomManager st) roomId < 4
      ∧ js.or_else pid uuid
        ∉ roomManager.playerId
          <$> roomManager.getPlayersInRoom (server.st_roomManager st) roomId
  | Leaving | Indicator _ =>
      ∃ s, server.attached conn = Some s
           ∧ server.currentRoomId s = roomId
           ∧ server.playerId s ≠ roomManager.playerId me
  end.

Lemma join_outcome st c conn roomId pid pname now uuid room :
  server.reachable st →
  server.st_conns st !! c = Some conn →
  server.isOpen conn = true →
  db.getRoom (server.st_db st) roomId = Some room →
  roomManager.getActivePlayerCount (server.st_roomManager st) roomId < 4 →
  let playerId := js.or_else pid uuid in
  let playerName := js.or_else pname ("Player " +:+ js.slice0 4 playerId) in
  let seat := {| roomManager.playerId := playerId;
                 roomManager.playerName := playerName;
                 roomManager.ws := c; roomManager.isDrawing := false |} in
  let result :=
    server.step st (server.WsMessage c (server.Join roomId pid pname) now uuid)
  in
  (∃ reply,
     result.2
     = (c, reply)
       :: server.broadcastToRoom result.1 roomId
            (server.userJoined playerId playerName false now) (Some playerId))
  ∧ roomManager.getPlayersInRoom (server.st_roomManager result.1) roomId
    = js.values (js.set playerId seat
                   (players_of (server.st_roomManager st) roomId))
  ∧ ∀ c', server.ws_open result.1 c' = server.ws_open st c'.
Proof.
  intros Hreach Hconn Hopen Hroom Hfree playerId playerName seat.
  pose proof (directory_ok_reachable st Hreach) as (_ & Hmax & _).
  assert (roomManager.maxPlayers_of room = 4) as Hfour.
  { apply getRoom_elem_of in Hroom as Hin.
    apply (proj1 (Forall_forall _ _) Hmax) in Hin as [Hin _].
    unfold roomManager.maxPlayers_of. by rewrite Hin. }
  cbv zeta. unfold server.step. rewrite Hconn, Hopen.
  unfold server.handleMessage, server.handleJoin. fold playerId playerName.
  unfold server.enter_room. fold seat.
  set (st1 := server.set_session st c _).
  change (server.st_db st1) with (server.st_db st).
  change (server.st_roomManager st1) with (server.st_roomManager st).
  unfold roomManager.roomExists. rewrite Hroom. cbn [negb].
  destruct (addPlayer_seats (server.st_db st) (server.st_roomManager st)
              roomId seat now room Hroom)
    as (Hadded & (activeRoom & Hlook & Hplayers) & _);
    [by rewrite Hfour|].
  destruct (roomManager.addPlayer _ _ roomId seat now) as [rm1 added].
  cbn [fst snd] in *. subst added. cbn [negb].
  unfold roomManager.getRoomState. rewrite Hroom.
  unfold roomManager.getActiveRoom. rewrite Hlook. cbn [fst snd].
  split; [by eexists|]. split.
  - unfold server.with_manager. cbn [server.st_roomManager].
    unfold roomManager.getPlayersInRoom. by rewrite Hlook, Hplayers.
  - intros c'. unfold server.with_manager, server.ws_open.
    cbn [server.st_conns]. unfold st1, server.set_session.
    cbn [server.st_conns].
    destruct (decide (c = c')) as [<-|Hne].
    + rewrite lookup_insert_eq. cbn [server.isOpen].
      unfold server.ws_open. done.
    + by rewrite lookup_insert_ne.
Qed.

(** X24. What a member of a room sees of the others follows the room.
    Take a client whose list of players is the list the server holds for
    its room, and whose connection is open and holds this one seat of the
    room. When, on another open connection, a new player takes a free seat
    of the room under an id not seated there, or a player attached to the
    room under another id leaves, or starts or stops drawing, the server
    sends the member exactly one message, and once the client has handled
    it, its list is again the list the server holds. *)
Theorem members_see_the_room cs st b c conn roomId me h now uuid later :
  server.reachable st →
  client.activePlayers cs
  = shown <$> roomManager.getPlayersInRoom (server.st_roomManager st) roomId →
  me ∈ roomManager.getPlayersInRoom (server.st_roomManager st) roomId →
  roomManager.ws me = b →
  (∀ p, p ∈ roomManager.getPlayersInRoom (server.st_roomManager st) roomId →
        roomManager.ws p = b → p = me) →
  server.ws_open st b = true →
  c ≠ b →
  server.st_conns st !! c = Some conn →
  server.isOpen conn = true →
  from_another st conn roomId uuid me h →
  let result := server.step st (event_of h c roomId now uuid) in
  length (inbox b result.2) = 1%nat
  ∧ client.activePlayers (receive cs (inbox b result.2) later)
    = shown <$> roomManager.getPlayersInRoom
                  (server.st_roomManager result.1) roomId.
Proof.
  intros Hreach Hmirror Hme Hws Hone Hopen Hcb Hconn Hcopen Hfrom. cbv zeta.
  pose proof (seats_ok_reachable st Hreach) as Hseats.
  assert (NoDup (roomManager.playerId
                 <$> roomManager.getPlayersInRoom (server.st_roomManager st)
                       roomId)
          ∧ NoDup (js.keys (players_of (server.st_roomManager st) roomId))
          ∧ Forall (λ e, e.1 = roomManager.playerId e.2)
              (players_of (server.st_roomManager st) roomId))
    as (Hids & Hnd & Hkey).
  { rewrite getPlayersInRoom_players_of. unfold players_of.
    destruct (roomManager.activeRooms _ !! roomId) as [activeRoom|] eqn:Hlook.
    - destruct (Hseats _ _ Hlook) as (Hnd & Hkey & _).
      split; [|done]. unfold js.keys, js.values in *.
      rewrite <- list_fmap_compose.
      erewrite (Forall_fmap_ext_1 _ fst); [done|].
      eapply Forall_impl; [exact Hkey|]. by intros e ->.
    - split; [constructor|]. split; constructor. }
  destruct h as [pid pname| |flag]; cbn [event_of from_another] in *.
  - destruct Hfrom as ([room Hroom] & Hfree & Hnew).
    destruct (join_outcome st c conn roomId pid pname now uuid room
                Hreach Hconn Hcopen Hroom Hfree)
      as ([reply Hsent] & Hafter & Hsame).
    set (result := server.step st _) in *.
    assert (roomManager.getPlayersInRoom (server.st_roomManager result.1)
              roomId
            = roomManager.getPlayersInRoom (server.st_roomManager st) roomId
              ++ [ {| roomManager.playerId := js.or_else pid uuid;
                      roomManager.playerName :=
                        js.or_else pname
                          ("Player " +:+ js.slice0 4 (js.or_else pid uuid));
                      roomManager.ws := c;
                      roomManager.isDrawing := false |} ]) as Hjoined.
    { rewrite Hafter. cbv zeta.
      match goal with
      | |- js.values (js.set _ ?seat _) = _ =>
          etrans; [exact (seats_after_set _ seat Hnd Hkey)|]
      end.
      cbn [roomManager.playerId]. rewrite <- !getPlayersInRoom_players_of.
      by rewrite decide_False. }
    rewrite Hjoined.
    assert (inbox b result.2
            = [server.userJoined (js.or_else pid uuid)
                 (js.or_else pname
                    ("Player " +:+ js.slice0 4 (js.or_else pid uuid)))
                 false now]) as ->.
    { rewrite Hsent. unfold inbox. rewrite filter_cons_False by done.
      apply (inbox_broadcast _ _ _ _ _ me).
      - rewrite Hjoined.
        apply NoDup_app. split; [by eapply NoDup_fmap_1|].
        split; [|apply NoDup_singleton].
        intros p Hp ->%list_elem_of_singleton. apply Hnew.
        apply list_elem_of_fmap. eexists. split; [|exact Hp]. done.
      - rewrite Hjoined. apply elem_of_app. by left.
      - done.
      - intros p. rewrite Hjoined.
        intros [Hp|Hp%list_elem_of_singleton]%elem_of_app Hb;
          [by apply Hone|]. subst p. cbn in Hb. congruence.
      - intros [= Heq]. apply Hnew. rewrite <- Heq.
        apply list_elem_of_fmap. eexists. split; [|exact Hme]. done.
      - by rewrite Hsame. }
    split; [done|]. cbn [receive foldl].
    rewrite activePlayers_handleMessage, Hmirror, fmap_app. done.
  - destruct Hfrom as (s & Hatt & <- & Hother).
    unfold server.step. rewrite Hconn, Hcopen. unfold server.handleClose.
    rewrite Hatt. cbn [server.st_db server.st_roomManager].
    unfold roomManager.removePlayer.
    assert (∃ st1,
              server.ws_open st1 b = true
              ∧ roomManager.getPlayersInRoom (server.st_roomManager st1)
                  (server.currentRoomId s)
                = filter (λ p, roomManager.playerId p ≠ server.playerId s)
                    (roomManager.getPlayersInRoom (server.st_roomManager st)
                       (server.currentRoomId s))
              ∧ (let '(rm, _) :=
                   match roomManager.activeRooms (server.st_roomManager st)
                         !! server.currentRoomId s with
                   | Some activeRoom =>
                       let '(players', removed) :=
                         js.delete (server.playerId s)
                           (roomManager.players activeRoom) in
                       let touch :=
                         removed && (js.size players' =? 0)
                         && match db.getRoom (server.st_db st)
                                    (server.currentRoomId s) with
                            | Some room => db.room_is_custom room =? 1
                            | None => false
                            end in
                       ({| roomManager.activeRooms :=
                             <[server.currentRoomId s :=
                                 {| roomManager.players := players';
                                    roomManager.drawingEventsCache :=
                                      roomManager.drawingEventsCache
                                        activeRoom;
                                    roomManager.lastActivity :=
                                      if touch then now
                                      else roomManager.lastActivity
                                             activeRoom |}]>
                               (roomManager.activeRooms
                                  (server.st_roomManager st)) |}, removed)
                   | None => (server.st_roomManager st, false)
                   end in
                 server.with_manager
                   {| server.st_db := server.st_db st;
                      server.st_roomManager := server.st_roomManager st;
                      server.st_conns :=
                        <[c := {| server.session := server.session conn;
                                  server.isOpen := false |}]>
                          (server.st_conns st) |} rm) = st1)
      as (st1 & Hopen1 & Hafter & Hst1).
    { destruct (roomManager.activeRooms (server.st_roomManager st)
                !! server.currentRoomId s) as [activeRoom|] eqn:Hlook.
      - destruct (Hseats _ _ Hlook) as (Hnd' & Hkey' & _).
        pose proof (seats_after_delete (roomManager.players activeRoom)
                      (server.playerId s) Hnd' Hkey') as Hdel.
        destruct (js.delete (server.playerId s)
                    (roomManager.players activeRoom)) as [players' removed].
        eexists. split; [|split; [|done]].
        + unfold server.with_manager, server.ws_open. cbn [server.st_conns].
          rewrite lookup_insert_ne by done. exact Hopen.
        + unfold server.with_manager. cbn [server.st_roomManager].
          unfold roomManager.getPlayersInRoom. cbn [roomManager.activeRooms].
          by rewrite lookup_insert_eq, Hlook.
      - eexists. split; [|split; [|done]].
        + unfold server.with_manager, server.ws_open. cbn [server.st_conns].
          rewrite lookup_insert_ne by done. exact Hopen.
        + unfold server.with_manager. cbn [server.st_roomManager].
          unfold roomManager.getPlayersInRoom. by rewrite Hlook. }
    cbv zeta in Hst1.
    destruct (match roomManager.activeRooms (server.st_roomManager st)
                    !! server.currentRoomId s with
              | Some _ => _ | None => _ end) as [rm removed].
    subst st1. cbn [fst snd]. rewrite Hafter.
    assert (me ∈ filter (λ p, roomManager.playerId p ≠ server.playerId s)
                   (roomManager.getPlayersInRoom (server.st_roomManager st)
                      (server.currentRoomId s))) as Hme'.
    { apply list_elem_of_filter. split; [congruence|done]. }
    rewrite (inbox_broadcast _ _ _ _ _ me).
    + split; [done|]. cbn [receive foldl].
      rewrite activePlayers_handleMessage, Hmirror. apply shown_filter.
    + rewrite Hafter. apply NoDup_filter. by eapply NoDup_fmap_1.
    + by rewrite Hafter.
    + done.
    + intros p. rewrite Hafter. intros [_ Hp]%list_elem_of_filter.
      by apply Hone.
    + intros [= Heq]. by apply Hother.
    + done.
  - destruct Hfrom as (s & Hatt & <- & Hother).
    assert (server.step st
              (server.WsMessage c
                 (if flag then server.DrawStart else server.DrawEnd) now uuid)
            = server.handleDrawIndicator conn st flag) as ->.
    { unfold server.step. rewrite Hconn, Hcopen. by destruct flag. }
    unfold server.handleDrawIndicator. rewrite Hatt. cbn [fst snd].
    set (st1 := server.with_manager st _).
    assert (roomManager.getPlayersInRoom (server.st_roomManager st1)
              (server.currentRoomId s)
            = (λ p, if decide (roomManager.playerId p = server.playerId s)
                    then with_drawing flag p else p)
              <$> roomManager.getPlayersInRoom (server.st_roomManager st)
                    (server.currentRoomId s)) as Hafter.
    { unfold st1, server.with_manager. cbn [server.st_roomManager].
      unfold roomManager.setPlayerDrawing, roomManager.getPlayersInRoom.
      destruct (roomManager.activeRooms (server.st_roomManager st)
                !! server.currentRoomId s) as [activeRoom|] eqn:Hlook;
        [|by rewrite Hlook].
      destruct (Hseats _ _ Hlook) as (Hnd' & Hkey' & _).
      rewrite <- (seats_after_flag _ _ flag Hnd' Hkey').
      destruct (js.get _ _) as [player|]; [|by rewrite Hlook].
      cbn [roomManager.activeRooms]. by rewrite lookup_insert_eq. }
    assert (me ∈ roomManager.getPlayersInRoom (server.st_roomManager st1)
                   (server.currentRoomId s)) as Hme'.
    { rewrite Hafter. apply list_elem_of_fmap. exists me. split; [|done].
      rewrite decide_False; [done|]. congruence. }
    rewrite Hafter.
    rewrite (inbox_broadcast _ _ _ _ _ me).
    + split; [done|]. cbn [receive foldl].
      rewrite activePlayers_handleMessage, Hmirror.
      by apply mark_drawing_shown.
    + rewrite Hafter. eapply NoDup_fmap_1 with (f := roomManager.playerId).
      rewrite <- list_fmap_compose.
      erewrite (Forall_fmap_ext_1 _ roomManager.playerId); [done|].
      apply Forall_forall. intros p _. cbn. by destruct (decide _).
    + done.
    + done.
    + intros p. rewrite Hafter.
      intros (p0 & -> & Hp0)%list_elem_of_fmap Hb.
      destruct (decide (roomManager.playerId p0 = server.playerId s))
        as [Heq|Hne].
      * cbn in Hb. assert (p0 = me) as -> by by apply Hone. congruence.
      * by apply Hone.
    + intros [= Heq]. by apply Hother.
    + done.
Qed.

(** * The further properties at concrete states *)

Lemma alice_state_reachable : server.reachable alice_state.
Proof. apply reachable_run. apply server.reachable_start. Defined.

Lemma joined_state_reachable : server.reachable joined_state.
Proof. apply reachable_run. apply server.reachable_start. Defined.

Lemma same_ms_state_reachable : server.reachable same_ms_state.
Proof. apply reachable_run. apply server.reachable_start. Defined.

Lemma custom_state_reachable : server.reachable custom_state.
Proof. apply reachable_run. apply server.reachable_start. Defined.

(** A third message, later than the two of [same_ms_state]. *)
Lemma third_message_reads_last :
  Forall (λ row, db.chat_timestamp row < 200)
    (chat_rows (server.st_db same_ms_state) "chat-a")
  ∧ db.getChatHistory
      (db.addChatMessage (server.st_db same_ms_state) "chat-a" "alice" "Alice"
         "third" 200) "chat-a" 3
    = db.getChatHistory (server.st_db same_ms_state) "chat-a" 2
      ++ [ {| msg_text := "third"; msg_playerId := "alice";
              msg_playerName := "Alice"; msg_timestamp := 200 |} ].
Proof.
  assert (Forall (λ row, db.chat_timestamp row < 200)
            (chat_rows (server.st_db same_ms_state) "chat-a")) as Hlater.
  { apply (bool_decide_unpack _). vm_compute. exact I. }
  split; [exact Hlater|].
  destruct (addChatMessage_then_getChatHistory (server.st_db same_ms_state)
              "chat-a" "alice" "Alice" "third" 200 2 Hlater) as [Hread _].
  exact Hread.
Defined.

(** A third stroke, later than the two of [alice_state]. *)
Lemma third_stroke_reads_last :
  de_type (stroke [(5, 5)] "alice" 300) ≠ ""
  ∧ Forall (λ row, db.ev_timestamp row ≤ 300)
      (drawing_rows (server.st_db alice_state) "chat-a")
  ∧ db.getDrawingEvents
      (roomManager.addDrawingEvent (server.st_db alice_state)
         (server.st_roomManager alice_state) "chat-a"
         (stroke [(5, 5)] "alice" 300) 300).1 "chat-a" 100
    = db.getDrawingEvents (server.st_db alice_state) "chat-a" 100
      ++ [stroke [(5, 5)] "alice" 300].
Proof.
  assert (de_type (stroke [(5, 5)] "alice" 300) ≠ "") as Htype
    by discriminate.
  assert (Forall (λ row, db.ev_timestamp row ≤ de_timestamp
                                                 (stroke [(5, 5)] "alice" 300))
            (drawing_rows (server.st_db alice_state) "chat-a")) as Hlater.
  { apply (bool_decide_unpack _). vm_compute. exact I. }
  split; [exact Htype|]. split; [exact Hlater|].
  exact (addDrawingEvent_then_getDrawingEvents (server.st_db alice_state)
           (server.st_roomManager alice_state) "chat-a"
           (stroke [(5, 5)] "alice" 300) 300 100 Htype Hlater).
Defined.

(** Alice draws in [chat-a]; [chat-b] does not change. *)
Lemma alice_draws_elsewhere :
  server.st_conns joined_state !! 1%nat = Some alice_conn
  ∧ (∀ s, server.attached alice_conn = Some s →
          server.currentRoomId s ≠ "chat-b")
  ∧ ∀ since,
      db.getDrawingEvents
        (server.st_db
           (server.step joined_state
              (server.WsMessage 1
                 (server.Draw [(1, 1); (2, 2)] "#000000" 2 None) 50 "")).1)
        "chat-b" since
      = db.getDrawingEvents (server.st_db joined_state) "chat-b" since.
Proof.
  assert (∀ s, server.attached alice_conn = Some s →
               server.currentRoomId s ≠ "chat-b") as Hother.
  { intros s Hs. vm_compute in Hs. injection Hs as <-. discriminate. }
  split; [exact joined_state_conn|]. split; [exact Hother|].
  destruct (message_leaves_other_rooms 1 alice_conn joined_state
              (server.Draw [(1, 1); (2, 2)] "#000000" 2 None) 50 "" "chat-b"
              joined_state_conn Hother) as (_ & _ & Hevents & _).
  exact Hevents.
Defined.

Definition hello : ChatMessage :=
  {| msg_text := "hello"; msg_playerId := "alice"; msg_playerName := "Alice";
     msg_timestamp := 50 |}.

(** Alice says hello and hears it herself. *)
Lemma alice_hears_herself :
  (1%nat, server.message hello)
  ∈ (server.step joined_state
       (server.WsMessage 1 (server.Message "hello") 50 "")).2
  ∧ ∃ c now,
      (server.WsMessage 1 (server.Message "hello") 50 "" = server.WsClose c now
       ∨ ∃ msg uuid,
           server.WsMessage 1 (server.Message "hello") 50 ""
           = server.WsMessage c msg now uuid)
      ∧ (1%nat = c
         ∨ ∃ s,
             session_of
               (server.step joined_state
                  (server.WsMessage 1 (server.Message "hello") 50 "")).1 c
             = Some s
             ∧ listens
                 (server.step joined_state
                    (server.WsMessage 1 (server.Message "hello") 50 "")).1
                 (server.currentRoomId s) 1).
Proof.
  assert ((1%nat, server.message hello)
          ∈ (server.step joined_state
               (server.WsMessage 1 (server.Message "hello") 50 "")).2)
    as Hsent.
  { assert ((server.step joined_state
               (server.WsMessage 1 (server.Message "hello") 50 "")).2
            = [(1%nat, server.message hello)]) as ->
      by (vm_compute; reflexivity).
    apply elem_of_cons. by left. }
  split; [exact Hsent|].
  exact (sends_stay_in_room joined_state
           (server.WsMessage 1 (server.Message "hello") 50 "") 1
           (server.message hello) Hsent).
Defined.

Lemma alice_state_ids :
  server.reachable alice_state
  ∧ NoDup (db.ev_id <$> db.drawing_events (server.st_db alice_state)).
Proof.
  split; [exact alice_state_reachable|].
  destruct (ids_never_reused alice_state alice_state_reachable)
    as (_ & _ & _ & _ & Hids & _).
  exact Hids.
Defined.

Lemma custom_state_directory :
  server.reachable custom_state
  ∧ NoDup (db.room_id <$> db.rooms (server.st_db custom_state)).
Proof.
  split; [exact custom_state_reachable|].
  destruct (default_rooms_always_exist custom_state custom_state_reachable)
    as (_ & Hids & _).
  exact Hids.
Defined.

Lemma same_ms_state_seats :
  server.reachable same_ms_state
  ∧ NoDup (roomManager.playerId
           <$> roomManager.getPlayersInRoom
                 (server.st_roomManager same_ms_state) "chat-a").
Proof.
  split; [exact same_ms_state_reachable|].
  destruct (seats_are_distinct same_ms_state "chat-a" same_ms_state_reachable)
    as [Hids _].
  exact Hids.
Defined.

Definition chat_b : db.RoomRow :=
  {| db.room_id := "chat-b"; db.room_name := "Chat B";
     db.room_created_at := 0; db.room_max_players := 4;
     db.room_is_custom := 0 |}.

Definition fresh_conn : server.Conn :=
  {| server.session := None; server.isOpen := true |}.

Example alice_state_conn : server.st_conns alice_state !! 2%nat = Some fresh_conn.
Proof. vm_compute. reflexivity. Qed.

(** Carol joins the empty [chat-b] over the second connection. *)
Lemma carol_is_seated :
  server.reachable alice_state
  ∧ server.st_conns alice_state !! 2%nat = Some fresh_conn
  ∧ server.isOpen fresh_conn = true
  ∧ db.getRoom (server.st_db alice_state) "chat-b" = Some chat_b
  ∧ roomManager.getActivePlayerCount (server.st_roomManager alice_state)
      "chat-b" < 4
  ∧ roomManager.getPlayersInRoom
      (server.st_roomManager
         (server.step alice_state
            (server.WsMessage 2
               (server.Join "chat-b" (Some "carol") (Some "Carol")) 400 "")).1)
      "chat-b"
    = [player "carol" "Carol" 2].
Proof.
  assert (db.getRoom (server.st_db alice_state) "chat-b" = Some chat_b)
    as Hroom by (vm_compute; reflexivity).
  assert (roomManager.getActivePlayerCount
            (server.st_roomManager alice_state) "chat-b" < 4) as Hfree
    by (vm_compute; reflexivity).
  split; [exact alice_state_reachable|]. split; [exact alice_state_conn|].
  split; [reflexivity|]. split; [exact Hroom|]. split; [exact Hfree|].
  destruct (join_seats_player alice_state 2 fresh_conn "chat-b" (Some "carol")
              (Some "Carol") 400 "" chat_b alice_state_reachable
              alice_state_conn eq_refl Hroom Hfree) as [Hseats _].
  rewrite Hseats. vm_compute. reflexivity.
Defined.

(** Alice's connection closes. *)
Lemma alice_leaves :
  server.reachable joined_state
  ∧ server.st_conns joined_state !! 1%nat = Some alice_conn
  ∧ server.isOpen alice_conn = true
  ∧ server.ws_open (server.step joined_state (server.WsClose 1 60)).1 1
    = false.
Proof.
  split; [exact joined_state_reachable|]. split; [exact joined_state_conn|].
  split; [reflexivity|].
  destruct (close_frees_one_seat joined_state 1 alice_conn 60
              joined_state_reachable joined_state_conn eq_refl)
    as (_ & Hclosed & _).
  exact Hclosed.
Defined.

Lemma custom_state_listing :
  server.reachable custom_state
  ∧ length (server.get_rooms custom_state) = 5%nat.
Proof.
  split; [exact custom_state_reachable|].
  destruct (rooms_listing custom_state custom_state_reachable)
    as (_ & _ & Hlength & _).
  rewrite Hlength. vm_compute. reflexivity.
Defined.

(** Alice clears the canvas of [chat-a]. *)
Lemma alice_clears :
  server.st_conns joined_state !! 1%nat = Some alice_conn
  ∧ server.isOpen alice_conn = true
  ∧ server.attached alice_conn = Some alice_session
  ∧ db.getCanvasSnapshot
      (server.st_db
         (server.step joined_state (server.WsMessage 1 server.Clear 70 "")).1)
      "chat-a"
    = None.
Proof.
  split; [exact joined_state_conn|]. split; [reflexivity|].
  split; [reflexivity|].
  destruct (clear_wipes_canvas joined_state 1 alice_conn 70 "" alice_session
              joined_state_conn eq_refl eq_refl) as (_ & Hgone & _).
  exact Hgone.
Defined.

(** A room is created at start-up time and deleted again. *)
Lemma doodles_come_and_go :
  db.getRoom (server.st_db (server.startServer 0))
    ("custom-" +:+ js.slice0 8 "1b9d6bcd-bbfd-4b2d-9b5d-ab8dfbbd4bed") = None
  ∧ roomManager.getActivePlayerCount
      (server.st_roomManager (server.startServer 0))
      ("custom-" +:+ js.slice0 8 "1b9d6bcd-bbfd-4b2d-9b5d-ab8dfbbd4bed") = 0
  ∧ (server.delete_rooms
       (server.post_rooms (server.startServer 0) (Some " Doodles ")
          "1b9d6bcd-bbfd-4b2d-9b5d-ab8dfbbd4bed" 5).1
       "custom-1b9d6bcd").2
    = server.http_success.
Proof.
  assert (db.getRoom (server.st_db (server.startServer 0))
            ("custom-" +:+ js.slice0 8 "1b9d6bcd-bbfd-4b2d-9b5d-ab8dfbbd4bed")
          = None) as Hfresh by (vm_compute; reflexivity).
  assert (roomManager.getActivePlayerCount
            (server.st_roomManager (server.startServer 0))
            ("custom-" +:+ js.slice0 8 "1b9d6bcd-bbfd-4b2d-9b5d-ab8dfbbd4bed")
          = 0) as Hempty by (vm_compute; reflexivity).
  split; [exact Hfresh|]. split; [exact Hempty|].
  pose proof (created_room_can_be_deleted (server.startServer 0)
                (Some " Doodles ") "1b9d6bcd-bbfd-4b2d-9b5d-ab8dfbbd4bed" 5
                Hfresh Hempty) as Hround.
  cbv zeta in Hround.
  destruct (server.post_rooms (server.startServer 0) (Some " Doodles ")
              "1b9d6bcd-bbfd-4b2d-9b5d-ab8dfbbd4bed" 5) as [st response]
    eqn:Hpost.
  assert (response = (server.post_rooms (server.startServer 0)
                        (Some " Doodles ")
                        "1b9d6bcd-bbfd-4b2d-9b5d-ab8dfbbd4bed" 5).2) as Hresp
    by (by rewrite Hpost).
  vm_compute in Hresp. subst response. cbn [fst snd] in *.
  destruct Hround as (_ & _ & _ & _ & _ & _ & _ & Hdeleted & _).
  exact Hdeleted.
Defined.

(** A canvas of 2 by 2 pixels, white but for the black pixel below the
    start. *)
Definition small_canvas : list Z :=
  [ 255; 255; 255; 255;   255; 255; 255; 255;
    0; 0; 0; 255;         255; 255; 255; 255 ].

Definition small_canvas_red : list Z :=
  [ 255; 0; 0; 255;   255; 0; 0; 255;
    0; 0; 0; 255;     255; 0; 0; 255 ].

Lemma small_fill_ends :
  (4 * (Z.to_nat 2 * Z.to_nat 2) + 1 < 20)%nat
  ∧ ∃ res,
      client.floodFill 20 2 2 small_canvas 0 0 "#ff0000" = Some res
      ∧ length res = length small_canvas.
Proof.
  assert (4 * (Z.to_nat 2 * Z.to_nat 2) + 1 < 20)%nat as Hfuel
    by (vm_compute; lia).
  split; [exact Hfuel|].
  exact (floodFill_terminates 20 2 2 small_canvas 0 0 "#ff0000" Hfuel).
Defined.

Lemma small_fill_paints_start :
  length small_canvas = Z.to_nat (2 * 2 * 4)
  ∧ client.floodFill 20 2 2 small_canvas 0 0 "#ff0000"
    = Some small_canvas_red
  ∧ client.getPixelColor small_canvas_red 0 0 2 = client.hexToRgb "#ff0000".
Proof.
  assert (length small_canvas = Z.to_nat (2 * 2 * 4)) as Hlen
    by (vm_compute; reflexivity).
  assert (client.floodFill 20 2 2 small_canvas 0 0 "#ff0000"
          = Some small_canvas_red) as Hfill by (vm_compute; reflexivity).
  split; [exact Hlen|]. split; [exact Hfill|].
  pose proof (floodFill_fills_region 20 2 2 small_canvas 0 0 "#ff0000"
                small_canvas_red Hlen Hfill) as Hregion.
  cbv zeta in Hregion.
  assert (client.colorsMatch (client.getPixelColor small_canvas 0 0 2)
            (client.hexToRgb "#ff0000") = false) as Hdiffer
    by (vm_compute; reflexivity).
  rewrite Hdiffer in Hregion.
  destruct Hregion as (_ & Hpixels & Hstart & _).
  assert (inside 2 2 (0, 0)) as Hinside by (unfold inside; simpl; lia).
  destruct (Hstart Hinside) as [Hreached _].
  destruct (Hpixels (0, 0) Hinside) as [Hpainted _].
  destruct (Hpainted Hreached) as [Hcolour _].
  exact Hcolour.
Defined.

Definition blank_easel : client.Easel :=
  {| client.canvas := [0]; client.undoStack := [] |}.

(** Three strokes, then undo twice. *)
Lemma two_steps_back :
  (length (client.undoStack blank_easel) ≤ client.maxUndoSteps)%nat
  ∧ (0 < 2 ≤ length [[1]; [2]; [3]])%nat
  ∧ (2 ≤ client.maxUndoSteps)%nat
  ∧ Some [1]
    = Some (client.canvas
              (Nat.iter 2 client.undo
                 (foldl drawn blank_easel [[1]; [2]; [3]]))).
Proof.
  assert (length (client.undoStack blank_easel) ≤ client.maxUndoSteps)%nat
    as Hold by (vm_compute; lia).
  assert (0 < 2 ≤ length [[1]; [2]; [3]])%nat as Hk by (simpl; lia).
  assert (2 ≤ client.maxUndoSteps)%nat as Hmax by (vm_compute; lia).
  split; [exact Hold|]. split; [exact Hk|]. split; [exact Hmax|].
  destruct (undo_steps_back blank_easel [[1]; [2]; [3]] 2 Hold Hk Hmax)
    as (_ & Hcanvas & _).
  exact Hcanvas.
Defined.

(** Alice's client, in [chat-a] with its socket closed. *)
Definition away : client.State :=
  {| client.isOpen := false; client.isConnected := false;
     client.playerId := "alice"; client.playerName := "Alice";
     client.currentRoom := Some "chat-a"; client.activePlayers := [];
     client.isDrawing := false; client.currentTool := "pen";
     client.currentColor := "#000000"; client.currentSize := 3;
     client.currentStroke := client.no_stroke; client.shapeStart := None;
     client.messages := []; client.eventQueue := [];
     client.lastEventTimestamp := 250; client.reconnectAttempts := 0 |}.

Definition scribble : list Action :=
  [ Gesture (1, 1) [(2, 2)] (3, 3); PickTool "line";
    Gesture (0, 0) [(4, 4)] (9, 9) ].

Lemma away_sends_nothing :
  client.isOpen away = false ∧ (perform_all away scribble).2 = [].
Proof.
  split; [reflexivity|].
  destruct (offline_strokes_wait_in_queue away scribble eq_refl)
    as (Hsilent & _).
  exact Hsilent.
Defined.

Lemma away_strokes_arrive :
  client.isOpen away = false
  ∧ client.eventQueue away = []
  ∧ client.currentRoom away = Some "chat-a"
  ∧ "chat-a" ≠ ""
  ∧ client.playerId away ≠ ""
  ∧ server.st_conns alice_state !! 2%nat = Some fresh_conn
  ∧ server.isOpen fresh_conn = true
  ∧ db.chat_messages
      (server.st_db
         (deliver alice_state 2 ""
            (zip (client.handleOpen (perform_all away scribble).1).2
               [400; 401])))
    = db.chat_messages (server.st_db alice_state).
Proof.
  assert ("chat-a" ≠ "") as Hroom by discriminate.
  assert (client.playerId away ≠ "") as Hpid by discriminate.
  split; [reflexivity|]. split; [reflexivity|]. split; [reflexivity|].
  split; [exact Hroom|]. split; [exact Hpid|].
  split; [exact alice_state_conn|]. split; [reflexivity|].
  destruct (offline_strokes_reach_the_room away scribble alice_state 2
              fresh_conn 400 401 "" "chat-a" eq_refl eq_refl eq_refl Hroom
              Hpid alice_state_conn eq_refl) as (_ & _ & Hchat & _).
  exact Hchat.
Defined.

(** Alice starts a stroke. *)
Lemma alice_starts_drawing :
  server.reachable joined_state
  ∧ server.st_conns joined_state !! 1%nat = Some alice_conn
  ∧ server.isOpen alice_conn = true
  ∧ server.attached alice_conn = Some alice_session
  ∧ server.st_db
      (server.step joined_state (server.WsMessage 1 server.DrawStart 80 "")).1
    = server.st_db joined_state.
Proof.
  split; [exact joined_state_reachable|]. split; [exact joined_state_conn|].
  split; [reflexivity|]. split; [reflexivity|].
  destruct (draw_indicator_marks_one_seat joined_state 1 alice_conn
              alice_session true 80 "" joined_state_reachable
              joined_state_conn eq_refl eq_refl) as (_ & _ & Hdb & _).
  exact Hdb.
Defined.

(** Alice's client, back online, joins [chat-b] over the second
    connection. *)
Lemma alice_moves_to_chat_b :
  server.reachable alice_state
  ∧ server.st_conns alice_state !! 2%nat = Some fresh_conn
  ∧ server.isOpen fresh_conn = true
  ∧ db.getRoom (server.st_db alice_state) "chat-b" = Some chat_b
  ∧ roomManager.getActivePlayerCount (server.st_roomManager alice_state)
      "chat-b" < 4
  ∧ client.isOpen (client.set_isOpen true away) = true
  ∧ ∃ request reply,
      (client.joinRoom (client.set_isOpen true away) "chat-b").2 = [request]
      ∧ head (server.step alice_state
                (server.WsMessage 2 request 500 "")).2
        = Some (2%nat, reply).
Proof.
  assert (db.getRoom (server.st_db alice_state) "chat-b" = Some chat_b)
    as Hroom by (vm_compute; reflexivity).
  assert (roomManager.getActivePlayerCount
            (server.st_roomManager alice_state) "chat-b" < 4) as Hfree
    by (vm_compute; reflexivity).
  split; [exact alice_state_reachable|]. split; [exact alice_state_conn|].
  split; [reflexivity|]. split; [exact Hroom|]. split; [exact Hfree|].
  split; [reflexivity|].
  destruct (join_round_trip (client.set_isOpen true away) alice_state 2
              fresh_conn "chat-b" 500 "" chat_b 501 alice_state_reachable
              alice_state_conn eq_refl Hroom Hfree eq_refl)
    as (request & reply & Hsent & Hreply & _).
  exists request, reply. split; [exact Hsent|exact Hreply].
Defined.

(** Bob's client, in [chat-a] with Alice. *)
Definition bob_client : client.State :=
  {| client.isOpen := true; client.isConnected := true;
     client.playerId := "bob"; client.playerName := "Bob";
     client.currentRoom := Some "chat-a";
     client.activePlayers :=
       [ shown (player "alice" "Alice" 1); shown (player "bob" "Bob" 2) ];
     client.isDrawing := false; client.currentTool := "pen";
     client.currentColor := "#000000"; client.currentSize := 3;
     client.currentStroke := client.no_stroke; client.shapeStart := None;
     client.messages := []; client.eventQueue := [];
     client.lastEventTimestamp := 100; client.reconnectAttempts := 0 |}.

Example same_ms_players :
  roomManager.getPlayersInRoom (server.st_roomManager same_ms_state) "chat-a"
  = [player "alice" "Alice" 1; player "bob" "Bob" 2].
Proof. vm_compute. reflexivity. Qed.

Example same_ms_conn : server.st_conns same_ms_state !! 1%nat = Some alice_conn.
Proof. vm_compute. reflexivity. Qed.

(** Bob sees Alice start a stroke. *)
Lemma bob_sees_alice_draw :
  server.reachable same_ms_state
  ∧ client.activePlayers bob_client
    = shown <$> roomManager.getPlayersInRoom
                  (server.st_roomManager same_ms_state) "chat-a"
  ∧ server.ws_open same_ms_state 2 = true
  ∧ from_another same_ms_state alice_conn "chat-a" ""
      (player "bob" "Bob" 2) (Indicator true)
  ∧ length
      (inbox 2
         (server.step same_ms_state
            (event_of (Indicator true) 1 "chat-a" 120 "")).2)
    = 1%nat.
Proof.
  assert (client.activePlayers bob_client
          = shown <$> roomManager.getPlayersInRoom
                        (server.st_roomManager same_ms_state) "chat-a")
    as Hmirror by (vm_compute; reflexivity).
  assert (player "bob" "Bob" 2
          ∈ roomManager.getPlayersInRoom
              (server.st_roomManager same_ms_state) "chat-a") as Hme.
  { rewrite same_ms_players. apply elem_of_cons. right.
    apply elem_of_cons. by left. }
  assert (∀ p, p ∈ roomManager.getPlayersInRoom
                     (server.st_roomManager same_ms_state) "chat-a" →
               roomManager.ws p = 2%nat → p = player "bob" "Bob" 2) as Hone.
  { intros p. rewrite same_ms_players.
    intros [->|[->|Hp%elem_of_nil]%elem_of_cons]%elem_of_cons Hws;
      [discriminate|reflexivity|done]. }
  assert (server.ws_open same_ms_state 2 = true) as Hopen
    by (vm_compute; reflexivity).
  assert (from_another same_ms_state alice_conn "chat-a" ""
            (player "bob" "Bob" 2) (Indicator true)) as Hfrom.
  { exists alice_session. split; [reflexivity|]. split; [reflexivity|].
    discriminate. }
  split; [exact same_ms_state_reachable|]. split; [exact Hmirror|].
  split; [exact Hopen|]. split; [exact Hfrom|].
  destruct (members_see_the_room bob_client same_ms_state 2 1 alice_conn
              "chat-a" (player "bob" "Bob" 2) (Indicator true) 120 "" 121
              same_ms_state_reachable Hmirror Hme eq_refl Hone Hopen
              ltac:(discriminate) same_ms_conn eq_refl Hfrom)
    as [Hone_message _].
  exact Hone_message.
Defined.

Lemma pink_is_read :
  0 ≤ 255 ≤ 255 ∧ 0 ≤ 0 ≤ 255 ∧ 0 ≤ 128 ≤ 255
  ∧ client.hexToRgb "#ff0080"
    = {| client.r := Some 255; client.g := Some 0; client.b := Some 128 |}.
Proof.
  assert (0 ≤ 255 ≤ 255) as Hr by lia.
  assert (0 ≤ 0 ≤ 255) as Hg by lia.
  assert (0 ≤ 128 ≤ 255) as Hb by lia.
  split; [exact Hr|]. split; [exact Hg|]. split; [exact Hb|].
  destruct (hexToRgb_reads_colours 255 0 128 false true Hr Hg Hb)
    as [Hread _].
  exact Hread.
Defined.
